(** * Multitenant console back-office: a shallow embedding of the services
    and controllers, and the properties of the specification proved on it.

    Each module embeds one component of the repository (the source file is
    named in the module's header).  Relational tables are lists of rows in
    insertion order, Python dictionaries are finite maps, and a function
    that writes to the database takes the store and returns the new one
    together with its result or the exception it raised. *)

From Stdlib Require Import ZArith List Bool Lia Ascii String Sorted.
From Stdlib.Strings Require Import Byte.
From stdpp Require Import base strings list gmap relations pretty.

#[local] Open Scope string_scope.
#[local] Open Scope Z_scope.
#[local] Unset Default Proof Using.
#[local] Set Warnings "-clear-no-such-hyp,-register-all".

(** ** Python values shared by the components *)
Module Py.

(** Exceptions the embedded code raises, by class. *)
Inductive exn : Type :=
| ValueError (msg : string)
| AttributeError (msg : string)
| TypeError (msg : string)
| KeyError (msg : string)
| UnboundLocalError (msg : string)
| Exception_ (msg : string)
| Forbidden
| InvalidResourceTypeError (msg : string)
| DuplicateApiKeyError (msg : string)
| RagRequestError (msg : string)
| RagResponseError (msg : string)
| Unauthorized (msg : string).

(** The outcome of a call: a returned value or a raised exception. *)
Inductive result (A : Type) : Type :=
| Ok (a : A)
| Raise (e : exn).
Arguments Ok {A} a.
Arguments Raise {A} e.

Definition bind {A B : Type} (r : result A) (k : A -> result B) : result B :=
  match r with
  | Ok a => k a
  | Raise e => Raise e
  end.

(** Truthiness of an optional string: [None] and [""] are falsy. *)
Definition truthy (o : option string) : bool :=
  match o with
  | Some s => negb (String.eqb s "")
  | None => false
  end.

(** A Python string or integer, where the code compares the two. *)
Inductive pyval : Type :=
| PyStr (s : string)
| PyInt (z : Z).

(** [a == b]: a [str] and an [int] are never equal. *)
Definition py_eq (a b : pyval) : bool :=
  match a, b with
  | PyStr x, PyStr y => String.eqb x y
  | PyInt x, PyInt y => Z.eqb x y
  | _, _ => false
  end.

(** The text of a decimal integer, as the database reads a string bound
    to an Integer column. *)
Definition digit_of (c : ascii) : option Z :=
  let n := Z.of_nat (nat_of_ascii c) in
  if (48 <=? n) && (n <=? 57) then Some (n - 48) else None.

Fixpoint digits_value (s : string) (acc : Z) : option Z :=
  match s with
  | EmptyString => Some acc
  | String c s' =>
    match digit_of c with
    | Some d => digits_value s' (10 * acc + d)
    | None => None
    end
  end.

Definition int_of_text (s : string) : option Z :=
  match s with
  | EmptyString => None
  | String "-" (String c s') => option_map Z.opp (digits_value (String c s') 0)
  | _ => digits_value s 0
  end.

(** [query.first()]: the first row of a result set, if any. *)
Definition first {A : Type} (rows : list A) : option A := hd_error rows.

End Py.
Export Py.

(** ** services/role_account_service.py *)
Module RoleAccount.

Record Role : Type := {
  role_id : string;
  role_tenant_id : string;
  role_name : string;
  role_is_active : bool
}.

Record TenantAccountJoin : Type := {
  taj_tenant_id : string;
  taj_account_id : string
}.

Record AccountRole : Type := {
  ar_id : string;
  ar_tenant_id : string;
  ar_account_id : string;
  ar_role_id : string
}.

Record Account : Type := {
  account_id : string;
  account_name : string
}.

(** The tables the service touches. *)
Record Db : Type := {
  roles : list Role;
  tenant_account_joins : list TenantAccountJoin;
  account_roles : list AccountRole;
  accounts : list Account
}.

Definition set_account_roles (db : Db) (rows : list AccountRole) : Db :=
  {| roles := roles db;
     tenant_account_joins := tenant_account_joins db;
     account_roles := rows;
     accounts := accounts db |}.

(** [db.session.get(Role, role_id)] *)
Definition get_role (db : Db) (rid : string) : option Role :=
  List.find (fun r => String.eqb (role_id r) rid) (roles db).

(** [db.session.get(Account, account_id)] *)
Definition get_account (db : Db) (aid : string) : option Account :=
  List.find (fun a => String.eqb (account_id a) aid) (accounts db).

(** The WHERE clause [tenant_id == t, account_id == a] on AccountRole. *)
Definition of_account (tenant account : string) (ar : AccountRole) : bool :=
  String.eqb (ar_tenant_id ar) tenant && String.eqb (ar_account_id ar) account.

(** The result dictionary of [add_account_to_role]. *)
Record AddResult : Type := {
  success : bool;
  message : string;
  res_role_name : string;
  res_account_name : option string
}.

(** [RoleAccountService.add_account_to_role]; [new_id] is the primary key
    the database gives the inserted row. *)
Definition add_account_to_role (new_id tenant_id rid aid : string) (db : Db)
  : result AddResult * Db :=
  match get_role db rid with
  | None => (Raise (ValueError "角色不存在或无权限"), db)
  | Some role =>
    if negb (String.eqb (role_tenant_id role) tenant_id)
    then (Raise (ValueError "角色不存在或无权限"), db)
    else
      let tenant_join := first (List.filter
        (fun j => String.eqb (taj_tenant_id j) tenant_id && String.eqb (taj_account_id j) aid)
        (tenant_account_joins db)) in
      match tenant_join with
      | None => (Raise (ValueError "用户不属于当前租户"), db)
      | Some _ =>
        let existing := first (List.filter
          (fun ar => of_account tenant_id aid ar && String.eqb (ar_role_id ar) rid)
          (account_roles db)) in
        match existing with
        | Some _ =>
          (Ok {| success := false; message := "用户已拥有该角色";
                 res_role_name := role_name role; res_account_name := None |}, db)
        | None =>
          (* delete(AccountRole).where(tenant_id == ..., account_id == ...) *)
          let kept := List.filter (fun ar => negb (of_account tenant_id aid ar)) (account_roles db) in
          let user_role := {| ar_id := new_id; ar_tenant_id := tenant_id;
                              ar_account_id := aid; ar_role_id := rid |} in
          let db' := set_account_roles db (kept ++ [user_role]) in
          let account := get_account db' aid in
          (Ok {| success := true; message := "用户角色分配成功";
                 res_role_name := role_name role;
                 res_account_name :=
                   Some (match account with Some a => account_name a | None => "未知用户" end) |},
           db')
        end
      end
  end.

(** The account's AccountRole rows in a tenant. *)
Definition roles_of (db : Db) (tenant account : string) : list AccountRole :=
  List.filter (of_account tenant account) (account_roles db).

Lemma filter_negb_self {A : Type} (p : A -> bool) (l : list A) :
  List.filter p (List.filter (fun x => negb (p x)) l) = [].
Proof.
  induction l as [|x l IH]; simpl; [reflexivity|].
  destruct (p x) eqn:E; simpl; [exact IH|]. rewrite E. exact IH.
Qed.

Lemma filter_other_account (t a t' a' : string) (l : list AccountRole) :
  (t', a') <> (t, a) ->
  List.filter (of_account t' a') (List.filter (fun x => negb (of_account t a x)) l)
  = List.filter (of_account t' a') l.
Proof.
  intros Hne. induction l as [|x l IH]; simpl; [reflexivity|].
  destruct (of_account t a x) eqn:E1; simpl.
  - destruct (of_account t' a' x) eqn:E2; [|exact IH].
    exfalso. apply Hne. unfold of_account in *.
    apply andb_prop in E1 as [H1 H2]. apply andb_prop in E2 as [H3 H4].
    apply String.eqb_eq in H1, H2, H3, H4. congruence.
  - destruct (of_account t' a' x); [f_equal|]; exact IH.
Qed.

(** C7. For a role that belongs to the tenant, a member account and no
    existing (tenant, account, role) row, [add_account_to_role] succeeds,
    removes every AccountRole row the account had in the tenant and inserts
    one row for the role: afterwards the account's rows in the tenant are
    exactly that one row, and the rows of every other (tenant, account)
    pair are untouched. *)
Theorem add_account_to_role_replaces_all
    (new_id tenant_id rid aid : string) (db : Db) (role : Role) (j : TenantAccountJoin) :
  get_role db rid = Some role ->
  role_tenant_id role = tenant_id ->
  In j (tenant_account_joins db) ->
  taj_tenant_id j = tenant_id -> taj_account_id j = aid ->
  (forall ar, In ar (roles_of db tenant_id aid) -> ar_role_id ar <> rid) ->
  exists res db',
    add_account_to_role new_id tenant_id rid aid db = (Ok res, db') /\
    success res = true /\
    roles_of db' tenant_id aid =
      [{| ar_id := new_id; ar_tenant_id := tenant_id; ar_account_id := aid; ar_role_id := rid |}] /\
    (forall ar, In ar (roles_of db tenant_id aid) -> ~ In ar (account_roles db')) /\
    (forall t' a', (t', a') <> (tenant_id, aid) -> roles_of db' t' a' = roles_of db t' a') /\
    roles db' = roles db /\ tenant_account_joins db' = tenant_account_joins db.
Proof.
  intros Hrole Hten Hj Hjt Hja Hnone.
  unfold add_account_to_role. rewrite Hrole.
  assert (Ht : String.eqb (role_tenant_id role) tenant_id = true) by (apply String.eqb_eq; exact Hten).
  rewrite Ht. simpl negb. cbv iota.
  destruct (first (List.filter _ (tenant_account_joins db))) as [tj|] eqn:Etj.
  2:{ exfalso. unfold first in Etj.
      destruct (List.filter _ (tenant_account_joins db)) as [|y ys] eqn:Ef; [|discriminate].
      assert (Hin : In j []).
      { rewrite <- Ef. apply filter_In. split; [exact Hj|].
        apply andb_true_intro; split; apply String.eqb_eq; assumption. }
      inversion Hin. }
  destruct (first (List.filter _ (account_roles db))) as [ex|] eqn:Eex.
  { exfalso. unfold first in Eex.
    destruct (List.filter _ (account_roles db)) as [|y ys] eqn:Ef; [discriminate|].
    injection Eex as ->.
    assert (Hin : In ex (ex :: ys)) by (left; reflexivity).
    rewrite <- Ef in Hin. apply filter_In in Hin as [Hin Hp].
    apply andb_prop in Hp as [Hp1 Hp2]. apply String.eqb_eq in Hp2.
    apply (Hnone ex); [|exact Hp2]. apply filter_In. split; assumption. }
  eexists _, _. split; [reflexivity|]. split; [reflexivity|].
  assert (Hself : of_account tenant_id aid
            {| ar_id := new_id; ar_tenant_id := tenant_id; ar_account_id := aid; ar_role_id := rid |} = true).
  { unfold of_account; simpl. rewrite !String.eqb_refl. reflexivity. }
  split; [|split; [|split; [|split; reflexivity]]].
  - unfold roles_of, set_account_roles; simpl account_roles.
    rewrite List.filter_app, filter_negb_self. simpl. rewrite Hself. reflexivity.
  - intros ar Har. unfold set_account_roles; simpl account_roles.
    pose proof (Hnone ar Har) as Hrid.
    apply filter_In in Har as [Har Hof].
    intros Hin. apply in_app_or in Hin as [Hin|Hin].
    + apply filter_In in Hin as [_ Hn]. rewrite Hof in Hn. discriminate.
    + destruct Hin as [<-|[]]. apply Hrid. reflexivity.
  - intros t' a' Hne. unfold roles_of, set_account_roles; simpl account_roles.
    rewrite List.filter_app, filter_other_account by exact Hne.
    simpl. destruct (of_account t' a' _) eqn:E; [|apply app_nil_r].
    exfalso. apply Hne. unfold of_account in E; simpl in E.
    apply andb_prop in E as [E1 E2]. apply String.eqb_eq in E1, E2. congruence.
Qed.

(** A tenant [t1] with roles [r1] and [r2]; account [a1] holds [r1] and is
    given [r2]. *)
Definition db0 : Db :=
  {| roles := [ {| role_id := "r1"; role_tenant_id := "t1"; role_name := "reader"; role_is_active := true |};
                {| role_id := "r2"; role_tenant_id := "t1"; role_name := "writer"; role_is_active := true |} ];
     tenant_account_joins := [ {| taj_tenant_id := "t1"; taj_account_id := "a1" |} ];
     account_roles := [ {| ar_id := "x1"; ar_tenant_id := "t1"; ar_account_id := "a1"; ar_role_id := "r1" |} ];
     accounts := [ {| account_id := "a1"; account_name := "ann" |} ] |}.

Lemma add_account_to_role_replaces_all_witness :
  exists res db',
    add_account_to_role "x2" "t1" "r2" "a1" db0 = (Ok res, db') /\
    success res = true /\
    roles_of db' "t1" "a1" =
      [{| ar_id := "x2"; ar_tenant_id := "t1"; ar_account_id := "a1"; ar_role_id := "r2" |}] /\
    (forall ar, In ar (roles_of db0 "t1" "a1") -> ~ In ar (account_roles db')) /\
    (forall t' a', (t', a') <> ("t1", "a1") -> roles_of db' t' a' = roles_of db0 t' a') /\
    roles db' = roles db0 /\ tenant_account_joins db' = tenant_account_joins db0.
Proof.
  apply (add_account_to_role_replaces_all "x2" "t1" "r2" "a1" db0
           {| role_id := "r2"; role_tenant_id := "t1"; role_name := "writer"; role_is_active := true |}
           {| taj_tenant_id := "t1"; taj_account_id := "a1" |}).
  - reflexivity.
  - reflexivity.
  - simpl. left. reflexivity.
  - reflexivity.
  - reflexivity.
  - simpl. intros ar [<-|[]]. simpl. discriminate.
Defined.

(** *** The other operations of the service *)

(** The WHERE clause [tenant_id == t, account_id == a, role_id == r] on
    AccountRole. *)
Definition of_account_role (tenant account rid : string) (ar : AccountRole) : bool :=
  of_account tenant account ar && String.eqb (ar_role_id ar) rid.

(** The WHERE clause [tenant_id == t, role_id == r] on AccountRole. *)
Definition of_role (tenant rid : string) (ar : AccountRole) : bool :=
  String.eqb (ar_tenant_id ar) tenant && String.eqb (ar_role_id ar) rid.

(** The WHERE clause [tenant_id == t, account_id == a] on
    TenantAccountJoin. *)
Definition join_of (tenant account : string) (j : TenantAccountJoin) : bool :=
  String.eqb (taj_tenant_id j) tenant && String.eqb (taj_account_id j) account.

(** [account.name if account else "未知用户"] *)
Definition name_of (account : option Account) : string :=
  match account with
  | Some a => account_name a
  | None => "未知用户"
  end.

(** The result dictionary of [remove_user_from_role]. *)
Record RemoveResult : Type := {
  rm_success : bool;
  rm_message : string;
  rm_role_name : string;
  rm_account_name : string
}.

(** [RoleAccountService.remove_user_from_role] *)
Definition remove_user_from_role (tenant_id rid aid : string) (db : Db)
  : result RemoveResult * Db :=
  match get_role db rid with
  | None => (Raise (ValueError "角色不存在或无权限"), db)
  | Some role =>
    if negb (String.eqb (role_tenant_id role) tenant_id)
    then (Raise (ValueError "角色不存在或无权限"), db)
    else
      let rowcount := length (List.filter (of_account_role tenant_id aid rid) (account_roles db)) in
      let db' := set_account_roles db
                   (List.filter (fun ar => negb (of_account_role tenant_id aid rid ar))
                                (account_roles db)) in
      let account := get_account db' aid in
      if (0 <? rowcount)%nat
      then (Ok {| rm_success := true; rm_message := "用户角色移除成功";
                  rm_role_name := role_name role; rm_account_name := name_of account |}, db')
      else (Ok {| rm_success := false; rm_message := "用户未拥有该角色";
                  rm_role_name := role_name role; rm_account_name := name_of account |}, db')
  end.

(** The rows [AccountRole(tenant_id, account_id, role_id)] a loop adds, one
    for each pair of [l]; [new_id i] is the primary key the database gives
    the row added [i]-th. *)
Definition added_rows (new_id : nat -> string) (tenant_id : string)
    (l : list (string * string)) : list AccountRole :=
  imap (fun i p => {| ar_id := new_id i; ar_tenant_id := tenant_id;
                      ar_account_id := p.1; ar_role_id := p.2 |}) l.

(** The rows of
    [query(Account.id).join(TenantAccountJoin, Account.id == TenantAccountJoin.account_id)
     .filter(TenantAccountJoin.tenant_id == tenant_id, Account.id.in_(account_ids))]. *)
Definition tenant_account_ids (tenant_id : string) (account_ids : list string) (db : Db)
  : list string :=
  flat_map (fun a =>
              if existsb (String.eqb (account_id a)) account_ids
              then map (fun _ => account_id a)
                       (List.filter (join_of tenant_id (account_id a)) (tenant_account_joins db))
              else [])
           (accounts db).

(** The result dictionary of [assign_accounts_to_role]. *)
Record AssignAccountsResult : Type := {
  aa_role_id : string;
  aa_role_name : string;
  aa_assigned_count : nat;
  aa_invalid_users : list string
}.

(** [RoleAccountService.assign_accounts_to_role] *)
Definition assign_accounts_to_role (new_id : nat -> string) (tenant_id rid : string)
    (account_ids : list string) (db : Db) : result AssignAccountsResult * Db :=
  match get_role db rid with
  | None => (Raise (ValueError "角色不存在或无权限"), db)
  | Some role =>
    if negb (String.eqb (role_tenant_id role) tenant_id)
    then (Raise (ValueError "角色不存在或无权限"), db)
    else
      let valid_account_ids := tenant_account_ids tenant_id account_ids db in
      let invalid_count_ids :=
        List.filter (fun aid => negb (existsb (String.eqb aid) valid_account_ids)) account_ids in
      match invalid_count_ids with
      | _ :: _ =>
        (Raise (ValueError ("以下用户不存在或不属于当前租户："
                            ++ String.concat "," invalid_count_ids)), db)
      | [] =>
        let kept := List.filter (fun ar => negb (of_role tenant_id rid ar)) (account_roles db) in
        let added := added_rows new_id tenant_id (map (fun aid => (aid, rid)) valid_account_ids) in
        (Ok {| aa_role_id := rid; aa_role_name := role_name role;
               aa_assigned_count := length valid_account_ids;
               aa_invalid_users := invalid_count_ids |},
         set_account_roles db (kept ++ added))
      end
  end.

(** The result dictionary of [assign_roles_to_user]. *)
Record AssignRolesResult : Type := {
  au_account_id : string;
  au_account_name : string;
  au_assigned_count : nat;
  au_invalid_roles : list string;
  au_assigned_roles : list (string * string)
}.

(** [RoleAccountService.assign_roles_to_user] *)
Definition assign_roles_to_user (new_id : nat -> string) (tenant_id aid : string)
    (role_ids : list string) (db : Db) : result AssignRolesResult * Db :=
  match first (List.filter (join_of tenant_id aid) (tenant_account_joins db)) with
  | None => (Raise (ValueError "用户不存在当前租户"), db)
  | Some _ =>
    let valid_roles :=
      List.filter (fun r => existsb (String.eqb (role_id r)) role_ids
                            && String.eqb (role_tenant_id r) tenant_id
                            && role_is_active r) (roles db) in
    let valid_role_ids := map role_id valid_roles in
    let invalid_role_ids :=
      List.filter (fun r => negb (existsb (String.eqb r) valid_role_ids)) role_ids in
    match invalid_role_ids with
    | _ :: _ =>
      (Raise (ValueError ("以下角色不存在或不属于当前租户："
                          ++ String.concat "," invalid_role_ids)), db)
    | [] =>
      let kept := List.filter (fun ar => negb (of_account tenant_id aid ar)) (account_roles db) in
      let added := added_rows new_id tenant_id (map (fun r => (aid, r)) valid_role_ids) in
      let db' := set_account_roles db (kept ++ added) in
      (Ok {| au_account_id := aid; au_account_name := name_of (get_account db' aid);
             au_assigned_count := length valid_role_ids;
             au_invalid_roles := invalid_role_ids;
             au_assigned_roles := map (fun r => (role_id r, role_name r)) valid_roles |},
       db')
    end
  end.

(** The result dictionary of [batch_assign_role_to_users]. *)
Record BatchAssignResult : Type := {
  ba_role_id : string;
  ba_role_name : string;
  ba_total_requested : nat;
  ba_newly_assigned : nat;
  ba_already_assigned : nat;
  ba_invalid_users : list string;
  ba_valid_users : nat
}.

(** [RoleAccountService.batch_assign_role_to_users] *)
Definition batch_assign_role_to_users (new_id : nat -> string) (tenant_id rid : string)
    (account_ids : list string) (db : Db) : result BatchAssignResult * Db :=
  match get_role db rid with
  | None => (Raise (ValueError "角色不存在或无权限"), db)
  | Some role =>
    if negb (String.eqb (role_tenant_id role) tenant_id)
    then (Raise (ValueError "角色不存在或无权限"), db)
    else
      let valid_account_ids := tenant_account_ids tenant_id account_ids db in
      let invalid_account_ids :=
        List.filter (fun aid => negb (existsb (String.eqb aid) valid_account_ids)) account_ids in
      let existing_account_ids :=
        map ar_account_id
            (List.filter (fun ar => of_role tenant_id rid ar
                                    && existsb (String.eqb (ar_account_id ar)) valid_account_ids)
                         (account_roles db)) in
      let new_account_ids :=
        List.filter (fun aid => negb (existsb (String.eqb aid) existing_account_ids))
                    valid_account_ids in
      let added := added_rows new_id tenant_id (map (fun aid => (aid, rid)) new_account_ids) in
      (Ok {| ba_role_id := rid; ba_role_name := role_name role;
             ba_total_requested := length account_ids;
             ba_newly_assigned := length new_account_ids;
             ba_already_assigned := length existing_account_ids;
             ba_invalid_users := invalid_account_ids;
             ba_valid_users := length valid_account_ids |},
       set_account_roles db (account_roles db ++ added)%list)
  end.

Section AccountRoles.
(** [order_by(Role.role_name.asc())], in the collation of the database. *)
Variable order_by_role_name : list Role -> list Role.

(** [RoleAccountService.get_account_roles]: the active roles the account's
    rows name, each once. *)
Definition get_account_roles (tenant_id aid : string) (db : Db) : list Role :=
  match first (List.filter (join_of tenant_id aid) (tenant_account_joins db)) with
  | None => []
  | Some _ =>
    order_by_role_name
      (List.filter (fun r => existsb (fun ar => of_account tenant_id aid ar
                                               && String.eqb (role_id r) (ar_role_id ar))
                                     (account_roles db)
                             && role_is_active r)
                   (roles db))
  end.
End AccountRoles.

(** *** What the other operations leave in the table *)

Lemma of_account_role_true (t a r : string) (ar : AccountRole) :
  of_account_role t a r ar = true ↔
  ar_tenant_id ar = t ∧ ar_account_id ar = a ∧ ar_role_id ar = r.
Proof.
  unfold of_account_role, of_account.
  rewrite !andb_true_iff, !String.eqb_eq. tauto.
Qed.

Lemma of_account_true (t a : string) (ar : AccountRole) :
  of_account t a ar = true ↔ ar_tenant_id ar = t ∧ ar_account_id ar = a.
Proof. unfold of_account. by rewrite andb_true_iff, !String.eqb_eq. Qed.

Lemma of_role_true (t r : string) (ar : AccountRole) :
  of_role t r ar = true ↔ ar_tenant_id ar = t ∧ ar_role_id ar = r.
Proof. unfold of_role. by rewrite andb_true_iff, !String.eqb_eq. Qed.

Lemma join_of_true (t a : string) (j : TenantAccountJoin) :
  join_of t a j = true ↔ taj_tenant_id j = t ∧ taj_account_id j = a.
Proof. unfold join_of. by rewrite andb_true_iff, !String.eqb_eq. Qed.

Lemma first_filter_is_Some {A : Type} (p : A → bool) (l : list A) (x : A) :
  In x l → p x = true → is_Some (first (List.filter p l)).
Proof.
  intros Hx Hp. unfold first.
  destruct (List.filter p l) as [|y ys] eqn:E; [|by eexists].
  assert (H : In x []) by (rewrite <- E; by apply filter_In). destruct H.
Qed.

Lemma filter_nil_iff {A : Type} (p : A → bool) (l : list A) :
  List.filter p l = [] ↔ ∀ x, In x l → p x = false.
Proof.
  split.
  - intros H x Hx. destruct (p x) eqn:E; [|done].
    assert (Hin : In x (List.filter p l)) by (by apply filter_In).
    rewrite H in Hin. destruct Hin.
  - intros H. induction l as [|x l IH]; simpl; [done|].
    rewrite (H x) by (by left). apply IH. intros y Hy. apply H. by right.
Qed.

Lemma first_filter_None {A : Type} (p : A → bool) (l : list A) :
  first (List.filter p l) = None ↔ ∀ x, In x l → p x = false.
Proof.
  unfold first. split.
  - intros H x Hx. destruct (p x) eqn:E; [|done].
    destruct (first_filter_is_Some p l x Hx E) as [y Hy]. unfold first in Hy. congruence.
  - intros H. induction l as [|x l IH]; simpl; [done|].
    rewrite (H x) by (by left). apply IH. intros y Hy. apply H. by right.
Qed.

Lemma existsb_eqb_In (x : string) (l : list string) :
  existsb (String.eqb x) l = true ↔ In x l.
Proof.
  rewrite existsb_exists. split.
  - intros (y & Hy & ->%String.eqb_eq). done.
  - intros H. exists x. split; [done|apply String.eqb_refl].
Qed.

Lemma In_added_rows (new_id : nat → string) (t : string) (l : list (string * string))
    (ar : AccountRole) :
  In ar (added_rows new_id t l) →
  ar_tenant_id ar = t ∧ In (ar_account_id ar, ar_role_id ar) l.
Proof.
  unfold added_rows. intros H. apply list_elem_of_In, elem_of_lookup_imap in H as (i & p & -> & Hp).
  simpl. split; [done|]. apply list_elem_of_In, list_elem_of_lookup. exists i. by destruct p.
Qed.

Lemma added_rows_In (new_id : nat → string) (t : string) (l : list (string * string))
    (p : string * string) :
  In p l → ∃ ar, In ar (added_rows new_id t l) ∧ ar_tenant_id ar = t ∧
                 ar_account_id ar = p.1 ∧ ar_role_id ar = p.2.
Proof.
  intros H. apply list_elem_of_In, list_elem_of_lookup in H as [i Hi].
  exists {| ar_id := new_id i; ar_tenant_id := t; ar_account_id := p.1; ar_role_id := p.2 |}.
  split; [|done].
  apply list_elem_of_In, elem_of_lookup_imap. by exists i, p.
Qed.

(** What a successful [add_account_to_role] leaves (the conditions of its
    success are those of C7). *)
Lemma add_account_to_role_result
    (new_id tenant_id rid aid : string) (db : Db) (role : Role) (j : TenantAccountJoin) :
  get_role db rid = Some role →
  role_tenant_id role = tenant_id →
  In j (tenant_account_joins db) →
  taj_tenant_id j = tenant_id → taj_account_id j = aid →
  (∀ ar, In ar (roles_of db tenant_id aid) → ar_role_id ar ≠ rid) →
  ∃ res,
    add_account_to_role new_id tenant_id rid aid db
    = (Ok res, set_account_roles db
                 (List.filter (fun ar => negb (of_account tenant_id aid ar)) (account_roles db)
                  ++ [{| ar_id := new_id; ar_tenant_id := tenant_id;
                         ar_account_id := aid; ar_role_id := rid |}])) ∧
    success res = true.
Proof.
  intros Hrole Hten Hj Hjt Hja Hnone.
  unfold add_account_to_role. rewrite Hrole.
  apply String.eqb_eq in Hten as ->. simpl negb. cbv iota.
  destruct (first_filter_is_Some
              (fun j => String.eqb (taj_tenant_id j) tenant_id && String.eqb (taj_account_id j) aid)
              (tenant_account_joins db) j Hj) as [tj ->].
  { apply andb_true_iff. by rewrite !String.eqb_eq. }
  assert (first (List.filter (fun ar => of_account tenant_id aid ar && String.eqb (ar_role_id ar) rid)
                            (account_roles db)) = None) as ->.
  { apply first_filter_None. intros ar Har.
    destruct (of_account tenant_id aid ar) eqn:E; [simpl|done].
    apply String.eqb_neq, Hnone. unfold roles_of. by apply filter_In. }
  by eexists.
Qed.

(** X1. For a role of the tenant, [remove_user_from_role] returns; it
    deletes the rows of exactly that (tenant, account, role) and no other
    row; it reports success exactly when there was such a row; and a second
    call finds nothing to delete, reports failure and leaves the table as
    it is. *)
Theorem remove_user_from_role_deletes_the_pair
    (tenant_id rid aid : string) (db : Db) (role : Role) :
  get_role db rid = Some role →
  role_tenant_id role = tenant_id →
  ∃ res db',
    remove_user_from_role tenant_id rid aid db = (Ok res, db') ∧
    (∀ ar, In ar (account_roles db') ↔
           In ar (account_roles db) ∧
           ¬ (ar_tenant_id ar = tenant_id ∧ ar_account_id ar = aid ∧ ar_role_id ar = rid)) ∧
    (rm_success res = true ↔
     ∃ ar, In ar (account_roles db) ∧
           ar_tenant_id ar = tenant_id ∧ ar_account_id ar = aid ∧ ar_role_id ar = rid) ∧
    roles db' = roles db ∧ tenant_account_joins db' = tenant_account_joins db ∧
    ∃ res', remove_user_from_role tenant_id rid aid db' = (Ok res', db') ∧
            rm_success res' = false.
Proof.
  intros Hrole Hten.
  set (hit := of_account_role tenant_id aid rid).
  set (kept := List.filter (fun ar => negb (hit ar)) (account_roles db)).
  assert (Hrun : ∀ d, get_role d rid = Some role →
            ∃ res, remove_user_from_role tenant_id rid aid d
                   = (Ok res, set_account_roles d
                                (List.filter (fun ar => negb (hit ar)) (account_roles d))) ∧
                   (rm_success res = true ↔ List.filter hit (account_roles d) ≠ [])).
  { intros d Hd. unfold remove_user_from_role. rewrite Hd.
    apply String.eqb_eq in Hten as ->. simpl negb. cbv iota. fold hit.
    destruct (List.filter hit (account_roles d)) as [|x xs]; simpl.
    - eexists. split; [reflexivity|]. simpl. split; [done|]. by intros [].
    - eexists. split; [reflexivity|]. simpl. done. }
  destruct (Hrun db Hrole) as (res & Hres & Hsucc).
  exists res, (set_account_roles db kept). split; [exact Hres|].
  split; [|split; [|split; [reflexivity|split; [reflexivity|]]]].
  - intros ar. simpl. unfold kept. rewrite filter_In, negb_true_iff.
    unfold hit. rewrite <- of_account_role_true.
    destruct (of_account_role tenant_id aid rid ar); naive_solver.
  - rewrite Hsucc. split.
    + intros Hne. destruct (List.filter hit (account_roles db)) as [|x xs] eqn:E; [done|].
      assert (Hx : In x (x :: xs)) by (by left). rewrite <- E in Hx.
      apply filter_In in Hx as [Hx Hh]. exists x. split; [done|].
      by apply of_account_role_true.
    + intros (ar & Har & Hh) E.
      assert (Hin : In ar (List.filter hit (account_roles db))).
      { apply filter_In. split; [done|]. by apply of_account_role_true. }
      rewrite E in Hin. destruct Hin.
  - destruct (Hrun (set_account_roles db kept) Hrole) as (res' & Hres' & Hsucc').
    exists res'. simpl in Hres'.
    assert (Hk : List.filter (fun ar => negb (hit ar)) kept = kept).
    { unfold kept. apply forallb_filter_id, forallb_forall.
      intros x Hx. by apply filter_In in Hx as [_ Hx]. }
    rewrite Hk in Hres'. split; [exact Hres'|].
    destruct (rm_success res') eqn:E; [|done].
    exfalso. apply Hsucc'; [done|]. simpl. unfold kept. apply filter_negb_self.
Qed.

Lemma filter_of_account_added (new_id : nat → string) (t a : string) (l : list string) :
  List.filter (of_account t a) (added_rows new_id t (map (fun r => (a, r)) l))
  = added_rows new_id t (map (fun r => (a, r)) l).
Proof.
  apply forallb_filter_id, forallb_forall. intros ar Har.
  apply In_added_rows in Har as [Ht Hin]. apply of_account_true. split; [done|].
  apply in_map_iff in Hin as (r & [= <- _] & _). done.
Qed.

Lemma length_added_rows (new_id : nat → string) (t : string) (l : list (string * string)) :
  length (added_rows new_id t l) = length l.
Proof. unfold added_rows. apply length_imap. Qed.

(** X2. Adding a role to an account and then removing that role does not
    bring back what the account held before: under the conditions in which
    [add_account_to_role] succeeds, the removal succeeds too and the account
    is left without any role in the tenant, while the rows of every other
    (tenant, account) pair are as they were at the start. *)
Theorem add_then_remove_leaves_no_role
    (new_id tenant_id rid aid : string) (db : Db) (role : Role) (j : TenantAccountJoin) :
  get_role db rid = Some role →
  role_tenant_id role = tenant_id →
  In j (tenant_account_joins db) →
  taj_tenant_id j = tenant_id → taj_account_id j = aid →
  (∀ ar, In ar (roles_of db tenant_id aid) → ar_role_id ar ≠ rid) →
  ∃ res db1 res' db2,
    add_account_to_role new_id tenant_id rid aid db = (Ok res, db1) ∧
    success res = true ∧
    remove_user_from_role tenant_id rid aid db1 = (Ok res', db2) ∧
    rm_success res' = true ∧
    roles_of db2 tenant_id aid = [] ∧
    ∀ t' a', (t', a') ≠ (tenant_id, aid) → roles_of db2 t' a' = roles_of db t' a'.
Proof.
  intros Hrole Hten Hj Hjt Hja Hnone.
  destruct (add_account_to_role_result new_id tenant_id rid aid db role j
              Hrole Hten Hj Hjt Hja Hnone) as (res & Hadd & Hsucc).
  set (kept := List.filter (fun ar => negb (of_account tenant_id aid ar)) (account_roles db)) in *.
  set (row := {| ar_id := new_id; ar_tenant_id := tenant_id;
                 ar_account_id := aid; ar_role_id := rid |}) in *.
  assert (Hrow : of_account_role tenant_id aid rid row = true)
    by (by apply of_account_role_true).
  assert (Hkept : ∀ ar, In ar kept → of_account_role tenant_id aid rid ar = false).
  { intros ar Har. apply filter_In in Har as [_ Har]. apply negb_true_iff in Har.
    unfold of_account_role. by rewrite Har. }
  assert (Hhit : List.filter (of_account_role tenant_id aid rid) (kept ++ [row]) = [row]).
  { rewrite List.filter_app. simpl. rewrite Hrow.
    by rewrite (proj2 (filter_nil_iff _ kept) Hkept). }
  eexists res, _, _, _. split; [exact Hadd|]. split; [exact Hsucc|].
  split; [|split; [|split]].
  - unfold remove_user_from_role. simpl get_role. change (get_role _ rid) with (get_role db rid).
    rewrite Hrole. apply String.eqb_eq in Hten as ->. simpl negb. cbv iota.
    simpl account_roles. rewrite Hhit. simpl. reflexivity.
  - reflexivity.
  - unfold roles_of. simpl account_roles.
    rewrite List.filter_app. simpl. rewrite Hrow. simpl. rewrite app_nil_r.
    assert (List.filter (fun ar => negb (of_account_role tenant_id aid rid ar)) kept = kept) as ->.
    { apply forallb_filter_id, forallb_forall. intros ar Har. by rewrite (Hkept ar Har). }
    apply filter_negb_self.
  - intros t' a' Hne. unfold roles_of. simpl account_roles.
    rewrite List.filter_app. simpl. rewrite Hrow. simpl. rewrite app_nil_r.
    assert (List.filter (fun ar => negb (of_account_role tenant_id aid rid ar)) kept = kept) as ->.
    { apply forallb_filter_id, forallb_forall. intros ar Har. by rewrite (Hkept ar Har). }
    by apply filter_other_account.
Qed.

Lemma In_tenant_account_ids (t : string) (ids : list string) (db : Db) (a : string) :
  In a (tenant_account_ids t ids db) ↔
  In a ids ∧ (∃ acc, In acc (accounts db) ∧ account_id acc = a) ∧
  ∃ j, In j (tenant_account_joins db) ∧ taj_tenant_id j = t ∧ taj_account_id j = a.
Proof.
  unfold tenant_account_ids. rewrite in_flat_map. split.
  - intros (acc & Hacc & Hin).
    destruct (existsb (String.eqb (account_id acc)) ids) eqn:E; [|destruct Hin].
    apply existsb_eqb_In in E.
    apply in_map_iff in Hin as (j & <- & Hj). apply filter_In in Hj as [Hj Hp].
    apply join_of_true in Hp as [? ?]. eauto 10.
  - intros (Hids & (acc & Hacc & <-) & (j & Hj & Ht & Ha)).
    exists acc. split; [done|].
    rewrite (proj2 (existsb_eqb_In _ _) Hids).
    apply in_map_iff. exists j. split; [done|]. apply filter_In. split; [done|].
    by apply join_of_true.
Qed.

Lemma invalid_nil (valid requested : list string) :
  List.filter (fun x => negb (existsb (String.eqb x) valid)) requested = [] ↔
  ∀ x, In x requested → In x valid.
Proof.
  rewrite filter_nil_iff. apply forall_proper. intros x.
  rewrite negb_false_iff, existsb_eqb_In. done.
Qed.

(** The role ids [assign_roles_to_user] accepts. *)
Lemma In_valid_role_ids (t : string) (role_ids : list string) (db : Db) (r : string) :
  In r (map role_id
          (List.filter (fun x => existsb (String.eqb (role_id x)) role_ids
                                 && String.eqb (role_tenant_id x) t && role_is_active x)
                       (roles db))) ↔
  In r role_ids ∧
  ∃ role, In role (roles db) ∧ role_id role = r ∧ role_tenant_id role = t ∧
          role_is_active role = true.
Proof.
  rewrite in_map_iff. split.
  - intros (role & <- & Hin). apply filter_In in Hin as [Hin Hp].
    apply andb_true_iff in Hp as [Hp Hact]. apply andb_true_iff in Hp as [Hids Ht].
    apply existsb_eqb_In in Hids. apply String.eqb_eq in Ht. eauto 10.
  - intros (Hids & role & Hin & <- & Ht & Hact). exists role. split; [done|].
    apply filter_In. split; [done|].
    rewrite (proj2 (existsb_eqb_In _ _) Hids), Hact.
    apply String.eqb_eq in Ht as ->. done.
Qed.

(** X3. For an account of the tenant, [assign_roles_to_user] is all or
    nothing. When every requested id names an active role of the tenant, the
    account's rows in the tenant are replaced: afterwards it holds exactly
    the requested roles, the count returned is the number of its rows, and
    no row of another (tenant, account) pair is touched. When some requested
    id does not, the call raises [ValueError] and the table is unchanged. *)
Theorem assign_roles_to_user_replaces
    (new_id : nat → string) (tenant_id aid : string) (role_ids : list string)
    (db : Db) (j : TenantAccountJoin) :
  In j (tenant_account_joins db) →
  taj_tenant_id j = tenant_id → taj_account_id j = aid →
  let valid r := ∃ role, In role (roles db) ∧ role_id role = r ∧
                         role_tenant_id role = tenant_id ∧ role_is_active role = true in
  ((∀ r, In r role_ids → valid r) →
   ∃ res db',
     assign_roles_to_user new_id tenant_id aid role_ids db = (Ok res, db') ∧
     (∀ r, (∃ ar, In ar (roles_of db' tenant_id aid) ∧ ar_role_id ar = r) ↔ In r role_ids) ∧
     au_assigned_count res = length (roles_of db' tenant_id aid) ∧
     (∀ ar, ¬ (ar_tenant_id ar = tenant_id ∧ ar_account_id ar = aid) →
            (In ar (account_roles db') ↔ In ar (account_roles db)))) ∧
  (∀ r, In r role_ids → ¬ valid r →
   ∃ msg, assign_roles_to_user new_id tenant_id aid role_ids db = (Raise (ValueError msg), db)).
Proof.
  intros Hj Hjt Hja valid.
  destruct (first_filter_is_Some (join_of tenant_id aid) (tenant_account_joins db) j Hj)
    as [tj Htj]; [by apply join_of_true|].
  set (valid_roles :=
         List.filter (fun x => existsb (String.eqb (role_id x)) role_ids
                               && String.eqb (role_tenant_id x) tenant_id && role_is_active x)
                     (roles db)).
  set (invalid := List.filter (fun r => negb (existsb (String.eqb r) (map role_id valid_roles)))
                              role_ids).
  split.
  - intros Hall.
    assert (Hinv : invalid = []).
    { apply invalid_nil. intros r Hr. apply In_valid_role_ids. split; [done|]. by apply Hall. }
    unfold assign_roles_to_user. rewrite Htj. fold valid_roles. fold invalid. rewrite Hinv.
    eexists _, _. split; [reflexivity|].
    assert (Hroles : roles_of (set_account_roles db
                        (List.filter (fun ar => negb (of_account tenant_id aid ar)) (account_roles db)
                         ++ added_rows new_id tenant_id
                              (map (fun r => (aid, r)) (map role_id valid_roles)))) tenant_id aid
                     = added_rows new_id tenant_id
                         (map (fun r => (aid, r)) (map role_id valid_roles))).
    { unfold roles_of. simpl account_roles.
      by rewrite List.filter_app, filter_negb_self, filter_of_account_added. }
    rewrite Hroles. split; [|split].
    + intros r. split.
      * intros (ar & Har & <-). apply In_added_rows in Har as [_ Hin].
        apply in_map_iff in Hin as (r & [= _ <-] & Hr).
        by apply In_valid_role_ids in Hr as [? _].
      * intros Hr.
        assert (Hin : In (aid, r) (map (fun r => (aid, r)) (map role_id valid_roles))).
        { apply in_map_iff. exists r. split; [done|].
          apply In_valid_role_ids. split; [done|]. by apply Hall. }
        destruct (added_rows_In new_id tenant_id _ _ Hin) as (ar & Har & _ & _ & Hrid).
        by exists ar.
    + simpl. by rewrite length_added_rows, !length_map.
    + intros ar Hother. simpl account_roles. rewrite in_app_iff, filter_In. split.
      * intros [[? _]|Har]; [done|]. exfalso. apply Hother.
        apply In_added_rows in Har as [? Hin]. split; [done|].
        by apply in_map_iff in Hin as (r & [= <- _] & _).
      * intros Har. left. split; [done|]. apply negb_true_iff.
        destruct (of_account tenant_id aid ar) eqn:E; [|done].
        by apply of_account_true in E.
  - intros r Hr Hbad.
    unfold assign_roles_to_user. rewrite Htj. fold valid_roles. fold invalid.
    destruct invalid as [|x xs] eqn:E; [|by eexists].
    exfalso. apply Hbad.
    assert (Hin : In r (map role_id valid_roles)) by (by apply (proj1 (invalid_nil _ _) E)).
    by apply In_valid_role_ids in Hin as [_ ?].
Qed.

(** X4. For a role of the tenant, [assign_accounts_to_role] is all or
    nothing. When every requested id is an account that belongs to the
    tenant, the role's rows are replaced: afterwards exactly the requested
    accounts hold the role (none when the list is empty), and no row of
    another (tenant, role) pair is touched. When some requested id is not,
    the call raises [ValueError] and the table is unchanged. *)
Theorem assign_accounts_to_role_replaces
    (new_id : nat → string) (tenant_id rid : string) (account_ids : list string)
    (db : Db) (role : Role) :
  get_role db rid = Some role →
  role_tenant_id role = tenant_id →
  let member a := (∃ acc, In acc (accounts db) ∧ account_id acc = a) ∧
                  ∃ j, In j (tenant_account_joins db) ∧
                       taj_tenant_id j = tenant_id ∧ taj_account_id j = a in
  ((∀ a, In a account_ids → member a) →
   ∃ res db',
     assign_accounts_to_role new_id tenant_id rid account_ids db = (Ok res, db') ∧
     (∀ a, (∃ ar, In ar (account_roles db') ∧ ar_tenant_id ar = tenant_id ∧
                  ar_role_id ar = rid ∧ ar_account_id ar = a) ↔ In a account_ids) ∧
     (∀ ar, ¬ (ar_tenant_id ar = tenant_id ∧ ar_role_id ar = rid) →
            (In ar (account_roles db') ↔ In ar (account_roles db)))) ∧
  (∀ a, In a account_ids → ¬ member a →
   ∃ msg, assign_accounts_to_role new_id tenant_id rid account_ids db
          = (Raise (ValueError msg), db)).
Proof.
  intros Hrole Hten member.
  set (valid := tenant_account_ids tenant_id account_ids db).
  set (invalid := List.filter (fun a => negb (existsb (String.eqb a) valid)) account_ids).
  assert (Hten' : String.eqb (role_tenant_id role) tenant_id = true) by (by apply String.eqb_eq).
  split.
  - intros Hall.
    assert (Hinv : invalid = []).
    { apply invalid_nil. intros a Ha. apply In_tenant_account_ids. split; [done|]. by apply Hall. }
    unfold assign_accounts_to_role. rewrite Hrole, Hten'. simpl negb. cbv iota.
    fold valid. fold invalid. rewrite Hinv.
    eexists _, _. split; [reflexivity|]. simpl account_roles. split.
    + intros a. split.
      * intros (ar & Har & Ht & Hr & <-). apply in_app_iff in Har as [Har|Har].
        -- apply filter_In in Har as [_ Hn]. apply negb_true_iff in Hn.
           assert (of_role tenant_id rid ar = true) by (by apply of_role_true). congruence.
        -- apply In_added_rows in Har as [_ Hin].
           apply in_map_iff in Hin as (a & [= <- _] & Ha).
           by apply In_tenant_account_ids in Ha as [? _].
      * intros Ha.
        assert (Hin : In (a, rid) (map (fun a => (a, rid)) valid)).
        { apply in_map_iff. exists a. split; [done|].
          apply In_tenant_account_ids. split; [done|]. by apply Hall. }
        destruct (added_rows_In new_id tenant_id _ _ Hin) as (ar & Har & ? & ? & ?).
        exists ar. rewrite in_app_iff. auto.
    + intros ar Hother. rewrite in_app_iff, filter_In. split.
      * intros [[? _]|Har]; [done|]. exfalso. apply Hother.
        apply In_added_rows in Har as [? Hin]. split; [done|].
        by apply in_map_iff in Hin as (a & [= _ <-] & _).
      * intros Har. left. split; [done|]. apply negb_true_iff.
        destruct (of_role tenant_id rid ar) eqn:E; [|done].
        by apply of_role_true in E.
  - intros a Ha Hbad.
    unfold assign_accounts_to_role. rewrite Hrole, Hten'. simpl negb. cbv iota.
    fold valid. fold invalid.
    destruct invalid as [|x xs] eqn:E; [|by eexists].
    exfalso. apply Hbad.
    assert (Hin : In a valid) by (by apply (proj1 (invalid_nil _ _) E)).
    by apply In_tenant_account_ids in Hin as [_ ?].
Qed.

(** X5. For a role of the tenant, [batch_assign_role_to_users] only adds:
    the rows that were there stay, in place; every row it adds gives the
    role to a requested account of the tenant that did not hold it; after
    the call every requested account of the tenant holds the role; and
    running the same request again adds nothing. *)
Theorem batch_assign_role_to_users_only_adds
    (new_id new_id' : nat → string) (tenant_id rid : string) (account_ids : list string)
    (db : Db) (role : Role) :
  get_role db rid = Some role →
  role_tenant_id role = tenant_id →
  let member a := (∃ acc, In acc (accounts db) ∧ account_id acc = a) ∧
                  ∃ j, In j (tenant_account_joins db) ∧
                       taj_tenant_id j = tenant_id ∧ taj_account_id j = a in
  let holds (rows : list AccountRole) a :=
    ∃ ar, In ar rows ∧ ar_tenant_id ar = tenant_id ∧ ar_role_id ar = rid ∧
          ar_account_id ar = a in
  ∃ res db' added,
    batch_assign_role_to_users new_id tenant_id rid account_ids db = (Ok res, db') ∧
    account_roles db' = (account_roles db ++ added)%list ∧
    length added = ba_newly_assigned res ∧
    (∀ ar, In ar added →
           ar_tenant_id ar = tenant_id ∧ ar_role_id ar = rid ∧
           In (ar_account_id ar) account_ids ∧ member (ar_account_id ar) ∧
           ¬ holds (account_roles db) (ar_account_id ar)) ∧
    (∀ a, In a account_ids → member a → holds (account_roles db') a) ∧
    ∃ res', batch_assign_role_to_users new_id' tenant_id rid account_ids db' = (Ok res', db') ∧
            ba_newly_assigned res' = 0%nat.
Proof.
  intros Hrole Hten member holds.
  assert (Hten' : String.eqb (role_tenant_id role) tenant_id = true) by (by apply String.eqb_eq).
  set (valid := tenant_account_ids tenant_id account_ids db).
  set (existing rows :=
         map ar_account_id
             (List.filter (fun ar => of_role tenant_id rid ar
                                     && existsb (String.eqb (ar_account_id ar)) valid) rows)).
  set (fresh rows := List.filter (fun a => negb (existsb (String.eqb a) (existing rows))) valid).
  set (added := added_rows new_id tenant_id (map (fun a => (a, rid)) (fresh (account_roles db)))).
  assert (Hexisting : ∀ rows a, In a (existing rows) ↔ In a valid ∧ holds rows a).
  { intros rows a. unfold existing. rewrite in_map_iff. split.
    - intros (ar & <- & Har). apply filter_In in Har as [Har Hp].
      apply andb_true_iff in Hp as [Hr Hv]. apply of_role_true in Hr as [? ?].
      apply existsb_eqb_In in Hv. split; [done|]. by exists ar.
    - intros (Hv & ar & Har & Ht & Hr & <-). exists ar. split; [done|].
      apply filter_In. split; [done|].
      rewrite (proj2 (of_role_true _ _ _)) by done. by apply existsb_eqb_In. }
  assert (Hfresh : ∀ rows a, In a (fresh rows) ↔ In a valid ∧ ¬ holds rows a).
  { intros rows a. unfold fresh. rewrite filter_In, negb_true_iff.
    rewrite <- not_true_iff_false, existsb_eqb_In, Hexisting. tauto. }
  assert (Hadded : ∀ ar, In ar added →
            ar_tenant_id ar = tenant_id ∧ ar_role_id ar = rid ∧
            In (ar_account_id ar) (fresh (account_roles db))).
  { intros ar Har. apply In_added_rows in Har as [? Hin].
    apply in_map_iff in Hin as (a & [= <- <-] & Ha). done. }
  exists {| ba_role_id := rid; ba_role_name := role_name role;
            ba_total_requested := length account_ids;
            ba_newly_assigned := length (fresh (account_roles db));
            ba_already_assigned := length (existing (account_roles db));
            ba_invalid_users :=
              List.filter (fun a => negb (existsb (String.eqb a) valid)) account_ids;
            ba_valid_users := length valid |},
         (set_account_roles db (account_roles db ++ added)%list), added.
  split; [|split; [reflexivity|split; [|split; [|split]]]].
  - unfold batch_assign_role_to_users. rewrite Hrole, Hten'. reflexivity.
  - simpl. unfold added. by rewrite length_added_rows, length_map.
  - intros ar Har. apply Hadded in Har as (? & ? & Hf).
    apply Hfresh in Hf as [Hv Hn]. apply In_tenant_account_ids in Hv as (? & ? & ?). done.
  - intros a Ha Hm. simpl account_roles.
    assert (Hv : In a valid) by (apply In_tenant_account_ids; by destruct Hm).
    destruct (existsb (String.eqb a) (existing (account_roles db))) eqn:E.
    + apply existsb_eqb_In, Hexisting in E as [_ (ar & Har & ?)].
      exists ar. rewrite in_app_iff. auto.
    + assert (Hf : In a (fresh (account_roles db))).
      { unfold fresh. apply filter_In. split; [done|]. by rewrite E. }
      assert (Hin : In (a, rid) (map (fun a => (a, rid)) (fresh (account_roles db))))
        by (apply in_map_iff; by exists a).
      destruct (added_rows_In new_id tenant_id _ _ Hin) as (ar & Har & ? & ? & ?).
      exists ar. rewrite in_app_iff. auto.
  - assert (Hnone : fresh (account_roles db ++ added)%list = []).
    { apply filter_nil_iff. intros a Ha. apply negb_false_iff, existsb_eqb_In, Hexisting.
      split; [done|].
      destruct (existsb (String.eqb a) (existing (account_roles db))) eqn:E.
      - apply existsb_eqb_In, Hexisting in E as [_ (ar & Har & ?)].
        exists ar. rewrite in_app_iff. auto.
      - assert (Hin : In (a, rid) (map (fun a => (a, rid)) (fresh (account_roles db)))).
        { apply in_map_iff. exists a. split; [done|].
          unfold fresh. apply filter_In. split; [done|]. by rewrite E. }
        destruct (added_rows_In new_id tenant_id _ _ Hin) as (ar & Har & ? & ? & ?).
        exists ar. rewrite in_app_iff. auto. }
    eexists. split.
    + unfold batch_assign_role_to_users. simpl get_role.
      change (get_role _ rid) with (get_role db rid). rewrite Hrole, Hten'.
      simpl negb. cbv iota.
      change (tenant_account_ids tenant_id account_ids _) with valid.
      simpl account_roles. fold (existing (account_roles db ++ added)%list).
      fold (fresh (account_roles db ++ added)%list). rewrite Hnone. simpl.
      unfold set_account_roles. simpl. rewrite app_nil_r. reflexivity.
    + reflexivity.
Qed.

Section EffectiveRoles.
Variable order_by_role_name : list Role → list Role.
(** Ordering rearranges the rows and does no more. *)
Hypothesis order_by_permutes : ∀ l, Permutation (order_by_role_name l) l.

(** X6. The roles [get_account_roles] reports after a successful
    [add_account_to_role] (role ids being unique in [roles]): the role just
    given when it is active, and nothing at all when it is not, since
    [add_account_to_role] accepts an inactive role and [get_account_roles]
    lists active ones only. *)
Theorem roles_after_add_account_to_role
    (new_id tenant_id rid aid : string) (db : Db) (role : Role) (j : TenantAccountJoin) :
  NoDup (map role_id (roles db)) →
  get_role db rid = Some role →
  role_tenant_id role = tenant_id →
  In j (tenant_account_joins db) →
  taj_tenant_id j = tenant_id → taj_account_id j = aid →
  (∀ ar, In ar (roles_of db tenant_id aid) → ar_role_id ar ≠ rid) →
  ∃ res db',
    add_account_to_role new_id tenant_id rid aid db = (Ok res, db') ∧
    get_account_roles order_by_role_name tenant_id aid db'
    = if role_is_active role then [role] else [].
Proof.
  intros Hnd Hrole Hten Hj Hjt Hja Hnone.
  destruct (add_account_to_role_result new_id tenant_id rid aid db role j
              Hrole Hten Hj Hjt Hja Hnone) as (res & Hadd & _).
  eexists _, _. split; [exact Hadd|].
  unfold get_account_roles. simpl tenant_account_joins.
  destruct (first_filter_is_Some (join_of tenant_id aid) (tenant_account_joins db) j Hj)
    as [tj ->]; [by apply join_of_true|].
  simpl account_roles. simpl roles.
  set (held := fun r : Role => existsb _ _ && role_is_active r).
  assert (Hrole_in : In role (roles db) ∧ role_id role = rid).
  { unfold get_role in Hrole. apply find_some in Hrole as [? ?%String.eqb_eq]. done. }
  assert (Hheld : ∀ r, In r (roles db) → held r = true ↔ r = role ∧ role_is_active role = true).
  { intros r Hr. unfold held. rewrite andb_true_iff, existsb_exists. split.
    - intros [(ar & Har & Hp) Hact]. apply andb_true_iff in Hp as [Hof Hid].
      apply String.eqb_eq in Hid.
      apply in_app_iff in Har as [Har|Har].
      + apply filter_In in Har as [_ Hn]. rewrite Hof in Hn. done.
      + destruct Har as [<-|[]]. simpl in Hid.
        assert (r = role) as ->; [|done].
        destruct Hrole_in as [Hin Hrid].
        apply list_elem_of_In, list_elem_of_lookup in Hr as [i Hi].
        apply list_elem_of_In, list_elem_of_lookup in Hin as [i' Hi'].
        assert (i = i').
        { eapply NoDup_lookup; [exact Hnd| |].
          - rewrite list_lookup_fmap, Hi. reflexivity.
          - rewrite list_lookup_fmap, Hi'. simpl. by rewrite Hrid, Hid. }
        congruence.
    - intros [-> Hact]. split; [|done].
      exists {| ar_id := new_id; ar_tenant_id := tenant_id;
                ar_account_id := aid; ar_role_id := rid |}.
      split; [apply in_app_iff; right; by left|].
      apply andb_true_iff. split; [by apply of_account_true|].
      simpl. apply String.eqb_eq. by destruct Hrole_in. }
  destruct (role_is_active role) eqn:Hact.
  - assert (Hf : Permutation (List.filter held (roles db)) [role]).
    { apply NoDup_Permutation.
      - apply NoDup_ListNoDup, List.NoDup_filter, NoDup_ListNoDup. by eapply NoDup_fmap_1.
      - apply NoDup_singleton.
      - intros r. rewrite !list_elem_of_In in *. rewrite filter_In. simpl. split.
        + intros [Hr Hh]. apply Hheld in Hh as [-> _]; auto.
        + intros [<-|[]]. destruct Hrole_in as [Hin _]. split; [done|]. by apply Hheld. }
    apply Permutation_singleton_r. by rewrite order_by_permutes.
  - assert (Hf : List.filter held (roles db) = []).
    { apply filter_nil_iff. intros r Hr. destruct (held r) eqn:E; [|done].
      apply Hheld in E as [_ ?]; done. }
    rewrite Hf. apply Permutation_nil_r. apply order_by_permutes.
Qed.

End EffectiveRoles.
(** *** The properties on the example tenant *)

(** Ids for the rows a call adds. *)
Definition fresh_ids (n : nat) : string := String (Ascii.ascii_of_nat (97 + n)) "".

Lemma remove_user_from_role_deletes_the_pair_witness :
  ∃ res db',
    remove_user_from_role "t1" "r1" "a1" db0 = (Ok res, db') ∧
    rm_success res = true ∧ account_roles db' = [] ∧
    ∃ res', remove_user_from_role "t1" "r1" "a1" db' = (Ok res', db') ∧
            rm_success res' = false.
Proof.
  destruct (remove_user_from_role_deletes_the_pair "t1" "r1" "a1" db0
              {| role_id := "r1"; role_tenant_id := "t1"; role_name := "reader";
                 role_is_active := true |} eq_refl eq_refl)
    as (res & db' & Hrun & Hrows & Hok & _ & _ & Hagain).
  exists res, db'. split; [exact Hrun|]. split; [|split; [|exact Hagain]].
  - apply Hok. eexists. split; [left; reflexivity|]. repeat split.
  - destruct (account_roles db') as [|ar l] eqn:E; [reflexivity|].
    destruct (proj1 (Hrows ar) (or_introl eq_refl)) as [[<-|[]] Hn].
    exfalso. apply Hn. repeat split.
Defined.

Lemma add_then_remove_leaves_no_role_witness :
  ∃ res db1 res' db2,
    add_account_to_role "x2" "t1" "r2" "a1" db0 = (Ok res, db1) ∧
    success res = true ∧
    remove_user_from_role "t1" "r2" "a1" db1 = (Ok res', db2) ∧
    rm_success res' = true ∧
    roles_of db2 "t1" "a1" = [] ∧
    ∀ t' a', (t', a') ≠ ("t1", "a1") → roles_of db2 t' a' = roles_of db0 t' a'.
Proof.
  apply (add_then_remove_leaves_no_role "x2" "t1" "r2" "a1" db0
           {| role_id := "r2"; role_tenant_id := "t1"; role_name := "writer";
              role_is_active := true |}
           {| taj_tenant_id := "t1"; taj_account_id := "a1" |}).
  - reflexivity.
  - reflexivity.
  - left. reflexivity.
  - reflexivity.
  - reflexivity.
  - intros ar [<-|[]]. discriminate.
Defined.

Lemma assign_roles_to_user_replaces_witness :
  (∃ res db',
     assign_roles_to_user fresh_ids "t1" "a1" ["r2"] db0 = (Ok res, db') ∧
     (∀ r, (∃ ar, In ar (roles_of db' "t1" "a1") ∧ ar_role_id ar = r) ↔ In r ["r2"])) ∧
  ∃ msg, assign_roles_to_user fresh_ids "t1" "a1" ["r2"; "r9"] db0
         = (Raise (ValueError msg), db0).
Proof.
  split.
  - destruct (assign_roles_to_user_replaces fresh_ids "t1" "a1" ["r2"] db0
                {| taj_tenant_id := "t1"; taj_account_id := "a1" |}
                (or_introl eq_refl) eq_refl eq_refl) as [Hok _].
    destruct Hok as (res & db' & Hrun & Hroles & _).
    + intros r [<-|[]]. eexists. split; [right; left; reflexivity|]. repeat split.
    + exists res, db'. split; [exact Hrun|exact Hroles].
  - destruct (assign_roles_to_user_replaces fresh_ids "t1" "a1" ["r2"; "r9"] db0
                {| taj_tenant_id := "t1"; taj_account_id := "a1" |}
                (or_introl eq_refl) eq_refl eq_refl) as [_ Hbad].
    apply (Hbad "r9").
    + right; left; reflexivity.
    + intros (role & [<-|[<-|[]]] & Hid & _); discriminate.
Defined.

Lemma assign_accounts_to_role_replaces_witness :
  (∃ res db',
     assign_accounts_to_role fresh_ids "t1" "r2" ["a1"] db0 = (Ok res, db') ∧
     (∀ a, (∃ ar, In ar (account_roles db') ∧ ar_tenant_id ar = "t1" ∧
                  ar_role_id ar = "r2" ∧ ar_account_id ar = a) ↔ In a ["a1"])) ∧
  ∃ msg, assign_accounts_to_role fresh_ids "t1" "r2" ["a1"; "a9"] db0
         = (Raise (ValueError msg), db0).
Proof.
  split.
  - destruct (assign_accounts_to_role_replaces fresh_ids "t1" "r2" ["a1"] db0
                {| role_id := "r2"; role_tenant_id := "t1"; role_name := "writer";
                   role_is_active := true |} eq_refl eq_refl) as [Hok _].
    destruct Hok as (res & db' & Hrun & Hrows & _).
    + intros a [<-|[]]. split.
      * eexists. split; [left; reflexivity|reflexivity].
      * eexists. split; [left; reflexivity|]. split; reflexivity.
    + exists res, db'. split; [exact Hrun|exact Hrows].
  - destruct (assign_accounts_to_role_replaces fresh_ids "t1" "r2" ["a1"; "a9"] db0
                {| role_id := "r2"; role_tenant_id := "t1"; role_name := "writer";
                   role_is_active := true |} eq_refl eq_refl) as [_ Hbad].
    apply (Hbad "a9").
    + right; left; reflexivity.
    + intros [(acc & [<-|[]] & Hid) _]. discriminate.
Defined.

Lemma batch_assign_role_to_users_only_adds_witness :
  ∃ res db' added,
    batch_assign_role_to_users fresh_ids "t1" "r2" ["a1"; "a9"] db0 = (Ok res, db') ∧
    account_roles db' = (account_roles db0 ++ added)%list ∧
    length added = ba_newly_assigned res ∧
    ∃ res', batch_assign_role_to_users fresh_ids "t1" "r2" ["a1"; "a9"] db' = (Ok res', db') ∧
            ba_newly_assigned res' = 0%nat.
Proof.
  destruct (batch_assign_role_to_users_only_adds fresh_ids fresh_ids "t1" "r2" ["a1"; "a9"] db0
              {| role_id := "r2"; role_tenant_id := "t1"; role_name := "writer";
                 role_is_active := true |} eq_refl eq_refl)
    as (res & db' & added & Hrun & Hrows & Hlen & _ & _ & Hagain).
  exists res, db', added. repeat split; assumption.
Defined.

Lemma roles_after_add_account_to_role_witness :
  ∃ res db',
    add_account_to_role "x2" "t1" "r2" "a1" db0 = (Ok res, db') ∧
    get_account_roles (λ l, l) "t1" "a1" db'
    = [ {| role_id := "r2"; role_tenant_id := "t1"; role_name := "writer";
           role_is_active := true |} ].
Proof.
  apply (roles_after_add_account_to_role (λ l, l) (λ l, Permutation_refl l)
           "x2" "t1" "r2" "a1" db0
           {| role_id := "r2"; role_tenant_id := "t1"; role_name := "writer";
              role_is_active := true |}
           {| taj_tenant_id := "t1"; taj_account_id := "a1" |}).
  - apply NoDup_ListNoDup. simpl. repeat constructor; simpl; intuition discriminate.
  - reflexivity.
  - reflexivity.
  - left. reflexivity.
  - reflexivity.
  - reflexivity.
  - intros ar [<-|[]]. discriminate.
Defined.

(** *** The two listings of a role *)

(** [.offset((page - 1) * size).limit(size)]: the database refuses a
    negative OFFSET or LIMIT. *)
Definition paginate {A : Type} (page size : Z) (rows : list A) : result (list A) :=
  if ((page - 1) * size <? 0) || (size <? 0)
  then Raise (Exception_ "DataError: OFFSET and LIMIT must not be negative")
  else Ok (take (Z.to_nat size) (drop (Z.to_nat ((page - 1) * size)) rows)).

(** The result dictionaries of [get_role_accounts] and
    [get_accounts_without_role]; an item of [ra_data] is made of the
    account and of [join_info]. *)
Record RoleAccounts : Type := {
  ra_total : nat;
  ra_page : Z;
  ra_page_size : Z;
  ra_data : list (Account * option AccountRole)
}.

Record AccountsWithoutRole : Type := {
  wr_role_id : string;
  wr_role_name : string;
  wr_total : nat;
  wr_page : Z;
  wr_page_size : Z;
  wr_items : list Account
}.

Section Listings.

(** [or_(Account.name.ilike(pattern), Account.email.ilike(pattern))] for
    the pattern made of the keyword. *)
Variable keyword_matches : string → Account → bool.
(** [order_by(Account.created_at.asc())] and [order_by(Account.name.asc())]. *)
Variable order_by_created_at : list Account → list Account.
Variable order_by_name : list Account → list Account.

(** [if keyword: stmt = stmt.where(...)] *)
Definition with_keyword (keyword : option string) (a : Account) : bool :=
  if truthy keyword then keyword_matches (default "" keyword) a else true.

(** The rows of [select(Account).join(AccountRole, ...)] for the role: an
    account once for each of its rows. *)
Definition role_accounts_rows (tenant_id rid : string) (keyword : option string) (db : Db)
  : list Account :=
  flat_map (fun a =>
              map (fun _ => a)
                  (List.filter (fun ar => of_role tenant_id rid ar
                                          && String.eqb (account_id a) (ar_account_id ar))
                               (account_roles db)))
           (List.filter (with_keyword keyword) (accounts db)).

(** [RoleAccountService.get_role_accounts] *)
Definition get_role_accounts (tenant_id rid : string) (keyword : option string)
    (page page_size : Z) (db : Db) : result RoleAccounts :=
  match get_role db rid with
  | None => Raise (ValueError "角色不存在或无权限")
  | Some role =>
    if negb (String.eqb (role_tenant_id role) tenant_id)
    then Raise (ValueError "角色不存在或无权限")
    else
      let rows := role_accounts_rows tenant_id rid keyword db in
      match paginate page page_size (order_by_created_at rows) with
      | Raise e => Raise e
      | Ok accounts_ =>
        Ok {| ra_total := length rows; ra_page := page; ra_page_size := page_size;
              ra_data :=
                map (fun a => (a, first (List.filter
                                           (of_account_role tenant_id (account_id a) rid)
                                           (account_roles db))))
                    accounts_ |}
      end
  end.

(** The rows of the tenant's accounts that are not among the holders of
    the role: an account once for each of its membership rows. *)
Definition accounts_without_role_rows (tenant_id rid : string) (keyword : option string)
    (db : Db) : list Account :=
  flat_map (fun a =>
              if existsb (fun ar => of_role tenant_id rid ar
                                    && String.eqb (account_id a) (ar_account_id ar))
                         (account_roles db)
              then []
              else map (fun _ => a)
                       (List.filter (join_of tenant_id (account_id a))
                                    (tenant_account_joins db)))
           (List.filter (with_keyword keyword) (accounts db)).

(** [RoleAccountService.get_accounts_without_role] *)
Definition get_accounts_without_role (tenant_id rid : string) (keyword : option string)
    (page size : Z) (db : Db) : result AccountsWithoutRole :=
  match get_role db rid with
  | None => Raise (ValueError "角色不存在或无权限")
  | Some role =>
    if negb (String.eqb (role_tenant_id role) tenant_id)
    then Raise (ValueError "角色不存在或无权限")
    else
      let rows := accounts_without_role_rows tenant_id rid keyword db in
      match paginate page size (order_by_name rows) with
      | Raise e => Raise e
      | Ok accounts_ =>
        Ok {| wr_role_id := rid; wr_role_name := role_name role;
              wr_total := length rows; wr_page := page; wr_page_size := size;
              wr_items := accounts_ |}
      end
  end.

End Listings.

(** Every row of a listing is on one of its pages. *)
Lemma paginate_covers {A : Type} (size : Z) (rows : list A) (x : A) :
  0 < size →
  (In x rows ↔ ∃ page items, 1 ≤ page ∧ paginate page size rows = Ok items ∧ In x items).
Proof.
  intros Hsize. split.
  - intros Hin. apply list_elem_of_In, list_elem_of_lookup in Hin as [i Hi].
    exists (Z.of_nat i / size + 1).
    assert (Hq : 0 ≤ Z.of_nat i / size) by (apply Z.div_pos; lia).
    assert (Hm := Z.mod_pos_bound (Z.of_nat i) size Hsize).
    assert (Hd := Z.div_mod (Z.of_nat i) size ltac:(lia)).
    unfold paginate.
    replace (Z.of_nat i / size + 1 - 1) with (Z.of_nat i / size) by lia.
    assert (0 ≤ Z.of_nat i / size * size) by nia.
    destruct (Z.ltb_spec (Z.of_nat i / size * size) 0); [lia|].
    destruct (Z.ltb_spec size 0); [lia|]. simpl.
    eexists. split; [lia|]. split; [reflexivity|].
    apply list_elem_of_In, list_elem_of_lookup.
    exists (i - Z.to_nat (Z.of_nat i / size * size))%nat.
    rewrite lookup_take_lt by nia. rewrite lookup_drop.
    replace (Z.to_nat (Z.of_nat i / size * size)
             + (i - Z.to_nat (Z.of_nat i / size * size)))%nat with i by nia.
    exact Hi.
  - intros (page & items & _ & Hp & Hin). unfold paginate in Hp.
    destruct (_ || _); [done|]. injection Hp as <-.
    apply list_elem_of_In, elem_of_take in Hin as (i & Hi & _).
    rewrite lookup_drop in Hi. by apply list_elem_of_lookup_2, list_elem_of_In in Hi.
Qed.

Lemma In_role_accounts_rows (keyword_matches : string → Account → bool)
    (tenant_id rid : string) (keyword : option string) (db : Db) (a : Account) :
  In a (role_accounts_rows keyword_matches tenant_id rid keyword db) ↔
  In a (accounts db) ∧ with_keyword keyword_matches keyword a = true ∧
  ∃ ar, In ar (account_roles db) ∧ ar_tenant_id ar = tenant_id ∧ ar_role_id ar = rid ∧
        ar_account_id ar = account_id a.
Proof.
  unfold role_accounts_rows. rewrite in_flat_map. split.
  - intros (b & Hb & Hin). apply filter_In in Hb as [Hb Hk].
    apply in_map_iff in Hin as (ar & <- & Har). apply filter_In in Har as [Har Hp].
    apply andb_true_iff in Hp as [Hr He]. apply of_role_true in Hr as [Ht Hr].
    apply String.eqb_eq in He. split; [done|]. split; [done|]. by exists ar.
  - intros (Ha & Hk & ar & Har & Ht & Hr & He). exists a. split.
    + by apply filter_In.
    + apply in_map_iff. exists ar. split; [done|]. apply filter_In. split; [done|].
      apply andb_true_iff. split; [by apply of_role_true|]. by apply String.eqb_eq.
Qed.

Lemma In_accounts_without_role_rows (keyword_matches : string → Account → bool)
    (tenant_id rid : string) (keyword : option string) (db : Db) (a : Account) :
  In a (accounts_without_role_rows keyword_matches tenant_id rid keyword db) ↔
  In a (accounts db) ∧ with_keyword keyword_matches keyword a = true ∧
  (∃ j, In j (tenant_account_joins db) ∧ taj_tenant_id j = tenant_id ∧
        taj_account_id j = account_id a) ∧
  ¬ ∃ ar, In ar (account_roles db) ∧ ar_tenant_id ar = tenant_id ∧ ar_role_id ar = rid ∧
          ar_account_id ar = account_id a.
Proof.
  unfold accounts_without_role_rows. rewrite in_flat_map.
  assert (Hholds : ∀ b,
    existsb (fun ar => of_role tenant_id rid ar && String.eqb (account_id b) (ar_account_id ar))
            (account_roles db) = true ↔
    ∃ ar, In ar (account_roles db) ∧ ar_tenant_id ar = tenant_id ∧ ar_role_id ar = rid ∧
          ar_account_id ar = account_id b).
  { intros b. rewrite existsb_exists. split.
    - intros (ar & Har & Hp). apply andb_true_iff in Hp as [Hr He].
      apply of_role_true in Hr as [Ht Hr]. apply String.eqb_eq in He. by exists ar.
    - intros (ar & Har & Ht & Hr & He). exists ar. split; [done|].
      apply andb_true_iff. split; [by apply of_role_true|]. by apply String.eqb_eq. }
  split.
  - intros (b & Hb & Hin). apply filter_In in Hb as [Hb Hk].
    destruct (existsb _ (account_roles db)) eqn:E; [done|].
    apply in_map_iff in Hin as (j & <- & Hj). apply filter_In in Hj as [Hj Hp].
    apply join_of_true in Hp as [Ht Ha].
    split; [done|]. split; [done|]. split; [by exists j|].
    intros Hex. apply Hholds in Hex. congruence.
  - intros (Ha & Hk & (j & Hj & Ht & Hja) & Hno). exists a. split; [by apply filter_In|].
    destruct (existsb _ (account_roles db)) eqn:E; [by apply Hholds in E|].
    apply in_map_iff. exists j. split; [done|]. apply filter_In. split; [done|].
    by apply join_of_true.
Qed.

(** X7. For a role of the tenant and a positive page size, paging through
    [get_role_accounts] and [get_accounts_without_role] finds every account
    of the tenant (that the keyword, if any, matches) in exactly one of the
    two: among the holders when it has a row for the role, among the
    others when it has none. *)
Theorem role_listings_partition
    (keyword_matches : string → Account → bool)
    (order_by_created_at order_by_name : list Account → list Account)
    (tenant_id rid : string) (keyword : option string) (size : Z) (db : Db)
    (role : Role) (a : Account) (j : TenantAccountJoin) :
  (∀ l, Permutation (order_by_created_at l) l) →
  (∀ l, Permutation (order_by_name l) l) →
  get_role db rid = Some role →
  role_tenant_id role = tenant_id →
  0 < size →
  In a (accounts db) →
  In j (tenant_account_joins db) →
  taj_tenant_id j = tenant_id → taj_account_id j = account_id a →
  with_keyword keyword_matches keyword a = true →
  let holds := ∃ ar, In ar (account_roles db) ∧ ar_tenant_id ar = tenant_id ∧
                     ar_role_id ar = rid ∧ ar_account_id ar = account_id a in
  let among_holders :=
    ∃ page res, 1 ≤ page ∧
      get_role_accounts keyword_matches order_by_created_at tenant_id rid keyword page size db
      = Ok res ∧ In a (map fst (ra_data res)) in
  let among_others :=
    ∃ page res, 1 ≤ page ∧
      get_accounts_without_role keyword_matches order_by_name tenant_id rid keyword page size db
      = Ok res ∧ In a (wr_items res) in
  (among_holders ↔ holds) ∧ (among_others ↔ ¬ holds) ∧
  (among_holders ∨ among_others) ∧ ¬ (among_holders ∧ among_others).
Proof.
  intros Hperm1 Hperm2 Hrole Htenant Hsize Ha Hj Hjt Hja Hk holds among_holders among_others.
  assert (H1 : among_holders ↔ holds).
  { unfold among_holders, get_role_accounts. rewrite Hrole, Htenant, String.eqb_refl. simpl.
    transitivity (In a (order_by_created_at
                          (role_accounts_rows keyword_matches tenant_id rid keyword db))).
    - rewrite (paginate_covers size _ a Hsize). split.
      + intros (page & res & Hp & Hres & Hin). exists page.
        destruct (paginate page size _) as [items|e]; [|done]. injection Hres as <-.
        simpl in Hin. rewrite map_map, map_id in Hin. by exists items.
      + intros (page & items & Hp & Hpg & Hin). exists page. rewrite Hpg. eexists.
        split; [done|]. split; [reflexivity|]. simpl. by rewrite map_map, map_id.
    - split.
      + intros Hin. apply (Permutation_in _ (Hperm1 _)) in Hin.
        apply In_role_accounts_rows in Hin. tauto.
      + intros Hh. apply (Permutation_in _ (Permutation_sym (Hperm1 _))).
        apply In_role_accounts_rows. tauto. }
  assert (H2 : among_others ↔ ¬ holds).
  { unfold among_others, get_accounts_without_role.
    rewrite Hrole, Htenant, String.eqb_refl. simpl.
    transitivity (In a (order_by_name
                          (accounts_without_role_rows keyword_matches tenant_id rid keyword db))).
    - rewrite (paginate_covers size _ a Hsize). split.
      + intros (page & res & Hp & Hres & Hin). exists page.
        destruct (paginate page size _) as [items|e]; [|done]. injection Hres as <-.
        by exists items.
      + intros (page & items & Hp & Hpg & Hin). exists page. rewrite Hpg. eexists.
        split; [done|]. split; [reflexivity|]. done.
    - split.
      + intros Hin. apply (Permutation_in _ (Hperm2 _)) in Hin.
        apply In_accounts_without_role_rows in Hin. tauto.
      + intros Hh. apply (Permutation_in _ (Permutation_sym (Hperm2 _))).
        apply In_accounts_without_role_rows. split; [done|]. split; [done|].
        split; [by exists j|done]. }
  split; [exact H1|]. split; [exact H2|].
  assert (Hdec : holds ∨ ¬ holds).
  { destruct (existsb (fun ar => of_role tenant_id rid ar
                                 && String.eqb (account_id a) (ar_account_id ar))
                      (account_roles db)) eqn:E.
    - left. apply existsb_exists in E as (ar & Har & Hp).
      apply andb_true_iff in Hp as [Hr He]. apply of_role_true in Hr as [Ht Hr].
      apply String.eqb_eq in He. by exists ar.
    - right. intros (ar & Har & Ht & Hr & He).
      assert (existsb (fun ar => of_role tenant_id rid ar
                                 && String.eqb (account_id a) (ar_account_id ar))
                      (account_roles db) = true); [|congruence].
      apply existsb_exists. exists ar. split; [done|].
      apply andb_true_iff. split; [by apply of_role_true|]. by apply String.eqb_eq. }
  split; [tauto|tauto].
Qed.

Lemma role_listings_partition_witness :
  let a1 := {| account_id := "a1"; account_name := "ann" |} in
  (∃ page res, 1 ≤ page ∧
     get_role_accounts (fun _ _ => true) (fun l => l) "t1" "r1" None page 10 db0 = Ok res ∧
     In a1 (map fst (ra_data res))) ∧
  ¬ (∃ page res, 1 ≤ page ∧
       get_accounts_without_role (fun _ _ => true) (fun l => l) "t1" "r1" None page 10 db0
       = Ok res ∧ In a1 (wr_items res)).
Proof.
  intros a1.
  destruct (role_listings_partition (fun _ _ => true) (fun l => l) (fun l => l)
              "t1" "r1" None 10 db0
              {| role_id := "r1"; role_tenant_id := "t1"; role_name := "reader";
                 role_is_active := true |}
              a1 {| taj_tenant_id := "t1"; taj_account_id := "a1" |}
              (fun l => Permutation_refl l) (fun l => Permutation_refl l)
              eq_refl eq_refl ltac:(lia) (or_introl eq_refl) (or_introl eq_refl)
              eq_refl eq_refl eq_refl)
    as (Hholders & Hothers & _ & _).
  assert (Hholds : ∃ ar, In ar (account_roles db0) ∧ ar_tenant_id ar = "t1" ∧
                         ar_role_id ar = "r1" ∧ ar_account_id ar = account_id a1).
  { eexists. split; [left; reflexivity|]. repeat split. }
  split.
  - apply Hholders. exact Hholds.
  - intros H. apply Hothers in H. exact (H Hholds).
Defined.

End RoleAccount.

(** ** services/menu_service.py *)
Module Menu.

(** A row of [menus], without its primary key [id]: the table is the map
    from [id] to the row. *)
Record MenuRow : Type := {
  menu_key : string;
  menu_name : string;
  menu_type : string;
  parent_id : option string;
  icon : option string;
  path : option string;
  sort_order : Z;
  is_active : bool;
  description : option string
}.

(** [role_menus] rows are (role_id, menu_id). *)
Record Db : Type := {
  menus : gmap string MenuRow;
  role_menus : list (string * string)
}.

(** The [menu_data] dictionary of a request: an absent key is [None]; the
    nullable columns may be present with the value [None]. *)
Record MenuData : Type := {
  d_menu_key : option string;
  d_menu_name : option string;
  d_menu_type : option string;
  d_parent_id : option (option string);
  d_icon : option (option string);
  d_path : option (option string);
  d_sort_order : option Z;
  d_is_active : option bool;
  d_description : option (option string)
}.

(** [menu_data.get(key)] for a nullable column. *)
Definition dict_get {A : Type} (v : option (option A)) : option A :=
  match v with
  | Some x => x
  | None => None
  end.

(** The value bound to [menu_id].  The service's signatures declare a
    [str]; the console route [/workspaces/current/menus/<uuid:menu_id>]
    binds a [uuid.UUID] and [MenuDetailApi] passes it on without the
    [str(...)] that controllers/console/datasets/external.py applies to
    its path ids.  Either value is held by its text. *)
Inductive ident : Type :=
| IdStr (s : string)
| IdUuid (s : string).

(** [str(menu_id)]: what the StringUUID column type binds when the value
    reaches a query, and what it returns for a stored id. *)
Definition id_text (i : ident) : string :=
  match i with
  | IdStr s => s
  | IdUuid s => s
  end.

(** [s == menu_id] for a [str] [s]: a [str] and a [uuid.UUID] are never
    equal. *)
Definition str_eq (s : string) (i : ident) : bool :=
  match i with
  | IdStr t => String.eqb s t
  | IdUuid _ => false
  end.

(** [parent_menu.parent_id if parent_menu else None] *)
Definition next_id (M : gmap string MenuRow) (current_id : string) : option string :=
  match M !! current_id with
  | Some parent_menu => parent_id parent_menu
  | None => None
  end.

(** The [while] loop of [_would_create_cycle]; [None] when [fuel]
    iterations do not reach its end. *)
Fixpoint cycle_loop (fuel : nat) (M : gmap string MenuRow) (menu_id : ident)
    (current_id : option string) (visited : gset string) : option bool :=
  match fuel with
  | O => None
  | S fuel' =>
    match current_id with
    | Some c =>
      if negb (String.eqb c "") && negb (bool_decide (c ∈ visited)) then
        if str_eq c menu_id then Some true
        else cycle_loop fuel' M menu_id (next_id M c) ({[c]} ∪ visited)
      else Some false
    | None => Some false
    end
  end.

(** [MenuService._would_create_cycle]: the loop visits each row at most
    once, so [size M + 2] iterations always reach its end
    ([cycle_loop_total] below). *)
Definition _would_create_cycle (db : Db) (menu_id : ident) (parent : string) : bool :=
  match cycle_loop (size (menus db) + 2) (menus db) menu_id (Some parent) ∅ with
  | Some b => b
  | None => false
  end.

(** The loop over the updatable columns: a key of [menu_data] that is
    present overwrites the column. *)
Definition set_fields (menu : MenuRow) (d : MenuData) : MenuRow :=
  {| menu_key := default (menu_key menu) (d_menu_key d);
     menu_name := default (menu_name menu) (d_menu_name d);
     menu_type := default (menu_type menu) (d_menu_type d);
     parent_id := default (parent_id menu) (d_parent_id d);
     icon := default (icon menu) (d_icon d);
     path := default (path menu) (d_path d);
     sort_order := default (sort_order menu) (d_sort_order d);
     is_active := default (is_active menu) (d_is_active d);
     description := default (description menu) (d_description d) |}.

(** Is there a row with this [menu_key] whose id satisfies [other]? *)
Definition key_taken (db : Db) (key : string) (other : string -> bool) : bool :=
  existsb (fun km => String.eqb (menu_key km.2) key && other km.1) (map_to_list (menus db)).

(** [MenuService.update_menu] *)
Definition update_menu (menu_id : ident) (d : MenuData) (db : Db) : result unit * Db :=
  match menus db !! id_text menu_id with
  | None => (Raise (ValueError "菜单不存在"), db)
  | Some menu =>
    let conflict :=
      match d_menu_key d with
      | Some k =>
        if negb (String.eqb k (menu_key menu))
        then key_taken db k (fun i => negb (String.eqb i (id_text menu_id)))
        else false
      | None => false
      end in
    if conflict
    then (Raise (ValueError ("菜单key '" ++ default "" (d_menu_key d) ++ "' 已存在")), db)
    else
      let parent_error :=
        match dict_get (d_parent_id d) with
        | Some pid =>
          if truthy (Some pid) then
            if str_eq pid menu_id then Some (ValueError "菜单不能设置自己为父菜单")
            else match menus db !! pid with
                 | None => Some (ValueError "父菜单不存在")
                 | Some _ =>
                   if _would_create_cycle db menu_id pid
                   then Some (ValueError "设置父菜单会形成循环引用")
                   else None
                 end
          else None
        | None => None
        end in
      match parent_error with
      | Some e => (Raise e, db)
      | None =>
        (Ok tt, {| menus := <[id_text menu_id := set_fields menu d]> (menus db);
                   role_menus := role_menus db |})
      end
  end.

(** [MenuService.create_menu]; [new_id] is the primary key the database
    generates for the inserted row. *)
Definition create_menu (new_id : string) (d : MenuData) (db : Db) : result string * Db :=
  match d_menu_key d with
  | None => (Raise (KeyError "menu_key"), db)
  | Some k =>
    if key_taken db k (fun _ => true)
    then (Raise (Exception_ ("Menu key '" ++ k ++ "' 已存在.")), db)
    else
      let parent_missing :=
        match dict_get (d_parent_id d) with
        | Some pid =>
          if truthy (Some pid)
          then match menus db !! pid with None => true | Some _ => false end
          else false
        | None => false
        end in
      if parent_missing then (Raise (ValueError "父菜单不存在"), db)
      else
        match d_menu_name d with
        | None => (Raise (KeyError "menu_name"), db)
        | Some name =>
          let menu := {| menu_key := k;
                         menu_name := name;
                         parent_id := dict_get (d_parent_id d);
                         menu_type := default "menu" (d_menu_type d);
                         description := dict_get (d_description d);
                         icon := dict_get (d_icon d);
                         path := dict_get (d_path d);
                         sort_order := default 0 (d_sort_order d);
                         is_active := default true (d_is_active d) |} in
          (Ok new_id, {| menus := <[new_id := menu]> (menus db);
                         role_menus := role_menus db |})
        end
  end.

Record DeleteResult : Type := {
  deleted_count : Z;
  deleted_menu_name : string
}.

(** The ids of the rows with [parent_id == menu_id]. *)
Definition children_of (db : Db) (menu_id : string) : list string :=
  (List.filter (fun km => bool_decide (parent_id km.2 = Some menu_id)) (map_to_list (menus db))).*1.

(** The [for child in children] loop of [delete_menu], over the recursive
    call [rec]. *)
Fixpoint delete_children (rec : string -> Db -> option (result DeleteResult * Db))
    (children : list string) (count : Z) (db : Db) : option (result Z * Db) :=
  match children with
  | [] => Some (Ok count, db)
  | child :: rest =>
    match rec child db with
    | None => None
    | Some (Raise e, db') => Some (Raise e, db')
    | Some (Ok r, db') => delete_children rec rest (count + deleted_count r) db'
    end
  end.

(** [MenuService.delete_menu]; the recursion on the children is bounded by
    [fuel] ([None] when it runs out). Every call commits what it deleted.
    [menu_id] only reaches queries, so it is held by its text. *)
Fixpoint delete_menu (fuel : nat) (menu_id : string) (cascade : bool) (db : Db)
  : option (result DeleteResult * Db) :=
  match fuel with
  | O => None
  | S fuel' =>
    match menus db !! menu_id with
    | None => Some (Raise (ValueError "菜单不存在"), db)
    | Some menu =>
      let children := children_of db menu_id in
      let has_children := negb (Nat.eqb (length children) 0) in
      if has_children && negb cascade
      then Some (Raise (ValueError ("菜单下有 " ++ pretty (length children)
                                    ++ " 个子菜单，请先删除子菜单或使用级联删除")), db)
      else
        let after_children :=
          if cascade && has_children
          then delete_children (fun c d => delete_menu fuel' c true d) children 0 db
          else Some (Ok 0, db) in
        match after_children with
        | None => None
        | Some (Raise e, db') => Some (Raise e, db')
        | Some (Ok count, db') =>
          Some (Ok {| deleted_count := count + 1; deleted_menu_name := menu_name menu |},
                {| menus := delete menu_id (menus db');
                   role_menus := List.filter (fun rm => negb (String.eqb rm.2 menu_id))
                                             (role_menus db') |})
        end
    end
  end.

(** The outcome of [MenuDetailApi.put]: the 200 body's message, the 400
    body's message, or the exception the 500 body quotes. *)
Inductive PutResponse : Type :=
| PutOk (message : string)
| PutBadRequest (message : string)
| PutServerError (e : exn).

(** controllers/console/workspace/menu.py, [MenuDetailApi.put]: the path id
    arrives as the [uuid.UUID] the route converter made of it ([menu_id]
    here is its text) and goes to the service unchanged. *)
Definition MenuDetailApi_put (menu_id : string) (data : MenuData) (db : Db)
  : PutResponse * Db :=
  match update_menu (IdUuid menu_id) data db with
  | (Ok _, db') => (PutOk "菜单更新成功", db')
  | (Raise (ValueError msg), db') => (PutBadRequest msg, db')
  | (Raise e, db') => (PutServerError e, db')
  end.

(** *** The parent graph *)

(** [parent_edge M x y]: row [x] names [y] as its parent (an empty
    [parent_id] is no parent). *)
Definition parent_edge (M : gmap string MenuRow) (x y : string) : Prop :=
  ∃ m, M !! x = Some m ∧ parent_id m = Some y ∧ y ≠ "".

(** [x] is a descendant of [y]. *)
Definition descendant (M : gmap string MenuRow) (x y : string) : Prop :=
  tc (parent_edge M) x y.

Definition acyclic (M : gmap string MenuRow) : Prop :=
  ∀ x, ¬ descendant M x x.

(** The database-generated key occurs nowhere in the table. *)
Definition fresh_id (M : gmap string MenuRow) (i : string) : Prop :=
  M !! i = None ∧ ∀ x m, M !! x = Some m → parent_id m ≠ Some i.

(** A decision procedure for [acyclic] built from the cycle check. *)
Definition acyclicb (db : Db) : bool :=
  forallb (fun km =>
    match parent_id km.2 with
    | Some p => negb (_would_create_cycle db (IdStr km.1) p)
    | None => true
    end) (map_to_list (menus db)).

(** *** The cycle check decides reachability along parent pointers *)
Section CycleCheck.
Variable M : gmap string MenuRow.
Variable X : string.

Lemma parent_edge_next (c y : string) :
  parent_edge M c y ↔ next_id M c = Some y ∧ y ≠ "".
Proof.
  unfold parent_edge, next_id. split.
  - intros (m & Hm & Hp & Hy). rewrite Hm. done.
  - intros [Hn Hy]. destruct (M !! c) as [m|]; [|done]. by exists m.
Qed.

Lemma cycle_loop_total (fuel : nat) :
  ∀ cur (visited : gset string),
    visited ⊆ dom M → (size M + 2 ≤ fuel + size visited)%nat →
    is_Some (cycle_loop fuel M (IdStr X) cur visited).
Proof.
  induction fuel as [|fuel IH]; intros cur visited Hsub Hsz.
  - exfalso. apply subseteq_size in Hsub. rewrite size_dom in Hsub. lia.
  - simpl. destruct cur as [c|]; [|by eexists].
    destruct (negb (String.eqb c "") && negb (bool_decide (c ∈ visited))) eqn:E; [|by eexists].
    destruct (String.eqb c X); [by eexists|].
    apply andb_prop in E as [_ E]. apply negb_true_iff, bool_decide_eq_false in E.
    unfold next_id. destruct (M !! c) as [m|] eqn:Hc.
    + apply IH.
      * apply union_subseteq. split; [|done].
        apply singleton_subseteq_l, elem_of_dom. by eexists.
      * rewrite size_union by set_solver. rewrite size_singleton. lia.
    + destruct fuel as [|fuel]; [|by eexists].
      exfalso. apply subseteq_size in Hsub. rewrite size_dom in Hsub. lia.
Qed.

Lemma cycle_loop_true (fuel : nat) :
  ∀ cur visited,
    cycle_loop fuel M (IdStr X) cur visited = Some true →
    ∃ c, cur = Some c ∧ c ≠ "" ∧ rtc (parent_edge M) c X.
Proof.
  induction fuel as [|fuel IH]; intros cur visited H; simpl in H; [done|].
  destruct cur as [c|]; [|done].
  destruct (negb (String.eqb c "") && negb (bool_decide (c ∈ visited))) eqn:E; [|done].
  apply andb_prop in E as [E _]. apply negb_true_iff, String.eqb_neq in E.
  exists c. split; [done|]. split; [done|].
  destruct (String.eqb c X) eqn:Ec.
  - apply String.eqb_eq in Ec as ->. apply rtc_refl.
  - apply IH in H as (c' & Hn & Hc' & Hr).
    eapply rtc_l; [|exact Hr]. by apply parent_edge_next.
Qed.

Lemma closed_no_reach (S : gset string) :
  (∀ v y, v ∈ S → parent_edge M v y → y ∈ S) → X ∉ S →
  ∀ v, v ∈ S → ¬ rtc (parent_edge M) v X.
Proof.
  intros Hcl HX v Hv Hr. induction Hr as [x|x y z Hxy Hyz IH]; [done|].
  apply IH; [done|]. by eapply Hcl.
Qed.

Lemma cycle_loop_false (fuel : nat) :
  ∀ cur (visited : gset string),
    cycle_loop fuel M (IdStr X) cur visited = Some false →
    X ∉ visited →
    (∀ v y, v ∈ visited → parent_edge M v y → y ∈ visited ∨ cur = Some y) →
    ∀ v, v ∈ visited ∨ (cur = Some v ∧ v ≠ "") → ¬ rtc (parent_edge M) v X.
Proof.
  induction fuel as [|fuel IH]; intros cur visited H HX Hcl v Hv; simpl in H; [done|].
  assert (Hstop : (∀ c, cur = Some c → c = "" ∨ c ∈ visited) → ¬ rtc (parent_edge M) v X).
  { intros Hc. apply (closed_no_reach visited); [|done|].
    - intros a b Ha Hab. destruct (Hcl a b Ha Hab) as [|Hb]; [done|].
      destruct (Hc b Hb) as [->|]; [|done]. by destruct Hab as (? & ? & ? & ?).
    - destruct Hv as [|[Hv Hne]]; [done|]. by destruct (Hc v Hv). }
  destruct cur as [c|]; [|by apply Hstop].
  destruct (negb (String.eqb c "") && negb (bool_decide (c ∈ visited))) eqn:E.
  - apply andb_prop in E as [E1 E2].
    apply negb_true_iff, String.eqb_neq in E1.
    apply negb_true_iff, bool_decide_eq_false in E2.
    destruct (String.eqb c X) eqn:Ec; [done|]. apply String.eqb_neq in Ec.
    eapply (IH _ _ H).
    + set_solver.
    + intros a b Ha Hab. apply elem_of_union in Ha as [Ha|Ha].
      * apply elem_of_singleton in Ha as ->. right.
        by apply parent_edge_next in Hab as [-> _].
      * destruct (Hcl a b Ha Hab) as [|Hb]; [set_solver|].
        injection Hb as <-. set_solver.
    + left. destruct Hv as [|[[= <-] _]]; set_solver.
  - apply Hstop. intros c' [= <-].
    apply andb_false_iff in E as [E|E].
    + left. by apply negb_false_iff, String.eqb_eq in E.
    + right. by apply negb_false_iff, bool_decide_eq_true in E.
Qed.
End CycleCheck.

(** [_would_create_cycle menu_id parent] is true exactly when [menu_id]
    lies on the parent chain that starts at [parent]. *)
Lemma would_create_cycle_spec (db : Db) (menu_id parent : string) :
  _would_create_cycle db (IdStr menu_id) parent = true ↔
  parent ≠ "" ∧ rtc (parent_edge (menus db)) parent menu_id.
Proof.
  unfold _would_create_cycle.
  destruct (cycle_loop_total (menus db) menu_id (size (menus db) + 2) (Some parent) ∅)
    as [b Hb]; [set_solver|lia|].
  rewrite Hb. destruct b.
  - split; [intros _|done].
    apply cycle_loop_true in Hb as (c & [= <-] & ? & ?). done.
  - split; [done|]. intros [Hne Hr]. exfalso.
    eapply (cycle_loop_false _ _ _ _ _ Hb); [set_solver|set_solver| |exact Hr].
    right. done.
Qed.

(** *** Acyclicity under the three writes *)

Lemma descendant_cycle_inv (M : gmap string MenuRow) (x : string) :
  descendant M x x → ∃ y, parent_edge M x y ∧ rtc (parent_edge M) y x.
Proof.
  unfold descendant. intros H. inversion H as [? ? Hxy|? y ? Hxy Hyx]; subst.
  - exists x. split; [done|apply rtc_refl].
  - exists y. split; [done|by apply tc_rtc].
Qed.

Lemma parent_edge_insert_ne (M : gmap string MenuRow) (k : string) (row : MenuRow) (a b : string) :
  a ≠ k → parent_edge (<[k := row]> M) a b → parent_edge M a b.
Proof.
  intros Hne (m & Hm & ?). rewrite lookup_insert_ne in Hm by done. by exists m.
Qed.

Lemma rtc_insert_target (M : gmap string MenuRow) (k : string) (row : MenuRow) (a : string) :
  rtc (parent_edge (<[k := row]> M)) a k → rtc (parent_edge M) a k.
Proof.
  revert a. apply rtc_ind_l; [apply rtc_refl|].
  intros a b Hab _ IH.
  destruct (decide (a = k)) as [->|Hne]; [apply rtc_refl|].
  eapply rtc_l; [|exact IH]. by eapply parent_edge_insert_ne.
Qed.

Lemma tc_insert_split (M : gmap string MenuRow) (k : string) (row : MenuRow) (x y : string) :
  tc (parent_edge (<[k := row]> M)) x y →
  tc (parent_edge M) x y ∨
  (rtc (parent_edge (<[k := row]> M)) x k ∧ tc (parent_edge (<[k := row]> M)) k y).
Proof.
  intros H. induction H as [x y Hxy|x y z Hxy Hyz IH].
  - destruct (decide (x = k)) as [->|Hne].
    + right. split; [apply rtc_refl|by apply tc_once].
    + left. apply tc_once. by eapply parent_edge_insert_ne.
  - destruct (decide (x = k)) as [->|Hne].
    + right. split; [apply rtc_refl|by eapply tc_l].
    + destruct IH as [IH|[IH1 IH2]].
      * left. eapply tc_l; [|exact IH]. by eapply parent_edge_insert_ne.
      * right. split; [|done]. by eapply rtc_l.
Qed.

(** Writing row [k] keeps the graph acyclic when [k] is not on the parent
    chain of its new parent. *)
Lemma acyclic_insert (M : gmap string MenuRow) (k : string) (row : MenuRow) :
  acyclic M →
  (∀ p, parent_id row = Some p → p ≠ "" → ¬ rtc (parent_edge M) p k) →
  acyclic (<[k := row]> M).
Proof.
  intros Hac Hp x Hx.
  assert (Hk : descendant (<[k := row]> M) k k).
  { destruct (tc_insert_split _ _ _ _ _ Hx) as [H|[H1 H2]]; [by destruct (Hac x)|].
    by eapply tc_rtc_r. }
  apply descendant_cycle_inv in Hk as (y & (m & Hm & Hpar & Hy) & Hr).
  rewrite lookup_insert_eq in Hm. injection Hm as <-.
  apply (Hp y Hpar Hy). by eapply rtc_insert_target.
Qed.

Lemma parent_edge_weaken (M M' : gmap string MenuRow) (a b : string) :
  M' ⊆ M → parent_edge M' a b → parent_edge M a b.
Proof.
  intros Hsub (m & Hm & ?). exists m. split; [|done]. by eapply lookup_weaken.
Qed.

(** Removing rows cannot create a cycle. *)
Lemma acyclic_subseteq (M M' : gmap string MenuRow) :
  M' ⊆ M → acyclic M → acyclic M'.
Proof.
  intros Hsub Hac x Hx. apply (Hac x). unfold descendant in *.
  eapply (tc_congruence (λ i, i)); [|exact Hx].
  intros a b Hab. by eapply parent_edge_weaken.
Qed.

Lemma acyclicb_sound (db : Db) : acyclicb db = true → acyclic (menus db).
Proof.
  unfold acyclicb. rewrite forallb_forall. intros H x Hx.
  apply descendant_cycle_inv in Hx as (y & (m & Hm & Hpar & Hy) & Hr).
  specialize (H (x, m)). simpl in H. rewrite Hpar in H.
  assert (Hc : _would_create_cycle db (IdStr x) y = true) by (by apply would_create_cycle_spec).
  rewrite Hc in H. apply Bool.diff_true_false. symmetry. apply H.
  apply list_elem_of_In, elem_of_map_to_list. done.
Qed.

Lemma update_menu_acyclic (menu_id : string) (d : MenuData) (db : Db) :
  acyclic (menus db) → acyclic (menus (update_menu (IdStr menu_id) d db).2).
Proof.
  intros Hac. unfold update_menu. simpl id_text. simpl str_eq.
  destruct (menus db !! menu_id) as [menu|] eqn:Hmenu; [|done].
  match goal with |- context [if ?c then _ else _] => destruct c end; [done|].
  destruct (dict_get (d_parent_id d)) as [pid|] eqn:Hget.
  - destruct (truthy (Some pid)) eqn:Ht.
    + destruct (String.eqb pid menu_id) eqn:Epid; [done|].
      destruct (menus db !! pid) as [parent|] eqn:Hparent; [|done].
      destruct (_would_create_cycle db (IdStr menu_id) pid) eqn:Hcyc; [done|].
      simpl. apply acyclic_insert; [done|].
      intros p Hp Hne Hr. unfold set_fields in Hp; simpl in Hp.
      destruct (d_parent_id d) as [v|]; [|done]. simpl in Hget, Hp. subst v.
      injection Hp as ->.
      assert (_would_create_cycle db (IdStr menu_id) p = true) by (by apply would_create_cycle_spec).
      congruence.
    + simpl. apply acyclic_insert; [done|].
      intros p Hp Hne _. unfold set_fields in Hp; simpl in Hp.
      destruct (d_parent_id d) as [v|]; [|done]. simpl in Hget, Hp. subst v.
      injection Hp as ->. simpl in Ht.
      apply negb_false_iff, String.eqb_eq in Ht. done.
  - simpl. apply acyclic_insert; [done|].
    intros p Hp Hne Hr. unfold set_fields in Hp; simpl in Hp.
    destruct (d_parent_id d) as [v|]; simpl in Hget, Hp; [congruence|].
    apply (Hac menu_id). eapply tc_rtc_r; [|exact Hr].
    apply tc_once. by exists menu.
Qed.

Lemma create_menu_acyclic (new_id : string) (d : MenuData) (db : Db) :
  acyclic (menus db) → fresh_id (menus db) new_id →
  acyclic (menus (create_menu new_id d db).2).
Proof.
  intros Hac [Hfree Hunref]. unfold create_menu.
  destruct (d_menu_key d) as [k|]; [|done].
  destruct (key_taken db k _); [done|].
  match goal with |- context [if ?c then _ else _] => destruct c eqn:Hmissing end; [done|].
  destruct (d_menu_name d) as [name|]; [|done].
  simpl. apply acyclic_insert; [done|].
  intros p Hp Hne Hr. simpl in Hp.
  apply rtc_inv_r in Hr as [->|(y & _ & (m & Hm & Hpar & _))].
  - (* the parent would be the new row itself, but the parent must exist *)
    rewrite Hp in Hmissing. simpl in Hmissing.
    apply String.eqb_neq in Hne. rewrite Hne, Hfree in Hmissing. done.
  - by apply (Hunref y m).
Qed.

Lemma delete_children_subseteq (rec : string → Db → option (result DeleteResult * Db)) :
  (∀ c d r d', rec c d = Some (r, d') → menus d' ⊆ menus d) →
  ∀ cs count db r db',
    delete_children rec cs count db = Some (r, db') → menus db' ⊆ menus db.
Proof.
  intros Hrec. induction cs as [|c cs IH]; simpl; intros count db r db' H.
  - by injection H as _ <-.
  - destruct (rec c db) as [[[r0|e] d1]|] eqn:E; [| |done].
    + etrans; [by eapply IH|by eapply Hrec].
    + injection H as _ <-. by eapply Hrec.
Qed.

Lemma delete_menu_subseteq (fuel : nat) :
  ∀ menu_id cascade db r db',
    delete_menu fuel menu_id cascade db = Some (r, db') → menus db' ⊆ menus db.
Proof.
  induction fuel as [|fuel IH]; simpl; intros menu_id cascade db r db' H; [done|].
  destruct (menus db !! menu_id) as [menu|]; [|by injection H as _ <-].
  destruct (_ && negb cascade); [by injection H as _ <-|].
  match type of H with
  | match ?a with _ => _ end = _ => destruct a as [[[count|e] d1]|] eqn:E; [| |done]
  end.
  - injection H as _ <-. simpl. etrans; [apply delete_subseteq|].
    destruct (cascade && _); [|by injection E as _ <-].
    eapply delete_children_subseteq; [|exact E]. intros c d r0 d'. apply IH.
  - injection H as _ <-.
    destruct (cascade && _); [|done].
    eapply delete_children_subseteq; [|exact E]. intros c d r0 d'. apply IH.
Qed.

(** *** [delete_menu] returns on an acyclic table *)

(** Every chain of parent pointers that ends in [X] is shorter than [f]. *)
Definition height_below (M : gmap string MenuRow) (X : string) (f : nat) : Prop :=
  ∀ y n, nsteps (parent_edge M) n y X → (n < f)%nat.

Lemma children_of_edge (db : Db) (X c : string) :
  X ≠ "" → c ∈ children_of db X → parent_edge (menus db) c X.
Proof.
  intros HX Hc. unfold children_of in Hc.
  apply list_elem_of_fmap in Hc as ([c' m] & -> & Hin).
  apply list_elem_of_In, filter_In in Hin as [Hin Hp].
  apply list_elem_of_In, elem_of_map_to_list in Hin. apply bool_decide_eq_true in Hp.
  by exists m.
Qed.

Lemma delete_children_total (rec : string → Db → option (result DeleteResult * Db)) (db0 : Db) :
  (∀ c d r d', rec c d = Some (r, d') → menus d' ⊆ menus d) →
  ∀ cs, (∀ c d, c ∈ cs → menus d ⊆ menus db0 → is_Some (rec c d)) →
  ∀ count d, menus d ⊆ menus db0 → is_Some (delete_children rec cs count d).
Proof.
  intros Hsub. induction cs as [|c cs IH]; simpl; intros Hrec count d Hd; [by eexists|].
  destruct (Hrec c d) as [[[r|e] d1] E]; [set_solver|done| |]; rewrite E; [|by eexists].
  apply IH; [intros; apply Hrec; set_solver|].
  etrans; [by eapply Hsub|done].
Qed.

Lemma delete_menu_total (fuel : nat) :
  ∀ menu_id cascade db,
    menus db !! "" = None → height_below (menus db) menu_id fuel →
    is_Some (delete_menu fuel menu_id cascade db).
Proof.
  induction fuel as [|fuel IH]; intros menu_id cascade db Hempty Hh.
  - exfalso. specialize (Hh menu_id 0%nat (nsteps_O _ _)). lia.
  - simpl. destruct (menus db !! menu_id) as [menu|] eqn:Hmenu; [|by eexists].
    assert (HX : menu_id ≠ "") by congruence.
    destruct (_ && negb cascade); [by eexists|].
    assert (Hch : is_Some (delete_children (λ c d, delete_menu fuel c true d)
                             (children_of db menu_id) 0 db)).
    { apply (delete_children_total _ db); [intros c d r d'; apply delete_menu_subseteq| |done].
      intros c d Hc Hd. apply IH; [by eapply lookup_weaken_None|].
      intros y n Hn. apply children_of_edge in Hc; [|done].
      assert (Hn' : nsteps (parent_edge (menus db)) (S n) y menu_id).
      { eapply nsteps_r; [|exact Hc].
        eapply nsteps_congruence with (f := λ i, i); [|exact Hn].
        intros a b Hab. by eapply parent_edge_weaken. }
      specialize (Hh _ _ Hn'). lia. }
    destruct (cascade && _).
    + destruct Hch as [[[count|e] d1] ->]; by eexists.
    + by eexists.
Qed.

Lemma chain_sources (M : gmap string MenuRow) :
  acyclic M → ∀ n y X, nsteps (parent_edge M) n y X →
  ∃ l : list string, length l = n ∧ NoDup l ∧
    ∀ a, a ∈ l → a ∈ dom M ∧ rtc (parent_edge M) y a.
Proof.
  intros Hac n y X H. induction H as [x|n x y z Hxy Hyz (l & Hlen & Hnd & Hl)].
  - exists []. split; [done|]. split; [constructor|]. intros a Ha. by apply elem_of_nil in Ha.
  - exists (x :: l). split; [simpl; by rewrite Hlen|]. split.
    + constructor; [|done]. intros Hx. apply Hl in Hx as [_ Hr].
      apply (Hac x). eapply tc_rtc_r; [by apply tc_once|done].
    + intros a Ha. apply elem_of_cons in Ha as [->|Ha].
      * split; [|apply rtc_refl]. destruct Hxy as (m & Hm & _). apply elem_of_dom. by eexists.
      * apply Hl in Ha as [? ?]. split; [done|]. by eapply rtc_l.
Qed.

Lemma acyclic_height (M : gmap string MenuRow) (X : string) :
  acyclic M → height_below M X (S (size M)).
Proof.
  intros Hac y n Hn. apply chain_sources in Hn as (l & <- & Hnd & Hl); [|done].
  rewrite <- (size_list_to_set (C := gset string) l) by done.
  rewrite <- (size_dom M).
  apply Nat.lt_succ_r, subseteq_size. intros a Ha.
  apply elem_of_list_to_set in Ha. by apply Hl.
Qed.

(** A request that names the menu itself or one of its descendants as
    the new parent is refused and nothing is written. *)
Lemma update_menu_rejects_cycle (db : Db) (menu_id : string) (d : MenuData) (P : string) :
  dict_get (d_parent_id d) = Some P → P ≠ "" →
  P = menu_id ∨ descendant (menus db) P menu_id →
  ∃ msg, update_menu (IdStr menu_id) d db = (Raise (ValueError msg), db).
Proof.
  intros Hget Hne HP. unfold update_menu. simpl id_text. simpl str_eq.
  destruct (menus db !! menu_id) as [menu|]; [|by eexists].
  match goal with |- context [if ?c then _ else _] => destruct c end; [by eexists|].
  rewrite Hget. simpl. apply String.eqb_neq in Hne as Hne'. rewrite Hne'. simpl.
  destruct (String.eqb P menu_id) eqn:E; [by eexists|].
  destruct HP as [->|HP]; [by rewrite String.eqb_refl in E|].
  assert (is_Some (menus db !! P)) as [parent ->].
  { unfold descendant in HP. inversion HP as [? ? (m & Hm & _)|? ? ? (m & Hm & _)]; by eexists. }
  assert (_would_create_cycle db (IdStr menu_id) P = true) as ->.
  { apply would_create_cycle_spec. split; [done|]. by apply tc_rtc. }
  by eexists.
Qed.

(** With a [str] id, as the service's signatures declare, the check does
    its work.  On an acyclic menu table: an update whose new parent is the
    menu itself or one of its descendants is refused with the table
    unchanged; and the table is acyclic after every [update_menu], after
    every [create_menu] (the new key being fresh) and after every
    [delete_menu], which returns within [size + 1] nested calls. *)
Lemma service_keeps_tree_acyclic (db : Db) :
  acyclic (menus db) →
  (∀ menu_id d P,
     dict_get (d_parent_id d) = Some P → P ≠ "" →
     P = menu_id ∨ descendant (menus db) P menu_id →
     ∃ msg, update_menu (IdStr menu_id) d db = (Raise (ValueError msg), db)) ∧
  (∀ menu_id d, acyclic (menus (update_menu (IdStr menu_id) d db).2)) ∧
  (∀ new_id d, fresh_id (menus db) new_id → acyclic (menus (create_menu new_id d db).2)) ∧
  (∀ fuel menu_id cascade r db',
     delete_menu fuel menu_id cascade db = Some (r, db') → acyclic (menus db')) ∧
  (menus db !! "" = None →
   ∀ menu_id cascade, is_Some (delete_menu (S (size (menus db))) menu_id cascade db)).
Proof.
  intros Hac. repeat split.
  - intros menu_id d P. apply update_menu_rejects_cycle.
  - intros menu_id d. by apply update_menu_acyclic.
  - intros new_id d. by apply create_menu_acyclic.
  - intros fuel menu_id cascade r db' H.
    eapply acyclic_subseteq; [|exact Hac]. by eapply delete_menu_subseteq.
  - intros Hempty menu_id cascade. apply delete_menu_total; [done|].
    by apply acyclic_height.
Qed.

(** *** The check under the console route *)

(** Against a [uuid.UUID] the walk never finds [menu_id]. *)
Lemma cycle_loop_uuid (fuel : nat) (M : gmap string MenuRow) (u : string) :
  ∀ cur visited, cycle_loop fuel M (IdUuid u) cur visited ≠ Some true.
Proof.
  induction fuel as [|fuel IH]; intros cur visited; simpl; [done|].
  destruct cur as [c|]; [|done].
  destruct (_ && _); [apply IH|done].
Qed.

Lemma would_create_cycle_uuid (db : Db) (u parent : string) :
  _would_create_cycle db (IdUuid u) parent = false.
Proof.
  unfold _would_create_cycle.
  destruct (cycle_loop _ _ _ _ _) as [[|]|] eqn:E; [|done|done].
  by apply cycle_loop_uuid in E.
Qed.

(** Rewriting row [k] keeps every chain that leads to [k]. *)
Lemma rtc_insert_source (M : gmap string MenuRow) (k : string) (row : MenuRow) (a : string) :
  rtc (parent_edge M) a k → rtc (parent_edge (<[k := row]> M)) a k.
Proof.
  revert a. apply rtc_ind_l; [apply rtc_refl|].
  intros a b Hab _ IH.
  destruct (decide (a = k)) as [->|Hne]; [apply rtc_refl|].
  eapply rtc_l; [|exact IH].
  destruct Hab as (m & Hm & ?). exists m. by rewrite lookup_insert_ne.
Qed.

(** C8 (the code as written). A PUT on
    [/workspaces/current/menus/<uuid:menu_id>] reaches [update_menu] with a
    [uuid.UUID], which no [str] equals: neither the self-parent test nor
    the walk of [_would_create_cycle] can find the menu.  So for every
    existing menu [X] and every existing menu [P], the request that sets
    [X]'s parent to [P] is answered with success and written; when [P] is
    [X] itself or a descendant of [X] the parent graph has a cycle
    afterwards. *)
Theorem menu_put_accepts_cycle (db : Db) (X P : string) (d : MenuData) (m p : MenuRow) :
  menus db !! X = Some m → menus db !! P = Some p →
  d_menu_key d = None → d_parent_id d = Some (Some P) → P ≠ "" →
  ∃ db',
    MenuDetailApi_put X d db = (PutOk "菜单更新成功", db') ∧
    menus db' = <[X := set_fields m d]> (menus db) ∧
    parent_edge (menus db') X P ∧
    (P = X ∨ descendant (menus db) P X → ¬ acyclic (menus db')).
Proof.
  intros HX HP Hkey Hpar Hne.
  assert (Hedge : parent_edge (<[X := set_fields m d]> (menus db)) X P).
  { exists (set_fields m d). rewrite lookup_insert_eq. split; [done|].
    unfold set_fields; simpl. by rewrite Hpar. }
  exists {| menus := <[X := set_fields m d]> (menus db); role_menus := role_menus db |}.
  split; [|split; [reflexivity|split; [exact Hedge|]]].
  - unfold MenuDetailApi_put, update_menu. simpl id_text. simpl str_eq.
    rewrite HX, Hkey, Hpar. simpl.
    apply String.eqb_neq in Hne as ->. simpl.
    by rewrite HP, would_create_cycle_uuid.
  - intros Hcyc Hac. apply (Hac X). simpl.
    destruct Hcyc as [->|Hdesc]; [by apply tc_once|].
    eapply tc_rtc_r; [by apply tc_once|].
    apply rtc_insert_source. by apply tc_rtc.
Qed.

Definition row0 (key : string) (parent : option string) : MenuRow :=
  {| menu_key := key; menu_name := key; menu_type := "menu"; parent_id := parent;
     icon := None; path := None; sort_order := 0; is_active := true; description := None |}.

Definition m1 : string := "00000000-0000-0000-0000-000000000001".
Definition m2 : string := "00000000-0000-0000-0000-000000000002".
Definition m3 : string := "00000000-0000-0000-0000-000000000003".

(** A root [m1] with child [m2] and grandchild [m3]. *)
Definition db0 : Db :=
  {| menus := <[m1 := row0 "home" None]>
              (<[m2 := row0 "apps" (Some m1)]>
              (<[m3 := row0 "tools" (Some m2)]> ∅));
     role_menus := [("r1", m3)] |}.

(** The request body [{parent_id: p}]. *)
Definition reparent (p : string) : MenuData :=
  {| d_menu_key := None; d_menu_name := None; d_menu_type := None;
     d_parent_id := Some (Some p); d_icon := None; d_path := None;
     d_sort_order := None; d_is_active := None; d_description := None |}.

Example update_menu_refuses_descendant :
  update_menu (IdStr m1) (reparent m3) db0
  = (Raise (ValueError "设置父菜单会形成循环引用"), db0).
Proof. vm_compute. reflexivity. Qed.

Example update_menu_refuses_self :
  update_menu (IdStr m2) (reparent m2) db0
  = (Raise (ValueError "菜单不能设置自己为父菜单"), db0).
Proof. vm_compute. reflexivity. Qed.

Example update_menu_moves_leaf :
  (update_menu (IdStr m3) (reparent m1) db0).1 = Ok tt ∧
  menus (update_menu (IdStr m3) (reparent m1) db0).2 !! m3 = Some (row0 "tools" (Some m1)).
Proof. split; vm_compute; reflexivity. Qed.

Example delete_menu_cascade :
  ∃ db', delete_menu 4 m1 true db0
         = Some (Ok {| deleted_count := 3; deleted_menu_name := "home" |}, db') ∧
         menus db' = ∅ ∧ role_menus db' = [].
Proof. eexists. split; [vm_compute; reflexivity|]. split; reflexivity. Qed.

Example delete_menu_needs_cascade :
  ∃ msg, delete_menu 4 m1 false db0 = Some (Raise (ValueError msg), db0).
Proof. eexists. vm_compute. reflexivity. Qed.

Example db0_acyclic : acyclic (menus db0).
Proof. apply acyclicb_sound. vm_compute. reflexivity. Qed.

(** Through the console route the self-parent request is accepted, and
    so is the one that names a descendant. *)
Example put_accepts_self_parent :
  ∃ db', MenuDetailApi_put m2 (reparent m2) db0 = (PutOk "菜单更新成功", db') ∧
         menus db' !! m2 = Some (row0 "apps" (Some m2)).
Proof. eexists. split; vm_compute; reflexivity. Qed.

Lemma menu_put_accepts_cycle_witness :
  ∃ db',
    MenuDetailApi_put m1 (reparent m3) db0 = (PutOk "菜单更新成功", db') ∧
    menus db' = <[m1 := set_fields (row0 "home" None) (reparent m3)]> (menus db0) ∧
    parent_edge (menus db') m1 m3 ∧
    (m3 = m1 ∨ descendant (menus db0) m3 m1 → ¬ acyclic (menus db')).
Proof.
  apply (menu_put_accepts_cycle db0 m1 m3 (reparent m3)
           (row0 "home" None) (row0 "tools" (Some m2))).
  - vm_compute. reflexivity.
  - vm_compute. reflexivity.
  - reflexivity.
  - reflexivity.
  - discriminate.
Defined.

(** ** Further properties of the menu service *)

(** *** Unique keys *)

(** No two rows have the same [menu_key]. *)
Definition keys_unique (M : gmap string MenuRow) : Prop :=
  ∀ i j m n, M !! i = Some m → M !! j = Some n → menu_key m = menu_key n → i = j.

Lemma key_taken_true (db : Db) (k : string) (other : string → bool) :
  key_taken db k other = true ↔
  ∃ i m, menus db !! i = Some m ∧ menu_key m = k ∧ other i = true.
Proof.
  unfold key_taken. rewrite existsb_exists. split.
  - intros ([i m] & Hin & Hp). apply list_elem_of_In, elem_of_map_to_list in Hin.
    apply andb_true_iff in Hp as [Hk Ho]. apply String.eqb_eq in Hk. by exists i, m.
  - intros (i & m & Hm & Hk & Ho). exists (i, m). split.
    + by apply list_elem_of_In, elem_of_map_to_list.
    + simpl. rewrite Ho. apply String.eqb_eq in Hk as ->. done.
Qed.

Lemma keys_unique_subseteq (M M' : gmap string MenuRow) :
  M' ⊆ M → keys_unique M → keys_unique M'.
Proof.
  intros Hsub Hu i j m n Hi Hj. apply Hu; by eapply lookup_weaken.
Qed.

(** Writing row [k] with a key no other row has keeps the keys unique. *)
Lemma keys_unique_insert (M : gmap string MenuRow) (k : string) (row : MenuRow) :
  keys_unique M →
  (∀ i m, M !! i = Some m → i ≠ k → menu_key m ≠ menu_key row) →
  keys_unique (<[k := row]> M).
Proof.
  intros Hu Hother i j m n Hi Hj Hkey.
  destruct (decide (i = k)) as [->|Hik], (decide (j = k)) as [->|Hjk]; [done| | |].
  - rewrite lookup_insert_eq in Hi. rewrite lookup_insert_ne in Hj by done.
    injection Hi as <-. by destruct (Hother j n Hj).
  - rewrite lookup_insert_eq in Hj. rewrite lookup_insert_ne in Hi by done.
    injection Hj as <-. by destruct (Hother i m Hi).
  - rewrite lookup_insert_ne in Hi, Hj by done. by eapply Hu.
Qed.

(** X8. The table never gets two rows with the same [menu_key]: if the
    keys are unique they are unique after every [update_menu] (whatever
    value [menu_id] is bound to), after every [create_menu] and after every
    [delete_menu]. *)
Theorem menu_keys_stay_unique (db : Db) :
  keys_unique (menus db) →
  (∀ menu_id d, keys_unique (menus (update_menu menu_id d db).2)) ∧
  (∀ new_id d, keys_unique (menus (create_menu new_id d db).2)) ∧
  (∀ fuel menu_id cascade r db',
     delete_menu fuel menu_id cascade db = Some (r, db') → keys_unique (menus db')).
Proof.
  intros Hu. split; [|split].
  - intros menu_id d. unfold update_menu.
    destruct (menus db !! id_text menu_id) as [menu|] eqn:Hmenu; [|done].
    destruct (d_menu_key d) as [k|] eqn:Hk.
    + destruct (negb (String.eqb k (menu_key menu))) eqn:Hchanged.
      * destruct (key_taken db k _) eqn:Htaken; [done|].
        match goal with |- context [match ?e with Some _ => _ | None => _ end] =>
          destruct e end; [done|].
        simpl. apply keys_unique_insert; [done|].
        intros i m Hm Hne Hsame. unfold set_fields in Hsame. rewrite Hk in Hsame. simpl in Hsame.
        assert (key_taken db k (λ i, negb (String.eqb i (id_text menu_id))) = true); [|congruence].
        apply key_taken_true. exists i, m. split; [done|]. split; [done|].
        by apply negb_true_iff, String.eqb_neq.
      * match goal with |- context [match ?e with Some _ => _ | None => _ end] =>
          destruct e end; [done|].
        simpl. apply keys_unique_insert; [done|].
        intros i m Hm Hne Hsame. unfold set_fields in Hsame. rewrite Hk in Hsame. simpl in Hsame.
        apply negb_false_iff, String.eqb_eq in Hchanged. subst k.
        apply Hne. by eapply Hu.
    + match goal with |- context [match ?e with Some _ => _ | None => _ end] =>
        destruct e end; [done|].
      simpl. apply keys_unique_insert; [done|].
      intros i m Hm Hne Hsame. unfold set_fields in Hsame. rewrite Hk in Hsame. simpl in Hsame.
      apply Hne. by eapply Hu.
  - intros new_id d. unfold create_menu.
    destruct (d_menu_key d) as [k|]; [|done].
    destruct (key_taken db k _) eqn:Htaken; [done|].
    match goal with |- context [if ?c then _ else _] => destruct c end; [done|].
    destruct (d_menu_name d) as [name|]; [|done].
    simpl. apply keys_unique_insert; [done|].
    intros i m Hm Hne Hsame. simpl in Hsame.
    assert (key_taken db k (λ _, true) = true); [|congruence].
    apply key_taken_true. by exists i, m.
  - intros fuel menu_id cascade r db' H.
    eapply keys_unique_subseteq; [|exact Hu]. by eapply delete_menu_subseteq.
Qed.

(** *** What [delete_menu] removes *)

Lemma children_of_elem (db : Db) (X c : string) :
  c ∈ children_of db X ↔ ∃ m, menus db !! c = Some m ∧ parent_id m = Some X.
Proof.
  unfold children_of. rewrite list_elem_of_fmap. split.
  - intros ([c' m] & -> & Hin). apply list_elem_of_In, filter_In in Hin as [Hin Hp].
    apply list_elem_of_In, elem_of_map_to_list in Hin. apply bool_decide_eq_true in Hp.
    by exists m.
  - intros (m & Hm & Hp). exists (c, m). split; [done|].
    apply list_elem_of_In, filter_In. split.
    + by apply list_elem_of_In, elem_of_map_to_list.
    + by apply bool_decide_eq_true.
Qed.

Lemma children_of_NoDup (db : Db) (X : string) : NoDup (children_of db X).
Proof.
  unfold children_of.
  assert (H : ∀ l : list (string * MenuRow), NoDup l.*1 →
            NoDup (List.filter (λ km, bool_decide (parent_id km.2 = Some X)) l).*1).
  { induction l as [|[k m] l IH]; simpl; [done|]. intros [Hk Hl]%NoDup_cons.
    destruct (bool_decide _); simpl; [|by apply IH].
    apply NoDup_cons. split; [|by apply IH].
    intros Hin. apply Hk. apply list_elem_of_fmap in Hin as ([k' m'] & -> & Hin).
    apply list_elem_of_In, filter_In in Hin as [Hin _]. apply list_elem_of_In in Hin.
    apply list_elem_of_fmap. by exists (k', m'). }
  apply H, NoDup_fst_map_to_list.
Qed.

(** The state of a cascade that has deleted the menus [done] and what
    hangs under them, seen from the table [db] it started from. *)
Record deleted_below (db : Db) (done : list string) (d : Db) : Prop := {
  below_subseteq : menus d ⊆ menus db;
  below_gone : ∀ x c, c ∈ done → rtc (parent_edge (menus db)) x c → menus d !! x = None;
  below_kept : ∀ x, (∀ c, c ∈ done → ¬ rtc (parent_edge (menus db)) x c) →
                    menus d !! x = menus db !! x;
  below_links : ∀ rm, In rm (role_menus d) ↔
                      In rm (role_menus db) ∧
                      ∀ c, c ∈ done → ¬ rtc (parent_edge (menus db)) rm.2 c
}.

Lemma deleted_below_start (db : Db) : deleted_below db [] db.
Proof.
  split; [done| | |].
  - intros x c Hc. by apply elem_of_nil in Hc.
  - done.
  - intros rm. split; [|tauto]. intros H. split; [done|]. intros c Hc. by apply elem_of_nil in Hc.
Qed.

(** A chain that avoids what was deleted is still there. *)
Lemma deleted_below_rtc (db : Db) (done : list string) (d : Db) (x c : string) :
  deleted_below db done d →
  rtc (parent_edge (menus db)) x c →
  (∀ c', c' ∈ done → ¬ rtc (parent_edge (menus db)) x c') →
  rtc (parent_edge (menus d)) x c.
Proof.
  intros Hd Hr. induction Hr as [x|x y z Hxy Hyz IH]; intros Hx; [apply rtc_refl|].
  eapply rtc_l.
  - destruct Hxy as (m & Hm & Hp). exists m. split; [|done].
    by rewrite (below_kept _ _ _ Hd x Hx).
  - apply IH. intros c' Hc' Hr. apply (Hx c' Hc'). by eapply rtc_l.
Qed.

(** One more deletion below [c]. *)
Lemma deleted_below_step (db : Db) (done : list string) (d d' : Db) (c : string) :
  deleted_below db done d →
  menus d' ⊆ menus d →
  (∀ x, rtc (parent_edge (menus d)) x c → menus d' !! x = None) →
  (∀ x, ¬ rtc (parent_edge (menus d)) x c → menus d' !! x = menus d !! x) →
  (∀ rm, In rm (role_menus d') ↔
         In rm (role_menus d) ∧ ¬ rtc (parent_edge (menus d)) rm.2 c) →
  deleted_below db (done ++ [c]) d'.
Proof.
  intros Hd Hsub Hgone Hkept Hlinks.
  assert (Hmono : ∀ x, rtc (parent_edge (menus d)) x c → rtc (parent_edge (menus db)) x c).
  { intros x. apply (rtc_congruence (λ i, i)). intros a b Hab.
    eapply parent_edge_weaken; [|done]. apply Hd. }
  assert (Hback : ∀ x, rtc (parent_edge (menus db)) x c →
            (∀ c', c' ∈ done → ¬ rtc (parent_edge (menus db)) x c') →
            rtc (parent_edge (menus d)) x c).
  { intros x. by apply deleted_below_rtc. }
  split.
  - etrans; [done|apply Hd].
  - intros x c' Hc' Hr. apply elem_of_app in Hc' as [Hc'|Hc'].
    + eapply lookup_weaken_None; [|exact Hsub]. by eapply below_gone.
    + apply list_elem_of_singleton in Hc' as ->.
      destruct (menus d !! x) as [m|] eqn:Hx; [|by eapply lookup_weaken_None].
      apply Hgone, Hback; [done|].
      intros c' Hc' Hr'. by rewrite (below_gone _ _ _ Hd x c' Hc' Hr') in Hx.
  - intros x Hx. rewrite Hkept.
    + apply (below_kept _ _ _ Hd). intros c' Hc'. apply Hx. set_solver.
    + intros Hr. apply (Hx c); [set_solver|]. by apply Hmono.
  - intros rm. rewrite Hlinks, (below_links _ _ _ Hd). split.
    + intros [[Hin Hn] Hnc]. split; [done|]. intros c' [Hc'|Hc']%elem_of_app; [by apply Hn|].
      apply list_elem_of_singleton in Hc' as ->. intros Hr. apply Hnc, Hback; [done|].
      intros c' Hc'. by apply Hn.
    + intros [Hin Hn]. split; [split; [done|]|].
      * intros c' Hc'. apply Hn. set_solver.
      * intros Hr. apply (Hn c); [set_solver|]. by apply Hmono.
Qed.

(** [db'] is [db] without the menu [X], the menus under it and the role
    links to them. *)
Definition removes_subtree (db : Db) (X : string) (db' : Db) : Prop :=
  (∀ x, rtc (parent_edge (menus db)) x X → menus db' !! x = None) ∧
  (∀ x, ¬ rtc (parent_edge (menus db)) x X → menus db' !! x = menus db !! x) ∧
  (∀ rm, In rm (role_menus db') ↔
         In rm (role_menus db) ∧ ¬ rtc (parent_edge (menus db)) rm.2 X).

Lemma delete_children_below (rec : string → Db → option (result DeleteResult * Db))
    (db : Db) :
  (∀ c d r d', menus d !! "" = None → rec c d = Some (Ok r, d') →
               removes_subtree d c d' ∧ menus d' ⊆ menus d) →
  menus db !! "" = None →
  ∀ cs done count d count' d',
    deleted_below db done d →
    delete_children rec cs count d = Some (Ok count', d') →
    deleted_below db (done ++ cs) d'.
Proof.
  intros Hrec Hempty. induction cs as [|c cs IH]; simpl; intros done count d count' d' Hd H.
  - injection H as _ <-. by rewrite app_nil_r.
  - destruct (rec c d) as [[[r|e] d1]|] eqn:E; [|done|done].
    assert (Hd_empty : menus d !! "" = None).
    { eapply lookup_weaken_None; [exact Hempty|apply Hd]. }
    destruct (Hrec c d r d1 Hd_empty E) as [(Hgone & Hkept & Hlinks) Hsub].
    replace (done ++ c :: cs)%list with ((done ++ [c]) ++ cs)%list
      by (by rewrite <- app_assoc).
    eapply IH; [|exact H]. by eapply deleted_below_step.
Qed.

Lemma delete_menu_Ok_lookup (fuel : nat) (X : string) (cascade : bool) (db : Db)
    (r : DeleteResult) (db' : Db) :
  delete_menu fuel X cascade db = Some (Ok r, db') →
  ∃ menu, menus db !! X = Some menu ∧ deleted_menu_name r = menu_name menu ∧
          (cascade = false → children_of db X = []).
Proof.
  destruct fuel as [|fuel]; [done|]. cbn -[delete_children].
  destruct (menus db !! X) as [menu|]; [|done]. intros H. exists menu. split; [done|].
  destruct (negb (length (children_of db X) =? 0)%nat && negb cascade) eqn:Hrefuse; [done|].
  split.
  - match type of H with
    | match ?e with _ => _ end = _ => destruct e as [[[count|e'] d1]|]; [|done|done]
    end.
    by injection H as <- _.
  - intros ->. destruct (children_of db X); [done|]. done.
Qed.

Lemma delete_menu_removes_subtree (fuel : nat) :
  ∀ X cascade db r db',
    menus db !! "" = None →
    delete_menu fuel X cascade db = Some (Ok r, db') →
    removes_subtree db X db'.
Proof.
  induction fuel as [|fuel IH]; intros X cascade db r db' Hempty H; [done|].
  simpl in H.
  destruct (menus db !! X) as [menu|] eqn:Hmenu; [|done].
  assert (HX : X ≠ "") by congruence.
  destruct (negb (length (children_of db X) =? 0)%nat && negb cascade) eqn:Hrefuse; [done|].
  assert (∃ d1, deleted_below db (children_of db X) d1 ∧
            db' = {| menus := delete X (menus d1);
                     role_menus := List.filter (λ rm, negb (String.eqb rm.2 X))
                                               (role_menus d1) |})
    as (d1 & Hd & ->).
  { destruct (cascade && negb (length (children_of db X) =? 0)%nat) eqn:Hloop.
    - destruct (delete_children _ _ _ _) as [[[count|e] d1]|] eqn:E; [|done|done].
      injection H as _ <-. exists d1. split; [|reflexivity].
      eapply (delete_children_below _ db) with (done := []); [|done|apply deleted_below_start|exact E].
      intros c d r0 d' Hd_empty Hc. simpl in Hc.
      split; [by eapply (IH c true d)|by eapply delete_menu_subseteq].
    - injection H as _ <-. exists db. split; [|reflexivity].
      assert (children_of db X = []) as ->; [|apply deleted_below_start].
      destruct (children_of db X) as [|c cs]; [done|]. simpl in *.
      destruct cascade; done. }
  clear H Hrefuse.
  assert (Hchild : ∀ x, rtc (parent_edge (menus db)) x X →
            x = X ∨ ∃ c, c ∈ children_of db X ∧ rtc (parent_edge (menus db)) x c).
  { intros x Hr. apply rtc_inv_r in Hr as [->|(c & Hr & m & Hm & Hp & _)]; [by left|].
    right. exists c. split; [|done]. apply children_of_elem. by exists m. }
  assert (Hup : ∀ x c, c ∈ children_of db X → rtc (parent_edge (menus db)) x c →
            rtc (parent_edge (menus db)) x X).
  { intros x c Hc Hr. eapply rtc_r; [exact Hr|]. by apply children_of_edge. }
  split; [|split]; simpl.
  - intros x Hr. apply lookup_delete_None.
    destruct (Hchild x Hr) as [->|(c & Hc & Hrc)]; [by left|].
    right. by eapply (below_gone _ _ _ Hd).
  - intros x Hx.
    assert (x ≠ X) by (intros ->; apply Hx, rtc_refl).
    rewrite lookup_delete_ne by done. apply (below_kept _ _ _ Hd).
    intros c Hc Hr. apply Hx. by eapply Hup.
  - intros rm. rewrite filter_In, (below_links _ _ _ Hd), negb_true_iff, String.eqb_neq.
    split.
    + intros [[Hin Hn] Hne]. split; [done|]. intros Hr.
      destruct (Hchild _ Hr) as [?|(c & Hc & Hrc)]; [done|]. by apply (Hn c).
    + intros [Hin Hn]. split; [split; [done|]|].
      * intros c Hc Hr. apply Hn. by eapply Hup.
      * intros Heq. apply Hn. rewrite Heq. apply rtc_refl.
Qed.

Lemma children_not_below_each_other (db : Db) (X c c' : string) :
  acyclic (menus db) → X ≠ "" →
  c ∈ children_of db X → c' ∈ children_of db X → c ≠ c' →
  ¬ rtc (parent_edge (menus db)) c c'.
Proof.
  intros Hac HX Hc Hc' Hne Hr.
  apply rtc_inv in Hr as [?|(y & (m & Hm & Hp & _) & Hr)]; [done|].
  apply children_of_elem in Hc as (m' & Hm' & Hp').
  assert (y = X) as -> by congruence.
  apply (Hac X). eapply tc_rtc_l; [exact Hr|]. apply tc_once. by apply children_of_edge.
Qed.

Lemma menu_not_below_child (db : Db) (X c : string) :
  acyclic (menus db) → X ≠ "" → c ∈ children_of db X →
  ¬ rtc (parent_edge (menus db)) X c.
Proof.
  intros Hac HX Hc Hr. apply (Hac X).
  eapply tc_rtc_l; [exact Hr|]. apply tc_once. by apply children_of_edge.
Qed.

(** On an acyclic table the loop over the children deletes every one of
    them, and counts what it deletes. *)
Lemma delete_children_succeed (rec : string → Db → option (result DeleteResult * Db))
    (db : Db) (X : string) :
  acyclic (menus db) → menus db !! "" = None → X ≠ "" →
  (∀ c d, c ∈ children_of db X → menus d ⊆ menus db → is_Some (menus d !! c) →
          ∃ r d', rec c d = Some (Ok r, d') ∧ removes_subtree d c d' ∧ menus d' ⊆ menus d ∧
                  Z.of_nat (size (menus d)) = Z.of_nat (size (menus d')) + deleted_count r) →
  ∀ cs done count d,
    deleted_below db done d →
    NoDup (done ++ cs)%list → (∀ c, c ∈ (done ++ cs)%list → c ∈ children_of db X) →
    ∃ count' d',
      delete_children rec cs count d = Some (Ok count', d') ∧
      deleted_below db (done ++ cs) d' ∧
      count' + Z.of_nat (size (menus d')) = count + Z.of_nat (size (menus d)).
Proof.
  intros Hac Hempty HX Hrec. induction cs as [|c cs IH]; simpl; intros done count d Hd Hnd Hch.
  - exists count, d. rewrite app_nil_r. done.
  - assert (Hc : is_Some (menus d !! c)).
    { rewrite (below_kept _ _ _ Hd).
      - apply (elem_of_dom (menus db)). assert (Hcc : c ∈ children_of db X) by (apply Hch; set_solver).
        apply children_of_elem in Hcc as (m & Hm & _). apply elem_of_dom. by eexists.
      - intros c' Hc'. apply (children_not_below_each_other db X); [done|done| | |].
        + apply Hch. set_solver.
        + apply Hch. set_solver.
        + intros ->. apply NoDup_app in Hnd as (_ & Hdis & _). apply (Hdis c' Hc'). set_solver. }
    destruct (Hrec c d) as (r & d1 & E & (Hgone & Hkept & Hlinks) & Hsub & Hsize);
      [apply Hch; set_solver|apply Hd|done|].
    rewrite E.
    replace (done ++ c :: cs)%list with ((done ++ [c]) ++ cs)%list in *
      by (by rewrite <- app_assoc).
    destruct (IH (done ++ [c])%list (count + deleted_count r) d1)
      as (count' & d' & Hrun & Hd' & Hcount); [by eapply deleted_below_step|done|done|].
    exists count', d'. split; [done|]. split; [done|]. lia.
Qed.

(** On an acyclic table a cascading delete of an existing menu goes
    through: it removes the menu with everything under it, and it counts
    the rows it removes. *)
Lemma delete_menu_cascade_succeeds (fuel : nat) :
  ∀ X db menu,
    acyclic (menus db) → menus db !! "" = None →
    menus db !! X = Some menu → height_below (menus db) X fuel →
    ∃ r db',
      delete_menu fuel X true db = Some (Ok r, db') ∧
      removes_subtree db X db' ∧
      deleted_menu_name r = menu_name menu ∧
      Z.of_nat (size (menus db)) = Z.of_nat (size (menus db')) + deleted_count r.
Proof.
  induction fuel as [|fuel IH]; intros X db menu Hac Hempty Hmenu Hh.
  { exfalso. specialize (Hh X 0%nat (nsteps_O _ _)). lia. }
  assert (HX : X ≠ "") by congruence.
  assert (Hrec : ∀ c d, c ∈ children_of db X → menus d ⊆ menus db → is_Some (menus d !! c) →
            ∃ r d', delete_menu fuel c true d = Some (Ok r, d') ∧ removes_subtree d c d' ∧
                    menus d' ⊆ menus d ∧
                    Z.of_nat (size (menus d)) = Z.of_nat (size (menus d')) + deleted_count r).
  { intros c d Hc Hsub [m Hm].
    destruct (IH c d m) as (r & d' & Hrun & Hspec & _ & Hsize).
    - by eapply acyclic_subseteq.
    - by eapply lookup_weaken_None.
    - done.
    - intros y n Hn. apply children_of_edge in Hc; [|done].
      assert (Hn' : nsteps (parent_edge (menus db)) (S n) y X).
      { eapply nsteps_r; [|exact Hc].
        eapply nsteps_congruence with (f := λ i, i); [|exact Hn].
        intros a b Hab. by eapply parent_edge_weaken. }
      specialize (Hh _ _ Hn'). lia.
    - exists r, d'. split; [done|]. split; [done|]. split; [|done].
      by eapply delete_menu_subseteq. }
  destruct (delete_children_succeed (λ c d, delete_menu fuel c true d) db X Hac Hempty HX Hrec
              (children_of db X) [] 0 db (deleted_below_start db))
    as (count & d1 & Hrun & Hd & Hcount); [apply children_of_NoDup|done|].
  simpl in Hd.
  assert (Hrun' : delete_menu (S fuel) X true db
            = Some (Ok {| deleted_count := count + 1; deleted_menu_name := menu_name menu |},
                    {| menus := delete X (menus d1);
                       role_menus := List.filter (λ rm, negb (String.eqb rm.2 X))
                                                 (role_menus d1) |})).
  { cbn -[delete_children]. rewrite Hmenu. rewrite andb_false_r. simpl andb.
    destruct (negb (length (children_of db X) =? 0)%nat) eqn:Hhas.
    - by rewrite Hrun.
    - destruct (children_of db X); [|done]. simpl in Hrun. by injection Hrun as <- <-. }
  eexists _, _. split; [exact Hrun'|]. split; [|split; [done|]].
  - by eapply delete_menu_removes_subtree.
  - simpl.
    assert (HX1 : menus d1 !! X = Some menu).
    { rewrite (below_kept _ _ _ Hd); [done|].
      intros c Hc. by apply menu_not_below_child. }
    pose proof (map_size_delete_Some X (menus d1) (mk_is_Some _ _ HX1)).
    pose proof (map_size_ne_0_lookup_2 (menus d1) X (mk_is_Some _ _ HX1)). lia.
Qed.

(** X9. On an acyclic table (no row having the empty id), a cascading
    [delete_menu] of an existing menu returns within [size + 1] nested
    calls, and it removes exactly the menu and its descendants: their rows
    are gone, every other row is untouched, the role links that remain are
    those to the other menus, the returned count is the number of rows
    removed, and the returned name is the menu's. *)
Theorem delete_menu_cascade_removes_the_subtree (db : Db) (X : string) (menu : MenuRow) :
  acyclic (menus db) → menus db !! "" = None → menus db !! X = Some menu →
  ∃ r db',
    delete_menu (S (size (menus db))) X true db = Some (Ok r, db') ∧
    (∀ x, x = X ∨ descendant (menus db) x X → menus db' !! x = None) ∧
    (∀ x, x ≠ X → ¬ descendant (menus db) x X → menus db' !! x = menus db !! x) ∧
    (∀ rm, In rm (role_menus db') ↔
           In rm (role_menus db) ∧ rm.2 ≠ X ∧ ¬ descendant (menus db) rm.2 X) ∧
    deleted_count r = Z.of_nat (size (menus db)) - Z.of_nat (size (menus db')) ∧
    deleted_menu_name r = menu_name menu.
Proof.
  intros Hac Hempty Hmenu.
  destruct (delete_menu_cascade_succeeds (S (size (menus db))) X db menu Hac Hempty Hmenu)
    as (r & db' & Hrun & (Hgone & Hkept & Hlinks) & Hname & Hsize); [by apply acyclic_height|].
  exists r, db'. split; [done|]. unfold descendant.
  split; [|split; [|split; [|split; [lia|done]]]].
  - intros x Hx. apply Hgone, rtc_tc. naive_solver.
  - intros x Hne Hx. apply Hkept. rewrite rtc_tc. naive_solver.
  - intros rm. rewrite Hlinks, rtc_tc. naive_solver.
Qed.

(** *** References that stay valid *)

(** Every parent a row names is a row of the table (an empty [parent_id]
    names none), and every role link points at a row. *)
Definition references_valid (db : Db) : Prop :=
  (∀ i m p, menus db !! i = Some m → parent_id m = Some p → p ≠ "" →
            is_Some (menus db !! p)) ∧
  (∀ rm, In rm (role_menus db) → is_Some (menus db !! rm.2)).

Lemma references_valid_insert (db : Db) (k : string) (row : MenuRow) :
  references_valid db →
  (∀ p, parent_id row = Some p → p ≠ "" → is_Some (menus db !! p)) →
  references_valid {| menus := <[k := row]> (menus db); role_menus := role_menus db |}.
Proof.
  intros [Hp Hl] Hrow. split; simpl.
  - intros i m p Hm Hpar Hne. apply lookup_insert_is_Some'. right.
    destruct (decide (i = k)) as [->|Hik].
    + rewrite lookup_insert_eq in Hm. injection Hm as <-. by apply Hrow.
    + rewrite lookup_insert_ne in Hm by done. by eapply Hp.
  - intros rm Hrm. apply lookup_insert_is_Some'. right. by apply Hl.
Qed.

(** X10. The table never gets a dangling reference. If every non-empty
    [parent_id] names a row and every role link points at a row (and no row
    has the empty id), the same holds after every [update_menu] (whatever
    value [menu_id] is bound to), after every [create_menu], and after every
    [delete_menu] that returns normally, with or without cascade. *)
Theorem menu_references_stay_valid (db : Db) :
  references_valid db → menus db !! "" = None →
  (∀ menu_id d, references_valid (update_menu menu_id d db).2) ∧
  (∀ new_id d, references_valid (create_menu new_id d db).2) ∧
  (∀ fuel menu_id cascade r db',
     delete_menu fuel menu_id cascade db = Some (Ok r, db') → references_valid db').
Proof.
  intros Hv Hempty. split; [|split].
  - intros menu_id d. unfold update_menu.
    destruct (menus db !! id_text menu_id) as [menu|] eqn:Hmenu; [|done].
    match goal with |- context [if ?c then _ else _] => destruct c end; [done|].
    destruct (dict_get (d_parent_id d)) as [pid|] eqn:Hget.
    + destruct (truthy (Some pid)) eqn:Ht.
      * destruct (str_eq pid menu_id); [done|].
        destruct (menus db !! pid) as [parent|] eqn:Hparent; [|done].
        destruct (_would_create_cycle db menu_id pid); [done|].
        simpl. apply references_valid_insert; [done|].
        intros p Hp _. unfold set_fields in Hp; simpl in Hp.
        destruct (d_parent_id d) as [v|]; [|done]. simpl in Hget, Hp. subst v.
        injection Hp as <-. by eexists.
      * simpl. apply references_valid_insert; [done|].
        intros p Hp Hne. unfold set_fields in Hp; simpl in Hp.
        destruct (d_parent_id d) as [v|]; [|done]. simpl in Hget, Hp. subst v.
        injection Hp as <-. simpl in Ht. by apply negb_false_iff, String.eqb_eq in Ht.
    + simpl. apply references_valid_insert; [done|].
      intros p Hp Hne. unfold set_fields in Hp; simpl in Hp.
      destruct (d_parent_id d) as [v|]; simpl in Hget, Hp; [congruence|].
      destruct Hv as [Hv _]. by eapply Hv.
  - intros new_id d. unfold create_menu.
    destruct (d_menu_key d) as [k|]; [|done].
    destruct (key_taken db k _); [done|].
    destruct (dict_get (d_parent_id d)) as [pid|] eqn:Hget.
    + destruct (truthy (Some pid)) eqn:Ht.
      * destruct (menus db !! pid) as [parent|] eqn:Hparent; [|done].
        destruct (d_menu_name d) as [name|]; [|done].
        simpl. apply references_valid_insert; [done|]. simpl.
        intros p [= <-] _. by eexists.
      * destruct (d_menu_name d) as [name|]; [|done].
        simpl. apply references_valid_insert; [done|]. simpl.
        intros p [= <-] Hne. simpl in Ht. by apply negb_false_iff, String.eqb_eq in Ht.
    + destruct (d_menu_name d) as [name|]; [|done].
      simpl. by apply references_valid_insert.
  - intros fuel menu_id cascade r db' Hrun.
    destruct (delete_menu_removes_subtree fuel menu_id cascade db r db' Hempty Hrun)
      as (Hgone & Hkept & Hlinks).
    assert (Hsub : menus db' ⊆ menus db) by (by eapply delete_menu_subseteq).
    destruct Hv as [Hp Hl]. split.
    + intros i m p Hm Hpar Hne.
      assert (Hm0 : menus db !! i = Some m) by (by eapply lookup_weaken).
      rewrite Hkept; [by eapply Hp|].
      intros Hr. rewrite Hgone in Hm; [done|].
      eapply rtc_l; [|exact Hr]. by exists m.
    + intros rm Hrm. apply Hlinks in Hrm as [Hin Hn]. rewrite Hkept by done. by apply Hl.
Qed.

(** *** The properties on the example table *)

Lemma db0_rows (i : string) (m : MenuRow) :
  menus db0 !! i = Some m →
  (i = m1 ∧ m = row0 "home" None) ∨ (i = m2 ∧ m = row0 "apps" (Some m1)) ∨
  (i = m3 ∧ m = row0 "tools" (Some m2)).
Proof.
  unfold db0; simpl. intros H.
  apply lookup_insert_Some in H as [[<- <-]|[_ H]]; [by left|].
  apply lookup_insert_Some in H as [[<- <-]|[_ H]]; [by right; left|].
  apply lookup_insert_Some in H as [[<- <-]|[_ H]]; [by right; right|].
  done.
Qed.

Example db0_keys_unique : keys_unique (menus db0).
Proof.
  intros i j m n Hi Hj Hk.
  apply db0_rows in Hi as [[-> ->]|[[-> ->]|[-> ->]]];
    apply db0_rows in Hj as [[-> ->]|[[-> ->]|[-> ->]]]; done.
Qed.

Example db0_references_valid : references_valid db0.
Proof.
  split.
  - intros i m p Hi Hp _.
    apply db0_rows in Hi as [[-> ->]|[[-> ->]|[-> ->]]]; simpl in Hp; [done| |];
      injection Hp as <-; eexists; vm_compute; reflexivity.
  - intros rm [<-|[]]. eexists. vm_compute. reflexivity.
Qed.

Lemma menu_keys_stay_unique_witness :
  keys_unique (menus (update_menu (IdStr m3) (reparent m1) db0).2).
Proof.
  destruct (menu_keys_stay_unique db0 db0_keys_unique) as [Hupdate _].
  apply Hupdate.
Defined.

Lemma delete_menu_cascade_removes_the_subtree_witness :
  ∃ r db',
    delete_menu 4 m2 true db0 = Some (Ok r, db') ∧
    menus db' !! m2 = None ∧ menus db' !! m3 = None ∧
    menus db' !! m1 = menus db0 !! m1 ∧
    deleted_menu_name r = "apps".
Proof.
  destruct (delete_menu_cascade_removes_the_subtree db0 m2 (row0 "apps" (Some m1))
              db0_acyclic ltac:(vm_compute; reflexivity) ltac:(vm_compute; reflexivity))
    as (r & db' & Hrun & Hgone & Hkept & _ & _ & Hname).
  exists r, db'. split; [exact Hrun|]. split; [|split; [|split; [|exact Hname]]].
  - apply Hgone. by left.
  - apply Hgone. right. apply tc_once. exists (row0 "tools" (Some m2)).
    split; [vm_compute; reflexivity|]. split; [reflexivity|discriminate].
  - apply Hkept; [discriminate|].
    intros Hd.
    assert (Hroot : ∀ y, ¬ parent_edge (menus db0) m1 y).
    { intros y (m & Hm & Hp & _). apply db0_rows in Hm as [[_ ->]|[[? _]|[? _]]]; discriminate. }
    inversion Hd as [? ? He|? ? ? He]; exact (Hroot _ He).
Defined.

Lemma menu_references_stay_valid_witness :
  references_valid (update_menu (IdStr m3) (reparent m1) db0).2 ∧
  ∀ r db', delete_menu 4 m2 true db0 = Some (Ok r, db') → references_valid db'.
Proof.
  destruct (menu_references_stay_valid db0 db0_references_valid ltac:(vm_compute; reflexivity))
    as (Hupdate & _ & Hdelete).
  split; [apply Hupdate|]. intros r db'. apply Hdelete.
Defined.

(** *** The menu tree *)

(** A menu dictionary, as [to_dict] makes it: the id and the columns. *)
Abbreviation MenuDict := (string * MenuRow)%type.

(** The value [build_menu_tree] returns: each dictionary with the list it
    holds under [children]. *)
Inductive MenuTree : Type :=
| MenuNode (menu : MenuDict) (children : list MenuTree).

(** [{menu['id']: menu for menu in menus}]: the dictionaries are told apart
    by their place in [menus], and a later dictionary replaces an earlier
    one with the same id. *)
Fixpoint menu_dict_from (i : nat) (menus : list MenuDict) (d : gmap string nat)
  : gmap string nat :=
  match menus with
  | [] => d
  | menu :: rest => menu_dict_from (S i) rest (<[menu.1 := i]> d)
  end.

Definition menu_dict (menus : list MenuDict) : gmap string nat := menu_dict_from 0 menus ∅.

(** The dictionary to whose [children] the second loop appends [menu]:
    [menu_dict[menu['parent_id']]] when [parent_id] is truthy and a key of
    [menu_dict]; [None] when [menu] is appended to [tree]. *)
Definition parent_of (menus : list MenuDict) (j : nat) : option nat :=
  menu ← menus !! j;
  p ← parent_id menu.2;
  if String.eqb p "" then None else menu_dict menus !! p.

(** The [children] list of the dictionary at place [i] after the second
    loop, and the list [tree]: places in the order of [menus]. *)
Definition children_at (menus : list MenuDict) (i : nat) : list nat :=
  List.filter (fun j => bool_decide (parent_of menus j = Some i)) (seq 0 (length menus)).

Definition roots (menus : list MenuDict) : list nat :=
  List.filter (fun j => bool_decide (parent_of menus j = None)) (seq 0 (length menus)).

(** The order of the keys [(x['sort_order'], x['menu_name'])]. *)
Definition key_le (a b : MenuRow) : bool :=
  (sort_order a <? sort_order b)
  || ((sort_order a =? sort_order b) && String.leb (menu_name a) (menu_name b)).

(** [nodes.sort(key=...)]: the sort is stable. *)
Fixpoint insert_by {A : Type} (le : A → A → bool) (x : A) (l : list A) : list A :=
  match l with
  | [] => [x]
  | y :: l' => if le x y then x :: l else y :: insert_by le x l'
  end.

Definition sort_by {A : Type} (le : A → A → bool) (l : list A) : list A :=
  fold_right (insert_by le) [] l.

Definition place_le (menus : list MenuDict) (i j : nat) : bool :=
  match menus !! i, menus !! j with
  | Some a, Some b => key_le a.2 b.2
  | _, _ => true
  end.

(** [sort_tree(nodes)] and what it leaves under a node: the nodes in key
    order, each with its children sorted in the same way. [fuel] bounds the
    depth of the calls. *)
Fixpoint tree_at (fuel : nat) (menus : list MenuDict) (j : nat) : option MenuTree :=
  match fuel with
  | O => None
  | S f =>
    menu ← menus !! j;
    children ← mapM (tree_at f menus) (sort_by (place_le menus) (children_at menus j));
    Some (MenuNode menu children)
  end.

(** [MenuService.build_menu_tree] *)
Definition build_menu_tree (menus : list MenuDict) : option (list MenuTree) :=
  mapM (tree_at (length menus) menus) (sort_by (place_le menus) (roots menus)).

Definition named (i : string) (name : string) (order : Z) (parent : option string) : MenuDict :=
  (i, {| menu_key := name; menu_name := name; menu_type := "menu"; parent_id := parent;
         icon := None; path := None; sort_order := order; is_active := true;
         description := None |}).

Example build_menu_tree_sorts :
  build_menu_tree [ named "1" "home" 2 None; named "2" "zeta" 1 (Some "1");
                    named "3" "alpha" 1 (Some "1"); named "4" "admin" 1 None;
                    named "5" "lost" 0 (Some "9") ]
  = Some [ MenuNode (named "5" "lost" 0 (Some "9")) [];
           MenuNode (named "4" "admin" 1 None) [];
           MenuNode (named "1" "home" 2 None)
             [ MenuNode (named "3" "alpha" 1 (Some "1")) [];
               MenuNode (named "2" "zeta" 1 (Some "1")) [] ] ].
Proof. vm_compute. reflexivity. Qed.

(** Two menus that are each other's parent, and a menu under them, are in
    no tree. *)
Example build_menu_tree_drops_cycle :
  build_menu_tree [ named "1" "a" 0 (Some "2"); named "2" "b" 0 (Some "1");
                    named "3" "c" 0 (Some "1"); named "4" "d" 0 None ]
  = Some [ MenuNode (named "4" "d" 0 None) [] ].
Proof. vm_compute. reflexivity. Qed.

(** **** The places of a list and their parents *)

Lemma menu_dict_from_other (p : string) (menus : list MenuDict) :
  ∀ i0 d, p ∉ map fst menus → menu_dict_from i0 menus d !! p = d !! p.
Proof.
  induction menus as [|m rest IH]; intros i0 d Hp; simpl; [done|].
  simpl in Hp. apply not_elem_of_cons in Hp as [Hne Hp].
  rewrite IH by done. by rewrite lookup_insert_ne.
Qed.

Lemma menu_dict_from_lookup (p : string) (menus : list MenuDict) :
  ∀ i0 d i, menu_dict_from i0 menus d !! p = Some i →
            d !! p = Some i ∨
            (i0 ≤ i)%nat ∧ ∃ row, menus !! (i - i0)%nat = Some (p, row).
Proof.
  induction menus as [|m rest IH]; intros i0 d i H; simpl in H; [by left|].
  apply IH in H as [H|[Hle [row Hrow]]].
  - destruct (decide (m.1 = p)) as [<-|Hne].
    + rewrite lookup_insert_eq in H. injection H as <-. right. split; [lia|].
      exists m.2. rewrite Nat.sub_diag. simpl. by destruct m.
    + rewrite lookup_insert_ne in H by done. by left.
  - right. split; [lia|]. exists row.
    replace (i - i0)%nat with (S (i - S i0)) by lia. exact Hrow.
Qed.

Lemma menu_dict_from_NoDup (menus : list MenuDict) :
  ∀ i0 d x p row, NoDup (map fst menus) → menus !! x = Some (p, row) →
                  menu_dict_from i0 menus d !! p = Some (i0 + x)%nat.
Proof.
  induction menus as [|m rest IH]; intros i0 d x p row Hnd Hx; [done|].
  simpl in Hnd. apply NoDup_cons in Hnd as [Hm Hnd]. simpl.
  destruct x as [|x]; simpl in Hx.
  - injection Hx as ->. simpl in *. rewrite menu_dict_from_other by done.
    rewrite lookup_insert_eq. f_equal. lia.
  - rewrite (IH (S i0) _ x p row Hnd Hx). f_equal. lia.
Qed.

Lemma parent_of_Some (menus : list MenuDict) (j i : nat) :
  parent_of menus j = Some i →
  ∃ menu p row, menus !! j = Some menu ∧ parent_id menu.2 = Some p ∧ p ≠ "" ∧
                menus !! i = Some (p, row).
Proof.
  unfold parent_of. destruct (menus !! j) as [menu|] eqn:Hj; [simpl|done].
  destruct (parent_id menu.2) as [p|] eqn:Hp; [simpl|done].
  destruct (String.eqb_spec p "") as [|Hne]; [done|].
  intros H. apply menu_dict_from_lookup in H as [H|[_ [row Hrow]]]; [done|].
  rewrite Nat.sub_0_r in Hrow. by exists menu, p, row.
Qed.

Lemma parent_of_lt (menus : list MenuDict) (j i : nat) :
  parent_of menus j = Some i → (j < length menus)%nat ∧ (i < length menus)%nat.
Proof.
  intros (menu & p & row & Hj & _ & _ & Hi)%parent_of_Some.
  split; by eapply lookup_lt_Some.
Qed.

(** With distinct ids, the parent of a place is the place of the menu its
    [parent_id] names. *)
Lemma parent_of_NoDup (menus : list MenuDict) (j i : nat) (menu parent : MenuDict) :
  NoDup (map fst menus) →
  menus !! j = Some menu → menus !! i = Some parent →
  parent_id menu.2 = Some parent.1 → parent.1 ≠ "" →
  parent_of menus j = Some i.
Proof.
  intros Hnd Hj Hi Hp Hne. unfold parent_of. rewrite Hj. simpl. rewrite Hp. simpl.
  destruct (String.eqb_spec parent.1 "") as [|_]; [done|].
  destruct parent as [p row]. by apply (menu_dict_from_NoDup menus 0 ∅ i p row).
Qed.

Lemma menu_dict_from_is_Some (p : string) (menus : list MenuDict) :
  p ∈ map fst menus → ∀ i0 d, is_Some (menu_dict_from i0 menus d !! p).
Proof.
  induction menus as [|m rest IH]; intros Hin i0 d; [by apply elem_of_nil in Hin|].
  simpl. destruct (decide (p ∈ map fst rest)) as [Hrest|Hnot]; [by apply IH|].
  simpl in Hin. apply elem_of_cons in Hin as [->|Hin]; [|done].
  rewrite menu_dict_from_other by done. rewrite lookup_insert_eq. by eexists.
Qed.

Lemma parent_of_None (menus : list MenuDict) (j : nat) (menu : MenuDict) :
  menus !! j = Some menu →
  (parent_of menus j = None ↔
   parent_id menu.2 = None ∨ parent_id menu.2 = Some "" ∨
   ∃ p, parent_id menu.2 = Some p ∧ p ∉ map fst menus).
Proof.
  intros Hj. unfold parent_of. rewrite Hj. simpl.
  destruct (parent_id menu.2) as [p|]; simpl; [|naive_solver].
  destruct (String.eqb_spec p "") as [->|Hne]; [naive_solver|].
  split.
  - intros Hnone. right; right. exists p. split; [done|].
    intros Hin. destruct (menu_dict_from_is_Some p menus Hin 0%nat ∅) as [i Hi].
    unfold menu_dict in Hnone. congruence.
  - intros [|[|(p' & [= <-] & Hnot)]]; [done|naive_solver|].
    unfold menu_dict. by rewrite menu_dict_from_other.
Qed.

Lemma In_children_at (menus : list MenuDict) (i c : nat) :
  In c (children_at menus i) ↔ parent_of menus c = Some i.
Proof.
  unfold children_at. rewrite filter_In, in_seq, bool_decide_eq_true. split; [tauto|].
  intros H. split; [|done]. apply parent_of_lt in H. lia.
Qed.

Lemma In_roots (menus : list MenuDict) (j : nat) :
  In j (roots menus) ↔ (j < length menus)%nat ∧ parent_of menus j = None.
Proof.
  unfold roots. rewrite filter_In, in_seq, bool_decide_eq_true. split; intros [? ?]; split; (done || lia).
Qed.

(** **** Sorting *)

Lemma insert_by_Permutation {A : Type} (le : A → A → bool) (x : A) (l : list A) :
  Permutation (insert_by le x l) (x :: l).
Proof.
  induction l as [|y l IH]; simpl; [done|].
  destruct (le x y); [done|]. rewrite IH. apply perm_swap.
Qed.

Lemma sort_by_Permutation {A : Type} (le : A → A → bool) (l : list A) :
  Permutation (sort_by le l) l.
Proof.
  induction l as [|x l IH]; simpl; [done|].
  rewrite insert_by_Permutation. by constructor.
Qed.

Lemma In_sort_by {A : Type} (le : A → A → bool) (l : list A) (x : A) :
  In x (sort_by le l) ↔ In x l.
Proof.
  split; apply Permutation_in; [|symmetry]; apply sort_by_Permutation.
Qed.

Lemma insert_by_Sorted {A : Type} (le : A → A → bool) (x : A) (l : list A) :
  (∀ a b, le a b = true ∨ le b a = true) →
  Sorted (fun a b => le a b = true) l → Sorted (fun a b => le a b = true) (insert_by le x l).
Proof.
  intros Htotal Hl. induction Hl as [|y l Hl IH Hhd]; simpl.
  - repeat constructor.
  - destruct (le x y) eqn:E.
    + constructor; [by constructor|]. by constructor.
    + constructor; [exact IH|].
      destruct l as [|z l]; simpl.
      * constructor. destruct (Htotal x y); congruence.
      * destruct (le x z); constructor.
        -- destruct (Htotal x y); congruence.
        -- by inversion Hhd.
Qed.

Lemma sort_by_Sorted {A : Type} (le : A → A → bool) (l : list A) :
  (∀ a b, le a b = true ∨ le b a = true) →
  Sorted (fun a b => le a b = true) (sort_by le l).
Proof.
  intros Htotal. induction l as [|x l IH]; simpl; [constructor|].
  by apply insert_by_Sorted.
Qed.

Lemma key_le_total (a b : MenuRow) : key_le a b = true ∨ key_le b a = true.
Proof.
  unfold key_le.
  destruct (Z.ltb_spec (sort_order a) (sort_order b)); [by left|].
  destruct (Z.ltb_spec (sort_order b) (sort_order a)); [by right|].
  assert (sort_order a = sort_order b) as Heq by lia.
  rewrite Heq, Z.eqb_refl. simpl.
  destruct (String.leb_total (menu_name a) (menu_name b)); [by left|by right].
Qed.

Lemma place_le_total (menus : list MenuDict) (i j : nat) :
  place_le menus i j = true ∨ place_le menus j i = true.
Proof.
  unfold place_le. destruct (menus !! i), (menus !! j); try by left.
  apply key_le_total.
Qed.

(** **** Depth *)

(** The place [j] is [k] steps under a place that was appended to [tree]. *)
Inductive at_depth (menus : list MenuDict) : nat → nat → Prop :=
| depth_root j :
    (j < length menus)%nat → parent_of menus j = None → at_depth menus 0 j
| depth_child k i c :
    parent_of menus c = Some i → at_depth menus k i → at_depth menus (S k) c.

(** The place [x] is [d] steps under the place [j]. *)
Inductive below (menus : list MenuDict) : nat → nat → nat → Prop :=
| below_refl j : below menus j j 0
| below_step j c x d :
    parent_of menus c = Some j → below menus c x d → below menus j x (S d).

Lemma at_depth_lt (menus : list MenuDict) (k j : nat) :
  at_depth menus k j → (j < length menus)%nat.
Proof. intros [j' Hj _|k' i c Hc _]; [done|]. by apply parent_of_lt in Hc as [? _]. Qed.

Lemma at_depth_unique (menus : list MenuDict) (k k' j : nat) :
  at_depth menus k j → at_depth menus k' j → k = k'.
Proof.
  intros H. revert k'. induction H as [j Hj Hroot|k i c Hc Hi IH]; intros k' H'.
  - inversion H'; [done|congruence].
  - inversion H' as [|k'' i' c' Hc' Hi']; subst; [congruence|].
    f_equal. apply IH. congruence.
Qed.

Lemma at_depth_below (menus : list MenuDict) (j x k d : nat) :
  below menus j x d → at_depth menus k j → at_depth menus (k + d) x.
Proof.
  intros H. revert k. induction H as [j|j c x d Hc Hx IH]; intros k Hk.
  - by rewrite Nat.add_0_r.
  - replace (k + S d)%nat with (S k + d)%nat by lia. apply IH. by econstructor.
Qed.

(** A place has one ancestor at each distance. *)
Lemma below_unique (menus : list MenuDict) (a b x d : nat) :
  below menus a x d → below menus b x d → a = b.
Proof.
  intros H. revert b. induction H as [j|j c x d Hc Hx IH]; intros b H'.
  - by inversion H'.
  - inversion H' as [|b' c' x' d' Hc' Hx']; subst.
    specialize (IH _ Hx'). subst c'. congruence.
Qed.

Lemma at_depth_root_below (menus : list MenuDict) (k x : nat) :
  at_depth menus k x ↔ ∃ r, In r (roots menus) ∧ below menus r x k.
Proof.
  split.
  - induction 1 as [j Hj Hroot|k i c Hc Hi (r & Hr & Hb)].
    + exists j. split; [by apply In_roots|constructor].
    + exists r. split; [done|]. clear -Hb Hc.
      induction Hb as [j|j c' x d Hc' Hx IH].
      * econstructor; [done|constructor].
      * econstructor; [done|]. by apply IH.
  - intros (r & Hr & Hb). apply In_roots in Hr as [Hlt Hroot].
    apply (at_depth_below menus r x 0 k Hb). by constructor.
Qed.

(** The places above a place are distinct, so a depth is less than the
    number of places. *)
Lemma at_depth_bound (menus : list MenuDict) (k j : nat) :
  at_depth menus k j → (k < length menus)%nat.
Proof.
  intros H.
  assert (∃ path, length path = S k ∧
                  ∀ p x, path !! p = Some x → at_depth menus (k - p) x) as (path & Hlen & Hpath).
  { induction H as [j Hj Hroot|k i c Hc Hi (path & Hlen & Hpath)].
    - exists [j]. split; [done|]. intros [|p] x Hx; simpl in Hx; [|done].
      injection Hx as <-. by constructor.
    - exists (c :: path). split; [simpl; lia|]. intros [|p] x Hx; simpl in Hx.
      + injection Hx as <-. by econstructor.
      + replace (S k - S p)%nat with (k - p)%nat by lia. by apply Hpath. }
  assert (Hnd : NoDup path).
  { apply NoDup_alt. intros p q x Hp Hq.
    assert (k - p = k - q)%nat by (eapply at_depth_unique; eauto).
    apply lookup_lt_Some in Hp, Hq. lia. }
  assert (Hsub : path ⊆+ seq 0 (length menus)).
  { apply NoDup_submseteq; [done|]. intros x Hx.
    apply list_elem_of_lookup in Hx as [p Hp]. apply Hpath, at_depth_lt in Hp.
    apply elem_of_seq. lia. }
  apply submseteq_length in Hsub. rewrite length_seq in Hsub. lia.
Qed.

(** The calls of [sort_tree] end: a place at depth [k] is sorted with
    [length menus - k] nested calls at most. *)
Lemma tree_at_total (menus : list MenuDict) (fuel : nat) :
  ∀ j k, at_depth menus k j → (length menus ≤ fuel + k)%nat →
         is_Some (tree_at fuel menus j).
Proof.
  induction fuel as [|f IH]; intros j k Hk Hfuel.
  - apply at_depth_bound in Hk. simpl in Hfuel. lia.
  - simpl. destruct (lookup_lt_is_Some_2 menus j (at_depth_lt _ _ _ Hk)) as [menu ->]. simpl.
    assert (is_Some (mapM (tree_at f menus)
                          (sort_by (place_le menus) (children_at menus j)))) as [cs ->];
      [|by eexists].
    apply mapM_is_Some, Forall_forall. intros c Hc.
    apply list_elem_of_In, In_sort_by, In_children_at in Hc.
    apply (IH c (S k)); [by econstructor|lia].
Qed.

Lemma build_menu_tree_total (menus : list MenuDict) : is_Some (build_menu_tree menus).
Proof.
  apply mapM_is_Some, Forall_forall. intros r Hr.
  apply list_elem_of_In, In_sort_by, In_roots in Hr as [Hlt Hroot].
  apply (tree_at_total menus (length menus) r 0); [by constructor|lia].
Qed.

(** **** What the trees hold *)

(** The dictionaries of a tree, a node before its children. *)
Fixpoint flatten (t : MenuTree) : list MenuDict :=
  match t with
  | MenuNode menu children => menu :: flat_map flatten children
  end.

Lemma forest_In (menus : list MenuDict) (f : nat) (l : list nat) (ts : list MenuTree)
    (P : nat → MenuDict → Prop) :
  mapM (tree_at f menus) l = Some ts →
  (∀ c t, In c l → tree_at f menus c = Some t → ∀ m, In m (flatten t) ↔ P c m) →
  ∀ m, In m (flat_map flatten ts) ↔ ∃ c, In c l ∧ P c m.
Proof.
  intros Hts%mapM_Some_1 Hspec m. rewrite in_flat_map. split.
  - intros (t & Ht & Hm). apply list_elem_of_In, list_elem_of_lookup in Ht as [p Hp].
    destruct (Forall2_lookup_r _ _ _ _ _ Hts Hp) as (c & Hc & Hrun).
    apply list_elem_of_lookup_2, list_elem_of_In in Hc.
    exists c. split; [done|]. by apply (Hspec c t).
  - intros (c & Hc & Hm). apply list_elem_of_In, list_elem_of_lookup in Hc as [p Hp].
    destruct (Forall2_lookup_l _ _ _ _ _ Hts Hp) as (t & Ht & Hrun).
    exists t. split; [by apply list_elem_of_lookup_2, list_elem_of_In in Ht|].
    apply (Hspec c t); [|done|done]. by apply list_elem_of_lookup_2, list_elem_of_In in Hp.
Qed.

(** A tree holds the dictionaries of the places under its root. *)
Lemma tree_at_In (menus : list MenuDict) (f : nat) :
  ∀ j t, tree_at f menus j = Some t →
         ∀ m, In m (flatten t) ↔ ∃ x d, below menus j x d ∧ menus !! x = Some m.
Proof.
  induction f as [|f IH]; intros j t Hrun m; [done|].
  simpl in Hrun. destruct (menus !! j) as [menu|] eqn:Hj; [simpl in Hrun|done].
  destruct (mapM _ _) as [cs|] eqn:Hcs; [simpl in Hrun|done]. injection Hrun as <-.
  simpl. rewrite (forest_In menus f (sort_by (place_le menus) (children_at menus j)) cs
                    (fun c m => ∃ x d, below menus c x d ∧ menus !! x = Some m) Hcs)
    by (intros c t _ Ht m'; by apply IH).
  split.
  - intros [<-|(c & Hc & x & d & Hb & Hx)].
    + exists j, 0%nat. split; [constructor|done].
    + apply In_sort_by, In_children_at in Hc. exists x, (S d). split; [|done].
      by econstructor.
  - intros (x & d & Hb & Hx). inversion Hb as [|j' c x' d' Hc Hb']; subst.
    + left. congruence.
    + right. exists c. split; [by apply In_sort_by, In_children_at|]. by exists x, d'.
Qed.

Lemma ids_flat_map (ts : list MenuTree) :
  map fst (flat_map flatten ts) = flat_map (fun t => map fst (flatten t)) ts.
Proof.
  induction ts as [|t ts IH]; simpl; [done|]. by rewrite map_app, IH.
Qed.

(** With distinct ids, an id names one place. *)
Lemma place_of_id (menus : list MenuDict) (x y : nat) (a b : MenuDict) :
  NoDup (map fst menus) → menus !! x = Some a → menus !! y = Some b → a.1 = b.1 → x = y.
Proof.
  intros Hnd Hx Hy Heq. apply (proj1 (NoDup_alt _) Hnd x y a.1).
  - by rewrite list_lookup_fmap, Hx.
  - by rewrite list_lookup_fmap, Hy, Heq.
Qed.

Lemma forest_NoDup (menus : list MenuDict) (f : nat) (l : list nat) (ts : list MenuTree)
    (k : nat) :
  NoDup (map fst menus) →
  NoDup l → (∀ c, In c l → at_depth menus k c) →
  mapM (tree_at f menus) l = Some ts →
  (∀ c t, In c l → tree_at f menus c = Some t → NoDup (map fst (flatten t))) →
  NoDup (map fst (flat_map flatten ts)).
Proof.
  intros Hids Hnd Hdepth Hts%mapM_Some_1 Hone. rewrite ids_flat_map.
  induction Hts as [|c t l ts Hrun Hts IH]; simpl; [constructor|].
  apply NoDup_cons in Hnd as [Hc Hnd]. apply NoDup_app. split; [|split].
  - apply (Hone c t); [by left|done].
  - intros y Hy Hy'. apply list_elem_of_In, in_flat_map in Hy' as (t' & Ht' & Hy').
    apply list_elem_of_In, list_elem_of_lookup in Ht' as [p Hp].
    destruct (Forall2_lookup_r _ _ _ _ _ Hts Hp) as (c' & Hc' & Hrun').
    apply list_elem_of_lookup_2 in Hc'.
    apply list_elem_of_fmap in Hy as (m & -> & Hm).
    apply in_map_iff in Hy' as (m' & Heq & Hm').
    apply list_elem_of_In, (tree_at_In menus f c t Hrun) in Hm as (x & d & Hb & Hx).
    destruct (proj1 (tree_at_In menus f c' t' Hrun' m') Hm') as (x' & d' & Hb' & Hx').
    assert (x' = x) as -> by (by eapply place_of_id).
    assert (Hd : at_depth menus k c) by (apply Hdepth; by left).
    assert (Hd' : at_depth menus k c') by (apply Hdepth; right; by apply list_elem_of_In).
    assert (k + d = k + d')%nat
      by (eapply at_depth_unique; eapply at_depth_below; eauto).
    assert (d' = d) as -> by lia.
    assert (c = c') as Heq' by (by eapply below_unique). rewrite <- Heq' in Hc'. done.
  - apply IH; [done| |].
    + intros c' Hc'. apply Hdepth. by right.
    + intros c' t' Hc'. apply Hone. by right.
Qed.

Lemma sort_by_NoDup {A : Type} (le : A → A → bool) (l : list A) :
  NoDup l → NoDup (sort_by le l).
Proof. intros H. by rewrite sort_by_Permutation. Qed.

Lemma children_at_NoDup (menus : list MenuDict) (i : nat) : NoDup (children_at menus i).
Proof. apply NoDup_ListNoDup, List.NoDup_filter, NoDup_ListNoDup, NoDup_seq. Qed.

Lemma roots_NoDup (menus : list MenuDict) : NoDup (roots menus).
Proof. apply NoDup_ListNoDup, List.NoDup_filter, NoDup_ListNoDup, NoDup_seq. Qed.

(** With distinct ids, a tree holds no id twice. *)
Lemma tree_at_NoDup (menus : list MenuDict) (f : nat) :
  NoDup (map fst menus) →
  ∀ j k t, at_depth menus k j → tree_at f menus j = Some t → NoDup (map fst (flatten t)).
Proof.
  intros Hids. induction f as [|f IH]; intros j k t Hk Hrun; [done|].
  simpl in Hrun. destruct (menus !! j) as [menu|] eqn:Hj; [simpl in Hrun|done].
  destruct (mapM _ _) as [cs|] eqn:Hcs; [simpl in Hrun|done]. injection Hrun as <-.
  simpl. apply NoDup_cons. split.
  - intros Hin. apply list_elem_of_fmap in Hin as (m & Heq & Hm).
    apply list_elem_of_In in Hm.
    destruct (proj1 (forest_In menus f (sort_by (place_le menus) (children_at menus j)) cs
                       (fun c m => ∃ x d, below menus c x d ∧ menus !! x = Some m) Hcs
                       (fun c t _ Ht m' => tree_at_In menus f c t Ht m') m) Hm)
      as (c & Hc & x & d & Hb & Hx).
    apply In_sort_by, In_children_at in Hc.
    assert (x = j) as -> by (by eapply place_of_id).
    assert (S k + d = k)%nat; [|lia].
    eapply at_depth_unique; [|exact Hk]. eapply at_depth_below; [exact Hb|].
    by econstructor.
  - apply (forest_NoDup menus f (sort_by (place_le menus) (children_at menus j)) cs (S k) Hids);
      [| |done|].
    + apply sort_by_NoDup, children_at_NoDup.
    + intros c Hc. apply In_sort_by, In_children_at in Hc. by econstructor.
    + intros c t Hc Ht. apply In_sort_by, In_children_at in Hc.
      apply (IH c (S k)); [by econstructor|done].
Qed.

(** **** The menus that lead to a root *)

(** Following [parent_id] from the menu, within the list, ends at a menu
    that has no [parent_id], an empty one, or one that names no menu of
    the list. *)
Inductive rooted (menus : list MenuDict) : MenuDict → Prop :=
| rooted_top menu :
    In menu menus →
    (parent_id menu.2 = None ∨ parent_id menu.2 = Some "" ∨
     ∃ p, parent_id menu.2 = Some p ∧ p ∉ map fst menus) →
    rooted menus menu
| rooted_under menu parent :
    In menu menus → In parent menus →
    parent_id menu.2 = Some parent.1 → parent.1 ≠ "" →
    rooted menus parent → rooted menus menu.

Lemma rooted_at_depth (menus : list MenuDict) (menu : MenuDict) :
  NoDup (map fst menus) →
  rooted menus menu → ∀ x, menus !! x = Some menu → ∃ k, at_depth menus k x.
Proof.
  intros Hids. induction 1 as [menu Hin Htop|menu parent Hin Hpin Hp Hne Hparent IH];
    intros x Hx.
  - exists 0%nat. constructor; [by eapply lookup_lt_Some|]. by apply (parent_of_None menus x menu).
  - apply list_elem_of_In, list_elem_of_lookup in Hpin as [i Hi].
    destruct (IH i Hi) as [k Hk]. exists (S k). econstructor; [|exact Hk].
    by eapply parent_of_NoDup.
Qed.

Lemma at_depth_rooted (menus : list MenuDict) (k x : nat) :
  at_depth menus k x → ∀ menu, menus !! x = Some menu → rooted menus menu.
Proof.
  induction 1 as [j Hj Hroot|k i c Hc Hi IH]; intros menu Hx.
  - apply rooted_top; [by apply list_elem_of_lookup_2, list_elem_of_In in Hx|].
    by apply (parent_of_None menus j menu).
  - apply parent_of_Some in Hc as (menu' & p & row & Hc & Hp & Hne & Hrow).
    assert (menu' = menu) as -> by congruence.
    apply (rooted_under menus menu (p, row)); [| |done|done|by apply IH].
    + by apply list_elem_of_lookup_2, list_elem_of_In in Hx.
    + by apply list_elem_of_lookup_2, list_elem_of_In in Hrow.
Qed.

(** With distinct ids, the trees hold the menus that lead to a root,
    each once. *)
Lemma forest_holds_rooted (menus : list MenuDict) (forest : list MenuTree) :
  NoDup (map fst menus) → build_menu_tree menus = Some forest →
  NoDup (map fst (flat_map flatten forest)) ∧
  ∀ menu, In menu (flat_map flatten forest) ↔ rooted menus menu.
Proof.
  intros Hids Hrun. unfold build_menu_tree in Hrun. split.
  - apply (forest_NoDup menus (length menus) (sort_by (place_le menus) (roots menus)) forest 0
             Hids); [| |done|].
    + apply sort_by_NoDup, roots_NoDup.
    + intros r Hr. apply In_sort_by, In_roots in Hr as [Hlt Hroot]. by constructor.
    + intros r t Hr Ht. apply In_sort_by, In_roots in Hr as [Hlt Hroot].
      apply (tree_at_NoDup menus (length menus) Hids r 0); [by constructor|done].
  - intros menu.
    rewrite (forest_In menus (length menus) (sort_by (place_le menus) (roots menus)) forest
               (fun c m => ∃ x d, below menus c x d ∧ menus !! x = Some m) Hrun)
      by (intros c t _ Ht m'; by apply (tree_at_In menus (length menus))).
    split.
    + intros (r & Hr & x & d & Hb & Hx). apply In_sort_by in Hr.
      apply (at_depth_rooted menus d x); [|done]. apply at_depth_root_below. by exists r.
    + intros Hrooted. assert (Hmenu : In menu menus) by (by destruct Hrooted).
      apply list_elem_of_In, list_elem_of_lookup in Hmenu as [x Hx].
      destruct (rooted_at_depth menus menu Hids Hrooted x Hx) as [k Hk].
      apply at_depth_root_below in Hk as (r & Hr & Hb).
      exists r. split; [by apply In_sort_by|]. by exists x, k.
Qed.

(** X11. [build_menu_tree] returns for every list of menus, also when
    parents form a cycle or ids repeat. When the ids are distinct, the
    trees hold exactly the menus from which the chain of [parent_id]s,
    followed within the list, ends (at a menu without a parent in the
    list, which is a root of the result); each of them is held once. Menus
    on a cycle of parents, and the menus under them, are in no tree; and
    when every menu of the list leads to such an end, the trees hold the
    menus of the list, each once. *)
Theorem build_menu_tree_holds_rooted_menus (menus : list MenuDict) :
  ∃ forest,
    build_menu_tree menus = Some forest ∧
    (NoDup (map fst menus) →
     NoDup (map fst (flat_map flatten forest)) ∧
     (∀ menu, In menu (flat_map flatten forest) ↔ rooted menus menu) ∧
     ((∀ menu, In menu menus → rooted menus menu) →
      Permutation (flat_map flatten forest) menus)).
Proof.
  destruct (build_menu_tree_total menus) as [forest Hrun]. exists forest.
  split; [exact Hrun|]. intros Hids.
  destruct (forest_holds_rooted menus forest Hids Hrun) as [Hnd Hin].
  split; [exact Hnd|]. split; [exact Hin|].
  intros Hall. apply NoDup_Permutation.
  - by apply NoDup_fmap_1 in Hnd.
  - by apply NoDup_fmap_1 in Hids.
  - intros menu. rewrite !list_elem_of_In, Hin. split; [by intros []|apply Hall].
Qed.

(** **** The shape of the trees *)

Definition root_of (t : MenuTree) : MenuDict :=
  match t with
  | MenuNode menu _ => menu
  end.

(** The keys of a list of nodes do not decrease. *)
Definition in_key_order (nodes : list MenuTree) : Prop :=
  Sorted (fun a b => key_le a.2 b.2 = true) (map root_of nodes).

(** Under every node are, in key order, the menus of the list whose
    [parent_id] is the node's id. *)
Inductive shaped (menus : list MenuDict) : MenuTree → Prop :=
| shaped_node menu children :
    in_key_order children →
    (∀ c, In c (map root_of children) ↔
          In c menus ∧ parent_id c.2 = Some menu.1 ∧ menu.1 ≠ "") →
    Forall (shaped menus) children →
    shaped menus (MenuNode menu children).

Lemma Sorted_Forall2 {A B : Type} (R : A → A → Prop) (R' : B → B → Prop) (Q : A → B → Prop)
    (l : list A) (l' : list B) :
  (∀ a b a' b', R a b → Q a a' → Q b b' → R' a' b') →
  Forall2 Q l l' → Sorted R l → Sorted R' l'.
Proof.
  intros HR HQ. induction HQ as [|a a' l l' Ha HQ IH]; intros Hs; [constructor|].
  apply Sorted_inv in Hs as [Hs Hhd]. constructor; [by apply IH|].
  destruct HQ as [|b b' l l' Hb HQ]; constructor.
  apply HdRel_inv in Hhd. by eapply HR.
Qed.

Lemma forest_roots (menus : list MenuDict) (f : nat) (l : list nat) (ts : list MenuTree) :
  mapM (tree_at f menus) l = Some ts →
  Forall2 (fun c t => menus !! c = Some (root_of t)) l ts.
Proof.
  intros Hts%mapM_Some_1. eapply Forall2_impl; [exact Hts|].
  intros c t Hrun. destruct f as [|f]; [done|]. simpl in Hrun.
  destruct (menus !! c) as [menu|]; [simpl in Hrun|done].
  destruct (mapM _ _); [simpl in Hrun|done]. by injection Hrun as <-.
Qed.

Lemma forest_in_key_order (menus : list MenuDict) (f : nat) (l : list nat)
    (ts : list MenuTree) :
  mapM (tree_at f menus) (sort_by (place_le menus) l) = Some ts → in_key_order ts.
Proof.
  intros Hts. apply forest_roots in Hts.
  assert (Hroots : Forall2 (fun c m => menus !! c = Some m)
                           (sort_by (place_le menus) l) (map root_of ts)).
  { apply Forall2_fmap_r. exact Hts. }
  eapply (Sorted_Forall2 (fun i j => place_le menus i j = true)); [|exact Hroots|].
  - intros i j a b Hle Ha Hb. unfold place_le in Hle. by rewrite Ha, Hb in Hle.
  - apply sort_by_Sorted, place_le_total.
Qed.

Lemma forest_root_In (menus : list MenuDict) (f : nat) (l : list nat) (ts : list MenuTree)
    (m : MenuDict) :
  mapM (tree_at f menus) l = Some ts →
  (In m (map root_of ts) ↔ ∃ c, In c l ∧ menus !! c = Some m).
Proof.
  intros Hts%forest_roots. rewrite in_map_iff. split.
  - intros (t & <- & Ht). apply list_elem_of_In, list_elem_of_lookup in Ht as [p Hp].
    destruct (Forall2_lookup_r _ _ _ _ _ Hts Hp) as (c & Hc & Hroot).
    exists c. split; [|done]. by apply list_elem_of_lookup_2, list_elem_of_In in Hc.
  - intros (c & Hc & Hm). apply list_elem_of_In, list_elem_of_lookup in Hc as [p Hp].
    destruct (Forall2_lookup_l _ _ _ _ _ Hts Hp) as (t & Ht & Hroot).
    exists t. split; [congruence|]. by apply list_elem_of_lookup_2, list_elem_of_In in Ht.
Qed.

Lemma tree_at_shaped (menus : list MenuDict) (f : nat) :
  NoDup (map fst menus) →
  ∀ j t, tree_at f menus j = Some t → shaped menus t.
Proof.
  intros Hids. induction f as [|f IH]; intros j t Hrun; [done|].
  simpl in Hrun. destruct (menus !! j) as [menu|] eqn:Hj; [simpl in Hrun|done].
  destruct (mapM _ _) as [cs|] eqn:Hcs; [simpl in Hrun|done]. injection Hrun as <-.
  constructor.
  - by eapply forest_in_key_order.
  - intros c. rewrite (forest_root_In menus f _ cs c Hcs). split.
    + intros (x & Hx & Hc). apply In_sort_by, In_children_at, parent_of_Some in Hx
        as (menu' & p & row & Hx & Hp & Hne & Hrow).
      assert (menu' = c) as -> by congruence.
      assert (menu = (p, row)) as -> by congruence.
      split; [by apply list_elem_of_lookup_2, list_elem_of_In in Hc|done].
    + intros (Hc & Hp & Hne). apply list_elem_of_In, list_elem_of_lookup in Hc as [x Hx].
      exists x. split; [|done]. apply In_sort_by, In_children_at.
      by eapply parent_of_NoDup.
  - apply mapM_Some_1 in Hcs. apply Forall_forall. intros t Ht.
    apply list_elem_of_lookup in Ht as [p Hp].
    destruct (Forall2_lookup_r _ _ _ _ _ Hcs Hp) as (c & Hc & Hrun).
    by apply (IH c).
Qed.

(** X12. With distinct ids, the forest [build_menu_tree] returns has this
    shape: its roots are the menus of the list whose [parent_id] is absent,
    empty or the id of no menu of the list (so a menu whose parent was
    filtered out is a root); under every node are the menus whose
    [parent_id] is the node's id; and the roots and every list of children
    are in the order of [(sort_order, menu_name)]. *)
Theorem build_menu_tree_shape (menus : list MenuDict) (forest : list MenuTree) :
  NoDup (map fst menus) →
  build_menu_tree menus = Some forest →
  in_key_order forest ∧
  (∀ r, In r (map root_of forest) ↔
        In r menus ∧
        (parent_id r.2 = None ∨ parent_id r.2 = Some "" ∨
         ∃ p, parent_id r.2 = Some p ∧ p ∉ map fst menus)) ∧
  Forall (shaped menus) forest.
Proof.
  intros Hids Hrun. unfold build_menu_tree in Hrun. split; [|split].
  - by eapply forest_in_key_order.
  - intros r. rewrite (forest_root_In menus _ _ forest r Hrun). split.
    + intros (x & Hx & Hr). apply In_sort_by, In_roots in Hx as [Hlt Hroot].
      split; [by apply list_elem_of_lookup_2, list_elem_of_In in Hr|].
      by apply (parent_of_None menus x r).
    + intros (Hr & Htop). apply list_elem_of_In, list_elem_of_lookup in Hr as [x Hx].
      exists x. split; [|done]. apply In_sort_by, In_roots.
      split; [by eapply lookup_lt_Some|]. by apply (parent_of_None menus x r).
  - apply mapM_Some_1 in Hrun. apply Forall_forall. intros t Ht.
    apply list_elem_of_lookup in Ht as [p Hp].
    destruct (Forall2_lookup_r _ _ _ _ _ Hrun Hp) as (c & Hc & Ht).
    by apply (tree_at_shaped menus (length menus) Hids c).
Qed.

(** *** The menus of a user *)

(** On a table without a cycle, every menu of a list of its rows leads
    to a root of the list. *)
Lemma rows_rooted (M : gmap string MenuRow) (l : list MenuDict) :
  acyclic M → (∀ menu, In menu l → M !! menu.1 = Some menu.2) →
  ∀ menu, In menu l → rooted l menu.
Proof.
  intros Hac Hrows.
  assert (Hfuel : ∀ fuel menu, In menu l →
            rooted l menu ∨ ∃ y, nsteps (parent_edge M) fuel menu.1 y).
  { induction fuel as [|fuel IH]; intros menu Hin.
    - right. exists menu.1. constructor.
    - destruct (parent_id menu.2) as [p|] eqn:Hp; [|left; apply rooted_top; auto].
      destruct (String.eqb_spec p "") as [->|Hne]; [left; apply rooted_top; auto|].
      destruct (decide (p ∈ map fst l)) as [Hpl|Hpl];
        [|left; apply rooted_top; [done|]; right; right; by exists p].
      apply list_elem_of_fmap in Hpl as (parent & -> & Hparent).
      apply list_elem_of_In in Hparent.
      destruct (IH parent Hparent) as [Hr|[y Hy]].
      + left. by eapply rooted_under.
      + right. exists y. econstructor; [|exact Hy].
        exists menu.2. split; [by apply Hrows|done]. }
  intros menu Hin. destruct (Hfuel (S (size M)) menu Hin) as [Hr|[y Hy]]; [done|].
  apply (acyclic_height M y Hac) in Hy. lia.
Qed.

Lemma NoDup_fst_filter {A B : Type} (p : A * B → bool) (l : list (A * B)) :
  NoDup (map fst l) → NoDup (map fst (List.filter p l)).
Proof.
  induction l as [|x l IH]; simpl; [done|]. intros [Hx Hnd]%NoDup_cons.
  destruct (p x); simpl; [|by apply IH]. apply NoDup_cons. split; [|by apply IH].
  intros Hin. apply Hx. apply list_elem_of_fmap in Hin as (y & -> & Hy).
  apply list_elem_of_fmap. exists y. split; [done|].
  by apply list_elem_of_In, filter_In in Hy as [Hy%list_elem_of_In _].
Qed.

Section UserMenus.

(** [order_by(Menu.sort_order)], rows with equal [sort_order] in the
    order of the database. *)
Variable order_by_sort_order : list MenuDict → list MenuDict.

(** [MenuService.get_menu_tree] *)
Definition get_menu_tree (include_inactive : bool) (db : Db) : option (list MenuTree) :=
  build_menu_tree
    (order_by_sort_order
       (List.filter (fun menu => include_inactive || is_active menu.2)
                    (map_to_list (menus db)))).

(** The ids of the roles of the rows [user_roles]. *)
Definition role_ids_of (account_roles : list RoleAccount.AccountRole)
    (tenant_id account_id : string) : list string :=
  map RoleAccount.ar_role_id
      (List.filter (RoleAccount.of_account tenant_id account_id) account_roles).

(** A row of [role_menus] links the menu to one of the roles. *)
Definition linked (db : Db) (role_ids : list string) (menu_id : string) : bool :=
  existsb (fun rm => String.eqb rm.2 menu_id && existsb (String.eqb rm.1) role_ids)
          (role_menus db).

(** [MenuService.get_user_menus]; [account_roles] is the table of that
    name. *)
Definition get_user_menus (account_roles : list RoleAccount.AccountRole)
    (tenant_id account_id : string) (include_inactive : bool) (db : Db)
  : option (list MenuTree) :=
  match role_ids_of account_roles tenant_id account_id with
  | [] => Some []
  | role_ids =>
    build_menu_tree
      (order_by_sort_order
         (List.filter (fun menu => linked db role_ids menu.1
                                   && (include_inactive || is_active menu.2))
                      (map_to_list (menus db))))
  end.

(** [MenuService.check_menu_access] *)
Definition check_menu_access (account_roles : list RoleAccount.AccountRole)
    (tenant_id account_id key : string) (db : Db) : bool :=
  match role_ids_of account_roles tenant_id account_id with
  | [] => false
  | role_ids =>
    existsb (fun rm =>
               existsb (String.eqb rm.1) role_ids
               && match menus db !! rm.2 with
                  | Some menu => String.eqb (menu_key menu) key && is_active menu
                  | None => false
                  end)
            (role_menus db)
  end.

Hypothesis order_by_permutes : ∀ l, Permutation (order_by_sort_order l) l.

(** X13. On a table without a cycle of parents, [get_user_menus] (active
    menus only) returns, and its trees hold, each once, exactly the
    active menus that a row of [role_menus] links to a role of one of the
    account's rows in the tenant, whether or not that role is active.
    [check_menu_access] grants a key exactly when one of these menus has
    it. *)
Theorem user_menus_match_access (account_roles : list RoleAccount.AccountRole)
    (tenant_id account_id : string) (db : Db) :
  acyclic (menus db) →
  let granted (menu : MenuDict) :=
    menus db !! menu.1 = Some menu.2 ∧ is_active menu.2 = true ∧
    ∃ ar rm, In ar account_roles ∧ RoleAccount.ar_tenant_id ar = tenant_id ∧
             RoleAccount.ar_account_id ar = account_id ∧
             In rm (role_menus db) ∧ rm.1 = RoleAccount.ar_role_id ar ∧ rm.2 = menu.1 in
  ∃ forest,
    get_user_menus account_roles tenant_id account_id false db = Some forest ∧
    NoDup (map fst (flat_map flatten forest)) ∧
    (∀ menu, In menu (flat_map flatten forest) ↔ granted menu) ∧
    (∀ key, check_menu_access account_roles tenant_id account_id key db = true ↔
            ∃ menu, In menu (flat_map flatten forest) ∧ menu_key menu.2 = key).
Proof.
  intros Hac granted.
  assert (Hrole : ∀ r, In r (role_ids_of account_roles tenant_id account_id) ↔
            ∃ ar, In ar account_roles ∧ RoleAccount.ar_tenant_id ar = tenant_id ∧
                  RoleAccount.ar_account_id ar = account_id ∧
                  RoleAccount.ar_role_id ar = r).
  { intros r. unfold role_ids_of. rewrite in_map_iff. split.
    - intros (ar & <- & Har). apply filter_In in Har as [Har Hof].
      apply RoleAccount.of_account_true in Hof as [? ?]. by exists ar.
    - intros (ar & Har & Ht & Ha & <-). exists ar. split; [done|].
      apply filter_In. split; [done|]. by apply RoleAccount.of_account_true. }
  assert (Hlinked : ∀ i, linked db (role_ids_of account_roles tenant_id account_id) i = true ↔
            ∃ ar rm, In ar account_roles ∧ RoleAccount.ar_tenant_id ar = tenant_id ∧
                     RoleAccount.ar_account_id ar = account_id ∧
                     In rm (role_menus db) ∧ rm.1 = RoleAccount.ar_role_id ar ∧ rm.2 = i).
  { intros i. unfold linked. rewrite existsb_exists. split.
    - intros (rm & Hrm & Hp). apply andb_true_iff in Hp as [Hm Hr].
      apply String.eqb_eq in Hm. apply existsb_exists in Hr as (r & Hr & He).
      apply String.eqb_eq in He. apply Hrole in Hr as (ar & Har & Ht & Ha & Hid).
      exists ar, rm. repeat split; try done. congruence.
    - intros (ar & rm & Har & Ht & Ha & Hrm & Hr & Hm). exists rm. split; [done|].
      apply andb_true_iff. split; [by apply String.eqb_eq|].
      apply existsb_exists. exists (RoleAccount.ar_role_id ar).
      split; [apply Hrole; by exists ar|by apply String.eqb_eq]. }
  unfold get_user_menus, check_menu_access.
  destruct (role_ids_of account_roles tenant_id account_id) as [|r0 rs] eqn:Hids.
  { exists []. split; [done|]. split; [constructor|]. split.
    - intros menu. split; [done|]. intros (_ & _ & ar & rm & Har & Ht & Ha & _).
      apply (Hrole (RoleAccount.ar_role_id ar)). by exists ar.
    - intros key. split; [done|]. by intros (menu & [] & _). }
  set (role_ids := r0 :: rs) in *.
  set (rows := List.filter (fun menu => linked db role_ids menu.1 && (false || is_active menu.2))
                           (map_to_list (menus db))).
  assert (Hrows : ∀ menu, In menu (order_by_sort_order rows) ↔ granted menu).
  { intros menu. split.
    - intros Hin. apply (Permutation_in _ (order_by_permutes _)) in Hin.
      apply filter_In in Hin as [Hin Hp]. apply andb_true_iff in Hp as [Hl Hact].
      destruct menu as [i row]. apply list_elem_of_In, elem_of_map_to_list in Hin.
      split; [done|]. split; [done|]. by apply Hlinked.
    - intros (Hm & Hact & Hl).
      apply (Permutation_in _ (Permutation_sym (order_by_permutes _))).
      apply filter_In. split.
      + destruct menu as [i row]. by apply list_elem_of_In, elem_of_map_to_list.
      + apply andb_true_iff. split; [by apply Hlinked|done]. }
  assert (Hnd : NoDup (map fst (order_by_sort_order rows))).
  { rewrite (order_by_permutes rows). apply NoDup_fst_filter, NoDup_fst_map_to_list. }
  destruct (build_menu_tree_total (order_by_sort_order rows)) as [forest Hrun].
  destruct (forest_holds_rooted _ forest Hnd Hrun) as [Hnd' Hin].
  assert (Hall : ∀ menu, In menu (flat_map flatten forest) ↔ granted menu).
  { intros menu. rewrite Hin, <- Hrows. split; [by intros []|].
    apply (rows_rooted (menus db)); [done|]. intros m Hm. by apply Hrows in Hm as [? _]. }
  exists forest. split; [exact Hrun|]. split; [exact Hnd'|]. split; [exact Hall|].
  intros key. rewrite existsb_exists. split.
  - intros (rm & Hrm & Hp). apply andb_true_iff in Hp as [Hr Hm].
    destruct (menus db !! rm.2) as [menu|] eqn:Hmenu; [|done].
    apply andb_true_iff in Hm as [Hk Hact]. apply String.eqb_eq in Hk.
    exists (rm.2, menu). split; [|done]. apply Hall. split; [done|]. split; [done|].
    apply Hlinked. unfold linked. apply existsb_exists. exists rm. split; [done|].
    apply andb_true_iff. split; [apply String.eqb_refl|done].
  - intros (menu & Hmenu & Hk). apply Hall in Hmenu as (Hm & Hact & Hl).
    apply Hlinked in Hl. unfold linked in Hl.
    apply existsb_exists in Hl as (rm & Hrm & Hp). apply andb_true_iff in Hp as [He Hr].
    apply String.eqb_eq in He. exists rm. split; [done|]. apply andb_true_iff.
    split; [done|]. rewrite He, Hm. apply andb_true_iff. split; [by apply String.eqb_eq|done].
Qed.

(** X14. On a table without a cycle of parents, [get_menu_tree] returns,
    and its trees hold, each once, exactly the menus of the table that are
    asked for (all of them, or the active ones). Its roots are those of
    them whose [parent_id] is absent, empty or the id of no menu that is
    asked for: an active menu under an inactive one is a root of the tree
    of active menus. *)
Theorem get_menu_tree_holds_menus (include_inactive : bool) (db : Db) :
  acyclic (menus db) →
  let shown (menu : MenuDict) :=
    menus db !! menu.1 = Some menu.2 ∧ (include_inactive = true ∨ is_active menu.2 = true) in
  ∃ forest,
    get_menu_tree include_inactive db = Some forest ∧
    NoDup (map fst (flat_map flatten forest)) ∧
    (∀ menu, In menu (flat_map flatten forest) ↔ shown menu) ∧
    (∀ menu, In menu (map root_of forest) ↔
             shown menu ∧
             (parent_id menu.2 = None ∨ parent_id menu.2 = Some "" ∨
              ∃ p, parent_id menu.2 = Some p ∧ ∀ row, ¬ shown (p, row))).
Proof.
  intros Hac shown. unfold get_menu_tree.
  set (rows := List.filter (fun menu => include_inactive || is_active menu.2)
                           (map_to_list (menus db))).
  assert (Hrows : ∀ menu, In menu (order_by_sort_order rows) ↔ shown menu).
  { intros menu. unfold shown. split.
    - intros Hin. apply (Permutation_in _ (order_by_permutes _)) in Hin.
      apply filter_In in Hin as [Hin Hp]. apply orb_true_iff in Hp.
      destruct menu as [i row]. by apply list_elem_of_In, elem_of_map_to_list in Hin.
    - intros [Hm Hp]. apply (Permutation_in _ (Permutation_sym (order_by_permutes _))).
      apply filter_In. split; [|by apply orb_true_iff].
      destruct menu as [i row]. by apply list_elem_of_In, elem_of_map_to_list. }
  assert (Hnd : NoDup (map fst (order_by_sort_order rows))).
  { rewrite (order_by_permutes rows). apply NoDup_fst_filter, NoDup_fst_map_to_list. }
  destruct (build_menu_tree_total (order_by_sort_order rows)) as [forest Hrun].
  destruct (forest_holds_rooted _ forest Hnd Hrun) as [Hnd' Hin].
  exists forest. split; [exact Hrun|]. split; [exact Hnd'|]. split.
  - intros menu. rewrite Hin, <- Hrows. split; [by intros []|].
    apply (rows_rooted (menus db)); [done|]. intros m Hm. by apply Hrows in Hm as [? _].
  - intros menu. unfold build_menu_tree in Hrun.
    rewrite (forest_root_In _ _ _ forest menu Hrun), <- Hrows. split.
    + intros (x & Hx & Hmenu). apply In_sort_by, In_roots in Hx as [Hlt Hroot].
      split; [by apply list_elem_of_lookup_2, list_elem_of_In in Hmenu|].
      apply (parent_of_None _ x menu Hmenu) in Hroot as [|[|(p & Hp & Hnot)]]; [auto|auto|].
      right; right. exists p. split; [done|]. intros row Hrow. apply Hnot.
      apply Hrows, list_elem_of_In in Hrow. apply list_elem_of_fmap. by exists (p, row).
    + intros (Hmenu & Htop). apply list_elem_of_In, list_elem_of_lookup in Hmenu as [x Hx].
      exists x. split; [|done]. apply In_sort_by, In_roots.
      split; [by eapply lookup_lt_Some|]. apply (parent_of_None _ x menu Hx).
      destruct Htop as [|[|(p & Hp & Hnot)]]; [auto|auto|].
      right; right. exists p. split; [done|]. intros Hin'.
      apply list_elem_of_fmap in Hin' as ([p' row] & Heq & Hrow). simpl in Heq. subst p'.
      apply (Hnot row). by apply Hrows, list_elem_of_In.
Qed.

End UserMenus.

(** *** The trees of the example table *)

Definition unsorted_menus : list MenuDict :=
  [ named "1" "home" 2 None; named "2" "zeta" 1 (Some "1");
    named "3" "alpha" 1 (Some "1"); named "4" "admin" 1 None;
    named "5" "lost" 0 (Some "9") ].

Lemma build_menu_tree_shape_witness :
  ∃ forest,
    build_menu_tree unsorted_menus = Some forest ∧
    map (fun t => (root_of t).1) forest = ["5"; "4"; "1"] ∧
    in_key_order forest ∧ Forall (shaped unsorted_menus) forest.
Proof.
  eexists. split; [vm_compute; reflexivity|]. split; [reflexivity|].
  match goal with |- in_key_order ?forest ∧ _ =>
    destruct (build_menu_tree_shape unsorted_menus forest) as (Horder & _ & Hshape)
  end.
  - apply NoDup_ListNoDup. repeat constructor; simpl; intuition discriminate.
  - vm_compute. reflexivity.
  - split; [exact Horder|exact Hshape].
Defined.

Definition ann_reader : RoleAccount.AccountRole :=
  {| RoleAccount.ar_id := "x1"; RoleAccount.ar_tenant_id := "t1";
     RoleAccount.ar_account_id := "a1"; RoleAccount.ar_role_id := "r1" |}.

Lemma user_menus_match_access_witness :
  ∃ forest,
    get_user_menus (fun l => l) [ann_reader] "t1" "a1" false db0 = Some forest ∧
    (∀ menu, In menu (flat_map flatten forest) → menu.1 = m3) ∧
    (check_menu_access [ann_reader] "t1" "a1" "tools" db0 = true ↔
     ∃ menu, In menu (flat_map flatten forest) ∧ menu_key menu.2 = "tools").
Proof.
  destruct (user_menus_match_access (fun l => l) (fun l => Permutation_refl l)
              [ann_reader] "t1" "a1" db0 db0_acyclic)
    as (forest & Hrun & _ & Hin & Haccess).
  exists forest. split; [exact Hrun|]. split; [|apply Haccess].
  intros menu Hmenu. apply Hin in Hmenu as (_ & _ & ar & rm & _ & _ & _ & [<-|[]] & _ & <-).
  reflexivity.
Defined.

Lemma get_menu_tree_holds_menus_witness :
  ∃ forest,
    get_menu_tree (fun l => l) false db0 = Some forest ∧
    NoDup (map fst (flat_map flatten forest)) ∧
    (∀ menu, In menu (flat_map flatten forest) ↔
             menus db0 !! menu.1 = Some menu.2 ∧ (false = true ∨ is_active menu.2 = true)).
Proof.
  destruct (get_menu_tree_holds_menus (fun l => l) (fun l => Permutation_refl l) false db0
              db0_acyclic)
    as (forest & Hrun & Hnd & Hin & _).
  exists forest. split; [exact Hrun|]. split; [exact Hnd|exact Hin].
Defined.

End Menu.

(** ** services/api_key_service.py *)
Module ApiKey.

(** A row of [api_keys] (the columns the service reads and writes). *)
Record ApiKeyRow : Type := {
  id : string;
  tenant_id : string;
  key : string;
  resource_type : string;
  resource_id : string;
  resource_name : string;
  validity_type : string;
  start_date : option Z;
  end_date : option Z;
  authorized_person : string;
  description : string;
  is_active : bool;
  created_by : string;
  updated_by : string;
  created_at : Z
}.

(** A row of [apps] (the columns [_validate_resource_exists] reads). *)
Record AppRow : Type := {
  app_id : string;
  app_tenant_id : string;
  app_mode : string
}.

Record Db : Type := {
  api_keys : list ApiKeyRow;
  apps : list AppRow
}.

(** The attributes of class [ApiKeyService]: its twelve static methods,
    each with the number of its parameters that have no default. *)
Definition ApiKeyService_attributes : list (string * nat) :=
  [ ("create_api_key", 6%nat); ("get_api_keys", 1%nat); ("get_api_key", 3%nat);
    ("get_api_key_by_key", 2%nat); ("update_api_key", 3%nat); ("delete_api_key", 3%nat);
    ("toggle_api_key_status", 3%nat); ("validate_api_key", 2%nat);
    ("get_resources_for_selection", 3%nat); ("log_api_key_usage", 8%nat);
    ("_validate_resource_exists", 4%nat); ("_generate_unique_key", 1%nat) ].

(** [self.name(...)] with [nargs] positional arguments, where [self] is the
    [ApiKeyService] instance the controller passes: the attribute is looked
    up on the class, and a static method receives the arguments as given. *)
Definition call_static (name : string) (nargs : nat) : result unit :=
  match List.find (fun e => String.eqb e.1 name) ApiKeyService_attributes with
  | None => Raise (AttributeError ("'ApiKeyService' object has no attribute '" ++ name ++ "'"))
  | Some (_, required) =>
    if (nargs <? required)%nat
    then Raise (TypeError (name ++ "() missing required positional arguments"))
    else Ok tt
  end.

(** [ApiKeyService._validate_resource_exists] *)
Definition _validate_resource_exists (db : Db) (tenant rtype rid : string) : result unit :=
  let app_exists (mode : string) :=
    existsb (fun a => String.eqb (app_id a) rid && String.eqb (app_tenant_id a) tenant
                      && String.eqb (app_mode a) mode) (apps db) in
  if String.eqb rtype "agent" then
    if app_exists "agent-chat" then Ok tt
    else Raise (InvalidResourceTypeError ("Agent " ++ rid ++ " not found"))
  else if String.eqb rtype "workflow" then
    if app_exists "workflow" then Ok tt
    else Raise (InvalidResourceTypeError ("Workflow " ++ rid ++ " not found"))
  else Ok tt.

(** Is there a row with this key? *)
Definition key_exists (db : Db) (k : string) : bool :=
  existsb (fun r => String.eqb (key r) k) (api_keys db).

(** The [for _ in range(max_attempts)] loop of [_generate_unique_key];
    [candidates] are the successive results of [ApiKey.generate_key()]. *)
Fixpoint generate_loop (attempts : nat) (db : Db) (candidates : nat -> string) (i : nat)
  : result string :=
  match attempts with
  | O => Raise (DuplicateApiKeyError "Failed to generate unique API key")
  | S n =>
    let k := candidates i in
    if key_exists db k then generate_loop n db candidates (S i) else Ok k
  end.

(** [ApiKeyService._generate_unique_key] *)
Definition _generate_unique_key (db : Db) (candidates : nat -> string) : result string :=
  generate_loop 10 db candidates 0.

(** The arguments of [create_api_key]. *)
Record CreateArgs : Type := {
  a_tenant_id : string;
  a_resource_type : string;
  a_resource_id : string;
  a_resource_name : string;
  a_validity_type : string;
  a_start_date : option Z;
  a_end_date : option Z;
  a_authorized_person : string;
  a_description : string;
  a_created_by : string
}.

(** [ApiKeyService.create_api_key]. [new_id] and [now] are the primary key
    and the timestamp the database gives the row; [current_user_id] is
    [current_user.id]. The source calls
    [self._validate_resource_exist(tenant_id, resource_type, resource_id)]
    and [self._generate_unique_key()]: each call first resolves the name
    it is written with ([call_static]), and a body runs only when that
    succeeds. *)
Definition create_api_key (new_id current_user_id : string) (now : Z)
    (candidates : nat -> string) (a : CreateArgs) (db : Db) : result ApiKeyRow * Db :=
  if negb (existsb (String.eqb (a_resource_type a)) ["agent-chat"; "workflow"])
  then (Raise (InvalidResourceTypeError ("Invalid resource type: " ++ a_resource_type a)), db)
  else
    match bind (call_static "_validate_resource_exist" 3)
               (fun _ => _validate_resource_exists db (a_tenant_id a) (a_resource_type a)
                                                   (a_resource_id a)) with
    | Raise e => (Raise e, db)
    | Ok _ =>
      match bind (call_static "_generate_unique_key" 0)
                 (fun _ => _generate_unique_key db candidates) with
      | Raise e => (Raise e, db)
      | Ok k =>
          let who := if String.eqb (a_created_by a) "" then current_user_id else a_created_by a in
          let api_key :=
            {| id := new_id; tenant_id := a_tenant_id a; key := k;
               resource_type := a_resource_type a; resource_id := a_resource_id a;
               resource_name := a_resource_name a; validity_type := a_validity_type a;
               start_date := a_start_date a; end_date := a_end_date a;
               authorized_person := a_authorized_person a; description := a_description a;
               is_active := true; created_by := who; updated_by := who; created_at := now |} in
        (Ok api_key, {| api_keys := api_keys db ++ [api_key]; apps := apps db |})
      end
    end.

(** *** Listing *)

(** Insertion into a list ordered by [created_at], newest first. *)
Fixpoint insert_desc (r : ApiKeyRow) (l : list ApiKeyRow) : list ApiKeyRow :=
  match l with
  | [] => [r]
  | x :: l' => if created_at x <? created_at r then r :: l else x :: insert_desc r l'
  end.

(** [order_by(desc(ApiKey.created_at))] *)
Definition order_by_created_at_desc (l : list ApiKeyRow) : list ApiKeyRow :=
  fold_right insert_desc [] l.

(** An optional string argument is used when it is not [None] and not
    empty ([if resource_type:]). *)
Definition given (o : option string) : option string :=
  match o with
  | Some s => if String.eqb s "" then None else Some s
  | None => None
  end.

(** The status filter; a comparison with a NULL [end_date] is not true. *)
Definition status_filter (now : Z) (status : option string) (r : ApiKeyRow) : bool :=
  match given status with
  | None => true
  | Some st =>
    if String.eqb st "active" then
      match end_date r with Some e => (now <=? e) | None => false end && is_active r
    else if String.eqb st "expired" then
      String.eqb (validity_type r) "limited" &&
      match end_date r with Some e => (e <? now) | None => false end
    else if String.eqb st "inactive" then negb (is_active r)
    else true
  end.

Section Listing.
(** [column.ilike("%" + needle + "%")] *)
Variable ilike_contains : string -> string -> bool.
(** [db.paginate(query, page, per_page, error_out=False)]: the rows of the
    requested page. *)
Variable page_of : Z -> Z -> list ApiKeyRow -> list ApiKeyRow.

(** The query [get_api_keys] builds, before pagination. *)
Definition get_api_keys_query (now : Z) (tenant : string)
    (rtype rname person status : option string) (db : Db) : list ApiKeyRow :=
  let q := List.filter (fun r => String.eqb (tenant_id r) tenant) (api_keys db) in
  let q := match given rtype with
           | Some t => List.filter (fun r => String.eqb (resource_type r) t) q
           | None => q
           end in
  let q := match given rname with
           | Some n => List.filter (fun r => ilike_contains n (resource_name r)) q
           | None => q
           end in
  let q := match given person with
           | Some n => List.filter (fun r => ilike_contains n (authorized_person r)) q
           | None => q
           end in
  let q := List.filter (status_filter now status) q in
  order_by_created_at_desc q.

Record Pagination : Type := {
  items : list ApiKeyRow;
  total : nat
}.

(** [ApiKeyService.get_api_keys] *)
Definition get_api_keys (now : Z) (tenant : string) (page per_page : Z)
    (rtype rname person status : option string) (db : Db) : Pagination :=
  let q := get_api_keys_query now tenant rtype rname person status db in
  {| items := page_of page per_page q; total := length q |}.

End Listing.

(** *** Key generation *)

(** The loop returns the first candidate that is not in the table. *)
Lemma generate_loop_first_free (db : Db) (candidates : nat → string) :
  ∀ attempts i j,
    (j < attempts)%nat →
    (∀ m, (m < j)%nat → key_exists db (candidates (i + m)%nat) = true) →
    key_exists db (candidates (i + j)%nat) = false →
    generate_loop attempts db candidates i = Ok (candidates (i + j)%nat).
Proof.
  induction attempts as [|n IH]; intros i j Hj Hbefore Hfree; [lia|].
  simpl. destruct j as [|j].
  - rewrite Nat.add_0_r in Hfree. rewrite Hfree. by rewrite Nat.add_0_r.
  - rewrite <- (Nat.add_0_r i) at 1. rewrite (Hbefore 0%nat) by lia.
    replace (i + S j)%nat with (S i + j)%nat by lia. apply IH; [lia| |].
    + intros m Hm. replace (S i + m)%nat with (i + S m)%nat by lia. apply Hbefore. lia.
    + by replace (S i + j)%nat with (i + S j)%nat by lia.
Qed.

(** It gives up exactly when every one of its candidates is taken. *)
Lemma generate_loop_duplicate (db : Db) (candidates : nat → string) :
  ∀ attempts i,
    generate_loop attempts db candidates i
      = Raise (DuplicateApiKeyError "Failed to generate unique API key") ↔
    ∀ m, (m < attempts)%nat → key_exists db (candidates (i + m)%nat) = true.
Proof.
  induction attempts as [|n IH]; intros i; simpl.
  - split; [intros _ m Hm; lia|done].
  - destruct (key_exists db (candidates i)) eqn:E.
    + rewrite IH. split.
      * intros H [|m] Hm; [by rewrite Nat.add_0_r|].
        replace (i + S m)%nat with (S i + m)%nat by lia. apply H. lia.
      * intros H m Hm. replace (S i + m)%nat with (i + S m)%nat by lia. apply H. lia.
    + split; [done|]. intros H. specialize (H 0%nat). rewrite Nat.add_0_r in H.
      rewrite H in E by lia. done.
Qed.

(** C3 (the code as written). A resource type outside agent-chat and
    workflow is refused with [InvalidResourceTypeError]; for agent-chat and
    workflow the call stops at the lookup of [_validate_resource_exist],
    which no attribute of the class is named: it raises [AttributeError]
    and no row is written. *)
Theorem create_api_key_outcome (new_id current_user_id : string) (now : Z)
    (candidates : nat → string) (a : CreateArgs) (db : Db) :
  create_api_key new_id current_user_id now candidates a db =
    if existsb (String.eqb (a_resource_type a)) ["agent-chat"; "workflow"]
    then (Raise (AttributeError
                   "'ApiKeyService' object has no attribute '_validate_resource_exist'"), db)
    else (Raise (InvalidResourceTypeError ("Invalid resource type: " ++ a_resource_type a)), db).
Proof.
  unfold create_api_key. destruct (existsb _ _); reflexivity.
Qed.

Definition workflow_request : CreateArgs :=
  {| a_tenant_id := "t1"; a_resource_type := "workflow"; a_resource_id := "app1";
     a_resource_name := "nightly"; a_validity_type := "permanent";
     a_start_date := None; a_end_date := None; a_authorized_person := "ann";
     a_description := ""; a_created_by := "u1" |}.

Definition db_with_app : Db :=
  {| api_keys := [];
     apps := [ {| app_id := "app1"; app_tenant_id := "t1"; app_mode := "workflow" |} ] |}.

Example create_api_key_workflow_fails :
  create_api_key "k1" "u1" 0 (fun _ => "app-0001") workflow_request db_with_app
  = (Raise (AttributeError "'ApiKeyService' object has no attribute '_validate_resource_exist'"),
     db_with_app).
Proof. reflexivity. Qed.

(** *** The status filter *)

Lemma In_insert_desc (r x : ApiKeyRow) (l : list ApiKeyRow) :
  In x (insert_desc r l) ↔ x = r ∨ In x l.
Proof.
  induction l as [|y l IH]; simpl; [naive_solver|].
  destruct (created_at y <? created_at r); simpl; [naive_solver|].
  rewrite IH. naive_solver.
Qed.

Lemma In_order_by (x : ApiKeyRow) (l : list ApiKeyRow) :
  In x (order_by_created_at_desc l) ↔ In x l.
Proof.
  unfold order_by_created_at_desc. induction l as [|y l IH]; simpl; [done|].
  rewrite In_insert_desc, IH. naive_solver.
Qed.

Lemma query_status (ilike_contains : string → string → bool) (now : Z) (tenant : string)
    (rtype rname person status : option string) (db : Db) (k : ApiKeyRow) :
  In k (get_api_keys_query ilike_contains now tenant rtype rname person status db) ↔
  In k (get_api_keys_query ilike_contains now tenant rtype rname person None db) ∧
  status_filter now status k = true.
Proof.
  unfold get_api_keys_query. rewrite !In_order_by, !filter_In. simpl. naive_solver.
Qed.

(** An optional filter argument holds of a row when it is not given, or
    empty, or when its test does. *)
Lemma In_filter_given (o : option string) (test : string → ApiKeyRow → bool)
    (rows : list ApiKeyRow) (k : ApiKeyRow) :
  In k (match given o with
        | Some v => List.filter (test v) rows
        | None => rows
        end) ↔
  In k rows ∧ ∀ v, o = Some v → v ≠ "" → test v k = true.
Proof.
  destruct o as [v|]; simpl; [|naive_solver].
  destruct (String.eqb_spec v "") as [->|Hne]; [naive_solver|].
  rewrite filter_In. naive_solver.
Qed.

(** The rows of the query without a status: the keys of the tenant that
    pass the filters given. *)
Lemma query_candidates (ilike_contains : string → string → bool) (now : Z) (tenant : string)
    (rtype rname person : option string) (db : Db) (k : ApiKeyRow) :
  In k (get_api_keys_query ilike_contains now tenant rtype rname person None db) ↔
  In k (api_keys db) ∧ tenant_id k = tenant ∧
  (∀ t, rtype = Some t → t ≠ "" → resource_type k = t) ∧
  (∀ n, rname = Some n → n ≠ "" → ilike_contains n (resource_name k) = true) ∧
  (∀ n, person = Some n → n ≠ "" → ilike_contains n (authorized_person k) = true).
Proof.
  unfold get_api_keys_query. rewrite In_order_by, filter_In.
  rewrite (In_filter_given person (λ n r, ilike_contains n (authorized_person r))).
  rewrite (In_filter_given rname (λ n r, ilike_contains n (resource_name r))).
  rewrite (In_filter_given rtype (λ t r, String.eqb (resource_type r) t)).
  rewrite filter_In, String.eqb_eq. simpl.
  split.
  - intros (((((Hin & Ht) & Hrt) & Hrn) & Hp) & _). repeat split; try done.
    intros t H1 H2. by apply String.eqb_eq, Hrt.
  - intros (Hin & Ht & Hrt & Hrn & Hp). repeat split; try done.
    intros t H1 H2. by apply String.eqb_eq, Hrt.
Qed.

(** C6. A key is listed under a status when it is on some page of
    [get_api_keys] called with that status. The keys listed without a
    status are the keys of the tenant that pass the other filters given;
    among them, [active] lists exactly those whose [end_date] is not before
    now and that are active, [expired] exactly those with [validity_type]
    limited and [end_date] before now, and [inactive] exactly those that
    are not active (any other status lists them all); so an expired
    limited key is listed under [expired] and not under [active], and an
    inactive key is listed under [inactive] whatever its dates. The pages
    of [db.paginate] are only taken to hold, together, the rows of the
    query. *)
Theorem status_filter_semantics (ilike_contains : string → string → bool)
    (page_of : Z → Z → list ApiKeyRow → list ApiKeyRow) (now : Z)
    (tenant : string) (per_page : Z) (rtype rname person : option string) (db : Db)
    (k : ApiKeyRow) :
  (∀ rows x, In x rows ↔ ∃ page, In x (page_of page per_page rows)) →
  let listed st :=
    ∃ page, In k (items (get_api_keys ilike_contains page_of now tenant page per_page
                                      rtype rname person st db)) in
  let candidate :=
    In k (api_keys db) ∧ tenant_id k = tenant ∧
    (∀ t, rtype = Some t → t ≠ "" → resource_type k = t) ∧
    (∀ n, rname = Some n → n ≠ "" → ilike_contains n (resource_name k) = true) ∧
    (∀ n, person = Some n → n ≠ "" → ilike_contains n (authorized_person k) = true) in
  (listed None ↔ candidate) ∧
  (listed (Some "active") ↔
     candidate ∧ (∃ e, end_date k = Some e ∧ now ≤ e) ∧ is_active k = true) ∧
  (listed (Some "expired") ↔
     candidate ∧ validity_type k = "limited" ∧ ∃ e, end_date k = Some e ∧ e < now) ∧
  (listed (Some "inactive") ↔ candidate ∧ is_active k = false) ∧
  (∀ st, st ≠ "active" → st ≠ "expired" → st ≠ "inactive" →
     (listed (Some st) ↔ candidate)) ∧
  (candidate → validity_type k = "limited" → (∃ e, end_date k = Some e ∧ e < now) →
     listed (Some "expired") ∧ ¬ listed (Some "active")) ∧
  (candidate → is_active k = false → listed (Some "inactive")).
Proof.
  intros Hpages listed candidate.
  assert (Hlisted : ∀ st, listed st ↔ candidate ∧ status_filter now st k = true).
  { intros st. unfold listed, get_api_keys. simpl.
    rewrite <- Hpages, query_status, query_candidates. done. }
  assert (Hall : listed None ↔ candidate).
  { rewrite Hlisted. simpl. naive_solver. }
  assert (Hact : listed (Some "active") ↔
     candidate ∧ (∃ e, end_date k = Some e ∧ now ≤ e) ∧ is_active k = true).
  { rewrite Hlisted. unfold status_filter. simpl.
    rewrite andb_true_iff. destruct (end_date k) as [e|].
    - rewrite Z.leb_le. naive_solver.
    - naive_solver. }
  assert (Hexp : listed (Some "expired") ↔
     candidate ∧ validity_type k = "limited" ∧ ∃ e, end_date k = Some e ∧ e < now).
  { rewrite Hlisted. unfold status_filter. simpl.
    rewrite andb_true_iff, String.eqb_eq. destruct (end_date k) as [e|].
    - rewrite Z.ltb_lt. naive_solver.
    - naive_solver. }
  assert (Hina : listed (Some "inactive") ↔ candidate ∧ is_active k = false).
  { rewrite Hlisted. unfold status_filter. simpl. by rewrite negb_true_iff. }
  split; [exact Hall|]. split; [exact Hact|]. split; [exact Hexp|].
  split; [exact Hina|]. split; [|split].
  - intros st H1 H2 H3. rewrite Hlisted. unfold status_filter, given.
    destruct (String.eqb_spec st ""); [naive_solver|].
    apply String.eqb_neq in H1, H2, H3. rewrite H1, H2, H3. naive_solver.
  - intros Hl Hv (e & He & Hlt). split.
    + apply Hexp. eauto.
    + intros Ha. apply Hact in Ha as (_ & (e' & He' & Hle) & _).
      rewrite He in He'. injection He' as <-. lia.
  - intros Hl Hi. by apply Hina.
Qed.

Definition key_row (i : string) (vt : string) (e : option Z) (act : bool) (at_ : Z) : ApiKeyRow :=
  {| id := i; tenant_id := "t1"; key := "app-" ++ i; resource_type := "workflow";
     resource_id := "app1"; resource_name := "nightly"; validity_type := vt;
     start_date := None; end_date := e; authorized_person := "ann"; description := "";
     is_active := act; created_by := "u1"; updated_by := "u1"; created_at := at_ |}.

(** Now is 100: [k1] expired and still active, [k2] valid and active, [k3]
    valid and switched off, [k4] permanent. *)
Definition listing_db : Db :=
  {| api_keys := [ key_row "k1" "limited" (Some 50) true 1;
                   key_row "k2" "limited" (Some 200) true 2;
                   key_row "k3" "limited" (Some 200) false 3;
                   key_row "k4" "permanent" None true 4 ];
     apps := [] |}.

Example list_active :
  map id (get_api_keys_query (fun _ _ => true) 100 "t1" None None None (Some "active") listing_db)
  = ["k2"].
Proof. reflexivity. Qed.

Example list_expired :
  map id (get_api_keys_query (fun _ _ => true) 100 "t1" None None None (Some "expired") listing_db)
  = ["k1"].
Proof. reflexivity. Qed.

Example list_inactive :
  map id (get_api_keys_query (fun _ _ => true) 100 "t1" None None None (Some "inactive") listing_db)
  = ["k3"].
Proof. reflexivity. Qed.

Example list_all_newest_first :
  map id (get_api_keys_query (fun _ _ => true) 100 "t1" None None None None listing_db)
  = ["k4"; "k3"; "k2"; "k1"].
Proof. reflexivity. Qed.

(** Pages of [per_page] rows, counted from 1; no rows for another page
    number. *)
Definition page_rows (page per_page : Z) (rows : list ApiKeyRow) : list ApiKeyRow :=
  if (1 <=? page) && (1 <=? per_page)
  then take (Z.to_nat per_page) (drop (Z.to_nat ((page - 1) * per_page)) rows)
  else [].

Lemma page_rows_cover (per_page : Z) (rows : list ApiKeyRow) (x : ApiKeyRow) :
  0 < per_page → (In x rows ↔ ∃ page, In x (page_rows page per_page rows)).
Proof.
  intros Hsize. split.
  - intros Hin. apply (RoleAccount.paginate_covers per_page) in Hin as
      (page & items_ & Hpage & Hp & Hin); [|done].
    exists page. unfold page_rows. unfold RoleAccount.paginate in Hp.
    destruct (Z.leb_spec 1 page); [|lia]. destruct (Z.leb_spec 1 per_page); [|lia].
    destruct (((page - 1) * per_page <? 0) || (per_page <? 0)); [done|].
    injection Hp as <-. exact Hin.
  - intros (page & Hin). unfold page_rows in Hin.
    destruct ((1 <=? page) && (1 <=? per_page)); [|done].
    apply list_elem_of_In in Hin. apply list_elem_of_In.
    eapply subseteq_drop, subseteq_take, Hin.
Qed.

(** In the listing above, on pages of ten at time 100: the expired key
    [k1] is listed under [expired] and not under [active], and the key
    [k3], switched off before its end date, under [inactive]. *)
Lemma status_filter_semantics_witness :
  let listed k st :=
    ∃ page, In k (items (get_api_keys (fun _ _ => true) page_rows 100 "t1" page 10
                                      None None None st listing_db)) in
  (listed (key_row "k1" "limited" (Some 50) true 1) (Some "expired") ∧
   ¬ listed (key_row "k1" "limited" (Some 50) true 1) (Some "active")) ∧
  listed (key_row "k3" "limited" (Some 200) false 3) (Some "inactive").
Proof.
  intros listed. split.
  - destruct (status_filter_semantics (fun _ _ => true) page_rows 100 "t1" 10
                None None None listing_db (key_row "k1" "limited" (Some 50) true 1))
      as (_ & _ & _ & _ & _ & H & _).
    { intros rows x. by apply page_rows_cover. }
    apply H.
    + split; [simpl; tauto|]. repeat split; discriminate.
    + reflexivity.
    + exists 50. split; [reflexivity|lia].
  - destruct (status_filter_semantics (fun _ _ => true) page_rows 100 "t1" 10
                None None None listing_db (key_row "k3" "limited" (Some 200) false 3))
      as (_ & _ & _ & _ & _ & _ & H).
    { intros rows x. by apply page_rows_cover. }
    apply H.
    + split; [simpl; tauto|]. repeat split; discriminate.
    + reflexivity.
Defined.

(** ** Further properties of the key service *)

(** services/errors/api_key.py: the errors of the lookups, beside the
    exceptions of [Py]. *)
Inductive lookup_exn : Type :=
| ApiKeyNotFoundError (msg : string)
| ApiKeyInactiveError (msg : string)
| ApiKeyExpiredError (msg : string)
| Other (e : exn).

Inductive outcome (A : Type) : Type :=
| Returns (a : A)
| Raises (e : lookup_exn).
Arguments Returns {A} a.
Arguments Raises {A} e.

(** [ApiKeyService.get_api_key] *)
Definition get_api_key (db : Db) (tenant_id_ api_key_id : string) : outcome ApiKeyRow :=
  match first (List.filter (fun r => String.eqb (tenant_id r) tenant_id_
                                     && String.eqb (id r) api_key_id) (api_keys db)) with
  | Some r => Returns r
  | None => Raises (ApiKeyNotFoundError ("API key " ++ api_key_id ++ " not found"))
  end.

(** [ApiKeyService.get_api_key_by_key] *)
Definition get_api_key_by_key (db : Db) (k : string) : outcome ApiKeyRow :=
  match first (List.filter (fun r => String.eqb (key r) k) (api_keys db)) with
  | Some r => Returns r
  | None => Raises (ApiKeyNotFoundError "API key not found")
  end.

(** A call [self.name(...)] made inside the service: the name is resolved
    and the arguments are bound first ([call_static]); the body runs only
    when that succeeds. *)
Definition call_self {A : Type} (name : string) (nargs : nat) (body : outcome A) : outcome A :=
  match call_static name nargs with
  | Raise e => Raises (Other e)
  | Ok _ => body
  end.

Definition set_is_active (r : ApiKeyRow) (b : bool) (by_ : string) : ApiKeyRow :=
  {| id := id r; tenant_id := tenant_id r; key := key r; resource_type := resource_type r;
     resource_id := resource_id r; resource_name := resource_name r;
     validity_type := validity_type r; start_date := start_date r; end_date := end_date r;
     authorized_person := authorized_person r; description := description r;
     is_active := b; created_by := created_by r; updated_by := by_;
     created_at := created_at r |}.

(** Replace, or drop, the row an ORM object stands for: the first row of
    the tenant with that id. *)
Fixpoint update_row (p : ApiKeyRow → bool) (f : ApiKeyRow → option ApiKeyRow)
    (l : list ApiKeyRow) : list ApiKeyRow :=
  match l with
  | [] => []
  | x :: l' => if p x then match f x with Some y => y :: l' | None => l' end
               else x :: update_row p f l'
  end.

(** [ApiKeyService.delete_api_key]; it calls
    [self.get_api_key(tenant_id, api_key_id)]. *)
Definition delete_api_key (tenant_id_ api_key_id : string) (db : Db) : outcome bool * Db :=
  match call_self "get_api_key" 2 (get_api_key db tenant_id_ api_key_id) with
  | Raises e => (Raises e, db)
  | Returns api_key =>
    (Returns true,
     {| api_keys := update_row (fun r => String.eqb (tenant_id r) tenant_id_
                                         && String.eqb (id r) api_key_id)
                               (fun _ => None) (api_keys db);
        apps := apps db |})
  end.

(** [ApiKeyService.toggle_api_key_status]; [current_user_id] is
    [current_user.id]. It calls [self.get_api_key(tenant_id, api_key_id)]. *)
Definition toggle_api_key_status (current_user_id tenant_id_ api_key_id : string) (db : Db)
  : outcome ApiKeyRow * Db :=
  match call_self "get_api_key" 2 (get_api_key db tenant_id_ api_key_id) with
  | Raises e => (Raises e, db)
  | Returns api_key =>
    let toggled := set_is_active api_key (negb (is_active api_key)) current_user_id in
    (Returns toggled,
     {| api_keys := update_row (fun r => String.eqb (tenant_id r) tenant_id_
                                         && String.eqb (id r) api_key_id)
                               (fun _ => Some toggled) (api_keys db);
        apps := apps db |})
  end.

(** The dictionary [get_resources_for_selection] makes of an app. *)
Record Resource : Type := {
  res_id : string;
  res_name : string;
  res_description : string
}.

Section Selection.

(** [ApiKey.is_expired], a property of the model. *)
Variable is_expired : ApiKeyRow → bool.

(** The columns [name] and [description] of [apps]. *)
Variable app_name : AppRow → string.
Variable app_description : AppRow → string.

(** [ApiKeyService.validate_api_key]; it calls
    [self.get_api_key_by_key(key)]. *)
Definition validate_api_key (k : string) (db : Db) : outcome ApiKeyRow :=
  match call_self "get_api_key_by_key" 1 (get_api_key_by_key db k) with
  | Raises e => Raises e
  | Returns api_key =>
    if negb (is_active api_key)
    then Raises (ApiKeyInactiveError ("API key " ++ id api_key ++ " is inactive"))
    else if is_expired api_key
    then Raises (ApiKeyExpiredError ("API key " ++ id api_key ++ " is expired"))
    else Returns api_key
  end.

(** [ApiKeyService.get_resources_for_selection] *)
Definition get_resources_for_selection (db : Db) (tenant_id_ resource_type_ : string)
  : list Resource :=
  let of_mode (mode : string) :=
    map (fun a => {| res_id := app_id a; res_name := app_name a;
                     res_description := app_description a |})
        (List.filter (fun a => String.eqb (app_tenant_id a) tenant_id_
                               && String.eqb (app_mode a) mode) (apps db)) in
  if String.eqb resource_type_ "agent-chat" then of_mode "agent-chat"
  else if String.eqb resource_type_ "workflow" then of_mode "workflow"
  else [].

End Selection.

(** X15. [_generate_unique_key] returns a key that no row has: the first
    of its first ten candidates that is free. It raises
    [DuplicateApiKeyError] exactly when all ten are taken, and nothing
    else. *)
Theorem generate_unique_key_first_free (db : Db) (candidates : nat → string) :
  match _generate_unique_key db candidates with
  | Ok k =>
    key_exists db k = false ∧
    ∃ j, (j < 10)%nat ∧ k = candidates j ∧
         ∀ m, (m < j)%nat → key_exists db (candidates m) = true
  | Raise e =>
    e = DuplicateApiKeyError "Failed to generate unique API key" ∧
    ∀ m, (m < 10)%nat → key_exists db (candidates m) = true
  end.
Proof.
  unfold _generate_unique_key.
  assert (H : ∀ attempts i,
    match generate_loop attempts db candidates i with
    | Ok k => key_exists db k = false ∧
              ∃ j, (j < attempts)%nat ∧ k = candidates (i + j)%nat ∧
                   ∀ m, (m < j)%nat → key_exists db (candidates (i + m)%nat) = true
    | Raise e => e = DuplicateApiKeyError "Failed to generate unique API key" ∧
                 ∀ m, (m < attempts)%nat → key_exists db (candidates (i + m)%nat) = true
    end).
  { induction attempts as [|n IH]; intros i; simpl.
    - split; [done|]. intros m Hm. lia.
    - destruct (key_exists db (candidates i)) eqn:E.
      + specialize (IH (S i)). destruct (generate_loop n db candidates (S i)) as [k|e].
        * destruct IH as (Hfree & j & Hj & -> & Hbefore). split; [done|].
          exists (S j). split; [lia|]. split; [f_equal; lia|].
          intros [|m] Hm; [by rewrite Nat.add_0_r|].
          replace (i + S m)%nat with (S i + m)%nat by lia. apply Hbefore. lia.
        * destruct IH as (-> & Hall). split; [done|].
          intros [|m] Hm; [by rewrite Nat.add_0_r|].
          replace (i + S m)%nat with (S i + m)%nat by lia. apply Hall. lia.
      + split; [done|]. exists 0%nat. split; [lia|]. split; [by rewrite Nat.add_0_r|].
        intros m Hm. lia. }
  exact (H 10%nat 0%nat).
Qed.

Lemma app_exists_true (db : Db) (tenant rid mode : string) :
  existsb (fun a => String.eqb (app_id a) rid && String.eqb (app_tenant_id a) tenant
                    && String.eqb (app_mode a) mode) (apps db) = true ↔
  ∃ a, In a (apps db) ∧ app_id a = rid ∧ app_tenant_id a = tenant ∧ app_mode a = mode.
Proof.
  rewrite existsb_exists. split.
  - intros (a & Hin & H). apply andb_true_iff in H as [H H3].
    apply andb_true_iff in H as [H1 H2]. apply String.eqb_eq in H1, H2, H3. by exists a.
  - intros (a & Hin & <- & <- & <-). exists a. split; [done|].
    by rewrite !String.eqb_refl.
Qed.

(** X16. Of the two resource types [create_api_key] admits,
    [_validate_resource_exists] checks only workflow: a workflow id passes
    exactly when the tenant has a workflow app with that id, and an
    agent-chat id passes always, whether or not such an app exists (the
    check is written for the type agent, which [create_api_key] refuses).
    So every resource [get_resources_for_selection] offers passes, and for
    agent-chat so does every id it does not offer. *)
Theorem validate_resource_exists_coverage
    (app_name app_description : AppRow → string)
    (db : Db) (tenant rtype rid : string) :
  existsb (String.eqb rtype) ["agent-chat"; "workflow"] = true →
  (_validate_resource_exists db tenant rtype rid = Ok tt ↔
   rtype = "agent-chat" ∨
   ∃ a, In a (apps db) ∧ app_id a = rid ∧ app_tenant_id a = tenant ∧ app_mode a = "workflow") ∧
  (∀ r, In r (get_resources_for_selection app_name app_description db tenant rtype) →
        _validate_resource_exists db tenant rtype (res_id r) = Ok tt).
Proof.
  intros Hadmitted. simpl in Hadmitted. rewrite orb_false_r in Hadmitted.
  apply orb_true_iff in Hadmitted as [H|H]; apply String.eqb_eq in H; subst rtype.
  - split; [split; [by left|done]|]. done.
  - unfold _validate_resource_exists, get_resources_for_selection. simpl.
    split.
    + destruct (existsb _ (apps db)) eqn:E.
      * apply app_exists_true in E. split; [by right|done].
      * split; [done|]. intros [Hf|Hex]; [done|].
        apply app_exists_true in Hex. congruence.
    + intros r Hr. apply in_map_iff in Hr as (a & <- & Ha).
      apply filter_In in Ha as [Hin Hp]. apply andb_true_iff in Hp as [H1 H2].
      apply String.eqb_eq in H1, H2. simpl.
      assert (existsb (fun a0 => String.eqb (app_id a0) (app_id a)
                && String.eqb (app_tenant_id a0) tenant
                && String.eqb (app_mode a0) "workflow") (apps db) = true) as ->; [|done].
      apply app_exists_true. by exists a.
Qed.

(** X17. [delete_api_key], [toggle_api_key_status] and [validate_api_key]
    never get as far as the table: each begins with a call to another
    static method through [self] that passes one argument too few, so each
    raises [TypeError], for every argument and every store, and no row is
    deleted or changed. *)
Theorem lookups_through_self_fail (is_expired : ApiKeyRow → bool)
    (current_user_id tenant api_key_id k : string) (db : Db) :
  (∃ msg, delete_api_key tenant api_key_id db = (Raises (Other (TypeError msg)), db)) ∧
  (∃ msg, toggle_api_key_status current_user_id tenant api_key_id db
          = (Raises (Other (TypeError msg)), db)) ∧
  (∃ msg, validate_api_key is_expired k db = Raises (Other (TypeError msg))).
Proof.
  split; [|split]; eexists; reflexivity.
Qed.

Lemma validate_resource_exists_coverage_witness :
  _validate_resource_exists db_with_app "t1" "agent-chat" "no-such-app" = Ok tt ∧
  (_validate_resource_exists db_with_app "t1" "workflow" "app1" = Ok tt ↔
   "workflow" = "agent-chat" ∨
   ∃ a, In a (apps db_with_app) ∧ app_id a = "app1" ∧ app_tenant_id a = "t1" ∧
        app_mode a = "workflow").
Proof.
  split.
  - apply (validate_resource_exists_coverage (fun _ => "") (fun _ => "") db_with_app
             "t1" "agent-chat" "no-such-app" eq_refl).
    by left.
  - apply (validate_resource_exists_coverage (fun _ => "") (fun _ => "") db_with_app
             "t1" "workflow" "app1" eq_refl).
Defined.

End ApiKey.

(** ** controllers/console/app/publish.py, services/publish_application_service.py,
    models/publish.py *)
Module Publish.

(** *** models/publish.py *)

(** [ApplyAppType] is an [IntEnum]: its members are the integers 1 and 2. *)
Definition ApplyAppType_WORKFLOW : Z := 1.
Definition ApplyAppType_AGENT : Z := 2.

(** [PublishApplicationStatus] *)
Definition APPLYING : Z := 1.
Definition REGION_APPROVING : Z := 2.
Definition SYS_APPROVING : Z := 3.
Definition COMPLETED : Z := 4.
Definition REJECTED : Z := 5.

(** [NotificationMsgType] *)
Definition SYSTEM : Z := 1.
Definition APPROVAL_TODO : Z := 2.
Definition APPROVAL_RESULT : Z := 3.

(** [PublicApplicationAction] is a [StrEnum]. *)
Definition SUBMIT : string := "SUBMIT".
Definition APPROVE : string := "APPROVE".
Definition REJECT : string := "REJECT".

(** [str(member)] of an [IntEnum] member: its decimal text. *)
Definition str_of_status (z : Z) : string := pretty z.

Record PublishApplication : Type := {
  pa_id : string;
  applicant_id : string;
  applicant_area : option string;
  pa_tenant_id : option string;
  status : Z;
  need_sys_approve : option bool;
  region_admin_id : option string;
  sys_admin_id : option string;
  apply_app_id : string;
  apply_app_version_id : string;
  apply_app_type : Z;
  pa_created_by : option string;
  pa_updated_by : option string
}.

Record PublishApplicationHistory : Type := {
  h_id : string;
  h_application_id : string;
  h_tenant_id : option string;
  action : option string;
  operator_id : option string;
  operator_role : option string;
  from_status : option string;
  to_status : option string;
  reason : string
}.

Record SystemNotification : Type := {
  n_id : string;
  n_tenant_id : option string;
  title : option string;
  content : string;
  msg_type : Z;
  source_type : option Z;
  source_id : option string;
  n_created_by : option string;
  n_updated_by : option string;
  account_id : option (list string);
  role : option (list string);
  is_deal : option bool;
  n_application_id : option string
}.

Record PublishWorkflow : Type := {
  pw_id : string;
  pw_tenant_id : string;
  pw_app_id : string;
  pw_type : string;
  pw_version : string;
  pw_marked_name : string;
  pw_marked_comment : string;
  pw_graph : string;
  pw_features : string;
  pw_created_by : option string;
  pw_updated_by : option string;
  pw_icon_type : option string;
  pw_icon : option string;
  pw_icon_background : option string;
  pw_enable : bool;
  workflow_id : string
}.

(** The source rows a listing is made from: the columns the approval
    reads. The columns of an agent configuration that are copied unchanged
    (provider ... file_upload) are kept together in [amc_columns]. *)
Record Workflow : Type := {
  wf_id : string;
  wf_tenant_id : string;
  wf_app_id : string;
  wf_type : string;
  wf_version : string;
  wf_marked_name : string;
  wf_marked_comment : string;
  wf_graph : string;
  wf_features : string;
  wf_publish_square : bool
}.

Record AppModelConfig : Type := {
  amc_id : string;
  amc_app_id : string;
  amc_columns : list (string * option string);
  amc_marked_name : string;
  amc_marked_comment : string;
  amc_publish_square : bool
}.

Record PublishAppModelConfig : Type := {
  pc_id : string;
  pc_app_id : string;
  pc_tenant_id : string;
  pc_columns : list (string * option string);
  pc_created_by : option string;
  pc_updated_by : option string;
  pc_icon_type : option string;
  pc_icon : option string;
  pc_icon_background : option string;
  pc_enable : bool;
  app_model_config_id : string;
  pc_marked_name : string;
  pc_marked_comment : string
}.

Record App : Type := {
  app_id : string;
  app_tenant_id : string;
  app_name : string;
  app_icon_type : option string;
  app_icon : option string;
  app_icon_background : option string
}.

(** [current_user] *)
Record Account : Type := {
  acc_id : string;
  is_editor : bool;
  current_tenant_id : string
}.

Record Db : Type := {
  publish_application : list PublishApplication;
  publish_application_history : list PublishApplicationHistory;
  system_notification : list SystemNotification;
  publish_workflows : list PublishWorkflow;
  publish_app_model_configs : list PublishAppModelConfig;
  workflows : list Workflow;
  app_model_configs : list AppModelConfig;
  apps : list App
}.

Definition with_applications (db : Db) (l : list PublishApplication) : Db :=
  {| publish_application := l;
     publish_application_history := publish_application_history db;
     system_notification := system_notification db;
     publish_workflows := publish_workflows db;
     publish_app_model_configs := publish_app_model_configs db;
     workflows := workflows db; app_model_configs := app_model_configs db; apps := apps db |}.

Definition with_history (db : Db) (l : list PublishApplicationHistory) : Db :=
  {| publish_application := publish_application db;
     publish_application_history := l;
     system_notification := system_notification db;
     publish_workflows := publish_workflows db;
     publish_app_model_configs := publish_app_model_configs db;
     workflows := workflows db; app_model_configs := app_model_configs db; apps := apps db |}.

Definition with_notifications (db : Db) (l : list SystemNotification) : Db :=
  {| publish_application := publish_application db;
     publish_application_history := publish_application_history db;
     system_notification := l;
     publish_workflows := publish_workflows db;
     publish_app_model_configs := publish_app_model_configs db;
     workflows := workflows db; app_model_configs := app_model_configs db; apps := apps db |}.

Definition with_publish_workflows (db : Db) (l : list PublishWorkflow) (ws : list Workflow) : Db :=
  {| publish_application := publish_application db;
     publish_application_history := publish_application_history db;
     system_notification := system_notification db;
     publish_workflows := l;
     publish_app_model_configs := publish_app_model_configs db;
     workflows := ws; app_model_configs := app_model_configs db; apps := apps db |}.

Definition with_publish_configs (db : Db) (l : list PublishAppModelConfig)
    (cs : list AppModelConfig) : Db :=
  {| publish_application := publish_application db;
     publish_application_history := publish_application_history db;
     system_notification := system_notification db;
     publish_workflows := publish_workflows db;
     publish_app_model_configs := l;
     workflows := workflows db; app_model_configs := cs; apps := apps db |}.

(** *** services/publish_application_service.py *)

(** [PublishApplicationService.get_by_id] *)
Definition get_by_id (db : Db) (application_id : string) : option PublishApplication :=
  List.find (fun a => String.eqb (pa_id a) application_id) (publish_application db).

(** [PublishApplicationService.create]; [new_id] is the key the flush
    returns. The request's [apply_app_type] is text and the column is an
    Integer: the database reads decimal text as the integer it spells
    ([int_of_text]) and refuses text that spells none. *)
Definition create (new_id : string) (account : Account) (status_ : Z)
    (app_id_ version_id apply_app_type_ : string) (tenant : option string)
    (need : option bool) (db : Db) : result PublishApplication * Db :=
  if negb ((1 <=? status_) && (status_ <=? 5)) then (Raise (ValueError "invalid status"), db)
  else
    match int_of_text apply_app_type_ with
    | None => (Raise (Exception_ "DataError: invalid input syntax for type integer"), db)
    | Some t =>
      let application :=
        {| pa_id := new_id; applicant_id := acc_id account; applicant_area := None;
           pa_tenant_id := tenant; status := status_; need_sys_approve := need;
           region_admin_id := None; sys_admin_id := None; apply_app_id := app_id_;
           apply_app_version_id := version_id; apply_app_type := t;
           pa_created_by := Some (acc_id account); pa_updated_by := Some (acc_id account) |} in
      (Ok application, with_applications db (publish_application db ++ [application]))
    end.

Definition set_status (a : PublishApplication) (s : Z) : PublishApplication :=
  {| pa_id := pa_id a; applicant_id := applicant_id a; applicant_area := applicant_area a;
     pa_tenant_id := pa_tenant_id a; status := s; need_sys_approve := need_sys_approve a;
     region_admin_id := region_admin_id a; sys_admin_id := sys_admin_id a;
     apply_app_id := apply_app_id a; apply_app_version_id := apply_app_version_id a;
     apply_app_type := apply_app_type a;
     pa_created_by := pa_created_by a; pa_updated_by := pa_updated_by a |}.

(** Replace the first row that satisfies [p] (the row an ORM object stands
    for). *)
Fixpoint update_first {A : Type} (p : A -> bool) (f : A -> A) (l : list A) : list A :=
  match l with
  | [] => []
  | x :: l' => if p x then f x :: l' else x :: update_first p f l'
  end.

(** [PublishApplicationService.update(application_id, status=s)] *)
Definition update (application_id : string) (s : Z) (db : Db) : result PublishApplication * Db :=
  match get_by_id db application_id with
  | None => (Raise (ValueError "publish_application not found"), db)
  | Some application =>
    (Ok (set_status application s),
     with_applications db
       (update_first (fun a => String.eqb (pa_id a) application_id)
                     (fun a => set_status a s) (publish_application db)))
  end.

(** [PublishApplicationService.add_history] *)
Definition add_history (new_id application_id : string) (tenant : option string)
    (action_ operator operator_role_ from_ to_ reason_ : option string) (db : Db)
  : PublishApplicationHistory * Db :=
  let history :=
    {| h_id := new_id; h_application_id := application_id; h_tenant_id := tenant;
       action := action_; operator_id := operator; operator_role := operator_role_;
       from_status := from_; to_status := to_;
       reason := if truthy reason_ then default "" reason_ else "" |} in
  (history, with_history db (publish_application_history db ++ [history])).

(** [PublishApplicationService.create_notification]; the callers pass
    neither [created_by] nor a source, so
    [created_by or account_id[0] if account_id else None] is the first
    account id when the list is not empty. *)
Definition create_notification (new_id : string) (account_ids role_ : option (list string))
    (msg_type_ : Z) (tenant title_ : option string) (content_ : string)
    (application_id : option string) (is_deal_ : option bool) (db : Db)
  : SystemNotification * Db :=
  let by_ := match account_ids with
             | Some (a :: _) => Some a
             | _ => None
             end in
  let notification :=
    {| n_id := new_id; n_tenant_id := tenant; title := title_; content := content_;
       msg_type := msg_type_; source_type := None; source_id := None;
       n_created_by := by_; n_updated_by := by_;
       account_id := account_ids; role := role_; is_deal := is_deal_;
       n_application_id := application_id |} in
  (notification, with_notifications db (system_notification db ++ [notification])).

(** [PublishApplicationService.get_notification] *)
Definition get_notification (db : Db) (notification_id : string) : option SystemNotification :=
  List.find (fun n => String.eqb (n_id n) notification_id) (system_notification db).

(** *** services/app_model_config_service.py *)

(** [AppModelConfigService.get_published_agent_by_id]; [app_model] may be
    [None] at the approval's call. *)
Definition get_published_agent_by_id (db : Db) (app_model : option App) (agent_id : string)
  : result (option AppModelConfig) :=
  match app_model with
  | None => Raise (AttributeError "'NoneType' object has no attribute 'id'")
  | Some app =>
    Ok (first (List.filter (fun c => String.eqb (amc_app_id c) (app_id app)
                                     && String.eqb (amc_id c) agent_id)
                           (app_model_configs db)))
  end.

(** *** controllers/console/app/publish.py *)

(** The JSON body of a response. *)
Record Response : Type := {
  result_ : string;
  message : option string
}.

(** The parsed arguments of the submit request: [apply_app_type] and
    [selected_workflow_agent_id] are parsed with [type=str]. *)
Record SubmitArgs : Type := {
  s_apply_app_type : string;
  s_need_sys_approve : option bool;
  selected_workflow_agent_id : string;
  s_tenant_id : option string
}.

(** The parsed arguments of the approval request. *)
Record ApproveArgs : Type := {
  a_id : string;
  a_application_id : string;
  a_approve : bool;
  a_reason : option string
}.

(** The primary keys the database generates for the rows of one request. *)
Record Ids : Type := {
  id_application : string;
  id_history : string;
  id_notification : string;
  id_publish : string
}.

Definition version_deleted : Response :=
  {| result_ := "fail"; message := Some "选择的历史版本已经被删除了" |}.

Definition application_missing : Response :=
  {| result_ := "fail"; message := Some "发布申请不存在" |}.

Definition operation_succeeded : Response :=
  {| result_ := "success"; message := Some "操作成功" |}.

Definition submitted : Response :=
  {| result_ := "success"; message := None |}.

(** [notification.is_deal = True] and, for a user with an id,
    [notification.updated_by = current_user.id]. *)
Definition mark_dealt (current_user : Account) (n : SystemNotification) : SystemNotification :=
  {| n_id := n_id n; n_tenant_id := n_tenant_id n; title := title n; content := content n;
     msg_type := msg_type n; source_type := source_type n; source_id := source_id n;
     n_created_by := n_created_by n;
     n_updated_by := if truthy (Some (acc_id current_user))
                     then Some (acc_id current_user) else n_updated_by n;
     account_id := account_id n; role := role n; is_deal := Some true;
     n_application_id := n_application_id n |}.

Definition set_wf_publish_square (w : Workflow) : Workflow :=
  {| wf_id := wf_id w; wf_tenant_id := wf_tenant_id w; wf_app_id := wf_app_id w;
     wf_type := wf_type w; wf_version := wf_version w; wf_marked_name := wf_marked_name w;
     wf_marked_comment := wf_marked_comment w; wf_graph := wf_graph w;
     wf_features := wf_features w; wf_publish_square := true |}.

Definition set_amc_publish_square (c : AppModelConfig) : AppModelConfig :=
  {| amc_id := amc_id c; amc_app_id := amc_app_id c; amc_columns := amc_columns c;
     amc_marked_name := amc_marked_name c; amc_marked_comment := amc_marked_comment c;
     amc_publish_square := true |}.

(** [app_model.name + '_' + marked_name if marked_name else app_model.name] *)
Definition listing_name (app : App) (marked_name : string) : string :=
  if truthy (Some marked_name) then app_name app ++ "_" ++ marked_name else app_name app.

Section Handlers.

(** [WorkflowService.get_published_workflow_by_id], over the [workflows]
    table. *)
Variable get_published_workflow_by_id :
  list Workflow -> option App -> string -> result (option Workflow).

(** [_load_app_model], over the [apps] table and the current user. *)
Variable _load_app_model : list App -> Account -> string -> option App.

(** [Published2SquareApi.post]; [app_model] is the app the route's
    decorator loaded. *)
Definition Published2SquareApi_post (ids : Ids) (current_user : Account) (app_model : App)
    (args : SubmitArgs) (db : Db) : result Response * Db :=
  if negb (is_editor current_user) then (Raise Forbidden, db)
  else
    let selected := selected_workflow_agent_id args in
    let apply_app_type_ := s_apply_app_type args in
    let workflow_check : result (option Response) :=
      if py_eq (PyStr apply_app_type_) (PyInt ApplyAppType_WORKFLOW) then
        match get_published_workflow_by_id (workflows db) (Some app_model) selected with
        | Raise e => Raise e
        | Ok None => Ok (Some version_deleted)
        | Ok (Some _) => Ok None
        end
      else Ok None in
    match workflow_check with
    | Raise e => (Raise e, db)
    | Ok (Some fail) => (Ok fail, db)
    | Ok None =>
      let agent_check : result (option Response) :=
        if py_eq (PyStr apply_app_type_) (PyInt ApplyAppType_AGENT) then
          match get_published_agent_by_id db (Some app_model) selected with
          | Raise e => Raise e
          | Ok None => Ok (Some version_deleted)
          | Ok (Some _) => Ok None
          end
        else Ok None in
      match agent_check with
      | Raise e => (Raise e, db)
      | Ok (Some fail) => (Ok fail, db)
      | Ok None =>
        match create (id_application ids) current_user APPLYING (app_id app_model) selected
                     apply_app_type_ (s_tenant_id args) (s_need_sys_approve args) db with
        | (Raise e, _) => (Raise e, db)
        | (Ok application, db1) =>
          let '(_, db2) :=
            add_history (id_history ids) (pa_id application) (s_tenant_id args)
              (Some SUBMIT) (Some (acc_id current_user)) (Some "admin") None
              (Some (str_of_status APPLYING)) None db1 in
          let '(_, db3) :=
            create_notification (id_notification ids) None (Some ["admin"; "owner"])
              APPROVAL_TODO (s_tenant_id args) (Some "发布到Square审批申请")
              ("发布到Square审批申请，发布申请ID：" ++ pa_id application)
              (Some (pa_id application)) (Some false) db2 in
          (Ok submitted, db3)
        end
      end
    end.

(** The first session of the approval: look the application up and check
    that the version it names still exists. It returns the committed
    store, the local variables [application], [app_model], [workflow],
    [agent] ([None] for a variable that was not assigned) and [msg]. *)
Definition approve_lookup (ids : Ids) (current_user : Account) (args : ApproveArgs) (db : Db)
  : result (PublishApplication * option App * option Workflow * option AppModelConfig
            * option Response) * Db :=
  let failure reason_ (to : option (list string)) (roles : option (list string)) d :=
    (create_notification (id_notification ids) to roles APPROVAL_RESULT
       (Some (current_tenant_id current_user)) (Some "发布到Square审批失败")
       ("发布到Square审批失败，发布申请ID：" ++ a_application_id args ++ "，原因：" ++ reason_)
       None (Some false) d).2 in
  match get_by_id db (a_application_id args) with
  | None =>
    (* the notification is committed, then [application.apply_app_id] is read *)
    (Raise (AttributeError "'NoneType' object has no attribute 'apply_app_id'"),
     failure "发布申请不存在" None (Some ["admin"; "owner"]) db)
  | Some application =>
    let app_model := _load_app_model (apps db) current_user (apply_app_id application) in
    (* the second test of [application is None] is false here *)
    let version_id := apply_app_version_id application in
    let to_applicant := Some [applicant_id application] in
    let workflow_step : result (option Workflow * option Response) * Db :=
      if apply_app_type application =? ApplyAppType_WORKFLOW then
        match get_published_workflow_by_id (workflows db) app_model version_id with
        | Raise e => (Raise e, db)
        | Ok None =>
          (Ok (None, Some version_deleted),
           failure "选择的历史版本已经被删除了" to_applicant None db)
        | Ok (Some w) => (Ok (Some w, None), db)
        end
      else (Ok (None, None), db) in
    match workflow_step with
    | (Raise e, d) => (Raise e, d)
    | (Ok (workflow, msg), d) =>
      if (apply_app_type application =? ApplyAppType_AGENT)
         && match msg with None => true | Some _ => false end then
        match get_published_agent_by_id d app_model version_id with
        | Raise e => (Raise e, d)
        | Ok None =>
          (Ok (application, app_model, workflow, None, Some version_deleted),
           failure "选择的历史版本已经被删除了" to_applicant None d)
        | Ok (Some a) => (Ok (application, app_model, workflow, Some a, None), d)
        end
      else (Ok (application, app_model, workflow, None, msg), d)
    end
  end.

(** The session of an approval: status, history, notification, listing. An
    exception before the commit leaves the store as it was. *)
Definition approve_write (ids : Ids) (current_user : Account) (args : ApproveArgs)
    (app_model : option App) (workflow : option Workflow) (agent : option AppModelConfig)
    (db : Db) : result Response * Db :=
  match update (a_application_id args) COMPLETED db with
  | (Raise e, _) => (Raise e, db)
  | (Ok application, d1) =>
    let '(_, d2) :=
      add_history (id_history ids) (a_application_id args) (pa_tenant_id application)
        (Some APPROVE) (Some (acc_id current_user)) (Some "admin") None
        (Some (str_of_status COMPLETED)) (a_reason args) d1 in
    let '(_, d3) :=
      create_notification (id_notification ids) (Some [applicant_id application]) None
        APPROVAL_RESULT (pa_tenant_id application) (Some "发布到Square审批通过")
        ("发布到Square审批通过，发布申请ID：" ++ a_application_id args)
        None (Some false) d2 in
    let listed_workflow : result Db :=
      if apply_app_type application =? ApplyAppType_WORKFLOW then
        match app_model, workflow with
        | None, _ => Raise (AttributeError "'NoneType' object has no attribute 'id'")
        | Some _, None => Raise (UnboundLocalError "workflow")
        | Some app, Some w =>
          let publish_workflow :=
            {| pw_id := id_publish ids; pw_app_id := app_id app;
               pw_tenant_id := wf_tenant_id w; pw_type := wf_type w;
               pw_version := wf_version w;
               pw_marked_name := listing_name app (wf_marked_name w);
               pw_marked_comment := wf_marked_comment w;
               pw_graph := wf_graph w; pw_features := wf_features w;
               pw_created_by := pa_created_by application;
               pw_updated_by := pa_updated_by application;
               pw_icon_type := app_icon_type app; pw_icon := app_icon app;
               pw_icon_background := app_icon_background app;
               pw_enable := true; workflow_id := apply_app_version_id application |} in
          Ok (with_publish_workflows d3 (publish_workflows d3 ++ [publish_workflow])
                (map (fun x => if String.eqb (wf_id x) (workflow_id publish_workflow)
                               then set_wf_publish_square x else x) (workflows d3)))
        end
      else Ok d3 in
    match listed_workflow with
    | Raise e => (Raise e, db)
    | Ok d4 =>
      let listed_agent : result Db :=
        if apply_app_type application =? ApplyAppType_AGENT then
          match app_model, agent with
          | None, _ => Raise (AttributeError "'NoneType' object has no attribute 'id'")
          | Some _, None => Raise (UnboundLocalError "agent")
          | Some app, Some a =>
            let publish_app_model_config :=
              {| pc_id := id_publish ids; pc_app_id := app_id app;
                 pc_tenant_id := app_tenant_id app; pc_columns := amc_columns a;
                 pc_created_by := pa_created_by application;
                 pc_updated_by := pa_created_by application;
                 pc_icon_type := app_icon_type app; pc_icon := app_icon app;
                 pc_icon_background := app_icon_background app; pc_enable := true;
                 app_model_config_id := apply_app_version_id application;
                 pc_marked_name := listing_name app (amc_marked_name a);
                 pc_marked_comment := amc_marked_comment a |} in
            Ok (with_publish_configs d4
                  (publish_app_model_configs d4 ++ [publish_app_model_config])
                  (map (fun x => if String.eqb (amc_id x)
                                      (app_model_config_id publish_app_model_config)
                                 then set_amc_publish_square x else x) (app_model_configs d4)))
          end
        else Ok d4 in
      match listed_agent with
      | Raise e => (Raise e, db)
      | Ok d5 => (Ok operation_succeeded, d5)
      end
    end
  end.

(** The session of a rejection; it reads [workflow.tenant_id]. *)
Definition reject_write (ids : Ids) (current_user : Account) (args : ApproveArgs)
    (application : PublishApplication) (workflow : option Workflow) (db : Db)
  : result Response * Db :=
  match update (a_application_id args) REJECTED db with
  | (Raise e, _) => (Raise e, db)
  | (Ok _, d1) =>
    match workflow with
    | None => (Raise (UnboundLocalError "workflow"), db)
    | Some w =>
      let '(_, d2) :=
        add_history (id_history ids) (a_application_id args) (Some (wf_tenant_id w))
          (Some REJECT) (Some (acc_id current_user)) (Some "admin") None
          (Some (str_of_status REJECTED)) (a_reason args) d1 in
      let '(_, d3) :=
        create_notification (id_notification ids) (Some [applicant_id application]) None
          APPROVAL_RESULT (Some (wf_tenant_id w)) (Some "发布到Square审批拒绝")
          ("发布到Square审批拒绝，发布申请ID：" ++ a_application_id args)
          None (Some false) d2 in
      (Ok operation_succeeded, d3)
    end
  end.

(** The last step: the notification named by the request's [id], if there
    is one, is marked handled. *)
Definition deal_with_notification (current_user : Account) (args : ApproveArgs) (db : Db) : Db :=
  if truthy (Some (a_id args)) then
    match get_notification db (a_id args) with
    | Some _ =>
      with_notifications db
        (update_first (fun n => String.eqb (n_id n) (a_id args)) (mark_dealt current_user)
                      (system_notification db))
    | None => db
    end
  else db.

(** [Published2SquareSysApproveApi.post] *)
Definition Published2SquareSysApproveApi_post (ids : Ids) (current_user : Account)
    (args : ApproveArgs) (db : Db) : result Response * Db :=
  if negb (is_editor current_user) then (Raise Forbidden, db)
  else
    match approve_lookup ids current_user args db with
    | (Raise e, d) => (Raise e, d)
    | (Ok (application, app_model, workflow, agent, msg), d) =>
      let outcome : result Response * Db :=
        match msg with
        | Some m => (Ok m, d)
        | None =>
          if a_approve args
          then approve_write ids current_user args app_model workflow agent d
          else reject_write ids current_user args application workflow d
        end in
      match outcome with
      | (Raise e, d') => (Raise e, d')
      | (Ok m, d') => (Ok m, deal_with_notification current_user args d')
      end
    end.

End Handlers.

(** *** Facts about the tables *)

(** Whom a notification is for: its type, roles and account ids. *)
Definition addressing (n : SystemNotification) : Z * option (list string) * option (list string) :=
  (msg_type n, role n, account_id n).

Lemma find_appended {A : Type} (p : A → bool) (l : list A) (x : A) :
  (∀ a, In a l → p a = false) → p x = true → List.find p (l ++ [x]) = Some x.
Proof.
  intros Hl Hx. induction l as [|a l IH]; simpl.
  - by rewrite Hx.
  - rewrite (Hl a) by (by left). apply IH. intros b Hb. apply Hl. by right.
Qed.

Lemma update_first_appended {A : Type} (p : A → bool) (f : A → A) (l : list A) (x : A) :
  (∀ a, In a l → p a = false) → p x = true → update_first p f (l ++ [x]) = (l ++ [f x])%list.
Proof.
  intros Hl Hx. induction l as [|a l IH]; simpl.
  - by rewrite Hx.
  - rewrite (Hl a) by (by left). f_equal. apply IH. intros b Hb. apply Hl. by right.
Qed.

Lemma filter_none {A : Type} (p : A → bool) (l : list A) :
  (∀ a, In a l → p a = false) → List.filter p l = [].
Proof.
  intros Hl. induction l as [|a l IH]; simpl; [done|].
  rewrite (Hl a) by (by left). apply IH. intros b Hb. apply Hl. by right.
Qed.

Lemma addressing_update_first (p : SystemNotification → bool) (u : Account)
    (l : list SystemNotification) :
  map addressing (update_first p (mark_dealt u) l) = map addressing l.
Proof.
  induction l as [|n l IH]; simpl; [done|].
  destruct (p n); simpl; [done|]. by rewrite IH.
Qed.

Lemma addressing_deal_with_notification (u : Account) (args : ApproveArgs) (db : Db) :
  map addressing (system_notification (deal_with_notification u args db))
  = map addressing (system_notification db).
Proof.
  unfold deal_with_notification. destruct (truthy _); [|done].
  destruct (get_notification db (a_id args)); [|done].
  simpl. apply addressing_update_first.
Qed.

Lemma deal_with_notification_tables (u : Account) (args : ApproveArgs) (db : Db) :
  let db' := deal_with_notification u args db in
  publish_application db' = publish_application db ∧
  publish_application_history db' = publish_application_history db ∧
  publish_workflows db' = publish_workflows db ∧
  publish_app_model_configs db' = publish_app_model_configs db ∧
  workflows db' = workflows db ∧ app_model_configs db' = app_model_configs db.
Proof.
  unfold deal_with_notification. destruct (truthy _); [|done].
  by destruct (get_notification db (a_id args)).
Qed.

(** The three rows a submit writes. *)
Definition submitted_application (ids : Ids) (current_user : Account) (app_model : App)
    (args : SubmitArgs) (t : Z) : PublishApplication :=
  {| pa_id := id_application ids; applicant_id := acc_id current_user;
     applicant_area := None; pa_tenant_id := s_tenant_id args; status := APPLYING;
     need_sys_approve := s_need_sys_approve args; region_admin_id := None;
     sys_admin_id := None; apply_app_id := app_id app_model;
     apply_app_version_id := selected_workflow_agent_id args; apply_app_type := t;
     pa_created_by := Some (acc_id current_user);
     pa_updated_by := Some (acc_id current_user) |}.

Definition submitted_history (ids : Ids) (current_user : Account) (args : SubmitArgs)
  : PublishApplicationHistory :=
  {| h_id := id_history ids; h_application_id := id_application ids;
     h_tenant_id := s_tenant_id args; action := Some SUBMIT;
     operator_id := Some (acc_id current_user); operator_role := Some "admin";
     from_status := None; to_status := Some "1"; reason := "" |}.

Definition submitted_notification (ids : Ids) (args : SubmitArgs) : SystemNotification :=
  {| n_id := id_notification ids; n_tenant_id := s_tenant_id args;
     title := Some "发布到Square审批申请";
     content := "发布到Square审批申请，发布申请ID：" ++ id_application ids;
     msg_type := APPROVAL_TODO; source_type := None; source_id := None;
     n_created_by := None; n_updated_by := None; account_id := None;
     role := Some ["admin"; "owner"]; is_deal := Some false;
     n_application_id := Some (id_application ids) |}.

(** The store after a submit that wrote its three rows. *)
Definition after_submit (ids : Ids) (current_user : Account) (app_model : App)
    (args : SubmitArgs) (t : Z) (db : Db) : Db :=
  {| publish_application :=
       publish_application db ++ [submitted_application ids current_user app_model args t];
     publish_application_history :=
       publish_application_history db ++ [submitted_history ids current_user args];
     system_notification := system_notification db ++ [submitted_notification ids args];
     publish_workflows := publish_workflows db;
     publish_app_model_configs := publish_app_model_configs db;
     workflows := workflows db; app_model_configs := app_model_configs db; apps := apps db |}.

(** What the submit handler does, for every request: neither existence
    check is ever made, because the parsed [apply_app_type] is a [str] and
    the enumeration members are [int]s. *)
Lemma submit_eq
    (get_published_workflow_by_id : list Workflow → option App → string → result (option Workflow))
    (ids : Ids) (current_user : Account) (app_model : App) (args : SubmitArgs) (db : Db) :
  Published2SquareApi_post get_published_workflow_by_id ids current_user app_model args db =
    if negb (is_editor current_user) then (Raise Forbidden, db)
    else match int_of_text (s_apply_app_type args) with
         | None => (Raise (Exception_ "DataError: invalid input syntax for type integer"), db)
         | Some t => (Ok submitted, after_submit ids current_user app_model args t db)
         end.
Proof.
  unfold Published2SquareApi_post. destruct (is_editor current_user); [|done]. simpl.
  unfold create. simpl. by destruct (int_of_text (s_apply_app_type args)).
Qed.

(** C5 (the code as written). For an editor and an [apply_app_type] that
    is the text of an integer, the submit handler answers success and
    writes the application, its history row and the notification, whatever
    the version lookups would say about the selected id: the response is
    never the soft failure. *)
Theorem submit_never_checks_version
    (get_published_workflow_by_id : list Workflow → option App → string → result (option Workflow))
    (ids : Ids) (current_user : Account) (app_model : App) (args : SubmitArgs) (db : Db) (t : Z) :
  is_editor current_user = true →
  int_of_text (s_apply_app_type args) = Some t →
  Published2SquareApi_post get_published_workflow_by_id ids current_user app_model args db
  = (Ok submitted, after_submit ids current_user app_model args t db).
Proof.
  intros He Ht. rewrite submit_eq, He, Ht. done.
Qed.

(** *** A sample store *)

Definition editor : Account :=
  {| acc_id := "u1"; is_editor := true; current_tenant_id := "t1" |}.

Definition admin : Account :=
  {| acc_id := "u9"; is_editor := true; current_tenant_id := "t1" |}.

Definition app1 : App :=
  {| app_id := "app1"; app_tenant_id := "t1"; app_name := "Translator";
     app_icon_type := Some "emoji"; app_icon := Some "robot"; app_icon_background := None |}.

Definition version1 : Workflow :=
  {| wf_id := "w1"; wf_tenant_id := "t1"; wf_app_id := "app1"; wf_type := "workflow";
     wf_version := "2024-01-01"; wf_marked_name := "v1"; wf_marked_comment := "";
     wf_graph := "{}"; wf_features := "{}"; wf_publish_square := false |}.

Definition store0 : Db :=
  {| publish_application := []; publish_application_history := [];
     system_notification := []; publish_workflows := []; publish_app_model_configs := [];
     workflows := [version1]; app_model_configs := []; apps := [app1] |}.

(** Lookups for the sample store: by id, among the rows of the app. *)
Definition find_workflow (ws : list Workflow) (app : option App) (wid : string)
  : result (option Workflow) :=
  match app with
  | None => Raise (AttributeError "'NoneType' object has no attribute 'tenant_id'")
  | Some a =>
    Ok (List.find (fun w => String.eqb (wf_id w) wid && String.eqb (wf_app_id w) (app_id a)) ws)
  end.

Definition find_app (l : list App) (_ : Account) (i : string) : option App :=
  List.find (fun a => String.eqb (app_id a) i) l.

Definition ids1 : Ids :=
  {| id_application := "pa1"; id_history := "h1"; id_notification := "n1"; id_publish := "" |}.

Definition ids2 : Ids :=
  {| id_application := ""; id_history := "h2"; id_notification := "n2"; id_publish := "pw1" |}.

(** A submit for the version [w9], which does not exist. *)
Definition submit_missing : SubmitArgs :=
  {| s_apply_app_type := "1"; s_need_sys_approve := Some true;
     selected_workflow_agent_id := "w9"; s_tenant_id := Some "t1" |}.

Lemma submit_never_checks_version_witness :
  find_workflow (workflows store0) (Some app1) "w9" = Ok None ∧
  Published2SquareApi_post find_workflow ids1 editor app1 submit_missing store0
  = (Ok submitted, after_submit ids1 editor app1 submit_missing 1 store0).
Proof.
  split; [reflexivity|].
  apply (submit_never_checks_version find_workflow ids1 editor app1 submit_missing store0 1);
    reflexivity.
Defined.

(** C4 (the code as written). When no application has the requested id,
    the approval handler commits the failure notification for the roles
    admin and owner and then raises [AttributeError] on
    [application.apply_app_id]: no response body is returned. Nothing else
    is written. *)
Theorem sys_approve_missing_application
    (get_published_workflow_by_id : list Workflow → option App → string → result (option Workflow))
    (_load_app_model : list App → Account → string → option App)
    (ids : Ids) (current_user : Account) (args : ApproveArgs) (db : Db) :
  is_editor current_user = true →
  get_by_id db (a_application_id args) = None →
  ∃ n db',
    Published2SquareSysApproveApi_post get_published_workflow_by_id _load_app_model
      ids current_user args db
    = (Raise (AttributeError "'NoneType' object has no attribute 'apply_app_id'"), db') ∧
    system_notification db' = (system_notification db ++ [n])%list ∧
    addressing n = (APPROVAL_RESULT, Some ["admin"; "owner"], None) ∧
    publish_application db' = publish_application db ∧
    publish_application_history db' = publish_application_history db ∧
    publish_workflows db' = publish_workflows db ∧
    publish_app_model_configs db' = publish_app_model_configs db.
Proof.
  intros He Hnone. unfold Published2SquareSysApproveApi_post, approve_lookup.
  rewrite He, Hnone. simpl.
  eexists _, _. repeat split.
Qed.

(** The first session of an approval finds the application and its
    workflow version. *)
Lemma approve_lookup_workflow
    (get_published_workflow_by_id : list Workflow → option App → string → result (option Workflow))
    (_load_app_model : list App → Account → string → option App)
    (ids : Ids) (current_user : Account) (args : ApproveArgs) (db : Db)
    (a : PublishApplication) (w : Workflow) :
  get_by_id db (a_application_id args) = Some a →
  apply_app_type a = ApplyAppType_WORKFLOW →
  get_published_workflow_by_id (workflows db)
    (_load_app_model (apps db) current_user (apply_app_id a)) (apply_app_version_id a)
  = Ok (Some w) →
  approve_lookup get_published_workflow_by_id _load_app_model ids current_user args db
  = (Ok (a, _load_app_model (apps db) current_user (apply_app_id a), Some w, None, None), db).
Proof.
  intros Hget Htype Hlookup. unfold approve_lookup.
  rewrite Hget, Htype, Hlookup. reflexivity.
Qed.

(** The session of an approval of a workflow application. *)
Lemma approve_write_workflow (ids : Ids) (current_user : Account) (args : ApproveArgs)
    (app : App) (w : Workflow) (agent : option AppModelConfig) (db : Db)
    (a : PublishApplication) :
  get_by_id db (a_application_id args) = Some a →
  apply_app_type a = ApplyAppType_WORKFLOW →
  ∃ db' pw h n,
    approve_write ids current_user args (Some app) (Some w) agent db
    = (Ok operation_succeeded, db') ∧
    publish_workflows db' = (publish_workflows db ++ [pw])%list ∧
    workflow_id pw = apply_app_version_id a ∧
    workflows db' = map (fun x => if String.eqb (wf_id x) (apply_app_version_id a)
                                  then set_wf_publish_square x else x) (workflows db) ∧
    publish_application db'
    = update_first (fun x => String.eqb (pa_id x) (a_application_id args))
                   (fun x => set_status x COMPLETED) (publish_application db) ∧
    publish_application_history db' = (publish_application_history db ++ [h])%list ∧
    h_application_id h = a_application_id args ∧ action h = Some APPROVE ∧
    system_notification db' = (system_notification db ++ [n])%list ∧
    addressing n = (APPROVAL_RESULT, None, Some [applicant_id a]).
Proof.
  intros Hget Htype. unfold approve_write, update. rewrite Hget. simpl.
  rewrite Htype. simpl. eexists _, _, _, _. repeat split.
Qed.

(** C1. An editor submits a workflow version that exists (the application
    id being new to the store) and an editor approves the application: both
    requests succeed, and the final store has exactly one more
    PublishWorkflow row, whose [workflow_id] is that version; every
    Workflow row with that id (there is one) has [publish_square] set;
    the application's history is SUBMIT then APPROVE; its status is
    COMPLETED; and two notifications were added, an APPROVAL_TODO for the
    roles admin and owner and an APPROVAL_RESULT for the applicant. *)
Theorem publish_round_trip
    (get_published_workflow_by_id : list Workflow → option App → string → result (option Workflow))
    (_load_app_model : list App → Account → string → option App)
    (ids ids' : Ids) (user approver : Account) (app_model app' : App) (w' : Workflow)
    (args : SubmitArgs) (notification_id : string) (reason_ : option string) (db : Db) :
  let version := selected_workflow_agent_id args in
  let application_id := id_application ids in
  is_editor user = true → is_editor approver = true →
  s_apply_app_type args = "1" →
  (∃ w, In w (workflows db) ∧ wf_id w = version) →
  (∀ a, In a (publish_application db) → pa_id a ≠ application_id) →
  (∀ h, In h (publish_application_history db) → h_application_id h ≠ application_id) →
  _load_app_model (apps db) approver (app_id app_model) = Some app' →
  get_published_workflow_by_id (workflows db) (Some app') version = Ok (Some w') →
  ∃ db1 db2 pw a,
    Published2SquareApi_post get_published_workflow_by_id ids user app_model args db
    = (Ok submitted, db1) ∧
    Published2SquareSysApproveApi_post get_published_workflow_by_id _load_app_model ids' approver
      {| a_id := notification_id; a_application_id := application_id;
         a_approve := true; a_reason := reason_ |} db1
    = (Ok operation_succeeded, db2) ∧
    publish_workflows db2 = (publish_workflows db ++ [pw])%list ∧
    workflow_id pw = version ∧
    (∀ w, In w (workflows db2) → wf_id w = version → wf_publish_square w = true) ∧
    (∃ w, In w (workflows db2) ∧ wf_id w = version) ∧
    map action (List.filter (fun h => String.eqb (h_application_id h) application_id)
                            (publish_application_history db2))
    = [Some SUBMIT; Some APPROVE] ∧
    get_by_id db2 application_id = Some a ∧ status a = COMPLETED ∧
    map addressing (system_notification db2)
    = (map addressing (system_notification db)
       ++ [ (APPROVAL_TODO, Some ["admin"; "owner"], None);
            (APPROVAL_RESULT, None, Some [acc_id user]) ])%list.
Proof.
  intros version application_id He He' Htype (w & Hw & Hwid) Hfresh Hfresh_h Hload Hlookup.
  assert (Hpa : ∀ a, In a (publish_application db) →
                     String.eqb (pa_id a) application_id = false).
  { intros a Ha. apply String.eqb_neq. by apply Hfresh. }
  assert (Hh : ∀ h, In h (publish_application_history db) →
                    String.eqb (h_application_id h) application_id = false).
  { intros h Hin. apply String.eqb_neq. by apply Hfresh_h. }
  rewrite submit_eq, He, Htype. simpl negb. cbv iota.
  change (int_of_text "1") with (Some 1). cbv iota.
  set (req := {| a_id := notification_id; a_application_id := application_id;
                 a_approve := true; a_reason := reason_ |}).
  pose (db1 := after_submit ids user app_model args 1 db).
  pose (a0 := submitted_application ids user app_model args 1).
  assert (Htype0 : apply_app_type a0 = ApplyAppType_WORKFLOW) by reflexivity.
  assert (Hget : get_by_id db1 (a_application_id req) = Some a0).
  { unfold get_by_id. simpl publish_application. apply find_appended; [exact Hpa|].
    apply String.eqb_refl. }
  assert (Hlook := approve_lookup_workflow get_published_workflow_by_id _load_app_model
                     ids' approver req db1 a0 w' Hget Htype0).
  change (apps db1) with (apps db) in Hlook.
  change (workflows db1) with (workflows db) in Hlook.
  change (apply_app_id a0) with (app_id app_model) in Hlook.
  change (apply_app_version_id a0) with version in Hlook.
  rewrite Hload in Hlook. specialize (Hlook Hlookup).
  destruct (approve_write_workflow ids' approver req app' w' None db1 a0 Hget Htype0)
    as (db' & pw & h & n & Hwrite & Hpw & Hpwid & Hwf & Happs & Hhist & Hhid & Hact & Hnot & Haddr).
  destruct (deal_with_notification_tables approver req db')
    as (Ht1 & Ht2 & Ht3 & Ht4 & Ht5 & Ht6).
  exists db1, (deal_with_notification approver req db'), pw, (set_status a0 COMPLETED).
  split; [reflexivity|]. split.
  { unfold Published2SquareSysApproveApi_post. rewrite He'. fold db1. simpl negb. cbv iota.
    rewrite Hlook. simpl a_approve. cbv iota. rewrite Hwrite. reflexivity. }
  rewrite Ht3, Hpw. split; [reflexivity|]. split; [by rewrite Hpwid|].
  rewrite Ht5, Hwf. change (workflows db1) with (workflows db).
  change (apply_app_version_id a0) with version. split.
  { intros x Hx' Hxid. apply in_map_iff in Hx' as (y & <- & Hy).
    destruct (String.eqb (wf_id y) version) eqn:E; [reflexivity|].
    apply String.eqb_neq in E. by destruct E. }
  split.
  { exists (set_wf_publish_square w). split; [|exact Hwid].
    apply in_map_iff. exists w. split; [|exact Hw].
    rewrite Hwid, String.eqb_refl. reflexivity. }
  rewrite Ht2, Hhist. split.
  { change (publish_application_history db1) with
      (publish_application_history db ++ [submitted_history ids user args])%list.
    rewrite !List.filter_app, (filter_none _ _ Hh). simpl.
    rewrite Hhid. simpl a_application_id. rewrite !String.eqb_refl. simpl.
    by rewrite Hact. }
  split.
  { unfold get_by_id. rewrite Ht1, Happs. simpl a_application_id.
    change (publish_application db1) with (publish_application db ++ [a0])%list.
    rewrite update_first_appended; [|exact Hpa|apply String.eqb_refl].
    apply find_appended; [exact Hpa|]. apply String.eqb_refl. }
  split; [reflexivity|].
  rewrite addressing_deal_with_notification, Hnot, map_app. simpl map at 2.
  rewrite Haddr.
  change (system_notification db1) with
    (system_notification db ++ [submitted_notification ids args])%list.
  rewrite map_app. simpl. by rewrite <- app_assoc.
Qed.

(** A submit for the version [w1] of the sample store. *)
Definition submit_w1 : SubmitArgs :=
  {| s_apply_app_type := "1"; s_need_sys_approve := Some true;
     selected_workflow_agent_id := "w1"; s_tenant_id := Some "t1" |}.

Lemma publish_round_trip_witness :
  ∃ db1 db2 pw a,
    Published2SquareApi_post find_workflow ids1 editor app1 submit_w1 store0 = (Ok submitted, db1) ∧
    Published2SquareSysApproveApi_post find_workflow find_app ids2 admin
      {| a_id := "n1"; a_application_id := "pa1"; a_approve := true; a_reason := None |} db1
    = (Ok operation_succeeded, db2) ∧
    publish_workflows db2 = (publish_workflows store0 ++ [pw])%list ∧
    workflow_id pw = "w1" ∧
    (∀ w, In w (workflows db2) → wf_id w = "w1" → wf_publish_square w = true) ∧
    (∃ w, In w (workflows db2) ∧ wf_id w = "w1") ∧
    map action (List.filter (fun h => String.eqb (h_application_id h) "pa1")
                            (publish_application_history db2))
    = [Some SUBMIT; Some APPROVE] ∧
    get_by_id db2 "pa1" = Some a ∧ status a = COMPLETED ∧
    map addressing (system_notification db2)
    = (map addressing (system_notification store0)
       ++ [ (APPROVAL_TODO, Some ["admin"; "owner"], None);
            (APPROVAL_RESULT, None, Some ["u1"]) ])%list.
Proof.
  apply (publish_round_trip find_workflow find_app ids1 ids2 editor admin app1 app1 version1
           submit_w1 "n1" None store0).
  - reflexivity.
  - reflexivity.
  - reflexivity.
  - exists version1. split; [left|]; reflexivity.
  - intros a [].
  - intros h [].
  - reflexivity.
  - reflexivity.
Defined.

(** The same round trip, evaluated: the listing, the flag and the
    notification marked as handled. *)
Example round_trip_evaluated :
  let db1 := (Published2SquareApi_post find_workflow ids1 editor app1 submit_w1 store0).2 in
  let db2 := (Published2SquareSysApproveApi_post find_workflow find_app ids2 admin
                {| a_id := "n1"; a_application_id := "pa1"; a_approve := true;
                   a_reason := None |} db1).2 in
  map (fun p => (workflow_id p, pw_marked_name p)) (publish_workflows db2)
    = [("w1", "Translator_v1")] ∧
  map wf_publish_square (workflows db2) = [true] ∧
  map (fun n => (n_id n, is_deal n)) (system_notification db2)
    = [("n1", Some true); ("n2", Some false)] ∧
  map (fun h => (action h, to_status h)) (publish_application_history db2)
    = [(Some "SUBMIT", Some "1"); (Some "APPROVE", Some "4")].
Proof. vm_compute. repeat split. Qed.

(** A rejection of an agent application reads the local [workflow], which
    that path never assigns. *)
Example reject_agent_application :
  let db := {| publish_application :=
                 [ {| pa_id := "pa2"; applicant_id := "u1"; applicant_area := None;
                      pa_tenant_id := Some "t1"; status := APPLYING;
                      need_sys_approve := None; region_admin_id := None;
                      sys_admin_id := None; apply_app_id := "app1";
                      apply_app_version_id := "c1"; apply_app_type := ApplyAppType_AGENT;
                      pa_created_by := Some "u1"; pa_updated_by := Some "u1" |} ];
               publish_application_history := []; system_notification := [];
               publish_workflows := []; publish_app_model_configs := [];
               workflows := [];
               app_model_configs :=
                 [ {| amc_id := "c1"; amc_app_id := "app1"; amc_columns := [];
                      amc_marked_name := ""; amc_marked_comment := "";
                      amc_publish_square := false |} ];
               apps := [app1] |} in
  Published2SquareSysApproveApi_post find_workflow find_app ids2 admin
    {| a_id := ""; a_application_id := "pa2"; a_approve := false; a_reason := None |} db
  = (Raise (UnboundLocalError "workflow"), db).
Proof. reflexivity. Qed.

Definition approve_unknown : ApproveArgs :=
  {| a_id := ""; a_application_id := "pa404"; a_approve := true; a_reason := None |}.

Lemma sys_approve_missing_application_witness :
  ∃ n db',
    Published2SquareSysApproveApi_post find_workflow find_app ids2 admin approve_unknown store0
    = (Raise (AttributeError "'NoneType' object has no attribute 'apply_app_id'"), db') ∧
    system_notification db' = (system_notification store0 ++ [n])%list ∧
    addressing n = (APPROVAL_RESULT, Some ["admin"; "owner"], None) ∧
    publish_application db' = publish_application store0 ∧
    publish_application_history db' = publish_application_history store0 ∧
    publish_workflows db' = publish_workflows store0 ∧
    publish_app_model_configs db' = publish_app_model_configs store0.
Proof.
  apply (sys_approve_missing_application find_workflow find_app ids2 admin approve_unknown store0);
    reflexivity.
Defined.

(** *** Further properties of the approval *)

Lemma find_update_first {A : Type} (p : A → bool) (f : A → A) (l : list A) :
  (∀ x, p (f x) = p x) → List.find p (update_first p f l) = option_map f (List.find p l).
Proof.
  intros Hp. induction l as [|x l IH]; simpl; [done|].
  destruct (p x) eqn:E; simpl.
  - by rewrite Hp, E.
  - by rewrite E.
Qed.

Lemma find_app_Some {A : Type} (p : A → bool) (l l' : list A) (x : A) :
  List.find p l = Some x → List.find p (l ++ l') = Some x.
Proof.
  induction l as [|y l IH]; simpl; [done|]. by destruct (p y).
Qed.

(** The request's notification, when there is one, ends up handled. *)
Lemma deal_with_notification_dealt (u : Account) (args : ApproveArgs) (db : Db)
    (n0 : SystemNotification) :
  a_id args ≠ "" →
  get_notification db (a_id args) = Some n0 →
  get_notification (deal_with_notification u args db) (a_id args) = Some (mark_dealt u n0).
Proof.
  intros Hne Hget. unfold deal_with_notification.
  assert (truthy (Some (a_id args)) = true) as ->.
  { simpl. apply negb_true_iff. by apply String.eqb_neq. }
  rewrite Hget. unfold get_notification in *. simpl.
  rewrite find_update_first by done. by rewrite Hget.
Qed.

(** X18. An approval request for a workflow application whose version no
    longer exists is answered with the soft failure, whether the request
    approves or rejects. The application, its history and the listings are
    left as they were; one notification is added, for the applicant; and
    the notification named by the request's [id] is marked as handled all
    the same. *)
Theorem sys_approve_version_deleted
    (get_published_workflow_by_id : list Workflow → option App → string → result (option Workflow))
    (_load_app_model : list App → Account → string → option App)
    (ids : Ids) (current_user : Account) (args : ApproveArgs) (db : Db)
    (a : PublishApplication) :
  is_editor current_user = true →
  get_by_id db (a_application_id args) = Some a →
  apply_app_type a = ApplyAppType_WORKFLOW →
  get_published_workflow_by_id (workflows db)
    (_load_app_model (apps db) current_user (apply_app_id a)) (apply_app_version_id a)
  = Ok None →
  ∃ db',
    Published2SquareSysApproveApi_post get_published_workflow_by_id _load_app_model
      ids current_user args db
    = (Ok version_deleted, db') ∧
    publish_application db' = publish_application db ∧
    publish_application_history db' = publish_application_history db ∧
    publish_workflows db' = publish_workflows db ∧
    workflows db' = workflows db ∧
    map addressing (system_notification db')
    = (map addressing (system_notification db)
       ++ [(APPROVAL_RESULT, None, Some [applicant_id a])])%list ∧
    (∀ n0, a_id args ≠ "" → get_notification db (a_id args) = Some n0 →
           ∃ n1, get_notification db' (a_id args) = Some n1 ∧ is_deal n1 = Some true).
Proof.
  intros He Hget Htype Hlookup.
  unfold Published2SquareSysApproveApi_post, approve_lookup.
  rewrite He, Hget, Htype, Hlookup. simpl.
  eexists. split; [reflexivity|].
  match goal with |- context [deal_with_notification ?u ?r ?d] =>
    destruct (deal_with_notification_tables u r d) as (H1 & H2 & H3 & _ & H5 & _);
    pose proof (addressing_deal_with_notification u r d) as H6;
    pose proof (deal_with_notification_dealt u r d) as H7
  end.
  simpl in H1, H2, H3, H5, H6.
  split; [exact H1|]. split; [exact H2|]. split; [exact H3|]. split; [exact H5|].
  split.
  - rewrite H6, map_app. reflexivity.
  - intros n0 Hne Hn0. eexists. split.
    + apply H7; [exact Hne|]. unfold get_notification in *. simpl.
      by apply find_app_Some.
    + reflexivity.
Qed.

(** X19. An application that is not a workflow application cannot be
    rejected: whatever the store holds, a rejection request for it does
    not answer with success, and it leaves the application (its status
    included) and the history as they were. When the agent version it
    names exists, the request raises [UnboundLocalError]: the rejection
    reads the local [workflow], which only a workflow application
    assigns. *)
Theorem reject_needs_workflow_application
    (get_published_workflow_by_id : list Workflow → option App → string → result (option Workflow))
    (_load_app_model : list App → Account → string → option App)
    (ids : Ids) (current_user : Account) (args : ApproveArgs) (db : Db)
    (a : PublishApplication) :
  is_editor current_user = true →
  get_by_id db (a_application_id args) = Some a →
  apply_app_type a ≠ ApplyAppType_WORKFLOW →
  a_approve args = false →
  let out := Published2SquareSysApproveApi_post get_published_workflow_by_id _load_app_model
               ids current_user args db in
  out.1 ≠ Ok operation_succeeded ∧
  publish_application out.2 = publish_application db ∧
  publish_application_history out.2 = publish_application_history db ∧
  (∀ agent,
     get_published_agent_by_id db (_load_app_model (apps db) current_user (apply_app_id a))
       (apply_app_version_id a) = Ok (Some agent) →
     out = (Raise (UnboundLocalError "workflow"), db)).
Proof.
  intros He Hget Htype Hno out. subst out.
  unfold Published2SquareSysApproveApi_post, approve_lookup.
  rewrite He, Hget. apply Z.eqb_neq in Htype. rewrite Htype. simpl negb. cbv iota.
  destruct (apply_app_type a =? ApplyAppType_AGENT) eqn:Hagent; simpl andb; cbv iota.
  - destruct (get_published_agent_by_id db _ _) as [[agent|]|e] eqn:Hlook.
    + rewrite Hno. unfold reject_write, update. rewrite Hget. simpl.
      repeat split; try done.
    + match goal with |- context [deal_with_notification ?u ?r ?d] =>
        destruct (deal_with_notification_tables u r d) as (H1 & H2 & _) end.
      simpl in *. repeat split; try done.
    + simpl. repeat split; try done.
  - rewrite Hno. unfold reject_write, update. rewrite Hget. simpl.
    repeat split; try done.
Qed.

(** The session of a rejection of a workflow application. *)
Lemma reject_write_workflow (ids : Ids) (current_user : Account) (args : ApproveArgs)
    (application : PublishApplication) (w : Workflow) (db : Db) (a : PublishApplication) :
  get_by_id db (a_application_id args) = Some a →
  ∃ db' h n,
    reject_write ids current_user args application (Some w) db
    = (Ok operation_succeeded, db') ∧
    publish_workflows db' = publish_workflows db ∧
    workflows db' = workflows db ∧
    publish_application db'
    = update_first (fun x => String.eqb (pa_id x) (a_application_id args))
                   (fun x => set_status x REJECTED) (publish_application db) ∧
    publish_application_history db' = (publish_application_history db ++ [h])%list ∧
    h_application_id h = a_application_id args ∧ action h = Some REJECT ∧
    system_notification db' = (system_notification db ++ [n])%list ∧
    addressing n = (APPROVAL_RESULT, None, Some [applicant_id application]).
Proof.
  intros Hget. unfold reject_write, update. rewrite Hget. simpl.
  eexists _, _, _. repeat split.
Qed.

(** X20. An editor submits a workflow version that exists (the application
    id being new to the store) and an editor rejects the application: both
    requests succeed; the listings and the source workflows (their
    [publish_square] flags included) are as before the submit; the
    application's history is SUBMIT then REJECT; its status is REJECTED;
    and two notifications were added, an APPROVAL_TODO for the roles admin
    and owner and an APPROVAL_RESULT for the applicant. *)
Theorem submit_then_reject
    (get_published_workflow_by_id : list Workflow → option App → string → result (option Workflow))
    (_load_app_model : list App → Account → string → option App)
    (ids ids' : Ids) (user approver : Account) (app_model : App) (app' : option App)
    (w' : Workflow)
    (args : SubmitArgs) (notification_id : string) (reason_ : option string) (db : Db) :
  let version := selected_workflow_agent_id args in
  let application_id := id_application ids in
  is_editor user = true → is_editor approver = true →
  s_apply_app_type args = "1" →
  (∀ a, In a (publish_application db) → pa_id a ≠ application_id) →
  (∀ h, In h (publish_application_history db) → h_application_id h ≠ application_id) →
  _load_app_model (apps db) approver (app_id app_model) = app' →
  get_published_workflow_by_id (workflows db) app' version = Ok (Some w') →
  ∃ db1 db2 a,
    Published2SquareApi_post get_published_workflow_by_id ids user app_model args db
    = (Ok submitted, db1) ∧
    Published2SquareSysApproveApi_post get_published_workflow_by_id _load_app_model ids' approver
      {| a_id := notification_id; a_application_id := application_id;
         a_approve := false; a_reason := reason_ |} db1
    = (Ok operation_succeeded, db2) ∧
    publish_workflows db2 = publish_workflows db ∧
    publish_app_model_configs db2 = publish_app_model_configs db ∧
    workflows db2 = workflows db ∧
    map action (List.filter (fun h => String.eqb (h_application_id h) application_id)
                            (publish_application_history db2))
    = [Some SUBMIT; Some REJECT] ∧
    get_by_id db2 application_id = Some a ∧ status a = REJECTED ∧
    map addressing (system_notification db2)
    = (map addressing (system_notification db)
       ++ [ (APPROVAL_TODO, Some ["admin"; "owner"], None);
            (APPROVAL_RESULT, None, Some [acc_id user]) ])%list.
Proof.
  intros version application_id He He' Htype Hfresh Hfresh_h Hload Hlookup.
  assert (Hpa : ∀ a, In a (publish_application db) →
                     String.eqb (pa_id a) application_id = false).
  { intros a Ha. apply String.eqb_neq. by apply Hfresh. }
  assert (Hh : ∀ h, In h (publish_application_history db) →
                    String.eqb (h_application_id h) application_id = false).
  { intros h Hin. apply String.eqb_neq. by apply Hfresh_h. }
  rewrite submit_eq, He, Htype. simpl negb. cbv iota.
  change (int_of_text "1") with (Some 1). cbv iota.
  set (req := {| a_id := notification_id; a_application_id := application_id;
                 a_approve := false; a_reason := reason_ |}).
  pose (db1 := after_submit ids user app_model args 1 db).
  pose (a0 := submitted_application ids user app_model args 1).
  assert (Htype0 : apply_app_type a0 = ApplyAppType_WORKFLOW) by reflexivity.
  assert (Hget : get_by_id db1 (a_application_id req) = Some a0).
  { unfold get_by_id. simpl publish_application. apply find_appended; [exact Hpa|].
    apply String.eqb_refl. }
  assert (Hlook := approve_lookup_workflow get_published_workflow_by_id _load_app_model
                     ids' approver req db1 a0 w' Hget Htype0).
  change (apps db1) with (apps db) in Hlook.
  change (workflows db1) with (workflows db) in Hlook.
  change (apply_app_id a0) with (app_id app_model) in Hlook.
  change (apply_app_version_id a0) with version in Hlook.
  rewrite Hload in Hlook. specialize (Hlook Hlookup).
  destruct (reject_write_workflow ids' approver req a0 w' db1 a0 Hget)
    as (db' & h & n & Hwrite & Hpw & Hwf & Happs & Hhist & Hhid & Hact & Hnot & Haddr).
  destruct (deal_with_notification_tables approver req db')
    as (Ht1 & Ht2 & Ht3 & Ht4 & Ht5 & Ht6).
  exists db1, (deal_with_notification approver req db'), (set_status a0 REJECTED).
  split; [reflexivity|]. split.
  { unfold Published2SquareSysApproveApi_post. rewrite He'. fold db1. simpl negb. cbv iota.
    rewrite Hlook. simpl a_approve. cbv iota. rewrite Hwrite. reflexivity. }
  rewrite Ht3, Hpw. split; [reflexivity|].
  split.
  { rewrite Ht4. unfold reject_write, update in Hwrite. rewrite Hget in Hwrite.
    simpl in Hwrite. injection Hwrite as <-. reflexivity. }
  rewrite Ht5, Hwf. split; [reflexivity|].
  rewrite Ht2, Hhist. split.
  { change (publish_application_history db1) with
      (publish_application_history db ++ [submitted_history ids user args])%list.
    rewrite !List.filter_app, (filter_none _ _ Hh). simpl.
    rewrite Hhid. simpl a_application_id. rewrite !String.eqb_refl. simpl.
    by rewrite Hact. }
  split.
  { unfold get_by_id. rewrite Ht1, Happs. simpl a_application_id.
    change (publish_application db1) with (publish_application db ++ [a0])%list.
    rewrite update_first_appended; [|exact Hpa|apply String.eqb_refl].
    apply find_appended; [exact Hpa|]. apply String.eqb_refl. }
  split; [reflexivity|].
  rewrite addressing_deal_with_notification, Hnot, map_app. simpl map at 2.
  rewrite Haddr.
  change (system_notification db1) with
    (system_notification db ++ [submitted_notification ids args])%list.
  rewrite map_app. simpl. by rewrite <- app_assoc.
Qed.

(** The approval handler, for a workflow application whose app and version
    are found. *)
Lemma sys_approve_workflow
    (get_published_workflow_by_id : list Workflow → option App → string → result (option Workflow))
    (_load_app_model : list App → Account → string → option App)
    (ids : Ids) (current_user : Account) (args : ApproveArgs) (db : Db)
    (a : PublishApplication) (app : App) (w : Workflow) :
  is_editor current_user = true →
  a_approve args = true →
  get_by_id db (a_application_id args) = Some a →
  apply_app_type a = ApplyAppType_WORKFLOW →
  _load_app_model (apps db) current_user (apply_app_id a) = Some app →
  get_published_workflow_by_id (workflows db) (Some app) (apply_app_version_id a) = Ok (Some w) →
  ∃ db' pw,
    Published2SquareSysApproveApi_post get_published_workflow_by_id _load_app_model
      ids current_user args db
    = (Ok operation_succeeded, db') ∧
    publish_workflows db' = (publish_workflows db ++ [pw])%list ∧
    workflow_id pw = apply_app_version_id a ∧
    workflows db' = map (fun x => if String.eqb (wf_id x) (apply_app_version_id a)
                                  then set_wf_publish_square x else x) (workflows db) ∧
    apps db' = apps db ∧
    get_by_id db' (a_application_id args) = Some (set_status a COMPLETED).
Proof.
  intros He Happrove Hget Htype Hload Hlookup.
  assert (Hlook := approve_lookup_workflow get_published_workflow_by_id _load_app_model
                     ids current_user args db a w Hget Htype).
  rewrite Hload in Hlook. specialize (Hlook Hlookup).
  destruct (approve_write_workflow ids current_user args app w None db a Hget Htype)
    as (db' & pw & h & n & Hwrite & Hpw & Hpwid & Hwf & Happs & _).
  destruct (deal_with_notification_tables current_user args db')
    as (Ht1 & _ & Ht3 & _ & Ht5 & _).
  exists (deal_with_notification current_user args db'), pw.
  split.
  { unfold Published2SquareSysApproveApi_post. rewrite He. simpl negb. cbv iota.
    rewrite Hlook, Happrove. cbv iota. rewrite Hwrite. reflexivity. }
  rewrite Ht3, Ht5. split; [exact Hpw|]. split; [exact Hpwid|]. split; [exact Hwf|].
  split.
  { unfold deal_with_notification. destruct (truthy _).
    - destruct (get_notification db' (a_id args)); simpl;
        unfold approve_write, update in Hwrite; rewrite Hget in Hwrite; simpl in Hwrite;
        rewrite Htype in Hwrite; simpl in Hwrite; by injection Hwrite as <-.
    - unfold approve_write, update in Hwrite; rewrite Hget in Hwrite; simpl in Hwrite;
        rewrite Htype in Hwrite; simpl in Hwrite; by injection Hwrite as <-. }
  unfold get_by_id in *. rewrite Ht1, Happs.
  rewrite find_update_first by done. by rewrite Hget.
Qed.

(** X21. The approval does not look at the application's status. An
    approval of a workflow application whose app and version are found
    succeeds whatever the status is, and leaves the application COMPLETED;
    approving the same application again succeeds again and adds a second
    listing of the same version. *)
Theorem approval_ignores_status
    (get_published_workflow_by_id : list Workflow → option App → string → result (option Workflow))
    (_load_app_model : list App → Account → string → option App)
    (ids ids' : Ids) (current_user : Account) (args : ApproveArgs) (db : Db)
    (a : PublishApplication) (app : App) (w w' : Workflow) :
  is_editor current_user = true →
  a_approve args = true →
  get_by_id db (a_application_id args) = Some a →
  apply_app_type a = ApplyAppType_WORKFLOW →
  _load_app_model (apps db) current_user (apply_app_id a) = Some app →
  get_published_workflow_by_id (workflows db) (Some app) (apply_app_version_id a) = Ok (Some w) →
  get_published_workflow_by_id
    (map (fun x => if String.eqb (wf_id x) (apply_app_version_id a)
                   then set_wf_publish_square x else x) (workflows db))
    (Some app) (apply_app_version_id a) = Ok (Some w') →
  ∃ db1 db2 pw1 pw2,
    Published2SquareSysApproveApi_post get_published_workflow_by_id _load_app_model
      ids current_user args db
    = (Ok operation_succeeded, db1) ∧
    get_by_id db1 (a_application_id args) = Some (set_status a COMPLETED) ∧
    Published2SquareSysApproveApi_post get_published_workflow_by_id _load_app_model
      ids' current_user args db1
    = (Ok operation_succeeded, db2) ∧
    publish_workflows db2 = (publish_workflows db ++ [pw1; pw2])%list ∧
    workflow_id pw1 = apply_app_version_id a ∧
    workflow_id pw2 = apply_app_version_id a.
Proof.
  intros He Happrove Hget Htype Hload Hlookup Hlookup'.
  destruct (sys_approve_workflow get_published_workflow_by_id _load_app_model ids current_user
              args db a app w He Happrove Hget Htype Hload Hlookup)
    as (db1 & pw1 & Hrun1 & Hpw1 & Hid1 & Hwf1 & Happs1 & Hget1).
  destruct (sys_approve_workflow get_published_workflow_by_id _load_app_model ids' current_user
              args db1 (set_status a COMPLETED) app w' He Happrove Hget1 Htype)
    as (db2 & pw2 & Hrun2 & Hpw2 & Hid2 & _).
  { by rewrite Happs1. }
  { by rewrite Hwf1. }
  exists db1, db2, pw1, pw2. split; [exact Hrun1|]. split; [exact Hget1|].
  split; [exact Hrun2|]. split; [|split; [exact Hid1|exact Hid2]].
  by rewrite Hpw2, Hpw1, <- app_assoc.
Qed.

(** *** Notifications *)

(** [column.contains(values)] on an ARRAY column ([@>]): every value is an
    element of the column's array; the test is not true of a NULL column. *)
Definition array_contains (col : option (list string)) (values : list string) : bool :=
  match col with
  | None => false
  | Some l => forallb (fun v => existsb (String.eqb v) l) values
  end.

(** The condition on the addressee: with a non-empty [role] the account
    ids or the roles, otherwise the account ids only. *)
Definition addressed_to (account_id_ role_ : list string) (n : SystemNotification) : bool :=
  match role_ with
  | [] => array_contains (account_id n) account_id_
  | _ :: _ => array_contains (account_id n) account_id_ || array_contains (role n) role_
  end.

(** [notification.is_deal = True] and, when [updated_by] is given,
    [notification.updated_by = updated_by]. *)
Definition set_dealt (updated_by : option string) (n : SystemNotification) : SystemNotification :=
  {| n_id := n_id n; n_tenant_id := n_tenant_id n; title := title n; content := content n;
     msg_type := msg_type n; source_type := source_type n; source_id := source_id n;
     n_created_by := n_created_by n;
     n_updated_by := match updated_by with Some u => Some u | None => n_updated_by n end;
     account_id := account_id n; role := role n; is_deal := Some true;
     n_application_id := n_application_id n |}.

Section Notifications.

(** The integer the database reads a text as, where the text is compared
    with the Integer column [msg_type]; [None] for a text it refuses. *)
Variable int4_in : string → option Z.

(** The order in which the database returns the rows of a query that has
    no ORDER BY. *)
Variable row_order : list SystemNotification → list SystemNotification.

(** [SystemNotification.msg_type.in_(msg_types)]; an empty list selects no
    row. *)
Definition msg_type_in (msg_types : list string) : result (Z → bool) :=
  match mapM int4_in msg_types with
  | Some zs => Ok (fun z => existsb (Z.eqb z) zs)
  | None => Raise (Exception_ "DataError: invalid input syntax for type integer")
  end.

(** The rows [batch_update_notifications_to_deal] selects. *)
Definition to_deal (account_id_ role_ : list string) (in_types : Z → bool)
    (tenant_id : option string) (n : SystemNotification) : bool :=
  addressed_to account_id_ role_ n && in_types (msg_type n)
  && bool_decide (is_deal n = Some false) && bool_decide (n_tenant_id n = tenant_id).

(** [PublishApplicationService.batch_update_notifications_to_deal],
    committed by its caller. *)
Definition batch_update_notifications_to_deal (account_id_ role_ msg_types : list string)
    (updated_by tenant_id : option string) (db : Db) : result nat * Db :=
  match msg_type_in msg_types with
  | Raise e => (Raise e, db)
  | Ok in_types =>
    let selected := to_deal account_id_ role_ in_types tenant_id in
    (Ok (length (List.filter selected (system_notification db))),
     with_notifications db
       (map (fun n => if selected n then set_dealt updated_by n else n)
            (system_notification db)))
  end.

(** [PublishApplicationService.list_notifications_by_account] *)
Definition list_notifications_by_account (account_id_ : list string)
    (role_ msg_type_ : option (list string)) (limit offset : nat) (is_deal_ : option bool)
    (db : Db) : result (list SystemNotification) :=
  let by_addressee := addressed_to account_id_ (default [] role_) in
  let by_deal n := match is_deal_ with
                   | Some b => bool_decide (is_deal n = Some b)
                   | None => true
                   end in
  match msg_type_ with
  | None =>
    Ok (take limit (drop offset
          (row_order (List.filter (fun n => by_addressee n && by_deal n)
                                  (system_notification db)))))
  | Some types =>
    match msg_type_in types with
    | Raise e => Raise e
    | Ok in_types =>
      Ok (take limit (drop offset
            (row_order (List.filter (fun n => by_addressee n && by_deal n
                                              && in_types (msg_type n))
                                    (system_notification db)))))
    end
  end.

End Notifications.

(** The notifications that wait to be handled. *)
Definition undealt (db : Db) : list SystemNotification :=
  List.filter (fun n => bool_decide (is_deal n = Some false)) (system_notification db).

Lemma to_deal_set_dealt (account_id_ role_ : list string) (in_types : Z → bool)
    (tenant_id updated_by : option string) (n : SystemNotification) :
  to_deal account_id_ role_ in_types tenant_id (set_dealt updated_by n) = false.
Proof.
  unfold to_deal.
  destruct (bool_decide (is_deal (set_dealt updated_by n) = Some false)) eqn:E;
    [by apply bool_decide_eq_true in E|].
  by rewrite andb_false_r.
Qed.

Lemma length_filter_split {A : Type} (p q : A → bool) (f : A → A) (l : list A) :
  (∀ x, q x = true → p x = true) →
  (∀ x, q x = true → p (f x) = false) →
  length (List.filter p l)
  = (length (List.filter p (map (fun x => if q x then f x else x) l))
     + length (List.filter q l))%nat.
Proof.
  intros Hqp Hf. induction l as [|x l IH]; simpl; [done|].
  destruct (q x) eqn:Eq.
  - rewrite (Hqp x Eq), (Hf x Eq). simpl. lia.
  - destruct (p x); simpl; lia.
Qed.

(** X22. When [batch_update_notifications_to_deal] returns (every message
    type being a text the database reads as an integer), the number it
    returns is the number of notifications that stopped waiting; no row is
    added or removed and a notification that was already handled is left as
    it was; repeating the call returns 0 and changes nothing; and
    afterwards [list_notifications_by_account] with the same addressee and
    message types finds no unhandled notification of that tenant, on any
    page. *)
Theorem batch_update_notifications_to_deal_clears
    (int4_in : string → option Z)
    (row_order : list SystemNotification → list SystemNotification)
    (account_id_ role_ msg_types : list string) (updated_by tenant_id : option string)
    (db db' : Db) (count : nat) :
  (∀ l, Permutation (row_order l) l) →
  batch_update_notifications_to_deal int4_in account_id_ role_ msg_types updated_by tenant_id db
  = (Ok count, db') →
  length (undealt db) = (length (undealt db') + count)%nat ∧
  map n_id (system_notification db') = map n_id (system_notification db) ∧
  (∀ n, In n (system_notification db) → is_deal n ≠ Some false →
        In n (system_notification db')) ∧
  batch_update_notifications_to_deal int4_in account_id_ role_ msg_types updated_by tenant_id db'
  = (Ok 0%nat, db') ∧
  ∀ limit offset, ∃ page,
    list_notifications_by_account int4_in row_order account_id_ (Some role_) (Some msg_types)
      limit offset (Some false) db' = Ok page ∧
    ∀ n, In n page → n_tenant_id n ≠ tenant_id.
Proof.
  intros Hperm. unfold batch_update_notifications_to_deal, list_notifications_by_account.
  destruct (msg_type_in int4_in msg_types) as [in_types|e] eqn:Htypes; [|done].
  intros [= <- <-]. set (sel := to_deal account_id_ role_ in_types tenant_id).
  simpl system_notification.
  split; [|split; [|split; [|split]]].
  - unfold undealt. simpl system_notification. apply length_filter_split.
    + intros x Hx. unfold sel, to_deal in Hx.
      apply andb_true_iff in Hx as [Hx _]. by apply andb_true_iff in Hx as [_ Hx].
    + intros x _. reflexivity.
  - rewrite map_map. apply map_ext. intros n. by destruct (sel n).
  - intros n Hin Hd. apply in_map_iff. exists n. split; [|done].
    destruct (sel n) eqn:E; [|done]. unfold sel, to_deal in E.
    apply andb_true_iff in E as [E _]. apply andb_true_iff in E as [_ E].
    by apply bool_decide_eq_true in E.
  - assert (Hnone : ∀ l, List.filter sel (map (fun n => if sel n then set_dealt updated_by n else n) l) = []).
    { induction l as [|n l IH]; simpl; [done|]. destruct (sel n) eqn:E.
      - unfold sel at 1. by rewrite to_deal_set_dealt.
      - by rewrite E. }
    rewrite Hnone. simpl. f_equal. unfold with_notifications. simpl. f_equal.
    rewrite map_map. apply map_ext_in. intros n _.
    destruct (sel n) eqn:E.
    + unfold sel at 1. by rewrite to_deal_set_dealt.
    + by rewrite E.
  - intros limit offset. eexists. split; [reflexivity|].
    intros n Hin Htenant.
    apply list_elem_of_In, elem_of_take in Hin as (i & Hin & _).
    rewrite lookup_drop in Hin.
    apply list_elem_of_lookup_2, list_elem_of_In in Hin.
    apply (Permutation_in _ (Hperm _)) in Hin.
    apply filter_In in Hin as [Hin Hp].
    apply andb_true_iff in Hp as [Hp Hty]. apply andb_true_iff in Hp as [Haddr Hdeal].
    apply in_map_iff in Hin as (m & Hm & _).
    destruct (sel m) eqn:E.
    + subst n. simpl in Hdeal. discriminate.
    + subst m. unfold sel, to_deal in E. simpl in Haddr.
      rewrite Haddr, Hty, Hdeal in E. simpl in E.
      by apply bool_decide_eq_false in E.
Qed.

(** *** The further properties on the sample store *)

(** The sample store after a submit for the missing version [w9], and
    after a submit for the version [w1]. *)
Definition store_missing : Db := after_submit ids1 editor app1 submit_missing 1 store0.
Definition store_w1 : Db := after_submit ids1 editor app1 submit_w1 1 store0.

(** A store with an application for the agent configuration [c1]. *)
Definition agent_store : Db :=
  {| publish_application :=
       [ {| pa_id := "pa2"; applicant_id := "u1"; applicant_area := None;
            pa_tenant_id := Some "t1"; status := APPLYING;
            need_sys_approve := None; region_admin_id := None;
            sys_admin_id := None; apply_app_id := "app1";
            apply_app_version_id := "c1"; apply_app_type := ApplyAppType_AGENT;
            pa_created_by := Some "u1"; pa_updated_by := Some "u1" |} ];
     publish_application_history := []; system_notification := [];
     publish_workflows := []; publish_app_model_configs := [];
     workflows := [];
     app_model_configs :=
       [ {| amc_id := "c1"; amc_app_id := "app1"; amc_columns := [];
            amc_marked_name := ""; amc_marked_comment := "";
            amc_publish_square := false |} ];
     apps := [app1] |}.

Definition ids3 : Ids :=
  {| id_application := ""; id_history := "h3"; id_notification := "n3"; id_publish := "pw2" |}.

Lemma sys_approve_version_deleted_witness :
  ∃ db',
    Published2SquareSysApproveApi_post find_workflow find_app ids2 admin
      {| a_id := "n1"; a_application_id := "pa1"; a_approve := true; a_reason := None |}
      store_missing
    = (Ok version_deleted, db') ∧
    publish_application db' = publish_application store_missing ∧
    map addressing (system_notification db')
    = (map addressing (system_notification store_missing)
       ++ [(APPROVAL_RESULT, None, Some ["u1"])])%list ∧
    ∃ n1, get_notification db' "n1" = Some n1 ∧ is_deal n1 = Some true.
Proof.
  destruct (sys_approve_version_deleted find_workflow find_app ids2 admin
              {| a_id := "n1"; a_application_id := "pa1"; a_approve := true; a_reason := None |}
              store_missing (submitted_application ids1 editor app1 submit_missing 1)
              eq_refl eq_refl eq_refl eq_refl)
    as (db' & Hrun & Happ & _ & _ & _ & Hnot & Hdeal).
  exists db'. split; [exact Hrun|]. split; [exact Happ|]. split; [exact Hnot|].
  apply (Hdeal (submitted_notification ids1 submit_missing)); [discriminate|reflexivity].
Defined.

Lemma reject_needs_workflow_application_witness :
  Published2SquareSysApproveApi_post find_workflow find_app ids2 admin
    {| a_id := ""; a_application_id := "pa2"; a_approve := false; a_reason := None |} agent_store
  = (Raise (UnboundLocalError "workflow"), agent_store).
Proof.
  destruct (reject_needs_workflow_application find_workflow find_app ids2 admin
              {| a_id := ""; a_application_id := "pa2"; a_approve := false; a_reason := None |}
              agent_store
              {| pa_id := "pa2"; applicant_id := "u1"; applicant_area := None;
                 pa_tenant_id := Some "t1"; status := APPLYING;
                 need_sys_approve := None; region_admin_id := None;
                 sys_admin_id := None; apply_app_id := "app1";
                 apply_app_version_id := "c1"; apply_app_type := ApplyAppType_AGENT;
                 pa_created_by := Some "u1"; pa_updated_by := Some "u1" |}
              eq_refl eq_refl ltac:(discriminate) eq_refl)
    as (_ & _ & _ & Hagent).
  apply (Hagent {| amc_id := "c1"; amc_app_id := "app1"; amc_columns := [];
                   amc_marked_name := ""; amc_marked_comment := "";
                   amc_publish_square := false |}).
  reflexivity.
Defined.

Lemma submit_then_reject_witness :
  ∃ db1 db2 a,
    Published2SquareApi_post find_workflow ids1 editor app1 submit_w1 store0 = (Ok submitted, db1) ∧
    Published2SquareSysApproveApi_post find_workflow find_app ids2 admin
      {| a_id := "n1"; a_application_id := "pa1"; a_approve := false; a_reason := None |} db1
    = (Ok operation_succeeded, db2) ∧
    publish_workflows db2 = publish_workflows store0 ∧
    publish_app_model_configs db2 = publish_app_model_configs store0 ∧
    workflows db2 = workflows store0 ∧
    map action (List.filter (fun h => String.eqb (h_application_id h) "pa1")
                            (publish_application_history db2))
    = [Some SUBMIT; Some REJECT] ∧
    get_by_id db2 "pa1" = Some a ∧ status a = REJECTED ∧
    map addressing (system_notification db2)
    = (map addressing (system_notification store0)
       ++ [ (APPROVAL_TODO, Some ["admin"; "owner"], None);
            (APPROVAL_RESULT, None, Some ["u1"]) ])%list.
Proof.
  apply (submit_then_reject find_workflow find_app ids1 ids2 editor admin app1 (Some app1)
           version1 submit_w1 "n1" None store0).
  - reflexivity.
  - reflexivity.
  - reflexivity.
  - intros a [].
  - intros h [].
  - reflexivity.
  - reflexivity.
Defined.

Lemma approval_ignores_status_witness :
  ∃ db1 db2 pw1 pw2,
    Published2SquareSysApproveApi_post find_workflow find_app ids2 admin
      {| a_id := "n1"; a_application_id := "pa1"; a_approve := true; a_reason := None |} store_w1
    = (Ok operation_succeeded, db1) ∧
    get_by_id db1 "pa1"
    = Some (set_status (submitted_application ids1 editor app1 submit_w1 1) COMPLETED) ∧
    Published2SquareSysApproveApi_post find_workflow find_app ids3 admin
      {| a_id := "n1"; a_application_id := "pa1"; a_approve := true; a_reason := None |} db1
    = (Ok operation_succeeded, db2) ∧
    publish_workflows db2 = (publish_workflows store_w1 ++ [pw1; pw2])%list ∧
    workflow_id pw1 = "w1" ∧ workflow_id pw2 = "w1".
Proof.
  apply (approval_ignores_status find_workflow find_app ids2 ids3 admin
           {| a_id := "n1"; a_application_id := "pa1"; a_approve := true; a_reason := None |}
           store_w1 (submitted_application ids1 editor app1 submit_w1 1) app1
           version1 (set_wf_publish_square version1));
    reflexivity.
Defined.

(** Two notifications of tenant [t1] that wait: one for the roles admin
    and owner, one for the account [u1]; and one that was handled. *)
Definition notice (i : string) (to : option (list string)) (roles : option (list string))
    (dealt : bool) : SystemNotification :=
  {| n_id := i; n_tenant_id := Some "t1"; title := None; content := "";
     msg_type := APPROVAL_TODO; source_type := None; source_id := None;
     n_created_by := None; n_updated_by := None; account_id := to; role := roles;
     is_deal := Some dealt; n_application_id := None |}.

Definition notices : Db :=
  with_notifications store0
    [ notice "n1" None (Some ["admin"; "owner"]) false;
      notice "n2" (Some ["u1"]) None false;
      notice "n3" (Some ["u1"]) None true ].

Lemma batch_update_notifications_to_deal_clears_witness :
  ∃ db',
    batch_update_notifications_to_deal int_of_text ["u1"] ["admin"] ["2"; "3"] (Some "u1")
      (Some "t1") notices = (Ok 2%nat, db') ∧
    length (undealt notices) = (length (undealt db') + 2)%nat ∧
    batch_update_notifications_to_deal int_of_text ["u1"] ["admin"] ["2"; "3"] (Some "u1")
      (Some "t1") db' = (Ok 0%nat, db').
Proof.
  eexists. split; [reflexivity|].
  destruct (batch_update_notifications_to_deal_clears int_of_text (fun l => l)
              ["u1"] ["admin"] ["2"; "3"] (Some "u1") (Some "t1") notices _ 2%nat
              (fun l => Permutation_refl l) eq_refl)
    as (Hcount & _ & _ & Hagain & _).
  split; [exact Hcount|exact Hagain].
Defined.

End Publish.

(** ** libs/passport.py, controllers/console/auth/magic_link.py *)
Module Passport.

(** *** Payloads *)

(** A [float]: a finite one is kept as the text [repr] gives it, which
    [float] reads back to the same number. *)
Inductive pyfloat : Type :=
| Finite (repr : string)
| Infinity (negative : bool)
| NaN.

(** The keys and values of a payload: the Python objects [json.dumps]
    accepts. A dictionary is kept as its pairs in insertion order; it
    holds no two keys that Python counts equal (such as [1], [1.0] and
    [True]). *)
Inductive pykey : Type :=
| KStr (s : string)
| KInt (z : Z)
| KFloat (f : pyfloat)
| KBool (b : bool)
| KNone.

Inductive pyobj : Type :=
| PNone
| PBool (b : bool)
| PInt (z : Z)
| PFloat (f : pyfloat)
| PStr (s : string)
| PList (l : list pyobj)
| PTuple (l : list pyobj)
| PDict (items : list (pykey * pyobj)).

(** [a == b] on floats: a NaN equals nothing. *)
Definition pyfloat_eqb (a b : pyfloat) : bool :=
  match a, b with
  | Finite x, Finite y => String.eqb x y
  | Infinity x, Infinity y => Bool.eqb x y
  | _, _ => false
  end.

(** Are two keys of the same type the same key? A string is no key of
    another type. *)
Definition pykey_eqb (a b : pykey) : bool :=
  match a, b with
  | KStr x, KStr y => String.eqb x y
  | KInt x, KInt y => Z.eqb x y
  | KFloat x, KFloat y => pyfloat_eqb x y
  | KBool x, KBool y => Bool.eqb x y
  | KNone, KNone => true
  | _, _ => false
  end.

(** [d[k] = v] on a dictionary kept in insertion order. *)
Fixpoint dict_set (k : pykey) (v : pyobj) (d : list (pykey * pyobj)) : list (pykey * pyobj) :=
  match d with
  | [] => [(k, v)]
  | (k', v') :: d' =>
    if pykey_eqb k' k then (k', v) :: d' else (k', v') :: dict_set k v d'
  end.

(** The dictionary built from a sequence of pairs, a later pair replacing
    an earlier one with the same key. *)
Definition dict_of_pairs (l : list (pykey * pyobj)) : list (pykey * pyobj) :=
  fold_left (fun d kv => dict_set kv.1 kv.2 d) l [].

(** The text [json.dumps] writes for a float. *)
Definition float_text (f : pyfloat) : string :=
  match f with
  | Finite repr => repr
  | Infinity false => "Infinity"
  | Infinity true => "-Infinity"
  | NaN => "NaN"
  end.

(** The text [json.dumps] writes for a key: an integer key becomes its
    decimal text, a float its text, [True], [False] and [None] become
    [true], [false] and [null]. *)
Definition key_text (k : pykey) : string :=
  match k with
  | KStr s => s
  | KInt z => pretty z
  | KFloat f => float_text f
  | KBool true => "true"
  | KBool false => "false"
  | KNone => "null"
  end.

(** The JSON document [json.dumps] writes for an object, as a tree: keys
    are strings and a tuple is written as an array. *)
Fixpoint dumps_tree (p : pyobj) : pyobj :=
  match p with
  | PList l => PList (map dumps_tree l)
  | PTuple l => PList (map dumps_tree l)
  | PDict items =>
    PDict (map (fun kv => match kv with (k, v) => (KStr (key_text k), dumps_tree v) end) items)
  | _ => p
  end.

(** The object [json.loads] builds from a JSON tree: each object becomes
    a [dict], filled pair by pair. *)
Fixpoint loads_tree (t : pyobj) : pyobj :=
  match t with
  | PList l => PList (map loads_tree l)
  | PTuple l => PList (map loads_tree l)
  | PDict items =>
    PDict (dict_of_pairs
             (map (fun kv => match kv with (k, v) => (k, loads_tree v) end) items))
  | _ => t
  end.

(** A payload made of JSON's own values: [None], booleans, integers,
    floats, strings, lists, and dictionaries whose keys are distinct
    strings. A NaN is left out: what comes back for it is a NaN, which
    Python does not count equal to it. *)
Fixpoint json_native (p : pyobj) : bool :=
  match p with
  | PList l => forallb json_native l
  | PTuple _ => false
  | PDict items =>
    forallb (fun kv => match kv with
                       | (KStr _, v) => json_native v
                       | (_, _) => false
                       end) items
    && bool_decide (NoDup (map (fun kv => key_text kv.1) items))
  | PFloat NaN => false
  | _ => true
  end.

(** *** What [json] returns for what it was given *)

(** Induction on payloads, with the hypothesis for every element of a
    list and every value of a dictionary. *)
Lemma pyobj_induction (P : pyobj → Prop) :
  P PNone → (∀ b, P (PBool b)) → (∀ z, P (PInt z)) → (∀ f, P (PFloat f)) →
  (∀ s, P (PStr s)) →
  (∀ l, Forall P l → P (PList l)) →
  (∀ l, Forall P l → P (PTuple l)) →
  (∀ items, Forall (λ kv, P kv.2) items → P (PDict items)) →
  ∀ p, P p.
Proof.
  intros HN HB HI HF HS HL HT HD. fix IH 1. intros [| | | | |l|l|items].
  - exact HN.
  - apply HB.
  - apply HI.
  - apply HF.
  - apply HS.
  - apply HL. induction l as [|x l IHl]; constructor; [apply IH|exact IHl].
  - apply HT. induction l as [|x l IHl]; constructor; [apply IH|exact IHl].
  - apply HD. induction items as [|[k v] items IHl]; constructor; [apply IH|exact IHl].
Qed.

Lemma pykey_eqb_text (a b : pykey) : pykey_eqb a b = true → key_text a = key_text b.
Proof.
  destruct a as [x|x|x|x|], b as [y|y|y|y|]; simpl; try done.
  - by intros ->%String.eqb_eq.
  - by intros ->%Z.eqb_eq.
  - destruct x as [x|x|], y as [y|y|]; simpl; try done.
    + by intros ->%String.eqb_eq.
    + by intros ->%Bool.eqb_prop.
  - by intros ->%Bool.eqb_prop.
Qed.

Lemma dict_set_fresh (k : pykey) (v : pyobj) (d : list (pykey * pyobj)) :
  key_text k ∉ map (λ kv, key_text kv.1) d → dict_set k v d = (d ++ [(k, v)])%list.
Proof.
  induction d as [|[k' v'] d IH]; simpl; intros Hk; [done|].
  apply not_elem_of_cons in Hk as [Hne Hk].
  destruct (pykey_eqb k' k) eqn:E.
  - apply pykey_eqb_text in E. congruence.
  - by rewrite IH.
Qed.

Lemma fold_dict_set_nodup (l acc : list (pykey * pyobj)) :
  NoDup (map (λ kv, key_text kv.1) (acc ++ l)) →
  fold_left (λ d kv, dict_set kv.1 kv.2 d) l acc = (acc ++ l)%list.
Proof.
  revert acc. induction l as [|[k v] l IH]; intros acc Hnd; simpl.
  - by rewrite app_nil_r.
  - rewrite dict_set_fresh.
    + rewrite IH; rewrite <- app_assoc; [done|exact Hnd].
    + rewrite map_app in Hnd. apply NoDup_app in Hnd as (_ & Hdis & _).
      intros Hin. apply (Hdis _ Hin). simpl. left.
Qed.

(** A dictionary with distinct keys is the dictionary of its pairs. *)
Lemma dict_of_pairs_nodup (l : list (pykey * pyobj)) :
  NoDup (map (λ kv, key_text kv.1) l) → dict_of_pairs l = l.
Proof. intros H. unfold dict_of_pairs. by rewrite fold_dict_set_nodup. Qed.

(** [json.loads(json.dumps(p))] is [p] for a payload of JSON's own
    values. *)
Lemma json_round_trip (p : pyobj) : json_native p = true → loads_tree (dumps_tree p) = p.
Proof.
  induction p as [| | |f| |l IH|l IH|items IH] using pyobj_induction; try done.
  - simpl. intros Hn. f_equal. rewrite map_map.
    induction IH as [|x l Hx Hl IHl]; [done|]. simpl in *.
    apply andb_prop in Hn as [Hn1 Hn2]. by rewrite Hx, IHl.
  - simpl. intros [Hn Hnd]%andb_prop. apply bool_decide_eq_true in Hnd. f_equal.
    rewrite map_map.
    assert (Hmap : map (λ kv, let '(k, v) := let '(k, v) := kv in
                                (KStr (key_text k), dumps_tree v) in (k, loads_tree v)) items
                   = items).
    { clear Hnd. induction IH as [|[k v] l Hx Hl IHl]; [done|]. simpl in *.
      apply andb_prop in Hn as [Hn1 Hn2]. destruct k as [s|z|f|b|]; try done.
      simpl. by rewrite Hx, IHl. }
    rewrite Hmap. by apply dict_of_pairs_nodup.
Qed.

(** *** The service *)

(** The exceptions of the token library, as [verify_encrypted] tells them
    apart. *)
Inductive jwt_error : Type :=
| ExpiredSignatureError
| InvalidSignatureError
| DecodeError
| OtherPyJWTError.

Inductive jwt_result (A : Type) : Type :=
| JwtOk (claims : A)
| JwtErr (e : jwt_error).
Arguments JwtOk {A} claims.
Arguments JwtErr {A} e.

Section Service.

(** The libraries the service calls. A function that can raise returns
    [None] where it raises (each of these exceptions is a [ValueError] or is
    caught as [Exception]); the library's own text, which the service
    appends to its messages after a colon, is left out. *)

(** [json]: the text of a JSON tree, and the parser. *)
Variable json_encode : pyobj -> string.
Variable json_decode : string -> option pyobj.
(** [str.encode()] and [bytes.decode("utf-8")]. *)
Variable str_encode : string -> list Byte.byte.
Variable bytes_decode : list Byte.byte -> option string.
(** [Crypto.Util.Padding]: [pad(data, AES.block_size)] and [unpad]. *)
Variable pad : list Byte.byte -> list Byte.byte.
Variable unpad : list Byte.byte -> option (list Byte.byte).
(** [AES.new(key, AES.MODE_CBC, iv).encrypt(data)] and [.decrypt(data)]. *)
Variable aes_cbc_encrypt : list Byte.byte -> list Byte.byte -> list Byte.byte -> option (list Byte.byte).
Variable aes_cbc_decrypt : list Byte.byte -> list Byte.byte -> list Byte.byte -> option (list Byte.byte).
(** [base64.b64encode(data).decode()] and [base64.b64decode(text)]. *)
Variable b64encode : list Byte.byte -> string.
Variable b64decode : string -> option (list Byte.byte).
(** [jwt.encode(claims, key, algorithm="HS256")] and
    [jwt.decode(token, key, algorithms=["HS256"])] at the time [now]. *)
Variable token : Type.
Variable jwt_encode : gmap string pyobj -> string -> token.
Variable jwt_decode : token -> string -> Z -> jwt_result (gmap string pyobj).

(** The fields [__init__] sets: the signing key and the AES key. *)
Variable sk : string.
Variable encryption_key : list Byte.byte.

(** [json.dumps(payload, separators=(',', ':'))] *)
Definition json_dumps (payload : pyobj) : string := json_encode (dumps_tree payload).

(** [json.loads(text)] *)
Definition json_loads (text : string) : option pyobj := option_map loads_tree (json_decode text).

(** [PassportService._encrypt_payload]; [iv] is [get_random_bytes(16)]. *)
Definition _encrypt_payload (iv : list Byte.byte) (payload : pyobj) : result string :=
  let payload_json := json_dumps payload in
  let padded_data := pad (str_encode payload_json) in
  match aes_cbc_encrypt encryption_key iv padded_data with
  | None => Raise (ValueError "Encryption failed")
  | Some encrypted_data =>
    let combined := (iv ++ encrypted_data)%list in
    Ok (b64encode combined)
  end.

(** [PassportService._decrypt_payload]; its argument is the value of the
    [encrypted] claim. *)
Definition _decrypt_payload (encrypted_payload : pyobj) : result pyobj :=
  let decrypted : option pyobj :=
    match encrypted_payload with
    | PStr text =>
      combined ← b64decode text;
      let iv := firstn 16 combined in
      let encrypted_data_bytes := skipn 16 combined in
      data ← aes_cbc_decrypt encryption_key iv encrypted_data_bytes;
      decrypted_data ← unpad data;
      payload_json ← bytes_decode decrypted_data;
      json_loads payload_json
    | _ => None
    end in
  match decrypted with
  | Some payload => Ok payload
  | None => Raise (ValueError "Decryption failed")
  end.

(** [PassportService.issue_encrypted] *)
Definition issue_encrypted (iv : list Byte.byte) (payload : pyobj) : result token :=
  match _encrypt_payload iv payload with
  | Raise e => Raise e
  | Ok encrypted_payload_str =>
    let jwt_payload : gmap string pyobj :=
      <["encrypted" := PStr encrypted_payload_str]>
        (<["sub" := PStr "magic_link_encrypted"]> ∅) in
    Ok (jwt_encode jwt_payload sk)
  end.

(** [decoded.get("sub") == "magic_link_encrypted"] *)
Definition sub_is_magic_link (decoded : gmap string pyobj) : bool :=
  match decoded !! "sub" with
  | Some (PStr s) => String.eqb s "magic_link_encrypted"
  | _ => false
  end.

(** ["encrypted" in decoded] *)
Definition has_encrypted (decoded : gmap string pyobj) : bool :=
  match decoded !! "encrypted" with
  | Some _ => true
  | None => false
  end.

(** [PassportService.verify_encrypted] *)
Definition verify_encrypted (now : Z) (tok : token) : result pyobj :=
  match jwt_decode tok sk now with
  | JwtErr ExpiredSignatureError => Raise (Unauthorized "Token has expired.")
  | JwtErr InvalidSignatureError => Raise (Unauthorized "Invalid token signature.")
  | JwtErr DecodeError => Raise (Unauthorized "Invalid token.")
  | JwtErr OtherPyJWTError => Raise (Unauthorized "Invalid token.")
  | JwtOk decoded =>
    if has_encrypted decoded && sub_is_magic_link decoded then
      match _decrypt_payload (default PNone (decoded !! "encrypted")) with
      | Ok payload => Ok payload
      | Raise (ValueError msg) => Raise (Unauthorized ("Token decryption failed: " ++ msg))
      | Raise e => Raise e
      end
    else Raise (Unauthorized "Token is not encrypted or invalid format.")
  end.

(** The libraries undo their own encodings. *)
Hypothesis utf8_law : ∀ text, bytes_decode (str_encode text) = Some text.
Hypothesis pad_law : ∀ data, unpad (pad data) = Some data.
Hypothesis aes_law : ∀ iv data, length iv = 16%nat →
  ∃ c, aes_cbc_encrypt encryption_key iv (pad data) = Some c ∧
       aes_cbc_decrypt encryption_key iv c = Some (pad data).
Hypothesis b64_law : ∀ data, b64decode (b64encode data) = Some data.
(** A token without time claims that was signed with [sk] verifies. *)
Hypothesis jwt_law : ∀ text now,
  let claims := <["encrypted" := PStr text]> (<["sub" := PStr "magic_link_encrypted"]> ∅) in
  jwt_decode (jwt_encode claims sk) sk now = JwtOk claims.

(** Issue then verify returns what [json] makes of the payload. *)
Lemma issue_then_verify (iv : list Byte.byte) (payload : pyobj) :
  length iv = 16%nat →
  json_decode (json_dumps payload) = Some (dumps_tree payload) →
  ∃ tok, issue_encrypted iv payload = Ok tok ∧
         ∀ now, verify_encrypted now tok = Ok (loads_tree (dumps_tree payload)).
Proof.
  intros Hiv Hjson.
  destruct (aes_law iv (str_encode (json_dumps payload)) Hiv) as (c & Henc & Hdec).
  unfold issue_encrypted, _encrypt_payload. rewrite Henc.
  eexists. split; [reflexivity|]. intros now.
  unfold verify_encrypted. rewrite jwt_law.
  unfold has_encrypted, sub_is_magic_link.
  rewrite lookup_insert_eq, lookup_insert_ne, lookup_insert_eq by done. simpl.
  unfold _decrypt_payload. rewrite b64_law. simpl.
  rewrite take_app_length' by done. rewrite drop_app_length' by done.
  rewrite Hdec. simpl. rewrite pad_law. simpl. rewrite utf8_law. simpl.
  unfold json_loads. rewrite Hjson. reflexivity.
Qed.

(** C2 (amended). For a dictionary payload made of JSON's own values
    ([None], booleans, integers, floats other than NaN, strings, lists,
    dictionaries with distinct string keys), [verify_encrypted] of the
    token [issue_encrypted] returns is the payload; for every payload
    [json.dumps] accepts it is what [json.loads] reads from the text
    [json.dumps] writes. A token whose signature does not verify, whose
    expiry has passed, or whose claims lack [encrypted] or a [sub] equal to
    ["magic_link_encrypted"], is refused with [Unauthorized]; and
    [verify_encrypted] never ends otherwise than with a payload or with
    [Unauthorized]. *)
Theorem encrypted_token_round_trip :
  (∀ iv items,
     length iv = 16%nat → json_native (PDict items) = true →
     json_decode (json_dumps (PDict items)) = Some (dumps_tree (PDict items)) →
     ∃ tok, issue_encrypted iv (PDict items) = Ok tok ∧
            ∀ now, verify_encrypted now tok = Ok (PDict items)) ∧
  (∀ iv payload,
     length iv = 16%nat →
     json_decode (json_dumps payload) = Some (dumps_tree payload) →
     ∃ tok, issue_encrypted iv payload = Ok tok ∧
            ∀ now, verify_encrypted now tok = Ok (loads_tree (dumps_tree payload))) ∧
  (∀ now tok, jwt_decode tok sk now = JwtErr InvalidSignatureError →
     verify_encrypted now tok = Raise (Unauthorized "Invalid token signature.")) ∧
  (∀ now tok, jwt_decode tok sk now = JwtErr ExpiredSignatureError →
     verify_encrypted now tok = Raise (Unauthorized "Token has expired.")) ∧
  (∀ now tok decoded, jwt_decode tok sk now = JwtOk decoded →
     decoded !! "encrypted" = None ∨ decoded !! "sub" ≠ Some (PStr "magic_link_encrypted") →
     verify_encrypted now tok
     = Raise (Unauthorized "Token is not encrypted or invalid format.")) ∧
  (∀ now tok, (∃ payload, verify_encrypted now tok = Ok payload) ∨
              (∃ msg, verify_encrypted now tok = Raise (Unauthorized msg))).
Proof.
  split; [|split; [|split; [|split; [|split]]]].
  - intros iv items Hiv Hnative Hjson.
    destruct (issue_then_verify iv (PDict items) Hiv Hjson) as (tok & Hissue & Hverify).
    exists tok. split; [done|]. intros now. rewrite Hverify. f_equal.
    by apply json_round_trip.
  - intros iv payload Hiv Hjson. by apply issue_then_verify.
  - intros now tok H. unfold verify_encrypted. by rewrite H.
  - intros now tok H. unfold verify_encrypted. by rewrite H.
  - intros now tok decoded H Hbad. unfold verify_encrypted. rewrite H.
    unfold has_encrypted, sub_is_magic_link. destruct Hbad as [->|Hsub]; [done|].
    destruct (decoded !! "encrypted"); [|done]. simpl.
    destruct (decoded !! "sub") as [[| | | |s| | |]|]; try done.
    destruct (String.eqb s "magic_link_encrypted") eqn:E; [|done].
    apply String.eqb_eq in E. congruence.
  - intros now tok. unfold verify_encrypted.
    destruct (jwt_decode tok sk now) as [decoded|[]]; eauto.
    destruct (has_encrypted decoded && sub_is_magic_link decoded); [|eauto].
    unfold _decrypt_payload.
    match goal with |- context [match ?o with Some _ => Ok _ | None => _ end] =>
      destruct o end; eauto.
Qed.

End Service.

(** *** An instance of the libraries

    Stand-ins for the libraries, enough to run the service: a compact
    text format for JSON trees, encodings and a cipher that leave their
    input as it is, and two kinds of tokens: the claims themselves, and
    the claims with a signature that is checked. *)
Module Demo.

Fixpoint split_at (c : ascii) (s : string) : option (string * string) :=
  match s with
  | EmptyString => None
  | String x s' =>
    if Ascii.eqb x c then Some (EmptyString, s')
    else match split_at c s' with
         | Some (a, b) => Some (String x a, b)
         | None => None
         end
  end.

Fixpoint take_chars (n : nat) (s : string) : option (string * string) :=
  match n with
  | O => Some (EmptyString, s)
  | S n' =>
    match s with
    | EmptyString => None
    | String x s' =>
      match take_chars n' s' with
      | Some (a, b) => Some (String x a, b)
      | None => None
      end
    end
  end.

Definition write_text (s : string) : string :=
  "s" ++ pretty (String.length s) ++ ":" ++ s.

(** The text of a tree: [n], [t], [f], [i<digits>;], [d<string>], [I],
    [J] and [N] for a float, [s<length>:<chars>], [[...]] and [{...}] with
    a string before each value. *)
Fixpoint write (t : pyobj) : string :=
  match t with
  | PNone => "n"
  | PBool true => "t"
  | PBool false => "f"
  | PInt z => "i" ++ pretty z ++ ";"
  | PFloat (Finite repr) => "d" ++ write_text repr
  | PFloat (Infinity false) => "I"
  | PFloat (Infinity true) => "J"
  | PFloat NaN => "N"
  | PStr s => write_text s
  | PList l => "[" ++ String.concat "" (map write l) ++ "]"
  | PTuple l => "[" ++ String.concat "" (map write l) ++ "]"
  | PDict items =>
    "{" ++ String.concat ""
             (map (fun kv => match kv with (k, v) => write_text (key_text k) ++ write v end)
                  items)
        ++ "}"
  end.

Definition read_text (s : string) : option (string * string) :=
  match s with
  | String "s"%char r =>
    '(d, r') ← split_at ":"%char r;
    n ← int_of_text d;
    take_chars (Z.to_nat n) r'
  | _ => None
  end.

Fixpoint read (fuel : nat) (s : string) : option (pyobj * string) :=
  match fuel with
  | O => None
  | S f =>
    match s with
    | String "n"%char r => Some (PNone, r)
    | String "t"%char r => Some (PBool true, r)
    | String "f"%char r => Some (PBool false, r)
    | String "i"%char r =>
      '(d, r') ← split_at ";"%char r;
      z ← int_of_text d;
      Some (PInt z, r')
    | String "d"%char r =>
      '(a, r') ← read_text r;
      Some (PFloat (Finite a), r')
    | String "I"%char r => Some (PFloat (Infinity false), r)
    | String "J"%char r => Some (PFloat (Infinity true), r)
    | String "N"%char r => Some (PFloat NaN, r)
    | String "s"%char _ =>
      '(a, r') ← read_text s;
      Some (PStr a, r')
    | String "["%char r =>
      '(l, r') ← (fix elements (g : nat) (r : string) : option (list pyobj * string) :=
                    match g with
                    | O => None
                    | S g' =>
                      match r with
                      | String "]"%char r' => Some ([], r')
                      | _ =>
                        '(v, r1) ← read f r;
                        '(vs, r2) ← elements g' r1;
                        Some (v :: vs, r2)
                      end
                    end) f r;
      Some (PList l, r')
    | String "{"%char r =>
      '(l, r') ← (fix members (g : nat) (r : string)
                    : option (list (pykey * pyobj) * string) :=
                    match g with
                    | O => None
                    | S g' =>
                      match r with
                      | String "}"%char r' => Some ([], r')
                      | _ =>
                        '(k, r1) ← read_text r;
                        '(v, r2) ← read f r1;
                        '(kvs, r3) ← members g' r2;
                        Some ((KStr k, v) :: kvs, r3)
                      end
                    end) f r;
      Some (PDict l, r')
    | _ => None
    end
  end.

Definition parse (s : string) : option pyobj :=
  match read (S (String.length s)) s with
  | Some (t, EmptyString) => Some t
  | _ => None
  end.

Definition str_encode (s : string) : list Byte.byte := list_byte_of_string s.
Definition bytes_decode (b : list Byte.byte) : option string := Some (string_of_list_byte b).
Definition pad (b : list Byte.byte) : list Byte.byte := b.
Definition unpad (b : list Byte.byte) : option (list Byte.byte) := Some b.
Definition aes (key iv data : list Byte.byte) : option (list Byte.byte) := Some data.
Definition b64encode (b : list Byte.byte) : string := string_of_list_byte b.
Definition b64decode (s : string) : option (list Byte.byte) := Some (list_byte_of_string s).
Definition jwt_encode (claims : gmap string pyobj) (key : string) : gmap string pyobj := claims.
Definition jwt_decode (tok : gmap string pyobj) (key : string) (now : Z)
  : jwt_result (gmap string pyobj) := JwtOk tok.

(** Signed tokens: the claims in the clear, with the text the key and
    the claims give as their signature. *)
Record signed : Type := {
  claims_of : gmap string pyobj;
  signature : string
}.

Definition sign (key : string) (claims : gmap string pyobj) : string :=
  key ++ "." ++ write (PDict (map (fun kv => (KStr kv.1, kv.2)) (map_to_list claims))).

Definition jwt_encode_signed (claims : gmap string pyobj) (key : string) : signed :=
  {| claims_of := claims; signature := sign key claims |}.

(** The signature is checked first, then the claim [exp] against the
    time. *)
Definition jwt_decode_signed (tok : signed) (key : string) (now : Z)
  : jwt_result (gmap string pyobj) :=
  if negb (String.eqb (signature tok) (sign key (claims_of tok)))
  then JwtErr InvalidSignatureError
  else match claims_of tok !! "exp" with
       | None => JwtOk (claims_of tok)
       | Some (PInt exp) =>
         if exp <=? now then JwtErr ExpiredSignatureError else JwtOk (claims_of tok)
       | Some _ => JwtErr DecodeError
       end.

Definition iv0 : list Byte.byte := repeat x00 16.

Definition issue_signed : list Byte.byte → pyobj → result signed :=
  issue_encrypted write str_encode pad aes b64encode signed jwt_encode_signed "secret" [].

Definition verify_signed : Z → signed → result pyobj :=
  verify_encrypted parse bytes_decode unpad aes b64decode signed jwt_decode_signed
                   "secret" [].

Definition issue : list Byte.byte → pyobj → result (gmap string pyobj) :=
  issue_encrypted write str_encode pad aes b64encode (gmap string pyobj) jwt_encode
                  "secret" [].

Definition verify : Z → gmap string pyobj → result pyobj :=
  verify_encrypted parse bytes_decode unpad aes b64decode (gmap string pyobj) jwt_decode
                   "secret" [].

End Demo.

(** The payload of a magic link. *)
Definition link_payload : list (pykey * pyobj) :=
  [ (KStr "sub", PStr "magic_link"); (KStr "account_id", PStr "a1");
    (KStr "email", PStr "ann@example.com"); (KStr "redirect", PStr "/apps") ].

Example demo_parse_write :
  Demo.parse (Demo.write (PDict link_payload)) = Some (PDict link_payload).
Proof. vm_compute. reflexivity. Qed.

(** A payload with a float and a nested list. *)
Definition quota_payload : list (pykey * pyobj) :=
  [ (KStr "plan", PStr "team"); (KStr "ratio", PFloat (Finite "0.75"));
    (KStr "limits", PList [PInt 10; PNone; PBool true]) ].

Example demo_parse_write_float :
  Demo.parse (Demo.write (PDict quota_payload)) = Some (PDict quota_payload).
Proof. vm_compute. reflexivity. Qed.

(** Tokens of the stand-in library, signed with the key of the service:
    the claims of an encrypted token; those claims with an expiry at time
    100; the claims of a plain magic link. *)
Definition encrypted_claims (text : string) : gmap string pyobj :=
  <["encrypted" := PStr text]> (<["sub" := PStr "magic_link_encrypted"]> ∅).

Definition expiring_token : Demo.signed :=
  Demo.jwt_encode_signed (<["exp" := PInt 100]> (encrypted_claims "x")) "secret".

Definition plain_token : Demo.signed :=
  Demo.jwt_encode_signed (<["sub" := PStr "magic_link"]> ∅) "secret".

(** A token signed with another key, and a token whose claims were
    changed after it was signed. *)
Definition forged_token : Demo.signed :=
  Demo.jwt_encode_signed (encrypted_claims "x") "guess".

Definition altered_token : Demo.signed :=
  {| Demo.claims_of := encrypted_claims "y";
     Demo.signature := Demo.sign "secret" (encrypted_claims "x") |}.

(** With the stand-in libraries: the magic-link payload and a payload
    with a float come back as issued, at any time; a payload with an
    integer key and a tuple comes back as [json] reads it; the forged and
    the altered token are refused for their signature, the expiring token
    is accepted before time 100 only as far as its signature goes and
    refused as expired from then on, and the plain token is refused for
    its format. *)
Lemma encrypted_token_round_trip_witness :
  (∃ tok, Demo.issue_signed Demo.iv0 (PDict link_payload) = Ok tok ∧
          ∀ now, Demo.verify_signed now tok = Ok (PDict link_payload)) ∧
  (∃ tok, Demo.issue_signed Demo.iv0 (PDict quota_payload) = Ok tok ∧
          ∀ now, Demo.verify_signed now tok = Ok (PDict quota_payload)) ∧
  (∃ tok, Demo.issue_signed Demo.iv0 (PDict [(KInt 1, PTuple [PInt 2; PInt 3])]) = Ok tok ∧
          ∀ now, Demo.verify_signed now tok = Ok (PDict [(KStr "1", PList [PInt 2; PInt 3])])) ∧
  Demo.verify_signed 0 forged_token = Raise (Unauthorized "Invalid token signature.") ∧
  Demo.verify_signed 0 altered_token = Raise (Unauthorized "Invalid token signature.") ∧
  Demo.jwt_decode_signed expiring_token "secret" 99 = JwtOk (Demo.claims_of expiring_token) ∧
  Demo.verify_signed 100 expiring_token = Raise (Unauthorized "Token has expired.") ∧
  Demo.verify_signed 0 plain_token
  = Raise (Unauthorized "Token is not encrypted or invalid format.").
Proof.
  destruct (encrypted_token_round_trip Demo.write Demo.parse Demo.str_encode Demo.bytes_decode
              Demo.pad Demo.unpad Demo.aes Demo.aes Demo.b64encode Demo.b64decode
              Demo.signed Demo.jwt_encode_signed Demo.jwt_decode_signed "secret" [])
    as (Hnative & Hany & Hsig & Hexp & Hformat & _).
  - intros text. unfold Demo.bytes_decode, Demo.str_encode.
    by rewrite string_of_list_byte_of_string.
  - reflexivity.
  - intros iv data _. exists (Demo.pad data). split; reflexivity.
  - intros data. unfold Demo.b64decode, Demo.b64encode.
    by rewrite list_byte_of_string_of_list_byte.
  - intros text now. unfold Demo.jwt_decode_signed, Demo.jwt_encode_signed. simpl.
    rewrite String.eqb_refl. simpl.
    by rewrite !lookup_insert_ne, lookup_empty by done.
  - split; [|split; [|split; [|split; [|split; [|split; [|split]]]]]].
    + apply Hnative; [reflexivity|vm_compute; reflexivity|vm_compute; reflexivity].
    + apply Hnative; [reflexivity|vm_compute; reflexivity|vm_compute; reflexivity].
    + apply (Hany Demo.iv0 (PDict [(KInt 1, PTuple [PInt 2; PInt 3])]));
        [reflexivity|vm_compute; reflexivity].
    + apply Hsig. vm_compute. reflexivity.
    + apply Hsig. vm_compute. reflexivity.
    + vm_compute. reflexivity.
    + apply Hexp. vm_compute. reflexivity.
    + apply (Hformat 0 plain_token (<["sub" := PStr "magic_link"]> ∅)).
      * vm_compute. reflexivity.
      * left. reflexivity.
Defined.

(** The magic-link payload comes back as it was issued. *)
Example link_payload_round_trip :
  ∃ tok, Demo.issue Demo.iv0 (PDict link_payload) = Ok tok ∧
         Demo.verify 0 tok = Ok (PDict link_payload).
Proof. eexists. split; [reflexivity|]. vm_compute. reflexivity. Qed.

(** What [json] makes of a dictionary with an integer key and of a tuple. *)
Example json_coerces_int_key :
  loads_tree (dumps_tree (PDict [(KInt 1, PStr "a")])) = PDict [(KStr "1", PStr "a")].
Proof. reflexivity. Qed.

Example json_reads_tuple_as_list :
  loads_tree (dumps_tree (PDict [(KStr "ids", PTuple [PInt 1; PInt 2])]))
  = PDict [(KStr "ids", PList [PInt 1; PInt 2])].
Proof. reflexivity. Qed.

(** A float key comes back as its text, and a NaN as a NaN, which is not
    equal to the one that was sent. *)
Example json_coerces_float_key :
  loads_tree (dumps_tree (PDict [(KFloat (Finite "1.5"), PNone)]))
  = PDict [(KStr "1.5", PNone)].
Proof. reflexivity. Qed.

Example json_returns_nan :
  loads_tree (dumps_tree (PDict [(KStr "x", PFloat NaN)])) = PDict [(KStr "x", PFloat NaN)] ∧
  pyfloat_eqb NaN NaN = false.
Proof. split; reflexivity. Qed.

(** C2 as stated fails: [{1: "a"}] is JSON-serializable, and what comes
    back is [{"1": "a"}], whose only key is the string ["1"]. *)
Lemma int_key_payload_comes_back_changed :
  let payload := PDict [(KInt 1, PStr "a")] in
  ∃ tok, Demo.issue Demo.iv0 payload = Ok tok ∧
         Demo.verify 0 tok = Ok (PDict [(KStr "1", PStr "a")]) ∧
         PDict [(KStr "1", PStr "a")] ≠ payload.
Proof.
  eexists. split; [reflexivity|]. split; [vm_compute; reflexivity|]. discriminate.
Qed.

(** *** The keys of the service *)

Section Init.

(** [base64.b64decode], [None] where it raises; [hashlib.sha256(data).digest()];
    [str.encode()]. *)
Variable b64decode : string → option (list Byte.byte).
Variable sha256 : list Byte.byte → list Byte.byte.
Variable str_encode : string → list Byte.byte.

(** [PassportService.__init__]: the field [encryption_key], from
    [dify_config.SECRET_KEY] and [dify_config.MAGIC_LINK_ENCRYPTION_KEY]
    ([None] when the configuration has no such attribute). An exception in
    the [try] block, the [ValueError] for a key of another length included,
    is caught and the key is derived from the secret. *)
Definition init_encryption_key (SECRET_KEY : string) (MAGIC_LINK_ENCRYPTION_KEY : option string)
  : list Byte.byte :=
  let derived := sha256 (str_encode SECRET_KEY) in
  if truthy MAGIC_LINK_ENCRYPTION_KEY then
    match b64decode (default "" MAGIC_LINK_ENCRYPTION_KEY) with
    | Some key_ => if (length key_ =? 32)%nat then key_ else derived
    | None => derived
    end
  else derived.

(** A SHA-256 digest has 32 bytes. *)
Hypothesis sha256_length : ∀ data, length (sha256 data) = 32%nat.

(** X23. Whatever the configuration holds, the AES key [__init__] sets has
    32 bytes. It is the configured key when [MAGIC_LINK_ENCRYPTION_KEY] is
    the base64 text of exactly 32 bytes, and the SHA-256 digest of the
    secret in every other case: no key configured, an empty one, a text
    that is not base64, a key of another length. *)
Theorem encryption_key_has_32_bytes (SECRET_KEY : string)
    (MAGIC_LINK_ENCRYPTION_KEY : option string) :
  let key_ := init_encryption_key SECRET_KEY MAGIC_LINK_ENCRYPTION_KEY in
  let derived := sha256 (str_encode SECRET_KEY) in
  length key_ = 32%nat ∧
  (∀ text configured,
     MAGIC_LINK_ENCRYPTION_KEY = Some text → text ≠ "" →
     b64decode text = Some configured → length configured = 32%nat →
     key_ = configured) ∧
  (MAGIC_LINK_ENCRYPTION_KEY = None → key_ = derived) ∧
  (MAGIC_LINK_ENCRYPTION_KEY = Some "" → key_ = derived) ∧
  (∀ text, MAGIC_LINK_ENCRYPTION_KEY = Some text → b64decode text = None →
     key_ = derived) ∧
  (∀ text configured,
     MAGIC_LINK_ENCRYPTION_KEY = Some text → b64decode text = Some configured →
     length configured ≠ 32%nat → key_ = derived).
Proof.
  intros key_ derived. subst key_ derived. unfold init_encryption_key.
  split; [|split; [|split; [|split; [|split]]]].
  - destruct MAGIC_LINK_ENCRYPTION_KEY as [text|]; simpl; [|done].
    destruct (String.eqb text ""); simpl; [done|].
    destruct (b64decode text) as [configured|]; [|done].
    by destruct (Nat.eqb_spec (length configured) 32).
  - intros text configured -> Hne Hdec Hlen. simpl.
    apply String.eqb_neq in Hne. rewrite Hne. simpl. rewrite Hdec, Hlen. done.
  - by intros ->.
  - by intros ->.
  - intros text -> Hdec. simpl. rewrite Hdec. by destruct (negb (String.eqb text "")).
  - intros text configured -> Hdec Hlen. simpl. rewrite Hdec.
    apply Nat.eqb_neq in Hlen. rewrite Hlen. by destruct (negb (String.eqb text "")).
Qed.

End Init.

(** *** controllers/console/auth/magic_link.py *)

(** A row of [accounts] (the columns the magic link reads). *)
Record Account : Type := {
  acc_id : string;
  acc_user_id : string;
  acc_email : string
}.

(** [token_pair]: the result of [AccountService().login]. *)
Record TokenPair : Type := {
  access_token : string;
  refresh_token : string
}.

(** Sequencing of calls that can raise. *)
#[local] Instance result_mbind : MBind result := fun A B k r => bind r k.

(** Truthiness of a Python object. *)
Definition py_truthy (p : pyobj) : bool :=
  match p with
  | PNone => false
  | PBool b => b
  | PInt z => negb (z =? 0)
  | PFloat f => negb (pyfloat_eqb f (Finite "0.0") || pyfloat_eqb f (Finite "-0.0"))
  | PStr s => negb (String.eqb s "")
  | PList l | PTuple l => match l with [] => false | _ => true end
  | PDict items => match items with [] => false | _ => true end
  end.

(** [obj[key]] for a string key. *)
Definition getitem (obj : pyobj) (k : string) : result pyobj :=
  match obj with
  | PDict items =>
    match List.find (fun kv => pykey_eqb kv.1 (KStr k)) items with
    | Some kv => Ok kv.2
    | None => Raise (KeyError k)
    end
  | PList _ | PTuple _ => Raise (TypeError "list indices must be integers or slices, not str")
  | PStr _ => Raise (TypeError "string indices must be integers, not 'str'")
  | _ => Raise (TypeError "object is not subscriptable")
  end.

(** [obj != text] *)
Definition differs_from (obj : pyobj) (text : string) : bool :=
  match obj with
  | PStr s => negb (String.eqb s text)
  | _ => true
  end.

(** The payload [MagicLinkGenerateApi.post] signs. *)
Definition magic_link_payload (account : Account) (redirect : string) : pyobj :=
  PDict [ (KStr "sub", PStr "magic_link"); (KStr "user_id", PStr (acc_id account));
          (KStr "email", PStr (acc_email account)); (KStr "redirect", PStr redirect) ].

Section MagicLink.

(** The libraries, as in the service. *)
Variable json_encode : pyobj → string.
Variable json_decode : string → option pyobj.
Variable str_encode : string → list Byte.byte.
Variable bytes_decode : list Byte.byte → option string.
Variable pad : list Byte.byte → list Byte.byte.
Variable unpad : list Byte.byte → option (list Byte.byte).
Variable aes_cbc_encrypt : list Byte.byte → list Byte.byte → list Byte.byte → option (list Byte.byte).
Variable aes_cbc_decrypt : list Byte.byte → list Byte.byte → list Byte.byte → option (list Byte.byte).
Variable b64encode : list Byte.byte → string.
Variable b64decode : string → option (list Byte.byte).
Variable token : Type.
Variable jwt_encode : gmap string pyobj → string → token.
Variable jwt_decode : token → string → Z → jwt_result (gmap string pyobj).
Variable sk : string.
Variable encryption_key : list Byte.byte.

(** The text of a token, as it is put in the URL. *)
Variable token_text : token → string.
(** [db.session.query(Account).filter(Account.id == value).first()] and the
    same on [Account.email], for a value that came out of a token. *)
Variable first_account_by_id : list Account → pyobj → result (option Account).
Variable first_account_by_email : list Account → pyobj → result (option Account).
(** [AccountService().login(account=account, ip_address=...)] *)
Variable login : Account → string → TokenPair.

Definition issue_link : list Byte.byte → pyobj → result token :=
  issue_encrypted json_encode str_encode pad aes_cbc_encrypt b64encode token jwt_encode
                  sk encryption_key.

Definition verify_link : Z → token → result pyobj :=
  verify_encrypted json_decode bytes_decode unpad aes_cbc_decrypt b64decode token jwt_decode
                   sk encryption_key.

(** The responses of [MagicLinkGenerateApi.post]. *)
Inductive GenerateResponse : Type :=
| GenerateNotFound
| GenerateSuccess (tok : token) (login_url : string).

(** [MagicLinkGenerateApi.post]; [iv] is the random block of this call. *)
Definition MagicLinkGenerateApi_post (iv : list Byte.byte) (accounts : list Account)
    (account_id redirect : string) : result GenerateResponse :=
  match first (List.filter (fun a => String.eqb (acc_user_id a) account_id) accounts) with
  | None => Ok GenerateNotFound
  | Some account =>
    match issue_link iv (magic_link_payload account redirect) with
    | Raise e => Raise e
    | Ok tok => Ok (GenerateSuccess tok ("/magic-login?token=" ++ token_text tok))
    end
  end.

(** The responses of [MagicLinkLoginApi.get]: the body and the status (the
    CORS headers it may add are left out). *)
Inductive LoginResponse : Type :=
| LoginFail (status : Z) (message : string)
| LoginSuccess (pair : TokenPair) (redirect : pyobj).

(** [MagicLinkLoginApi.get]; [ip] is [extract_remote_ip(request)]. *)
Definition MagicLinkLoginApi_get (now : Z) (ip : string) (accounts : list Account) (tok : token)
  : result LoginResponse :=
  match verify_link now tok with
  | Raise _ => Ok (LoginFail 401 "Invalid token")
  | Ok token_data =>
    sub ← getitem token_data "sub";
    if differs_from sub "magic_link" then Ok (LoginFail 401 "Invalid token")
    else
      account_id ← getitem token_data "user_id";
      account_email ← getitem token_data "email";
      redirect_ ← getitem token_data "redirect";
      let redirect := if py_truthy redirect_ then redirect_ else PStr "/" in
      account ← (if py_truthy account_id then first_account_by_id accounts account_id
                 else if py_truthy account_email then first_account_by_email accounts account_email
                 else Ok None);
      match account with
      | None => Ok (LoginFail 404 "Account not found")
      | Some a => Ok (LoginSuccess (login a ip) redirect)
      end
  end.

(** The libraries undo their own encodings, and a token without time
    claims that was signed with [sk] verifies. *)
Hypothesis utf8_law : ∀ text, bytes_decode (str_encode text) = Some text.
Hypothesis pad_law : ∀ data, unpad (pad data) = Some data.
Hypothesis aes_law : ∀ iv data, length iv = 16%nat →
  ∃ c, aes_cbc_encrypt encryption_key iv (pad data) = Some c ∧
       aes_cbc_decrypt encryption_key iv c = Some (pad data).
Hypothesis b64_law : ∀ data, b64decode (b64encode data) = Some data.
Hypothesis jwt_law : ∀ text now,
  let claims := <["encrypted" := PStr text]> (<["sub" := PStr "magic_link_encrypted"]> ∅) in
  jwt_decode (jwt_encode claims sk) sk now = JwtOk claims.
(** On the text of an id the query by id is the search of the table. *)
Hypothesis by_id_law : ∀ accounts s,
  first_account_by_id accounts (PStr s)
  = Ok (first (List.filter (fun a => String.eqb (acc_id a) s) accounts)).

(** X24. A magic link logs in the account it was generated for. When
    [MagicLinkGenerateApi.post] finds an account with the requested
    [user_id] (ids being unique and not empty, and [json] reading back the
    text it wrote for the payload), it returns a token, and
    [MagicLinkLoginApi.get] with that token, at any time and from any
    address, logs in that account and answers with the requested redirect,
    or with ["/"] when the redirect was empty. *)
Theorem magic_link_round_trip (iv : list Byte.byte) (accounts : list Account)
    (account_id redirect : string) (account : Account) :
  length iv = 16%nat →
  first (List.filter (fun a => String.eqb (acc_user_id a) account_id) accounts) = Some account →
  NoDup (map acc_id accounts) →
  acc_id account ≠ "" →
  json_decode (json_dumps json_encode (magic_link_payload account redirect))
  = Some (dumps_tree (magic_link_payload account redirect)) →
  ∃ tok,
    MagicLinkGenerateApi_post iv accounts account_id redirect
    = Ok (GenerateSuccess tok ("/magic-login?token=" ++ token_text tok)) ∧
    ∀ now ip,
      MagicLinkLoginApi_get now ip accounts tok
      = Ok (LoginSuccess (login account ip)
                         (PStr (if String.eqb redirect "" then "/" else redirect))).
Proof.
  intros Hiv Hfound Hnodup Hid Hjson.
  destruct (issue_then_verify json_encode json_decode str_encode bytes_decode pad unpad
              aes_cbc_encrypt aes_cbc_decrypt b64encode b64decode token jwt_encode jwt_decode
              sk encryption_key utf8_law pad_law aes_law b64_law jwt_law
              iv (magic_link_payload account redirect) Hiv Hjson)
    as (tok & Hissue & Hverify).
  exists tok. split.
  - unfold MagicLinkGenerateApi_post, issue_link. by rewrite Hfound, Hissue.
  - intros now ip. unfold MagicLinkLoginApi_get, verify_link. rewrite Hverify.
    rewrite json_round_trip by (by apply andb_true_iff; split; [|apply bool_decide_eq_true;
      repeat constructor; set_solver]).
    simpl. apply String.eqb_neq in Hid. rewrite Hid. simpl.
    rewrite by_id_law.
    assert (Hin : In account accounts).
    { destruct (List.filter _ accounts) as [|x l] eqn:E; [done|]. injection Hfound as ->.
      assert (In account (List.filter (fun a => String.eqb (acc_user_id a) account_id) accounts))
        as Hf by (rewrite E; by left).
      by apply filter_In in Hf as [Hf _]. }
    assert (Hfirst : first (List.filter (fun a => String.eqb (acc_id a) (acc_id account)) accounts)
                     = Some account).
    { clear -Hin Hnodup. induction accounts as [|x l IH]; [done|]. simpl in *.
      apply NoDup_cons in Hnodup as [Hx Hnd].
      destruct Hin as [->|Hin].
      - by rewrite String.eqb_refl.
      - destruct (String.eqb_spec (acc_id x) (acc_id account)) as [He|Hne].
        + exfalso. apply Hx. rewrite He. apply list_elem_of_In, in_map. exact Hin.
        + by apply IH. }
    rewrite Hfirst. simpl.
    destruct (String.eqb redirect ""); reflexivity.
Qed.

End MagicLink.

(** *** The properties on the stand-in libraries *)

(** With a digest of 32 zero bytes and a decoding that takes the bytes of
    the text: a configured text of 32 characters is the key; a shorter one
    and a missing one leave the digest of the secret. *)
Lemma encryption_key_has_32_bytes_witness :
  let init := init_encryption_key Demo.b64decode (fun _ => repeat x00 32) Demo.str_encode in
  init "secret" (Some "0123456789abcdef0123456789abcdef")
  = list_byte_of_string "0123456789abcdef0123456789abcdef" ∧
  init "secret" (Some "too short") = repeat x00 32 ∧
  init "secret" None = repeat x00 32.
Proof.
  intros init. split; [|split].
  - destruct (encryption_key_has_32_bytes Demo.b64decode (fun _ => repeat x00 32)
                Demo.str_encode (fun _ => eq_refl) "secret"
                (Some "0123456789abcdef0123456789abcdef")) as (_ & H & _).
    apply (H "0123456789abcdef0123456789abcdef"); [reflexivity|discriminate|reflexivity..].
  - destruct (encryption_key_has_32_bytes Demo.b64decode (fun _ => repeat x00 32)
                Demo.str_encode (fun _ => eq_refl) "secret" (Some "too short"))
      as (_ & _ & _ & _ & _ & H).
    apply (H "too short" (list_byte_of_string "too short")); [reflexivity..|discriminate].
  - destruct (encryption_key_has_32_bytes Demo.b64decode (fun _ => repeat x00 32)
                Demo.str_encode (fun _ => eq_refl) "secret" None) as (_ & _ & H & _).
    by apply H.
Defined.

Definition ann : Account :=
  {| acc_id := "a1"; acc_user_id := "u-ann"; acc_email := "ann@example.com" |}.

Definition demo_by_id (accounts : list Account) (value : pyobj) : result (option Account) :=
  match value with
  | PStr s => Ok (first (List.filter (fun a => String.eqb (acc_id a) s) accounts))
  | _ => Ok None
  end.

Definition demo_login (a : Account) (ip : string) : TokenPair :=
  {| access_token := acc_id a; refresh_token := ip |}.

Lemma magic_link_round_trip_witness :
  ∃ tok,
    MagicLinkGenerateApi_post Demo.write Demo.str_encode Demo.pad Demo.aes Demo.b64encode
      (gmap string pyobj) Demo.jwt_encode "secret" [] (fun _ => "token")
      Demo.iv0 [ann] "u-ann" ""
    = Ok (GenerateSuccess (gmap string pyobj) tok "/magic-login?token=token") ∧
    ∀ now ip,
      MagicLinkLoginApi_get Demo.parse Demo.bytes_decode Demo.unpad Demo.aes Demo.b64decode
        (gmap string pyobj) Demo.jwt_decode "secret" [] demo_by_id demo_by_id demo_login
        now ip [ann] tok
      = Ok (LoginSuccess (demo_login ann ip) (PStr "/")).
Proof.
  apply (magic_link_round_trip Demo.write Demo.parse Demo.str_encode Demo.bytes_decode
           Demo.pad Demo.unpad Demo.aes Demo.aes Demo.b64encode Demo.b64decode
           (gmap string pyobj) Demo.jwt_encode Demo.jwt_decode "secret" []
           (fun _ => "token") demo_by_id demo_by_id demo_login).
  - intros text. unfold Demo.bytes_decode, Demo.str_encode.
    by rewrite string_of_list_byte_of_string.
  - reflexivity.
  - intros iv data _. exists (Demo.pad data). split; reflexivity.
  - intros data. unfold Demo.b64decode, Demo.b64encode.
    by rewrite list_byte_of_string_of_list_byte.
  - reflexivity.
  - reflexivity.
  - reflexivity.
  - reflexivity.
  - apply NoDup_ListNoDup. simpl. repeat constructor. intros [].
  - discriminate.
  - vm_compute. reflexivity.
Defined.

End Passport.

(** ** core/workflow/nodes/rag/entities.py, node.py *)
Module Rag.

(** A JSON value, as [response.json()] returns it and as a node's
    configuration holds it. Numbers are integers here. *)
Inductive json : Type :=
| JNull
| JBool (b : bool)
| JNum (z : Z)
| JStr (s : string)
| JArr (l : list json)
| JObj (members : list (string * json)).

(** [d.get(k)] on the dictionary of a JSON object: the last member with
    that name. *)
Definition obj_get (k : string) (members : list (string * json)) : option json :=
  fold_left (fun acc kv => if String.eqb kv.1 k then Some kv.2 else acc) members None.

(** A number with a fraction, kept as its text. *)
Definition float : Type := string.

(** *** entities.py *)

Record RagTag : Type := {
  chi_pro : option string;
  chi_scene : option string;
  chi_spe : option string;
  chi_spec : option string;
  province_tag : option string;
  scene_tag : option string;
  specialty_tag : option string
}.

Record RagNodeData : Type := {
  title : string;
  desc : option string;
  ai_flag : Z;
  query : string;
  dataset_ids : list string;
  retrieval_mode : string;
  self_build_rag : option (list (string * json));
  tag : list RagTag;
  score_threshold : float;
  search_mode : string;
  show_image : bool;
  top_k : Z
}.

Record RagRequest : Type := {
  rq_ai_flag : Z;
  rq_query : string;
  rq_score_threshold : float;
  rq_search_mode : string;
  rq_show_image : bool;
  rq_tag : list RagTag;
  rq_top_k : Z
}.

Record ContextItem : Type := {
  doc_name : option string;
  text : option string;
  img_url : option string;
  url : option string
}.

Record ResponseTag : Type := {
  rt_province_tag : string;
  rt_scene_tag : string;
  rt_specialty_tag : string
}.

Record RagResponseData : Type := {
  context : list ContextItem;
  rd_query : string;
  rd_tag : list ResponseTag
}.

Record RagResponse : Type := {
  code : string;
  data : option RagResponseData;
  msg : string;
  status : string
}.

(** **** Validation of a response body against the models

    A [str] field takes a JSON string; an [Optional[str]] field also
    takes [null]; a model takes an object and a [List] an array. A field
    that is absent takes its default, and a field without a default must be
    present. Members the model does not declare are ignored. [None] is a
    [ValidationError]. *)

Definition as_str (j : json) : option string :=
  match j with
  | JStr s => Some s
  | _ => None
  end.

(** A [str] field with a default. *)
Definition str_field (members : list (string * json)) (k dflt : string) : option string :=
  match obj_get k members with
  | None => Some dflt
  | Some j => as_str j
  end.

(** A [str] field without a default. *)
Definition required_str_field (members : list (string * json)) (k : string) : option string :=
  match obj_get k members with
  | None => None
  | Some j => as_str j
  end.

(** An [Optional[str]] field with the default [""]. *)
Definition optional_str_field (members : list (string * json)) (k : string)
  : option (option string) :=
  match obj_get k members with
  | None => Some (Some "")
  | Some JNull => Some None
  | Some (JStr s) => Some (Some s)
  | Some _ => None
  end.

(** A [List[T]] field with the default [[]]. *)
Definition list_field {A : Type} (validate : json -> option A)
    (members : list (string * json)) (k : string) : option (list A) :=
  match obj_get k members with
  | None => Some []
  | Some (JArr l) => mapM validate l
  | Some _ => None
  end.

Definition validate_ContextItem (j : json) : option ContextItem :=
  match j with
  | JObj members =>
    d ← optional_str_field members "doc_name";
    t ← optional_str_field members "text";
    i ← optional_str_field members "img_url";
    u ← optional_str_field members "url";
    Some {| doc_name := d; text := t; img_url := i; url := u |}
  | _ => None
  end.

Definition validate_ResponseTag (j : json) : option ResponseTag :=
  match j with
  | JObj members =>
    p ← required_str_field members "province_tag";
    sc ← required_str_field members "scene_tag";
    sp ← required_str_field members "specialty_tag";
    Some {| rt_province_tag := p; rt_scene_tag := sc; rt_specialty_tag := sp |}
  | _ => None
  end.

Definition validate_RagResponseData (j : json) : option RagResponseData :=
  match j with
  | JObj members =>
    c ← list_field validate_ContextItem members "context";
    q ← str_field members "query" "";
    t ← list_field validate_ResponseTag members "tag";
    Some {| context := c; rd_query := q; rd_tag := t |}
  | _ => None
  end.

(** The field [data: Optional[RagResponseData]] with the default [None]. *)
Definition data_field (members : list (string * json)) : option (option RagResponseData) :=
  match obj_get "data" members with
  | None => Some None
  | Some JNull => Some None
  | Some j => Some <$> validate_RagResponseData j
  end.

(** The model [RagResponse] built from the members of [response_data]. *)
Definition validate_RagResponse (members : list (string * json)) : option RagResponse :=
  c ← str_field members "code" "";
  d ← data_field members;
  m ← str_field members "msg" "";
  st ← str_field members "status" "";
  Some {| code := c; data := d; msg := m; status := st |}.

(** *** node.py *)

(** A variable reference found in a template. *)
Record VariableSelector : Type := {
  variable : string;
  value_selector : list string
}.

Inductive WorkflowNodeExecutionStatus : Type :=
| SUCCEEDED
| FAILED.

(** The [outputs] of a run: [context] is only set on success. *)
Record Outputs : Type := {
  out_status : string;
  out_msg : string;
  out_data : option RagResponseData;
  out_context : option (list ContextItem)
}.

Record NodeRunResult : Type := {
  run_status : WorkflowNodeExecutionStatus;
  outputs : option Outputs;
  process_data : option RagRequest;
  error : option string;
  error_type : option string
}.

(** What the HTTP client gives back: a transport failure, or a response
    with its status code and body. *)
Inductive http_outcome : Type :=
| TransportError (msg : string)
| HttpResponse (status_code : Z) (body : string).

(** The node: its id, its configuration and its error policy. *)
Record RagNode : Type := {
  node_id : string;
  _node_data : RagNodeData;
  continue_on_error : bool;
  retry : bool
}.

(** Truthiness of a configuration value ([not template]): [None], [False],
    zero, the empty string, the empty list and the empty dictionary are
    falsy. *)
Definition json_truthy (j : json) : bool :=
  match j with
  | JNull => false
  | JBool b => b
  | JNum z => negb (z =? 0)
  | JStr s => negb (String.eqb s "")
  | JArr l => match l with [] => false | _ => true end
  | JObj members => match members with [] => false | _ => true end
  end.

(** [str(e)] *)
Definition message (e : exn) : string :=
  match e with
  | ValueError m | AttributeError m | TypeError m | KeyError m | UnboundLocalError m
  | Exception_ m | InvalidResourceTypeError m | DuplicateApiKeyError m
  | RagRequestError m | RagResponseError m | Unauthorized m => m
  | Forbidden => "Forbidden"
  end.

(** Sequencing of calls that can raise. *)
#[local] Instance rag_result_mbind : MBind result := fun A B k r => bind r k.

Section Node.

(** [variable_template_parser.extract_selectors_from_template] *)
Variable extract_selectors_from_template : string -> list VariableSelector.
(** [variable_pool.convert_template(template).text] *)
Variable convert_template : string -> string.
(** The JSON parser behind [response.json()]; [None] is a
    [JSONDecodeError]. *)
Variable json_parse : string -> option json.
(** [client.post(url, json=request)] *)
Variable post : RagRequest -> http_outcome.

(** [RagNode._resolve_template]. A falsy template is returned as it is.
    The platform's [convert_template] is declared for a [str]: it splits
    its argument with a regular expression, which raises a [TypeError] for
    a value of another type. *)
Definition _resolve_template (template : json) : result json :=
  if negb (json_truthy template) then Ok template
  else match template with
       | JStr s => Ok (JStr (convert_template s))
       | _ => Raise (TypeError "expected string or bytes-like object")
       end.

(** [tag_data.get(k) if isinstance(tag_data, dict) else None]; Python's
    [None] is [JNull]. *)
Definition tag_get (tag_data : json) (k : string) : json :=
  match tag_data with
  | JObj members => default JNull (obj_get k members)
  | _ => JNull
  end.

(** An [Optional[str]] field of [RagTag] given a value: [None] is a
    validation error. *)
Definition validate_optional_str (value : json) : option (option string) :=
  match value with
  | JNull => Some None
  | JStr s => Some (Some s)
  | _ => None
  end.

(** [RagTag(chi_pro=self._resolve_template(...), ...)]: the seven
    arguments are evaluated in order, then the model validates them. *)
Definition RagTag_of (tag_data : json) : result RagTag :=
  a ← _resolve_template (tag_get tag_data "chi_pro");
  b ← _resolve_template (tag_get tag_data "chi_scene");
  c ← _resolve_template (tag_get tag_data "chi_spe");
  d ← _resolve_template (tag_get tag_data "chi_spec");
  e ← _resolve_template (tag_get tag_data "province_tag");
  f ← _resolve_template (tag_get tag_data "scene_tag");
  g ← _resolve_template (tag_get tag_data "specialty_tag");
  match (a' ← validate_optional_str a; b' ← validate_optional_str b;
         c' ← validate_optional_str c; d' ← validate_optional_str d;
         e' ← validate_optional_str e; f' ← validate_optional_str f;
         g' ← validate_optional_str g;
         Some {| chi_pro := a'; chi_scene := b'; chi_spe := c'; chi_spec := d';
                 province_tag := e'; scene_tag := f'; specialty_tag := g' |}) with
  | Some tag_ => Ok tag_
  | None => Raise (ValueError "validation error for RagTag")
  end.

(** The loop over [tag_data_list]; it ends at the first exception. *)
Fixpoint build_tags (tag_data_list : list json) : result (list RagTag) :=
  match tag_data_list with
  | [] => Ok []
  | tag_data :: rest =>
    tag_ ← RagTag_of tag_data;
    tags ← build_tags rest;
    Ok (tag_ :: tags)
  end.

(** [tag_data_list]: the member [tag] of [self_build_rag], put in a list
    when it is not one. *)
Definition tag_data_list (d : RagNodeData) : list json :=
  match self_build_rag d with
  | Some members =>
    match obj_get "tag" members with
    | Some (JArr l) => l
    | Some other => [other]
    | None => []
    end
  | None => []
  end.

(** [RagNode._build_rag_request] *)
Definition _build_rag_request (n : RagNode) : result RagRequest :=
  let d := _node_data n in
  let query_ := convert_template (query d) in
  tags ← build_tags (tag_data_list d);
  Ok {| rq_ai_flag := ai_flag d; rq_query := query_;
        rq_score_threshold := score_threshold d; rq_search_mode := search_mode d;
        rq_show_image := show_image d; rq_tag := tags; rq_top_k := top_k d |}.

(** [RagNode._send_rag_request] *)
Definition _send_rag_request (rag_request : RagRequest) : result RagResponse :=
  match post rag_request with
  | TransportError e => Raise (RagRequestError ("HTTP request failed: " ++ e))
  | HttpResponse status_code body =>
    (* response.raise_for_status() *)
    if negb ((200 <=? status_code) && (status_code <=? 299))
    then Raise (RagRequestError ("HTTP request failed: status " ++ pretty status_code))
    else
      match json_parse body with
      | None => Raise (RagResponseError "Failed to parse response: not JSON")
      | Some (JObj members) =>
        match validate_RagResponse members with
        | None => Raise (RagResponseError "Failed to parse response: validation error")
        | Some response => Ok response
        end
      | Some _ => Raise (TypeError "argument after ** must be a mapping")
      end
  end.

(** The two [except] clauses of [_run]: a [RagNodeError] keeps its text and
    its class name, any other exception is reported as unexpected.
    [process_data_] is what the run had recorded when the exception was
    raised. *)
Definition failed_run (process_data_ : option RagRequest) (e : exn) : NodeRunResult :=
  let failed (text ty : string) :=
    {| run_status := FAILED; outputs := None; process_data := process_data_;
       error := Some text; error_type := Some ty |} in
  match e with
  | RagRequestError text => failed text "RagRequestError"
  | RagResponseError text => failed text "RagResponseError"
  | other => failed ("Unexpected error: " ++ message other) "UnexpectedError"
  end.

(** [RagNode._run]: [process_data] is empty until the request is built. *)
Definition _run (n : RagNode) : NodeRunResult :=
  match _build_rag_request n with
  | Raise e => failed_run None e
  | Ok rag_request =>
    let process_data_ := Some rag_request in
    match _send_rag_request rag_request with
    | Raise e => failed_run process_data_ e
    | Ok response =>
      if negb (String.eqb (status response) "SUCCESS") then
        if continue_on_error n || retry n then
          {| run_status := FAILED;
             outputs := Some {| out_status := status response; out_msg := msg response;
                                out_data := data response; out_context := None |};
             process_data := process_data_;
             error := Some (msg response);
             error_type := Some "RagResponseError" |}
        else failed_run process_data_ (RagResponseError (msg response))
      else
        {| run_status := SUCCEEDED;
           outputs := Some {| out_status := status response; out_msg := msg response;
                              out_data := data response;
                              out_context := Some (match data response with
                                                   | Some d => context d
                                                   | None => []
                                                   end) |};
           process_data := process_data_; error := None; error_type := None |}
    end
  end.

(** The templates of a tag that are set, in the order the extraction
    reads them. *)
Definition tag_templates (t : RagTag) : list string :=
  omap (fun value => if truthy value then value else None)
       [ chi_pro t; chi_scene t; chi_spe t; chi_spec t;
         province_tag t; scene_tag t; specialty_tag t ].

(** The selectors the extraction collects: those of the query, then those
    of every tag. *)
Definition collect_selectors (d : RagNodeData) : list VariableSelector :=
  (extract_selectors_from_template (query d)
   ++ concat (map (fun t => concat (map extract_selectors_from_template (tag_templates t)))
                  (tag d)))%list.

(** [RagNode._extract_variable_selector_to_variable_mapping] *)
Definition _extract_variable_selector_to_variable_mapping (node_id_ : string)
    (typed_node_data : RagNodeData) : gmap string (list string) :=
  fold_left (fun mapping selector =>
               <[node_id_ ++ "." ++ variable selector := value_selector selector]> mapping)
            (collect_selectors typed_node_data) ∅.

End Node.

(** *** Variable extraction *)

Lemma append_inj_l (a b c : string) : a ++ b = a ++ c → b = c.
Proof. induction a as [|x a IH]; simpl; [done|]. intros [= H]. by apply IH. Qed.

(** The key of a selector determines its variable. *)
Lemma key_inj (node_id_ : string) (s s' : VariableSelector) :
  node_id_ ++ "." ++ variable s = node_id_ ++ "." ++ variable s' → variable s = variable s'.
Proof. intros H. apply append_inj_l in H. by apply (append_inj_l ".") in H. Qed.

(** The dictionary after the loop: a key holds the selector that was
    stored last under it. *)
Lemma mapping_lookup (node_id_ : string) (l : list VariableSelector) (k : string) :
  let mapping := fold_left (λ m s, <[node_id_ ++ "." ++ variable s := value_selector s]> m)
                           l (∅ : gmap string (list string)) in
  (∃ s, s ∈ l ∧ k = node_id_ ++ "." ++ variable s ∧ mapping !! k = Some (value_selector s)) ∨
  ((∀ s, s ∈ l → k ≠ node_id_ ++ "." ++ variable s) ∧ mapping !! k = None).
Proof.
  induction l as [|x l IH] using rev_ind; simpl.
  - right. split; [|done]. intros s Hs. by apply elem_of_nil in Hs.
  - rewrite fold_left_app. simpl.
    destruct (decide (k = node_id_ ++ "." ++ variable x)) as [->|Hne].
    + left. exists x. split; [set_solver|]. split; [done|]. by rewrite lookup_insert_eq.
    + rewrite lookup_insert_ne by done.
      destruct IH as [(s & Hs & Hk & Hl)|[Hnone Hl]].
      * left. exists s. split; [set_solver|]. done.
      * right. split; [|done]. intros s [Hs|Hs]%elem_of_app; [by apply Hnone|].
        apply list_elem_of_singleton in Hs as ->. done.
Qed.

Lemma elem_of_collect_selectors (extract : string → list VariableSelector)
    (d : RagNodeData) (s : VariableSelector) :
  s ∈ collect_selectors extract d ↔
  s ∈ extract (query d) ∨
  ∃ t tpl, t ∈ tag d ∧ tpl ∈ tag_templates t ∧ s ∈ extract tpl.
Proof.
  unfold collect_selectors. rewrite elem_of_app. apply or_iff_compat_l.
  rewrite list_elem_of_In, in_concat. split.
  - intros (l & Hl & Hs). apply in_map_iff in Hl as (t & <- & Ht).
    apply in_concat in Hs as (l' & Hl' & Hs).
    apply in_map_iff in Hl' as (tpl & <- & Htpl).
    exists t, tpl. by rewrite !list_elem_of_In.
  - intros (t & tpl & Ht & Htpl & Hs).
    apply list_elem_of_In in Ht. apply list_elem_of_In in Htpl. apply list_elem_of_In in Hs.
    eexists. split; [apply in_map_iff; by exists t|].
    apply in_concat. eexists. split; [apply in_map_iff; by exists tpl|done].
Qed.

(** A template is read when the tag field that holds it is set and not
    empty. *)
Lemma elem_of_tag_templates (t : RagTag) (tpl : string) :
  tpl ∈ tag_templates t ↔
  tpl ≠ "" ∧ Some tpl ∈ [ chi_pro t; chi_scene t; chi_spe t; chi_spec t;
                          province_tag t; scene_tag t; specialty_tag t ].
Proof.
  unfold tag_templates. rewrite list_elem_of_omap. split.
  - intros (v & Hv & Hs). destruct (truthy v) eqn:E; [|done]. subst v.
    split; [|done]. simpl in E. by apply negb_true_iff, String.eqb_neq in E.
  - intros [Hne Hin]. exists (Some tpl). split; [done|]. simpl.
    apply String.eqb_neq in Hne. by rewrite Hne.
Qed.

(** The selectors of the tags are those of the templates that are set,
    tag after tag. *)
Lemma tag_selectors_flat (extract : string → list VariableSelector) (tags : list RagTag) :
  concat (map (λ t, concat (map extract (tag_templates t))) tags)
  = concat (map extract (concat (map tag_templates tags))).
Proof.
  induction tags as [|t tags IH]; simpl; [done|].
  by rewrite IH, map_app, concat_app.
Qed.

(** The populated values of a list of fields. *)
Lemma omap_populated (l : list (option string)) :
  omap id (List.filter (λ v, bool_decide (v ≠ None ∧ v ≠ Some "")) l)
  = omap (λ value, if truthy value then value else None) l.
Proof.
  induction l as [|v l IH]; [done|]. cbn [List.filter]. unfold omap in *.
  destruct v as [[|c s]|]; case_bool_decide as H; simpl; rewrite ?IH; naive_solver.
Qed.

Lemma tag_templates_concat (tags : list RagTag) :
  concat (map tag_templates tags)
  = omap (λ value, if truthy value then value else None)
         (concat (map (λ t, [ chi_pro t; chi_scene t; chi_spe t; chi_spec t;
                              province_tag t; scene_tag t; specialty_tag t ]) tags)).
Proof.
  induction tags as [|t tags IH]; [done|]. cbn [map concat]. by rewrite omap_app, <- IH.
Qed.

(** C9. The mapping has an entry for every selector referenced in the
    query template or in a populated field of a tag (one of [chi_pro],
    [chi_scene], [chi_spe], [chi_spec], [province_tag], [scene_tag],
    [specialty_tag] that holds a text other than the empty one), keyed by
    the node id and the selector's variable and holding the selector stored
    under that name; it has no other entry. With one selector in the query
    and one, for another variable, in the only populated tag field, it has
    exactly those two entries. *)
Theorem extraction_reports_selectors (extract : string → list VariableSelector)
    (node_id_ : string) (d : RagNodeData) :
  let mapping := _extract_variable_selector_to_variable_mapping extract node_id_ d in
  let fields (t : RagTag) :=
    [ chi_pro t; chi_scene t; chi_spe t; chi_spec t;
      province_tag t; scene_tag t; specialty_tag t ] in
  let referenced (s : VariableSelector) :=
    s ∈ extract (query d) ∨
    ∃ t tpl, t ∈ tag d ∧ Some tpl ∈ fields t ∧ tpl ≠ "" ∧ s ∈ extract tpl in
  (∀ s, referenced s →
        ∃ s', referenced s' ∧ variable s' = variable s ∧
              mapping !! (node_id_ ++ "." ++ variable s) = Some (value_selector s')) ∧
  (∀ k v, mapping !! k = Some v →
          ∃ s, referenced s ∧ k = node_id_ ++ "." ++ variable s ∧ v = value_selector s) ∧
  (∀ s1 s2 tpl,
     extract (query d) = [s1] →
     List.filter (λ v, bool_decide (v ≠ None ∧ v ≠ Some "")) (concat (map fields (tag d)))
     = [Some tpl] →
     extract tpl = [s2] → variable s1 ≠ variable s2 →
     mapping = <[node_id_ ++ "." ++ variable s2 := value_selector s2]>
                 {[node_id_ ++ "." ++ variable s1 := value_selector s1]} ∧
     size mapping = 2%nat).
Proof.
  intros mapping fields referenced.
  assert (Href : ∀ s, referenced s ↔ s ∈ collect_selectors extract d).
  { intros s. rewrite elem_of_collect_selectors. unfold referenced.
    apply or_iff_compat_l. split.
    - intros (t & tpl & Ht & Hf & Hne & Hs). exists t, tpl.
      split; [done|]. split; [|done]. by apply elem_of_tag_templates.
    - intros (t & tpl & Ht & Htpl & Hs). apply elem_of_tag_templates in Htpl as [Hne Hf].
      by exists t, tpl. }
  split; [|split].
  - intros s Hs. apply Href in Hs.
    destruct (mapping_lookup node_id_ (collect_selectors extract d)
                (node_id_ ++ "." ++ variable s)) as [(s' & Hs' & Hk & Hl)|[Hnone _]].
    + exists s'. split; [by apply Href|]. split; [|done]. symmetry. by eapply key_inj.
    + by destruct (Hnone s Hs).
  - intros k v Hkv.
    destruct (mapping_lookup node_id_ (collect_selectors extract d) k)
      as [(s & Hs & Hk & Hl)|[_ Hl]].
    + exists s. split; [by apply Href|]. split; [done|].
      unfold mapping, _extract_variable_selector_to_variable_mapping in Hkv. congruence.
    + unfold mapping, _extract_variable_selector_to_variable_mapping in Hkv. congruence.
  - intros s1 s2 tpl Hq Htpl Hs2 Hne.
    assert (Hset : concat (map tag_templates (tag d)) = [tpl]).
    { apply (f_equal (omap id)) in Htpl. rewrite omap_populated in Htpl.
      by rewrite tag_templates_concat. }
    assert (Hm : mapping = <[node_id_ ++ "." ++ variable s2 := value_selector s2]>
                             {[node_id_ ++ "." ++ variable s1 := value_selector s1]}).
    { unfold mapping, _extract_variable_selector_to_variable_mapping, collect_selectors.
      rewrite Hq, tag_selectors_flat, Hset. simpl. rewrite Hs2. simpl.
      by rewrite insert_empty. }
    split; [done|]. rewrite Hm.
    rewrite map_size_insert_None, map_size_singleton; [done|].
    apply lookup_singleton_ne. intros Hk. apply Hne. by eapply key_inj.
Qed.

(** A node whose query reads the start node's question and whose tag
    names the province from another variable. *)
Definition example_node_data : RagNodeData :=
  {| title := "RAG"; desc := Some ""; ai_flag := 1;
     query := "{{#start.question#}}"; dataset_ids := []; retrieval_mode := "single";
     self_build_rag := None;
     tag := [ {| chi_pro := Some ""; chi_scene := Some ""; chi_spe := Some "";
                 chi_spec := Some ""; province_tag := Some "{{#start.province#}}";
                 scene_tag := Some ""; specialty_tag := None |} ];
     score_threshold := "0.5"; search_mode := "Approx"; show_image := true; top_k := 3 |}.

(** The references in the two templates of the example. *)
Definition example_selectors (template : string) : list VariableSelector :=
  if String.eqb template "{{#start.question#}}"
  then [ {| variable := "#start.question#"; value_selector := ["start"; "question"] |} ]
  else if String.eqb template "{{#start.province#}}"
  then [ {| variable := "#start.province#"; value_selector := ["start"; "province"] |} ]
  else [].

Example extraction_of_example_node :
  let mapping :=
    _extract_variable_selector_to_variable_mapping example_selectors "rag1" example_node_data in
  mapping !! "rag1.#start.question#" = Some ["start"; "question"] ∧
  mapping !! "rag1.#start.province#" = Some ["start"; "province"] ∧
  size mapping = 2%nat.
Proof. vm_compute. repeat split. Qed.

(** On the example node the query references one variable and the only
    populated tag field, [province_tag], another: the mapping has the two
    entries. *)
Lemma extraction_reports_selectors_witness :
  let mapping :=
    _extract_variable_selector_to_variable_mapping example_selectors "rag1" example_node_data in
  mapping = <["rag1.#start.province#" := ["start"; "province"]]>
              {["rag1.#start.question#" := ["start"; "question"]]} ∧
  size mapping = 2%nat.
Proof.
  destruct (extraction_reports_selectors example_selectors "rag1" example_node_data)
    as (_ & _ & H).
  apply (H {| variable := "#start.question#"; value_selector := ["start"; "question"] |}
           {| variable := "#start.province#"; value_selector := ["start"; "province"] |}
           "{{#start.province#}}"); [reflexivity|reflexivity|reflexivity|discriminate].
Defined.

(** *** Building the request *)

(** What a field of a tag holds once the request is built: the text
    configured under its name, converted when it is not empty; nothing
    when the entry is not a dictionary, has no such member, or has [null]
    there. *)
Definition field_of_entry (convert_template : string → string) (tag_data : json) (k : string)
  : option string :=
  match tag_data with
  | JObj members =>
    match obj_get k members with
    | Some (JStr s) => Some (if String.eqb s "" then s else convert_template s)
    | _ => None
    end
  | _ => None
  end.

Definition tag_of_entry (convert_template : string → string) (tag_data : json) : RagTag :=
  {| chi_pro := field_of_entry convert_template tag_data "chi_pro";
     chi_scene := field_of_entry convert_template tag_data "chi_scene";
     chi_spe := field_of_entry convert_template tag_data "chi_spe";
     chi_spec := field_of_entry convert_template tag_data "chi_spec";
     province_tag := field_of_entry convert_template tag_data "province_tag";
     scene_tag := field_of_entry convert_template tag_data "scene_tag";
     specialty_tag := field_of_entry convert_template tag_data "specialty_tag" |}.

(** A member of a tag entry is well typed when it is absent, [null] or a
    string. *)
Definition member_well_typed (o : option json) : bool :=
  match o with
  | None | Some JNull | Some (JStr _) => true
  | Some _ => false
  end.

(** An entry of the tag list is well typed when it is not a dictionary, or
    when each of the seven members a tag reads is. *)
Definition entry_well_typed (tag_data : json) : bool :=
  match tag_data with
  | JObj members =>
    forallb (λ k, member_well_typed (obj_get k members))
            [ "chi_pro"; "chi_scene"; "chi_spe"; "chi_spec";
              "province_tag"; "scene_tag"; "specialty_tag" ]
  | _ => true
  end.

(** An exception that is not a [RagNodeError]. *)
Definition unexpected (e : exn) : Prop := (∃ m, e = TypeError m) ∨ (∃ m, e = ValueError m).

Lemma resolve_well_typed (convert_template : string → string)
    (members : list (string * json)) (k : string) :
  member_well_typed (obj_get k members) = true →
  ∃ v, _resolve_template convert_template (tag_get (JObj members) k) = Ok v ∧
       validate_optional_str v = Some (field_of_entry convert_template (JObj members) k).
Proof.
  unfold tag_get, field_of_entry, _resolve_template.
  destruct (obj_get k members) as [[| | |s| |]|]; try done; simpl; eauto.
  destruct (String.eqb s ""); simpl; eauto.
Qed.

Lemma resolve_validated (convert_template : string → string)
    (members : list (string * json)) (k : string) (v : json) :
  _resolve_template convert_template (tag_get (JObj members) k) = Ok v →
  is_Some (validate_optional_str v) →
  member_well_typed (obj_get k members) = true.
Proof.
  unfold tag_get, _resolve_template.
  destruct (obj_get k members) as [[|b|z|s|l|ms]|]; try done; simpl.
  - destruct b; simpl; [done|]. intros [= <-] [? ?]. done.
  - destruct (z =? 0); simpl; [|done]. intros [= <-] [? ?]. done.
  - destruct l; simpl; [|done]. intros [= <-] [? ?]. done.
  - destruct ms; simpl; [|done]. intros [= <-] [? ?]. done.
Qed.

Lemma resolve_raises (convert_template : string → string) (value : json) (e : exn) :
  _resolve_template convert_template value = Raise e → unexpected e.
Proof.
  unfold _resolve_template. destruct (json_truthy value); simpl; [|done].
  destruct value; try done; intros [= <-]; left; by eexists.
Qed.

(** A well-typed entry gives its tag. *)
Lemma RagTag_of_well_typed (convert_template : string → string) (tag_data : json) :
  entry_well_typed tag_data = true →
  RagTag_of convert_template tag_data = Ok (tag_of_entry convert_template tag_data).
Proof.
  destruct tag_data as [| | | | |members]; try reflexivity.
  simpl. rewrite !andb_true_iff. intros (Ha & Hb & Hc & Hd & He & Hf & Hg & _).
  destruct (resolve_well_typed convert_template _ _ Ha) as (a & Ha1 & Ha2).
  destruct (resolve_well_typed convert_template _ _ Hb) as (b & Hb1 & Hb2).
  destruct (resolve_well_typed convert_template _ _ Hc) as (c & Hc1 & Hc2).
  destruct (resolve_well_typed convert_template _ _ Hd) as (d & Hd1 & Hd2).
  destruct (resolve_well_typed convert_template _ _ He) as (e & He1 & He2).
  destruct (resolve_well_typed convert_template _ _ Hf) as (f & Hf1 & Hf2).
  destruct (resolve_well_typed convert_template _ _ Hg) as (g & Hg1 & Hg2).
  unfold RagTag_of. rewrite Ha1, Hb1, Hc1, Hd1, He1, Hf1, Hg1. simpl.
  rewrite Ha2, Hb2, Hc2, Hd2, He2, Hf2, Hg2. reflexivity.
Qed.

(** An entry that gives a tag is well typed, and no other exception than
    a [TypeError] or a validation error is raised for one. *)
Lemma RagTag_of_inv (convert_template : string → string) (tag_data : json) :
  match RagTag_of convert_template tag_data with
  | Ok _ => entry_well_typed tag_data = true
  | Raise e => unexpected e
  end.
Proof.
  destruct tag_data as [| | | | |members]; try reflexivity.
  unfold RagTag_of.
  destruct (_resolve_template _ (tag_get _ "chi_pro")) as [a|x] eqn:Ha; cbn -[tag_get _resolve_template];
    [|by eapply resolve_raises].
  destruct (_resolve_template _ (tag_get _ "chi_scene")) as [b|x] eqn:Hb; cbn -[tag_get _resolve_template];
    [|by eapply resolve_raises].
  destruct (_resolve_template _ (tag_get _ "chi_spe")) as [c|x] eqn:Hc; cbn -[tag_get _resolve_template];
    [|by eapply resolve_raises].
  destruct (_resolve_template _ (tag_get _ "chi_spec")) as [d|x] eqn:Hd; cbn -[tag_get _resolve_template];
    [|by eapply resolve_raises].
  destruct (_resolve_template _ (tag_get _ "province_tag")) as [e|x] eqn:He; cbn -[tag_get _resolve_template];
    [|by eapply resolve_raises].
  destruct (_resolve_template _ (tag_get _ "scene_tag")) as [f|x] eqn:Hf; cbn -[tag_get _resolve_template];
    [|by eapply resolve_raises].
  destruct (_resolve_template _ (tag_get _ "specialty_tag")) as [g|x] eqn:Hg; cbn -[tag_get _resolve_template];
    [|by eapply resolve_raises].
  destruct (validate_optional_str a) eqn:Va; simpl; [|right; by eexists].
  destruct (validate_optional_str b) eqn:Vb; simpl; [|right; by eexists].
  destruct (validate_optional_str c) eqn:Vc; simpl; [|right; by eexists].
  destruct (validate_optional_str d) eqn:Vd; simpl; [|right; by eexists].
  destruct (validate_optional_str e) eqn:Ve; simpl; [|right; by eexists].
  destruct (validate_optional_str f) eqn:Vf; simpl; [|right; by eexists].
  destruct (validate_optional_str g) eqn:Vg; simpl; [|right; by eexists].
  rewrite (resolve_validated _ _ _ _ Ha), (resolve_validated _ _ _ _ Hb),
    (resolve_validated _ _ _ _ Hc), (resolve_validated _ _ _ _ Hd),
    (resolve_validated _ _ _ _ He), (resolve_validated _ _ _ _ Hf),
    (resolve_validated _ _ _ _ Hg) by (by eexists).
  reflexivity.
Qed.

(** The loop gives the tags of the entries when all are well typed, and
    raises otherwise. *)
Lemma build_tags_spec (convert_template : string → string) (l : list json) :
  if forallb entry_well_typed l
  then build_tags convert_template l = Ok (map (tag_of_entry convert_template) l)
  else ∃ e, build_tags convert_template l = Raise e ∧ unexpected e.
Proof.
  induction l as [|tag_data l IH]; simpl; [done|].
  pose proof (RagTag_of_inv convert_template tag_data) as Hinv.
  destruct (entry_well_typed tag_data) eqn:Hwt; simpl.
  - rewrite (RagTag_of_well_typed _ _ Hwt). simpl.
    destruct (forallb entry_well_typed l).
    + by rewrite IH.
    + destruct IH as (e & -> & He). by exists e.
  - destruct (RagTag_of convert_template tag_data) as [t|e]; [congruence|].
    by exists e.
Qed.

(** The request is built exactly when every entry of the tag list is well
    typed. *)
Lemma build_rag_request_spec (convert_template : string → string) (n : RagNode) :
  let d := _node_data n in
  if forallb entry_well_typed (tag_data_list d)
  then _build_rag_request convert_template n
       = Ok {| rq_ai_flag := ai_flag d; rq_query := convert_template (query d);
               rq_score_threshold := score_threshold d; rq_search_mode := search_mode d;
               rq_show_image := show_image d;
               rq_tag := map (tag_of_entry convert_template) (tag_data_list d);
               rq_top_k := top_k d |}
  else ∃ e, _build_rag_request convert_template n = Raise e ∧ unexpected e.
Proof.
  intros d. unfold _build_rag_request. fold d.
  pose proof (build_tags_spec convert_template (tag_data_list d)) as H.
  destruct (forallb entry_well_typed (tag_data_list d)).
  - by rewrite H.
  - destruct H as (e & -> & He). by exists e.
Qed.

(** A run whose request cannot be built ends as an unexpected error,
    without process data. *)
Lemma failed_run_unexpected (process_data_ : option RagRequest) (e : exn) :
  unexpected e →
  failed_run process_data_ e
  = {| run_status := FAILED; outputs := None; process_data := process_data_;
       error := Some ("Unexpected error: " ++ message e);
       error_type := Some "UnexpectedError" |}.
Proof. by intros [[m ->]|[m ->]]. Qed.

(** *** Response parsing *)

(** A [str] member is absent or a string. *)
Definition str_member_ok (members : list (string * json)) (k : string) : bool :=
  match obj_get k members with
  | None => true
  | Some (JStr _) => true
  | Some _ => false
  end.

(** The [data] member is absent, [null], or a valid [RagResponseData]. *)
Definition data_member_ok (members : list (string * json)) : bool :=
  match obj_get "data" members with
  | None => true
  | Some JNull => true
  | Some j => match validate_RagResponseData j with Some _ => true | None => false end
  end.

(** Every member of the body that [RagResponse] declares has the type
    the model gives it. *)
Definition fields_well_typed (members : list (string * json)) : bool :=
  str_member_ok members "code" && data_member_ok members
  && str_member_ok members "msg" && str_member_ok members "status".

(** The string under a name, or the default [""]. *)
Definition str_or_default (members : list (string * json)) (k : string) : string :=
  match obj_get k members with
  | Some (JStr s) => s
  | _ => ""
  end.

Lemma str_field_ok (members : list (string * json)) (k : string) :
  str_member_ok members k = true →
  str_field members k "" = Some (str_or_default members k).
Proof.
  unfold str_member_ok, str_field, str_or_default.
  by destruct (obj_get k members) as [[]|].
Qed.

Lemma str_field_bad (members : list (string * json)) (k : string) :
  str_member_ok members k = false → str_field members k "" = None.
Proof.
  unfold str_member_ok, str_field. by destruct (obj_get k members) as [[]|].
Qed.

Lemma data_field_ok (members : list (string * json)) :
  data_member_ok members = true → is_Some (data_field members).
Proof.
  unfold data_member_ok, data_field.
  destruct (obj_get "data" members) as [[| | | | |ms]|]; try done.
  destruct (validate_RagResponseData (JObj ms)); [by eexists|done].
Qed.

Lemma data_field_bad (members : list (string * json)) :
  data_member_ok members = false → data_field members = None.
Proof.
  unfold data_member_ok, data_field.
  destruct (obj_get "data" members) as [[| | | | |ms]|]; try done.
  by destruct (validate_RagResponseData (JObj ms)).
Qed.

Lemma validate_well_typed (members : list (string * json)) :
  fields_well_typed members = true →
  ∃ r, validate_RagResponse members = Some r ∧
       code r = str_or_default members "code" ∧
       msg r = str_or_default members "msg" ∧
       status r = str_or_default members "status".
Proof.
  unfold fields_well_typed. rewrite !andb_true_iff. intros [[[Hc Hd] Hm] Hs].
  unfold validate_RagResponse.
  destruct (data_field_ok _ Hd) as [d Hd'].
  rewrite (str_field_ok _ _ Hc), (str_field_ok _ _ Hm), (str_field_ok _ _ Hs), Hd'.
  simpl. by eexists.
Qed.

Lemma validate_ill_typed (members : list (string * json)) :
  fields_well_typed members = false → validate_RagResponse members = None.
Proof.
  unfold fields_well_typed. rewrite !andb_false_iff. intros [[[Hc|Hd]|Hm]|Hs];
    unfold validate_RagResponse.
  - by rewrite (str_field_bad _ _ Hc).
  - rewrite (data_field_bad _ Hd). by destruct (str_field members "code" "").
  - rewrite (str_field_bad _ _ Hm).
    destruct (str_field members "code" ""); [simpl|done].
    by destruct (data_field members).
  - rewrite (str_field_bad _ _ Hs).
    destruct (str_field members "code" ""); [simpl|done].
    destruct (data_field members); [simpl|done].
    by destruct (str_field members "msg" "").
Qed.

(** C10 (amended). A body that is a JSON object whose declared members are
    well typed always parses, absent members taking their defaults (the
    empty object gives the all-default response); when its [status] is
    absent or not ["SUCCESS"] the run of a node whose request was built and
    answered with it is the structured failure if continue-on-error or
    retry is set, and the [RagResponseError] failure carrying [msg]
    otherwise. The ["Failed to parse response"] error is raised exactly
    for a 2xx response whose body is not JSON or is a JSON object with an
    ill-typed member. *)
Theorem rag_response_parsing
    (convert_template : string → string) (json_parse : string → option json)
    (post : RagRequest → http_outcome) :
  (∀ members, fields_well_typed members = true →
     ∃ r, validate_RagResponse members = Some r ∧
          code r = str_or_default members "code" ∧
          msg r = str_or_default members "msg" ∧
          status r = str_or_default members "status") ∧
  validate_RagResponse [] = Some {| code := ""; data := None; msg := ""; status := "" |} ∧
  (∀ n request status_code body members,
     _build_rag_request convert_template n = Ok request →
     post request = HttpResponse status_code body →
     200 ≤ status_code ≤ 299 →
     json_parse body = Some (JObj members) →
     fields_well_typed members = true →
     str_or_default members "status" ≠ "SUCCESS" →
     ∃ r, validate_RagResponse members = Some r ∧
          _run convert_template json_parse post n =
          {| run_status := FAILED;
             outputs := if continue_on_error n || retry n
                        then Some {| out_status := status r; out_msg := msg r;
                                     out_data := data r; out_context := None |}
                        else None;
             process_data := Some request;
             error := Some (msg r);
             error_type := Some "RagResponseError" |}) ∧
  (∀ rq,
     (∃ detail, _send_rag_request json_parse post rq
                = Raise (RagResponseError ("Failed to parse response: " ++ detail))) ↔
     ∃ status_code body,
       post rq = HttpResponse status_code body ∧ 200 ≤ status_code ≤ 299 ∧
       (json_parse body = None ∨
        ∃ members, json_parse body = Some (JObj members) ∧
                   fields_well_typed members = false)).
Proof.
  split; [exact validate_well_typed|]. split; [reflexivity|]. split.
  - intros n request status_code body members Hbuild Hpost Hcode Hparse Hok Hstatus.
    destruct (validate_well_typed members Hok) as (r & Hr & _ & _ & Hst).
    exists r. split; [done|].
    unfold _run. rewrite Hbuild. unfold _send_rag_request. rewrite Hpost.
    assert ((200 <=? status_code) && (status_code <=? 299) = true) as ->.
    { apply andb_true_iff. split; apply Z.leb_le; lia. }
    simpl. rewrite Hparse, Hr.
    assert (String.eqb (status r) "SUCCESS" = false) as ->.
    { apply String.eqb_neq. by rewrite Hst. }
    simpl. by destruct (continue_on_error n || retry n).
  - intros rq. unfold _send_rag_request. split.
    + intros (detail & H). destruct (post rq) as [e|status_code body]; [done|].
      destruct ((200 <=? status_code) && (status_code <=? 299)) eqn:Hc; [|done].
      apply andb_true_iff in Hc as [H1%Z.leb_le H2%Z.leb_le].
      exists status_code, body. split; [done|]. split; [lia|].
      simpl in H. destruct (json_parse body) as [[| | | | |members]|]; try done; [|by left].
      right. exists members. split; [done|].
      destruct (fields_well_typed members) eqn:E; [|done].
      destruct (validate_well_typed members E) as (r & Hr & _). by rewrite Hr in H.
    + intros (status_code & body & -> & Hcode & Hbad).
      assert ((200 <=? status_code) && (status_code <=? 299) = true) as ->.
      { apply andb_true_iff. split; apply Z.leb_le; lia. }
      simpl. destruct Hbad as [->|(members & -> & Hbad)].
      * by exists "not JSON".
      * rewrite (validate_ill_typed _ Hbad). by exists "validation error".
Qed.

(** Bodies of the upstream service, as parsed: a tag of [data] without the
    fields [ResponseTag] requires; the empty object; a success. *)
Definition body_with_empty_tag : json :=
  JObj [("status", JStr "SUCCESS"); ("data", JObj [("tag", JArr [JObj []])])].

Definition body_success : json :=
  JObj [ ("code", JStr "0"); ("status", JStr "SUCCESS"); ("msg", JStr "ok");
         ("data", JObj [ ("query", JStr "q");
                         ("context", JArr [JObj [("text", JStr "passage")]]);
                         ("tag", JArr []) ]) ].

Definition example_node : RagNode :=
  {| node_id := "rag1"; _node_data := example_node_data;
     continue_on_error := false; retry := false |}.

(** The request of the example node. *)
Definition example_request : RagRequest :=
  {| rq_ai_flag := 1; rq_query := "{{#start.question#}}"; rq_score_threshold := "0.5";
     rq_search_mode := "Approx"; rq_show_image := true; rq_tag := []; rq_top_k := 3 |}.

(** The example node, answered 200 with the empty object: the body parses
    to the all-default response and the run fails on its empty status,
    with the request as process data. *)
Lemma rag_response_parsing_witness :
  let parse := fun _ : string => Some (JObj []) in
  let post := fun _ : RagRequest => HttpResponse 200 "{}" in
  _build_rag_request (fun t => t) example_node = Ok example_request ∧
  _run (fun t => t) parse post example_node
  = {| run_status := FAILED; outputs := None; process_data := Some example_request;
       error := Some ""; error_type := Some "RagResponseError" |}.
Proof.
  split; [reflexivity|].
  destruct (rag_response_parsing (fun t => t) (fun _ => Some (JObj []))
              (fun _ => HttpResponse 200 "{}")) as (_ & _ & H & _).
  destruct (H example_node example_request 200 "{}" [])
    as (r & Hr & Hrun); [reflexivity|reflexivity|lia|reflexivity|reflexivity|discriminate|].
  injection Hr as <-. exact Hrun.
Defined.

(** C10 as stated fails: the body is a JSON object and the response is
    2xx, but a tag in [data] lacks the required fields, so building
    [RagResponse] raises a validation error and the node ends on the
    ["Failed to parse response"] path. *)
Lemma object_body_fails_validation :
  let parse := fun _ : string => Some body_with_empty_tag in
  let post := fun _ : RagRequest => HttpResponse 200 "body" in
  _build_rag_request (fun t => t) example_node = Ok example_request ∧
  _send_rag_request parse post example_request
  = Raise (RagResponseError "Failed to parse response: validation error") ∧
  error_type (_run (fun t => t) parse post example_node) = Some "RagResponseError" ∧
  error (_run (fun t => t) parse post example_node)
  = Some "Failed to parse response: validation error".
Proof. repeat split. Qed.

(** The empty object parses and the run fails on its empty status. *)
Example empty_object_body :
  let parse := fun _ : string => Some (JObj []) in
  let post := fun _ : RagRequest => HttpResponse 200 "body" in
  let r := _run (fun t => t) parse post example_node in
  run_status r = FAILED ∧ error r = Some "" ∧ error_type r = Some "RagResponseError".
Proof. repeat split. Qed.

(** A body with status SUCCESS is a JSON object too, and the run
    succeeds. *)
Example success_body :
  let parse := fun _ : string => Some body_success in
  let post := fun _ : RagRequest => HttpResponse 200 "body" in
  let r := _run (fun t => t) parse post example_node in
  run_status r = SUCCEEDED ∧
  (outputs r ≫= out_context)
  = Some [ {| doc_name := Some ""; text := Some "passage"; img_url := Some "";
              url := Some "" |} ].
Proof. repeat split. Qed.

(** A JSON body that is not an object ends as an unexpected error. *)
Example array_body :
  let parse := fun _ : string => Some (JArr []) in
  let post := fun _ : RagRequest => HttpResponse 200 "body" in
  error_type (_run (fun t => t) parse post example_node) = Some "UnexpectedError".
Proof. reflexivity. Qed.

(** *** The outcome of a run *)

(** What is left of a run once its request is sent. *)
Lemma sent_run_outcome (json_parse : string → option json) (post : RagRequest → http_outcome)
    (n : RagNode) (request : RagRequest) (r : NodeRunResult) :
  r = match _send_rag_request json_parse post request with
      | Raise e => failed_run (Some request) e
      | Ok response =>
        if negb (String.eqb (status response) "SUCCESS") then
          if continue_on_error n || retry n then
            {| run_status := FAILED;
               outputs := Some {| out_status := status response; out_msg := msg response;
                                  out_data := data response; out_context := None |};
               process_data := Some request;
               error := Some (msg response);
               error_type := Some "RagResponseError" |}
          else failed_run (Some request) (RagResponseError (msg response))
        else
          {| run_status := SUCCEEDED;
             outputs := Some {| out_status := status response; out_msg := msg response;
                                out_data := data response;
                                out_context := Some (match data response with
                                                     | Some d => context d
                                                     | None => []
                                                     end) |};
             process_data := Some request; error := None; error_type := None |}
      end →
  process_data r = Some request ∧
  (run_status r = SUCCEEDED ↔
   ∃ status_code body members response,
     post request = HttpResponse status_code body ∧ 200 ≤ status_code ≤ 299 ∧
     json_parse body = Some (JObj members) ∧
     validate_RagResponse members = Some response ∧ status response = "SUCCESS") ∧
  (∀ status_code body members response,
     post request = HttpResponse status_code body → 200 ≤ status_code ≤ 299 →
     json_parse body = Some (JObj members) →
     validate_RagResponse members = Some response → status response = "SUCCESS" →
     r = {| run_status := SUCCEEDED;
            outputs := Some {| out_status := "SUCCESS"; out_msg := msg response;
                               out_data := data response;
                               out_context := Some (match data response with
                                                    | Some d => context d
                                                    | None => []
                                                    end) |};
            process_data := Some request; error := None; error_type := None |}) ∧
  (run_status r = FAILED →
   (∃ e, error r = Some e) ∧
   (error_type r = Some "RagRequestError" ∨ error_type r = Some "RagResponseError" ∨
    error_type r = Some "UnexpectedError") ∧
   (outputs r ≠ None → continue_on_error n || retry n = true)).
Proof.
  intros ->. unfold _send_rag_request.
  destruct (post request) as [e|status_code body] eqn:Hpost.
  { split; [done|]. split; [|split].
    - split; [done|]. by intros (? & ? & ? & ? & [=] & _).
    - by intros ? ? ? ? [=].
    - intros _. split; [by eexists|]. split; [by left|done]. }
  destruct ((200 <=? status_code) && (status_code <=? 299)) eqn:Hcode; simpl.
  2:{ split; [done|]. split; [|split].
      - split; [done|]. intros (? & ? & ? & ? & [= <- <-] & Hc & _).
        apply andb_false_iff in Hcode as [H|H]; [apply Z.leb_gt in H|apply Z.leb_gt in H]; lia.
      - intros ? ? ? ? [= <- <-] Hc.
        apply andb_false_iff in Hcode as [H|H]; [apply Z.leb_gt in H|apply Z.leb_gt in H]; lia.
      - intros _. split; [by eexists|]. split; [by left|done]. }
  destruct (json_parse body) as [[|b|z|s|l|members]|] eqn:Hparse;
    try (split; [done|]; split; [|split];
         [ split; [done|]; intros (? & ? & ? & ? & [= <- <-] & _ & Hp & _); congruence
         | intros ? ? ? ? [= <- <-] _ Hp; congruence
         | intros _; split; [by eexists|];
           split; [first [by (right; right)|by (right; left)]|done] ]).
  destruct (validate_RagResponse members) as [response|] eqn:Hval.
  2:{ split; [done|]. split; [|split].
      - split; [done|]. intros (? & ? & ? & ? & [= <- <-] & _ & Hp & Hv & _).
        rewrite Hparse in Hp. injection Hp as <-. congruence.
      - intros ? ? ? ? [= <- <-] _ Hp Hv.
        rewrite Hparse in Hp. injection Hp as <-. congruence.
      - intros _. split; [by eexists|]. split; [by right; left|done]. }
  assert (Hsame : ∀ members' response',
            json_parse body = Some (JObj members') →
            validate_RagResponse members' = Some response' → response' = response).
  { intros members' response' Hp Hv. rewrite Hparse in Hp. injection Hp as <-. congruence. }
  destruct (String.eqb_spec (status response) "SUCCESS") as [Hs|Hs]; simpl.
  - split; [done|]. split; [|split].
    + split; [|done]. intros _. exists status_code, body, members, response.
      apply andb_true_iff in Hcode as [H1 H2]. apply Z.leb_le in H1, H2. done.
    + intros ? ? ? r' [= <- <-] _ Hp Hv _. rewrite (Hsame _ _ Hp Hv). by rewrite Hs.
    + done.
  - destruct (continue_on_error n || retry n) eqn:Hpolicy.
    + split; [done|]. split; [|split].
      * split; [done|]. intros (? & ? & ? & r' & [= <- <-] & _ & Hp & Hv & Hst).
        by rewrite (Hsame _ _ Hp Hv) in Hst.
      * intros ? ? ? r' [= <- <-] _ Hp Hv Hst. by rewrite (Hsame _ _ Hp Hv) in Hst.
      * intros _. split; [by eexists|]. split; [by right; left|done].
    + split; [done|]. split; [|split].
      * split; [done|]. intros (? & ? & ? & r' & [= <- <-] & _ & Hp & Hv & Hst).
        by rewrite (Hsame _ _ Hp Hv) in Hst.
      * intros ? ? ? r' [= <- <-] _ Hp Hv Hst. by rewrite (Hsame _ _ Hp Hv) in Hst.
      * intros _. split; [by eexists|]. split; [by right; left|done].
Qed.

(** X25. The request of a run is built exactly when every entry of
    [self_build_rag.tag] is well typed (each of the seven members a tag
    reads is absent, [null] or a string); a run whose request cannot be
    built fails as an [UnexpectedError] with no outputs and no process
    data, whatever the service would answer. Once the request is built it
    is the process data of the run, and the run succeeds exactly when the
    service answers it with a 2xx status and a body that is a JSON object,
    validates as a [RagResponse] and has the status ["SUCCESS"]; its
    outputs then carry the response, with the context items of its data
    (none when it has no data), and no error. Every failed run has an
    error message and one of the error types [RagRequestError],
    [RagResponseError] and [UnexpectedError], and has outputs only when
    continue-on-error or retry is set. *)
Theorem run_outcome
    (convert_template : string → string) (json_parse : string → option json)
    (post : RagRequest → http_outcome) (n : RagNode) :
  let d := _node_data n in
  let entries :=
    match self_build_rag d with
    | Some members =>
      match obj_get "tag" members with
      | Some (JArr l) => l
      | Some other => [other]
      | None => []
      end
    | None => []
    end in
  let request :=
    {| rq_ai_flag := ai_flag d; rq_query := convert_template (query d);
       rq_score_threshold := score_threshold d; rq_search_mode := search_mode d;
       rq_show_image := show_image d;
       rq_tag := map (tag_of_entry convert_template) entries;
       rq_top_k := top_k d |} in
  let r := _run convert_template json_parse post n in
  (_build_rag_request convert_template n = Ok request ↔
   forallb entry_well_typed entries = true) ∧
  (forallb entry_well_typed entries = false →
   (∃ text, r = {| run_status := FAILED; outputs := None; process_data := None;
                   error := Some ("Unexpected error: " ++ text);
                   error_type := Some "UnexpectedError" |}) ∧
   ∀ post', _run convert_template json_parse post' n = r) ∧
  (forallb entry_well_typed entries = true →
   process_data r = Some request ∧
   (run_status r = SUCCEEDED ↔
    ∃ status_code body members response,
      post request = HttpResponse status_code body ∧ 200 ≤ status_code ≤ 299 ∧
      json_parse body = Some (JObj members) ∧
      validate_RagResponse members = Some response ∧ status response = "SUCCESS") ∧
   (∀ status_code body members response,
      post request = HttpResponse status_code body → 200 ≤ status_code ≤ 299 →
      json_parse body = Some (JObj members) →
      validate_RagResponse members = Some response → status response = "SUCCESS" →
      r = {| run_status := SUCCEEDED;
             outputs := Some {| out_status := "SUCCESS"; out_msg := msg response;
                                out_data := data response;
                                out_context := Some (match data response with
                                                     | Some d => context d
                                                     | None => []
                                                     end) |};
             process_data := Some request; error := None; error_type := None |})) ∧
  (run_status r = FAILED →
   (∃ e, error r = Some e) ∧
   (error_type r = Some "RagRequestError" ∨ error_type r = Some "RagResponseError" ∨
    error_type r = Some "UnexpectedError") ∧
   (outputs r ≠ None → continue_on_error n || retry n = true)).
Proof.
  intros d entries request r.
  assert (Hbuild : if forallb entry_well_typed entries
                   then _build_rag_request convert_template n = Ok request
                   else ∃ e, _build_rag_request convert_template n = Raise e ∧ unexpected e)
    by exact (build_rag_request_spec convert_template n).
  destruct (forallb entry_well_typed entries) eqn:Hwt.
  - destruct (sent_run_outcome json_parse post n request r) as (Hpd & Hiff & Hok & Hfail).
    { unfold r, _run. by rewrite Hbuild. }
    split; [by split|]. split; [done|]. split; [|exact Hfail].
    intros _. split; [exact Hpd|]. split; [exact Hiff|exact Hok].
  - destruct Hbuild as (e & Hraise & He).
    assert (Hr : ∀ post', _run convert_template json_parse post' n
                 = {| run_status := FAILED; outputs := None; process_data := None;
                      error := Some ("Unexpected error: " ++ message e);
                      error_type := Some "UnexpectedError" |}).
    { intros post'. unfold _run. rewrite Hraise. by apply failed_run_unexpected. }
    split; [|split; [|split]].
    + split; [|done]. intros Hok. congruence.
    + intros _. split; [exists (message e); apply Hr|]. intros post'.
      unfold r. by rewrite !Hr.
    + done.
    + unfold r. rewrite Hr. simpl. intros _. split; [by eexists|]. split; [|done].
      by right; right.
Qed.

(** A node whose only tag entry gives a number for [chi_pro]. *)
Definition node_with_numeric_tag : RagNode :=
  {| node_id := "rag2";
     _node_data :=
       {| title := "RAG"; desc := Some ""; ai_flag := 1; query := "q"; dataset_ids := [];
          retrieval_mode := "single";
          self_build_rag := Some [("tag", JArr [JObj [("chi_pro", JNum 5)]])];
          tag := []; score_threshold := "0.5"; search_mode := "Approx";
          show_image := true; top_k := 3 |};
     continue_on_error := true; retry := false |}.

(** The run of that node is an unexpected error and asks the service
    nothing; the run of the example node, answered with a success,
    succeeds with the passage as its context. *)
Lemma run_outcome_witness :
  let parse := fun _ : string => Some body_success in
  let post := fun _ : RagRequest => HttpResponse 200 "body" in
  (∃ text, _run (fun t => t) parse post node_with_numeric_tag
           = {| run_status := FAILED; outputs := None; process_data := None;
                error := Some ("Unexpected error: " ++ text);
                error_type := Some "UnexpectedError" |}) ∧
  process_data (_run (fun t => t) parse post example_node) = Some example_request ∧
  run_status (_run (fun t => t) parse post example_node) = SUCCEEDED.
Proof.
  intros parse post. split; [|split].
  - destruct (run_outcome (fun t => t) parse post node_with_numeric_tag)
      as (_ & H & _). by destruct (H eq_refl) as [Htext _].
  - destruct (run_outcome (fun t => t) parse post example_node) as (_ & _ & H & _).
    by destruct (H eq_refl) as [Hpd _].
  - destruct (run_outcome (fun t => t) parse post example_node) as (_ & _ & H & _).
    destruct (H eq_refl) as (_ & Hiff & _). apply Hiff.
    exists 200, "body". eexists _, _. split; [reflexivity|]. split; [lia|].
    split; [reflexivity|]. split; reflexivity.
Defined.

End Rag.

(** ** services/app_model_config_service.py *)
Module AgentVersions.

(** A row of [app_model_configs]: the columns the listing filters on; the
    other columns are copied to the result as they are. *)
Record AppModelConfig : Type := {
  id : string;
  app_id : string;
  created_by : option string;
  updated_by : option string;
  marked_name : string
}.

Record Account : Type := {
  account_id : string;
  account_name : string
}.

(** [app_model]: its id and the id of its current configuration. *)
Record App : Type := {
  app_model_id : string;
  app_model_config_id : option string
}.

Record Db : Type := {
  app_model_configs : list AppModelConfig;
  accounts : list Account
}.

(** A row of the result: the configuration, [created_by_name] and
    [updated_by_name]. *)
Definition Item : Type := AppModelConfig * option string * option string.

(** The name an outer join on [Account.id == column] adds; accounts have
    distinct ids. *)
Definition joined_name (db : Db) (column : option string) : option string :=
  match column with
  | None => None
  | Some i => option_map account_name
                (List.find (fun a => String.eqb (account_id a) i) (accounts db))
  end.

(** The WHERE clauses of the listing. A comparison with a NULL
    [created_by] is not true. *)
Definition listed (app_model : App) (user_id : option string) (named_only : bool)
    (c : AppModelConfig) : bool :=
  String.eqb (app_id c) (app_model_id app_model)
  && (if truthy user_id
      then match created_by c with
           | Some u => String.eqb u (default "" user_id)
           | None => false
           end
      else true)
  && (if named_only then negb (String.eqb (marked_name c) "") else true).

Section Listing.

(** [order_by(AppModelConfig.created_at.desc())] *)
Variable order_by_created_at_desc : list AppModelConfig → list AppModelConfig.
(** [session.scalar(total_stmt)] *)
Variable total_of : Db → App → option string → bool → Z.

(** The rows of [base_stmt], in order, before LIMIT and OFFSET. *)
Definition versions (db : Db) (app_model : App) (user_id : option string) (named_only : bool)
  : list AppModelConfig :=
  order_by_created_at_desc (List.filter (listed app_model user_id named_only)
                                        (app_model_configs db)).

(** [AppModelConfigService.get_all_published_agent]; the database refuses
    a negative LIMIT or OFFSET. *)
Definition get_all_published_agent (db : Db) (app_model : App) (page limit : Z)
    (user_id : option string) (named_only : bool) : result (list Item * bool * Z) :=
  if negb (truthy (app_model_config_id app_model)) then Ok ([], false, 0)
  else
    let total := total_of db app_model user_id named_only in
    if (limit + 1 <? 0) || ((page - 1) * limit <? 0)
    then Raise (Exception_ "DataError: OFFSET and LIMIT must not be negative")
    else
      let results :=
        take (Z.to_nat (limit + 1))
             (drop (Z.to_nat ((page - 1) * limit)) (versions db app_model user_id named_only)) in
      let app_model_config_list :=
        map (fun c => (c, joined_name db (created_by c), joined_name db (updated_by c)))
            results in
      let has_more := (limit <? Z.of_nat (length app_model_config_list)) in
      if has_more
      then Ok (removelast app_model_config_list, has_more, total)
      else Ok (app_model_config_list, has_more, total).

End Listing.

Lemma removelast_take {A : Type} (n : nat) (l : list A) :
  (n < length l)%nat → removelast (take (S n) l) = take n l.
Proof.
  revert l. induction n as [|n IH]; intros [|x l] Hl; simpl in *; try lia.
  - by destruct l.
  - destruct l as [|y l]; [simpl in *; lia|].
    rewrite <- (IH (y :: l)) by (simpl in *; lia). reflexivity.
Qed.

Lemma removelast_map {A B : Type} (f : A → B) (l : list A) :
  removelast (map f l) = map f (removelast l).
Proof.
  induction l as [|x l IH]; [done|]. simpl. destruct l as [|y l]; [done|].
  simpl in *. by rewrite IH.
Qed.

(** X26. For an app that has a configuration, a page number of at least 1
    and a limit of at least 0, [get_all_published_agent] returns the
    [limit] versions that follow the first [(page - 1) * limit] of the
    listing, fewer when the listing ends before; and [has_more] is true
    exactly when the listing has a version after them, that is (for a
    positive limit) exactly when the next page is not empty. *)
Theorem get_all_published_agent_pages
    (order_by_created_at_desc : list AppModelConfig → list AppModelConfig)
    (total_of : Db → App → option string → bool → Z)
    (db : Db) (app_model : App) (page limit : Z) (user_id : option string) (named_only : bool) :
  truthy (app_model_config_id app_model) = true →
  1 ≤ page → 0 ≤ limit →
  let rows := versions order_by_created_at_desc db app_model user_id named_only in
  let get p := get_all_published_agent order_by_created_at_desc total_of db app_model p limit
                 user_id named_only in
  ∃ items has_more,
    get page = Ok (items, has_more, total_of db app_model user_id named_only) ∧
    map (fun i => i.1.1) items
    = take (Z.to_nat limit) (drop (Z.to_nat ((page - 1) * limit)) rows) ∧
    (has_more = true ↔ page * limit < Z.of_nat (length rows)) ∧
    (0 < limit →
     ∃ items' has_more' total',
       get (page + 1) = Ok (items', has_more', total') ∧ (has_more = true ↔ items' ≠ [])).
Proof.
  intros Hcfg Hpage Hlimit rows get.
  assert (Hget : ∀ p, 1 ≤ p →
    ∃ items has_more,
      get p = Ok (items, has_more, total_of db app_model user_id named_only) ∧
      map (fun i => i.1.1) items
      = take (Z.to_nat limit) (drop (Z.to_nat ((p - 1) * limit)) rows) ∧
      (has_more = true ↔ p * limit < Z.of_nat (length rows))).
  { intros p Hp. unfold get, get_all_published_agent. rewrite Hcfg. simpl negb. cbv iota.
    destruct (Z.ltb_spec (limit + 1) 0); [lia|].
    destruct (Z.ltb_spec ((p - 1) * limit) 0); [nia|]. simpl orb. cbv iota.
    fold rows. set (offset := Z.to_nat ((p - 1) * limit)).
    rewrite length_map, length_take, length_drop.
    replace (Z.to_nat (limit + 1)) with (S (Z.to_nat limit)) by lia.
    destruct (Z.ltb_spec limit (Z.of_nat (S (Z.to_nat limit) `min` (length rows - offset))))
      as [Hmore|Hlast].
    - eexists _, true. split; [reflexivity|]. split.
      + rewrite removelast_map, map_map. simpl. rewrite map_id.
        apply removelast_take. rewrite length_drop. lia.
      + split; [|done]. intros _. subst offset. nia.
    - eexists _, false. split; [reflexivity|]. split.
      + rewrite map_map. simpl. rewrite map_id.
        rewrite !take_ge; [done| |]; rewrite length_drop; lia.
      + split; [done|]. intros Hlt. subst offset. nia. }
  destruct (Hget page Hpage) as (items & has_more & Hrun & Hitems & Hmore).
  exists items, has_more. split; [exact Hrun|]. split; [exact Hitems|]. split; [exact Hmore|].
  intros Hpos. destruct (Hget (page + 1) ltac:(lia)) as (items' & has_more' & Hrun' & Hitems' & _).
  exists items', has_more', (total_of db app_model user_id named_only).
  split; [exact Hrun'|]. rewrite Hmore.
  replace (page + 1 - 1) with page in Hitems' by lia.
  split.
  - intros Hlt Hnil. rewrite Hnil in Hitems'. simpl in Hitems'. symmetry in Hitems'.
    apply (f_equal length) in Hitems'. rewrite length_take, length_drop in Hitems'.
    simpl in Hitems'. nia.
  - intros Hne. destruct (Z.lt_ge_cases (page * limit) (Z.of_nat (length rows))) as [|Hge]; [done|].
    exfalso. apply Hne. rewrite drop_ge in Hitems' by nia. rewrite take_nil in Hitems'.
    by destruct items'.
Qed.

Definition version (i : string) : AppModelConfig :=
  {| id := i; app_id := "app1"; created_by := Some "u1"; updated_by := None;
     marked_name := "" |}.

Definition three_versions : Db :=
  {| app_model_configs := [version "c3"; version "c2"; version "c1"];
     accounts := [ {| account_id := "u1"; account_name := "ann" |} ] |}.

Lemma get_all_published_agent_pages_witness :
  ∃ items has_more,
    get_all_published_agent (fun l => l) (fun _ _ _ _ => 3) three_versions
      {| app_model_id := "app1"; app_model_config_id := Some "c3" |} 1 2 None false
    = Ok (items, has_more, 3) ∧
    map (fun i => i.1.1) items = [version "c3"; version "c2"] ∧
    has_more = true.
Proof.
  destruct (get_all_published_agent_pages (fun l => l) (fun _ _ _ _ => 3) three_versions
              {| app_model_id := "app1"; app_model_config_id := Some "c3" |} 1 2 None false
              eq_refl ltac:(lia) ltac:(lia))
    as (items & has_more & Hrun & Hitems & Hmore & _).
  exists items, has_more. split; [exact Hrun|]. split; [exact Hitems|].
  apply Hmore. vm_compute. reflexivity.
Defined.

End AgentVersions.
